(** * cloud-auto-save: the unified drive-adapter layer

    A shallow embedding of the adapter factory and account router
    ([adapters/adapter_factory.py]), of the refresh-token persistence hooks,
    of the token checks and of the share-tree resolvers and listing loops of
    the provider adapters ([adapters/aliyun_adapter.py],
    [adapters/cloud115_adapter.py], [adapters/baidu_adapter.py],
    [adapters/xunlei_adapter.py]), followed by the properties established
    about them.

    Conventions.  Python [str] is [string] (the bytes of its UTF-8
    encoding); a Python [dict] used as a map is a [gmap] when only lookups
    matter and an association list when iteration order matters; objects
    with identity live in a heap and are named by their address; a call that
    may raise returns an [outcome]; the provider (the HTTP transport) is an
    explicit oracle; a [while True] loop takes a bound on its iterations and
    returns [None] when the bound is used up; threads are machines
    interleaved by a schedule. *)

From Stdlib Require Import Ascii String.
From stdpp Require Import base numbers list strings gmap pretty.

Local Open Scope string_scope.

(** ** Python values shared by all modules *)

Module Py.

(** The result of running a Python call: a normal return or a raised
    exception carrying its message. *)
Inductive outcome (A : Type) : Type :=
| Ret (a : A)
| Raise (msg : string).
Arguments Ret {A} a.
Arguments Raise {A} msg.

(** A method body over a world [W] (the object's fields and whatever else
    it touches): it runs in a world, returns or raises, and leaves a world.
    What a body changed before it raised stays changed. *)
Definition M (W A : Type) : Type := W → outcome A * W.

Definition ret {W A} (a : A) : M W A := λ w, (Ret a, w).

Definition bindM {W A B} (m : M W A) (k : A → M W B) : M W B := λ w,
  match m w with
  | (Ret a, w') => k a w'
  | (Raise e, w') => (Raise e, w')
  end.

Definition raise {W A} (msg : string) : M W A := λ w, (Raise msg, w).

(** [try: m  except Exception as e: return h e] *)
Definition try_return {W A} (m : M W A) (h : string → A) : M W A := λ w,
  match m w with
  | (Ret a, w') => (Ret a, w')
  | (Raise e, w') => (Ret (h e), w')
  end.

Declare Scope M_scope.
Delimit Scope M_scope with M.
Bind Scope M_scope with M.
Notation "x ← y ; z" := (bindM y (λ x, z))
  (at level 20, y at level 100, z at level 200, only parsing) : M_scope.
Notation "y ;; z" := (bindM y (λ _, z))
  (at level 100, z at level 200, only parsing, right associativity) : M_scope.

(** Truthiness of a [str]: the empty string is falsy. *)
Definition truthy (s : string) : bool :=
  match s with "" => false | _ => true end.

(** [sub in s] on strings. *)
Fixpoint contains (sub s : string) : bool :=
  if String.prefix sub s then true
  else match s with
       | "" => false
       | String _ rest => contains sub rest
       end.

(** [str.isspace] on one character, given by its code point: TAB, LF, VT,
    FF, CR, the four separators FS, GS, RS, US, SPACE, and beyond ASCII
    U+0085, U+00A0, U+1680, U+2000 to U+200A, U+2028, U+2029, U+202F, U+205F
    and U+3000. *)
Definition isspace (n : N) : bool :=
  (((9 <=? n) && (n <=? 13)) || ((28 <=? n) && (n <=? 32))
   || (n =? 133) || (n =? 160) || (n =? 5760)
   || ((8192 <=? n) && (n <=? 8202))
   || (n =? 8232) || (n =? 8233) || (n =? 8239) || (n =? 8287) || (n =? 12288))%N.

(** A [str] is held as its UTF-8 bytes.  The code point one, two or three
    bytes encode ([None] when they are no such encoding); the characters of
    four bytes are all beyond U+FFFF, where [isspace] holds of none. *)
Definition continuation (b : ascii) : bool :=
  ((128 <=? N_of_ascii b) && (N_of_ascii b <? 192))%N.

Definition code1 (a : ascii) : option N :=
  if (N_of_ascii a <? 128)%N then Some (N_of_ascii a) else None.

Definition code2 (a b : ascii) : option N :=
  if ((194 <=? N_of_ascii a) && (N_of_ascii a <? 224) && continuation b)%N
  then Some ((N_of_ascii a - 192) * 64 + (N_of_ascii b - 128))%N
  else None.

Definition code3 (a b c : ascii) : option N :=
  let n := ((N_of_ascii a - 224) * 4096 + (N_of_ascii b - 128) * 64
            + (N_of_ascii c - 128))%N in
  if ((224 <=? N_of_ascii a) && (N_of_ascii a <? 240)
      && continuation b && continuation c && (2048 <=? n))%N
  then Some n else None.

Definition space_code (code : option N) : bool :=
  match code with
  | Some n => isspace n
  | None => false
  end.

(** [s.lstrip()]: the leading characters on which [isspace] holds are
    dropped. *)
Fixpoint lstrip (s : string) : string :=
  match s with
  | String a rest1 =>
      if space_code (code1 a) then lstrip rest1
      else match rest1 with
           | String b rest2 =>
               if space_code (code2 a b) then lstrip rest2
               else match rest2 with
                    | String c rest3 =>
                        if space_code (code3 a b c) then lstrip rest3 else s
                    | "" => s
                    end
           | "" => s
           end
  | "" => ""
  end.

(** The same from the end, on the bytes in reverse order: the last
    character of a [str] is its last byte, or its last two or three when
    these begin with a leading byte. *)
Fixpoint rstrip_reversed (s : string) : string :=
  match s with
  | String c rest1 =>
      if space_code (code1 c) then rstrip_reversed rest1
      else match rest1 with
           | String b rest2 =>
               if space_code (code2 b c) then rstrip_reversed rest2
               else match rest2 with
                    | String a rest3 =>
                        if space_code (code3 a b c) then rstrip_reversed rest3 else s
                    | "" => s
                    end
           | "" => s
           end
  | "" => ""
  end.

(** [s.rstrip()] *)
Definition rstrip (s : string) : string :=
  String.rev (rstrip_reversed (String.rev s)).

(** [s.strip()] *)
Definition strip (s : string) : string := rstrip (lstrip s).

(** [s.split(sep)] for a one-character separator. *)
Fixpoint split_go (sep : ascii) (cur : string) (s : string) : list string :=
  match s with
  | "" => [String.rev cur]
  | String c rest =>
      if decide (c = sep) then String.rev cur :: split_go sep "" rest
      else split_go sep (String c cur) rest
  end.

Definition split (sep : ascii) (s : string) : list string := split_go sep "" s.

Definition newline : ascii := ascii_of_nat 10.

(** [s[:n]] *)
Definition take_prefix (n : nat) (s : string) : string := substring 0 n s.

(** An insertion-ordered [dict]: assigning to an existing key keeps the
    key's position, a new key goes last. *)
Fixpoint dict_set {V} (k : string) (v : V) (d : list (string * V)) : list (string * V) :=
  match d with
  | [] => [(k, v)]
  | (k', v') :: rest =>
      if decide (k' = k) then (k, v) :: rest else (k', v') :: dict_set k v rest
  end.

Fixpoint dict_get {V} (k : string) (d : list (string * V)) : option V :=
  match d with
  | [] => None
  | (k', v) :: rest => if decide (k' = k) then Some v else dict_get k rest
  end.

Definition dict_values {V} (d : list (string * V)) : list V := map snd d.

End Py.

(** ** The configuration file *)

Module Cfg.

(** One entry of [config_data["accounts"]] with the keys the adapter layer
    reads or writes; [None] is an absent key.  [_token_updated_at] holds a
    [time.time()] reading, kept here as an integer number of clock ticks. *)
Record account := Account {
  acc_enabled : option bool;
  acc_name : option string;
  acc_drive_type : option string;
  acc_cookie : option string;
  acc_default : option bool;
  acc_token_updated_at : option Z;
}.

(** The value under the legacy ["cookie"] key: a string or a list. *)
Inductive cookie_field :=
| CookieStr (s : string)
| CookieList (l : list string).

Record config := Config {
  cfg_accounts : option (list account);
  cfg_cookie : option cookie_field;
}.

End Cfg.

(** ** [adapters/adapter_factory.py] *)

Module Factory.
Import Py Cfg.

(** [hashlib.md5(b).hexdigest()], a library function outside the repository. *)
Class Hashlib := md5_hexdigest : string → string.

(** An adapter class as the factory sees it: the class attribute
    [DRIVE_TYPE] and whether its constructor raises on [(cookie, index)]. *)
Record adapter_class := AdapterClass {
  DRIVE_TYPE : string;
  init_raises : string → Z → bool;
}.

(** The fields [BaseCloudDriveAdapter.__init__] sets that the factory and
    the router read. *)
Record adapter := Adapter {
  class_of : adapter_class;
  cookie : string;
  index : Z;
  is_active : bool;
  nickname : string;
}.

(** Object identity: the address of an adapter in the heap. *)
Definition ref := nat.

(** The constructors of the five adapter classes in the repository set
    fields, build a [requests.Session] and (Aliyun) swallow every exception
    of the initial refresh: none of them raises. *)
Definition Cloud115Adapter : adapter_class := AdapterClass "115" (λ _ _, false).
Definition BaiduAdapter : adapter_class := AdapterClass "baidu" (λ _ _, false).
Definition XunleiAdapter : adapter_class := AdapterClass "xunlei" (λ _ _, false).
Definition AliyunAdapter : adapter_class := AdapterClass "aliyun" (λ _ _, false).
Definition UCAdapter : adapter_class := AdapterClass "uc" (λ _ _, false).

(** [AdapterFactory.ADAPTER_MAP] as the class body initialises it.
    [adapters/quark_adapter.py] is not part of the sources at hand, so its
    class is a parameter. *)
Definition ADAPTER_MAP_init (QuarkAdapter : adapter_class) : gmap string adapter_class :=
  list_to_map
    [ ("quark", QuarkAdapter); ("115", Cloud115Adapter); ("baidu", BaiduAdapter);
      ("xunlei", XunleiAdapter); ("aliyun", AliyunAdapter); ("uc", UCAdapter) ].

(** [AdapterFactory.URL_PATTERNS], in insertion order.  Each regular
    expression of the table is a group of literal alternatives followed by a
    literal suffix, so [re.search] is a substring test per alternative:
    [(?:115|anxia|115cdn)\.com] searches for one of ["115.com"],
    ["anxia.com"], ["115cdn.com"]. *)
Definition URL_PATTERNS : list (list string * string) :=
  [ (["pan.quark.cn"], "quark");
    (["115.com"; "anxia.com"; "115cdn.com"], "115");
    (["pan.baidu.com"], "baidu");
    (["pan.xunlei.com"], "xunlei");
    (["alipan.com"; "aliyundrive.com"], "aliyun");
    (["drive.uc.cn"], "uc") ].

Definition re_search (pattern : list string) (url : string) : bool :=
  existsb (λ alt, contains alt url) pattern.

(** The class-level state of [AdapterFactory] together with the heap of
    adapter objects. *)
Record factory := FactoryState {
  ADAPTER_MAP : gmap string adapter_class;
  _instance_cache : gmap string ref;
  heap : list adapter;
}.

Definition factory_init (QuarkAdapter : adapter_class) : factory :=
  FactoryState (ADAPTER_MAP_init QuarkAdapter) ∅ [].

Section WithHashlib.
Context `{Hashlib}.

Definition _make_cache_key (drive_type cookie : string) : string :=
  let cookie_hash := take_prefix 16 (md5_hexdigest cookie) in
  drive_type +:+ ":" +:+ cookie_hash.

Definition register_adapter (drive_type : string) (adapter_class : adapter_class)
    (F : factory) : factory :=
  FactoryState (<[drive_type := adapter_class]> (ADAPTER_MAP F)) (_instance_cache F) (heap F).

(** [adapter_class(cookie=cookie, index=index)]: the base constructor's
    field assignments, when the class's constructor returns. *)
Definition new_adapter (cls : adapter_class) (cookie : string) (index : Z)
    : outcome adapter :=
  if init_raises cls cookie index then Raise "constructor"
  else Ret (Adapter cls (if truthy cookie then strip cookie else "") (index + 1) false "").

Definition create_adapter (drive_type cookie : string) (index : Z) (F : factory)
    : option ref * factory :=
  match ADAPTER_MAP F !! drive_type with
  | None => (None, F)
  | Some adapter_class =>
      let cache_key := _make_cache_key drive_type cookie in
      match _instance_cache F !! cache_key with
      | Some cached => (Some cached, F)
      | None =>
          match new_adapter adapter_class cookie index with
          | Ret obj =>
              let adapter := length (heap F) in
              (Some adapter,
               FactoryState (ADAPTER_MAP F)
                 (<[cache_key := adapter]> (_instance_cache F))
                 (heap F ++ [obj])%list)
          | Raise _ => (None, F)
          end
      end
  end.

Definition clear_cache (F : factory) : factory :=
  FactoryState (ADAPTER_MAP F) ∅ (heap F).

Definition get_drive_type_by_url (url : string) : option string :=
  snd <$> List.find (λ p, re_search (fst p) url) URL_PATTERNS.

Definition create_adapter_by_url (url cookie : string) (index : Z) (F : factory)
    : option ref * factory :=
  match get_drive_type_by_url url with
  | Some drive_type =>
      if truthy drive_type then create_adapter drive_type cookie index F else (None, F)
  | None => (None, F)
  end.

(** *** [AccountManager] *)

Record account_manager := AccountManager {
  adapters : list (string * ref);
  default_adapter : option ref;
}.

Definition account_name_of (i : nat) (a : account) : string :=
  default ("账户" +:+ pretty (i + 1)%nat) (acc_name a).

(** The body of the [for i, account in enumerate(config_data["accounts"])]
    loop. *)
Definition load_account (i : nat) (a : account) (st : account_manager * factory)
    : account_manager * factory :=
  let '(M, F) := st in
  if negb (default true (acc_enabled a)) then (M, F)
  else
    let name := account_name_of i a in
    let drive_type := default "quark" (acc_drive_type a) in
    let cookie := default "" (acc_cookie a) in
    match create_adapter drive_type cookie (Z.of_nat i) F with
    | (Some adapter, F') =>
        (AccountManager (dict_set name adapter (adapters M))
           (if default false (acc_default a) || negb (bool_decide (is_Some (default_adapter M)))
            then Some adapter else default_adapter M),
         F')
    | (None, F') => (M, F')
    end.

Fixpoint load_new (i : nat) (accounts : list account) (st : account_manager * factory)
    : account_manager * factory :=
  match accounts with
  | [] => st
  | a :: rest => load_new (S i) rest (load_account i a st)
  end.

(** The body of the legacy [for i, cookie in enumerate(cookies)] loop. *)
Definition load_cookie (i : nat) (cookie : string) (st : account_manager * factory)
    : account_manager * factory :=
  let '(M, F) := st in
  if negb (truthy (strip cookie)) then (M, F)
  else
    let name := "夸克账户" +:+ pretty (i + 1)%nat in
    match create_adapter "quark" (strip cookie) (Z.of_nat i) F with
    | (Some adapter, F') =>
        (AccountManager (dict_set name adapter (adapters M))
           (if bool_decide (is_Some (default_adapter M)) then default_adapter M
            else Some adapter),
         F')
    | (None, F') => (M, F')
    end.

Fixpoint load_old (i : nat) (cookies : list string) (st : account_manager * factory)
    : account_manager * factory :=
  match cookies with
  | [] => st
  | c :: rest => load_old (S i) rest (load_cookie i c st)
  end.

Definition legacy_cookies (c : cookie_field) : list string :=
  match c with
  | CookieStr s => if truthy s then [s] else []
  | CookieList [] => []
  | CookieList (c0 :: rest) =>
      if contains (String newline "") c0 then split newline c0 else c0 :: rest
  end.

(** [load_accounts]: the manager's maps are cleared first, whatever they
    held. *)
Definition load_accounts (config_data : config) (F : factory)
    : bool * account_manager * factory :=
  let M0 := AccountManager [] None in
  let '(M, F') :=
    match cfg_accounts config_data with
    | Some accounts => load_new 0 accounts (M0, F)
    | None =>
        match cfg_cookie config_data with
        | Some cookies => load_old 0 (legacy_cookies cookies) (M0, F)
        | None => (M0, F)
        end
    end in
  (bool_decide (adapters M ≠ []), M, F').

(** A task: the keys the router reads. *)
Record task := Task {
  task_account_name : option string;
  task_shareurl : option string;
}.

(** [adapter.DRIVE_TYPE == drive_type and adapter.is_active] *)
Definition usable_for (F : factory) (drive_type : string) (r : ref) : bool :=
  match heap F !! r with
  | Some a => bool_decide (DRIVE_TYPE (class_of a) = drive_type) && is_active a
  | None => false
  end.

Definition get_adapter_for_task (M : account_manager) (F : factory) (t : task)
    : option ref :=
  let by_name :=
    match task_account_name t with
    | Some account_name =>
        if truthy account_name then dict_get account_name (adapters M) else None
    | None => None
    end in
  match by_name with
  | Some adapter => Some adapter
  | None =>
      let shareurl := default "" (task_shareurl t) in
      let by_url :=
        match get_drive_type_by_url shareurl with
        | Some drive_type =>
            if truthy drive_type
            then List.find (usable_for F drive_type) (dict_values (adapters M))
            else None
        | None => None
        end in
      match by_url with
      | Some adapter => Some adapter
      | None => default_adapter M
      end
  end.

(** [adapter.init()] as far as the router can observe it: a successful
    login sets [is_active] on the shared object. *)
Definition set_active (r : ref) (F : factory) : factory :=
  FactoryState (ADAPTER_MAP F) (_instance_cache F)
    (alter (λ a, Adapter (class_of a) (cookie a) (index a) true (nickname a)) r (heap F)).

(** *** Notions the statements about the factory and the router use *)

(** Every cached reference is the address of a live object. *)
Definition cache_wf (F : factory) : Prop :=
  ∀ k r, _instance_cache F !! k = Some r → r < length (heap F).

(** The task names an account: [task.get("account_name")] is a non-empty
    string. *)
Definition names_account (t : task) (n : string) : Prop :=
  task_account_name t = Some n ∧ n ≠ "".

(** The task names no account, or one that is not loaded. *)
Definition no_named_adapter (M : account_manager) (t : task) : Prop :=
  ∀ n, names_account t n → dict_get n (adapters M) = None.

(** The provider the URL table detects for the task's share URL. *)
Definition detected (t : task) : option string :=
  get_drive_type_by_url (default "" (task_shareurl t)).

(** [a] is the first adapter of the manager's table, in the order of the
    table, that is active and whose provider is [drive_type].  A name
    stands in the table where it was first loaded and holds the adapter
    loaded under it last. *)
Definition first_usable (M : account_manager) (F : factory) (drive_type : string)
    (a : ref) : Prop :=
  ∃ pre post, dict_values (adapters M) = (pre ++ a :: post)%list
    ∧ usable_for F drive_type a = true
    ∧ Forall (λ b, usable_for F drive_type b = false) pre.

Definition none_usable (M : account_manager) (F : factory) (drive_type : string) : Prop :=
  Forall (λ b, usable_for F drive_type b = false) (dict_values (adapters M)).

(** The loop invariant of [load_accounts]: there is a default adapter
    exactly when some adapter is loaded. *)
Definition default_iff_loaded (M : account_manager) : Prop :=
  default_adapter M = None ↔ adapters M = [].

(** The account at position [i] of the configuration is enabled and is
    loaded under the name [n]. *)
Definition enabled_account (config_data : config) (n : string) : Prop :=
  ∃ accounts i a, cfg_accounts config_data = Some accounts
    ∧ accounts !! i = Some a
    ∧ default true (acc_enabled a) = true
    ∧ account_name_of i a = n.

(** The adapter [load_accounts] obtains for the account that follows the
    accounts [pre] in the configuration: the account is enabled and
    [create_adapter], called when the accounts before it are loaded,
    returns [r]. *)
Definition account_adapter (F0 : factory) (pre : list account) (a : account) (r : ref)
    : Prop :=
  default true (acc_enabled a) = true
  ∧ ∃ F1, create_adapter (default "quark" (acc_drive_type a)) (default "" (acc_cookie a))
            (Z.of_nat (length pre)) (load_new 0 pre (AccountManager [] None, F0)).2
          = (Some r, F1).

(** [r] is the adapter of the first account of the configuration, in its
    order, that is enabled and whose adapter is active and of the provider
    [drive_type]. *)
Definition first_usable_account (F0 F : factory) (accounts : list account)
    (drive_type : string) (r : ref) : Prop :=
  ∃ pre a post,
    accounts = (pre ++ a :: post)%list
    ∧ account_adapter F0 pre a r
    ∧ usable_for F drive_type r = true
    ∧ ∀ pre1 b pre2 r', pre = (pre1 ++ b :: pre2)%list →
        account_adapter F0 pre1 b r' → usable_for F drive_type r' = false.

(** No two enabled accounts are loaded under the same name. *)
Definition distinct_names (accounts : list account) : Prop :=
  ∀ i j a b, accounts !! i = Some a → accounts !! j = Some b →
    default true (acc_enabled a) = true → default true (acc_enabled b) = true →
    account_name_of i a = account_name_of j b → i = j.

(** Branch (2) of the router as the specification words it: a task that
    names no loaded account gets the adapter of the first enabled account
    whose adapter is active and of the provider detected from the share
    URL, whatever the names of the accounts. *)
Definition routes_to_first_account : Prop :=
  ∀ (config_data : config) (F0 F : factory) (accounts : list account) (t : task)
    (drive_type : string) (r : ref),
    cfg_accounts config_data = Some accounts →
    no_named_adapter (load_accounts config_data F0).1.2 t →
    detected t = Some drive_type →
    first_usable_account F0 F accounts drive_type r →
    get_adapter_for_task (load_accounts config_data F0).1.2 F t = Some r.

End WithHashlib.
End Factory.

(** ** [adapters/adapter_factory.py]: logging the accounts in *)

Module Manager.
Import Py Cfg Factory.
Local Open Scope Z_scope.

(** The [for name, adapter in self.adapters.items()] loop of
    [init_all_adapters].  [init_ok i] tells whether the call of
    [adapter.init()] for the entry at position [i] succeeds; what the call
    does to the object is, as far as the router can observe it,
    [set_active]. *)
Fixpoint init_all_loop (init_ok : nat → bool) (i : nat) (items : list (string * ref))
    (F : factory) (success_count : Z) : Z * factory :=
  match items with
  | [] => (success_count, F)
  | (name, adapter) :: rest =>
      if init_ok i
      then init_all_loop init_ok (S i) rest (set_active adapter F) (success_count + 1)
      else init_all_loop init_ok (S i) rest F success_count
  end.

Definition init_all_adapters (init_ok : nat → bool) (M : account_manager) (F : factory)
    : Z * factory :=
  init_all_loop init_ok 0 (adapters M) F 0.

(** *** Notions the statements about logging in use *)

(** Some call of [init] on the adapter [r] succeeded. *)
Definition logged_in (init_ok : nat → bool) (M : account_manager) (r : ref) : Prop :=
  ∃ i name, adapters M !! i = Some (name, r) ∧ init_ok i = true.

End Manager.

(** ** [app/run.py]: the adapter for a share URL *)

Module RunAccounts.
Import Py Cfg Factory.
Local Open Scope Z_scope.

(** What the lookup returns: an adapter of the factory with its drive
    type, the legacy object [Quark(config_data["cookie"][0])] for the
    truthy value [cookie] under ["cookie"], or [(None, None)]. *)
Inductive selected :=
| FromFactory (adapter : ref) (drive_type : string)
| LegacyQuark (cookie : cookie_field)
| Nothing.

(** [config_data.get("cookie")] as a condition. *)
Definition legacy (config_data : config) : selected :=
  match cfg_cookie config_data with
  | Some (CookieStr s) => if truthy s then LegacyQuark (CookieStr s) else Nothing
  | Some (CookieList []) => Nothing
  | Some (CookieList l) => LegacyQuark (CookieList l)
  | None => Nothing
  end.

Section WithHashlib.
Context `{Hashlib}.

(** The [for acc in accounts] loop of [get_adapter_for_url]. *)
Fixpoint first_account (drive_type : string) (accounts : list account) (F : factory)
    : option ref * factory :=
  match accounts with
  | [] => (None, F)
  | acc :: rest =>
      if default true (acc_enabled acc) && bool_decide (acc_drive_type acc = Some drive_type)
      then
        match create_adapter drive_type (default "" (acc_cookie acc)) 0 F with
        | (Some adapter, F') => (Some adapter, F')
        | (None, F') => first_account drive_type rest F'
        end
      else first_account drive_type rest F
  end.

Definition get_adapter_for_url (MULTI_DRIVE_SUPPORT : bool) (config_data : config)
    (shareurl : string) (F : factory) : selected * factory :=
  if negb MULTI_DRIVE_SUPPORT then (legacy config_data, F)
  else
    match get_drive_type_by_url shareurl with
    | None => (legacy config_data, F)
    | Some drive_type =>
        if negb (truthy drive_type) then (legacy config_data, F)
        else
          let '(found, F') :=
            first_account drive_type (default [] (cfg_accounts config_data)) F in
          match found with
          | Some adapter => (FromFactory adapter drive_type, F')
          | None =>
              if bool_decide (drive_type = "quark") then (legacy config_data, F')
              else (Nothing, F')
          end
    end.

End WithHashlib.

End RunAccounts.

(** ** The refresh-token persistence hook

    [_config_saver_factory(config_path)] of [adapters/aliyun_adapter.py] and
    of [adapters/xunlei_adapter.py]: the two closures differ in the drive
    type they look for and in their log lines only. *)

Module ConfigSaver.
Import Py Cfg.

(** What [Config.read_json(config_path)] yields: [None] when it raises or
    returns a falsy value, otherwise the list under ["accounts"] ([[]] when
    the key is absent). *)
Definition config_file := option (list account).

(** [if account_name and ...]: [None] and [""] are both falsy. *)
Definition name_given (account_name : option string) : bool :=
  match account_name with
  | Some n => truthy n
  | None => false
  end.

(** [acc["cookie"] = new_refresh_token; acc["_token_updated_at"] = current_time] *)
Definition stamp (new_refresh_token : string) (current_time : Z) (acc : account)
    : account :=
  Account (acc_enabled acc) (acc_name acc) (acc_drive_type acc)
    (Some new_refresh_token) (acc_default acc) (Some current_time).

(** The [for acc in accounts] loop; the flag is [updated]. *)
Fixpoint update_accounts (drive : string) (new_refresh_token : string)
    (account_name : option string) (current_time : Z) (accounts : list account)
    : list account * bool :=
  match accounts with
  | [] => ([], false)
  | acc :: rest =>
      if bool_decide (acc_drive_type acc = Some drive) then
        if name_given account_name && negb (bool_decide (acc_name acc = account_name))
        then
          let '(rest', updated) :=
            update_accounts drive new_refresh_token account_name current_time rest in
          (acc :: rest', updated)
        else if name_given account_name
        then (stamp new_refresh_token current_time acc :: rest, true)
        else
          let '(rest', _) :=
            update_accounts drive new_refresh_token account_name current_time rest in
          (stamp new_refresh_token current_time acc :: rest', true)
      else
        let '(rest', updated) :=
          update_accounts drive new_refresh_token account_name current_time rest in
        (acc :: rest', updated)
  end.

(** [save_config(new_refresh_token, account_name)] run when the clock reads
    [current_time]: the returned flag and the file afterwards. *)
Definition save_config (drive : string) (new_refresh_token : string)
    (account_name : option string) (current_time : Z) (file : config_file)
    : bool * config_file :=
  match file with
  | None => (false, file)
  | Some accounts =>
      let '(accounts', updated) :=
        update_accounts drive new_refresh_token account_name current_time accounts in
      if updated then (true, Some accounts') else (false, file)
  end.

Definition aliyun_save_config := save_config "aliyun".
Definition xunlei_save_config := save_config "xunlei".

(** *** Notions the statements about persistence use *)

(** The result of one token rotation: the new secret and the instant the
    adapter obtained it ([AliyunToken.updated_at]). *)
Record rotation := Rotation {
  rot_secret : string;
  rot_updated_at : Z;
}.

(** The persistence write for a rotation, performed when the clock reads
    [current_time]: the hook receives the secret and the account name, never
    the rotation's own timestamp. *)
Definition apply_rotation (drive : string) (account_name : string) (r : rotation)
    (current_time : Z) (file : config_file) : config_file :=
  (save_config drive (rot_secret r) (Some account_name) current_time file).2.

(** The account a named write targets: the first one of the drive type with
    that name. *)
Definition is_target (drive account_name : string) (acc : account) : bool :=
  bool_decide (acc_drive_type acc = Some drive)
  && bool_decide (acc_name acc = Some account_name).

Definition target (drive account_name : string) (file : config_file) : option account :=
  match file with
  | Some accounts => List.find (is_target drive account_name) accounts
  | None => None
  end.

Definition stored_secret (drive account_name : string) (file : config_file)
    : option string :=
  target drive account_name file ≫= acc_cookie.

Definition stored_updated_at (drive account_name : string) (file : config_file)
    : option Z :=
  target drive account_name file ≫= acc_token_updated_at.

(** Anti-rollback as a property of the hook: of two rotations of one
    account, the one obtained later stays stored even when its write is
    applied first. *)
Definition anti_rollback (drive : string) : Prop :=
  ∀ (account_name : string) (r1 r2 : rotation) (t t' : Z) (file : config_file),
    account_name ≠ "" →
    is_Some (target drive account_name file) →
    (rot_updated_at r1 < rot_updated_at r2)%Z →
    (rot_updated_at r2 ≤ t)%Z → (t ≤ t')%Z →
    stored_secret drive account_name
      (apply_rotation drive account_name r1 t'
         (apply_rotation drive account_name r2 t file))
    = Some (rot_secret r2).

End ConfigSaver.

(** ** [app/run.py]: the routes that write account tokens *)

Module Run.
Import Py Cfg.

(** [acc.get("drive_type") in ("aliyun", "xunlei")], with the drive type
    when the test holds. *)
Definition token_protected_type (acc : account) : option string :=
  match acc_drive_type acc with
  | Some drive_type =>
      if bool_decide (drive_type = "aliyun") || bool_decide (drive_type = "xunlei")
      then Some drive_type else None
  | None => None
  end.

(** [key = f"{drive_type}:{name}"] with [name = acc.get("name", "")] *)
Definition protection_key (drive_type : string) (acc : account) : string :=
  drive_type +:+ ":" +:+ default "" (acc_name acc).

(** One round of the first loop of [update]: the entry of
    [current_token_protected] an account adds, holding ["cookie"] and
    ["_token_updated_at"]. *)
Definition protect_current (protected : gmap string (string * Z)) (acc : account)
    : gmap string (string * Z) :=
  match token_protected_type acc with
  | Some drive_type =>
      let current_cookie := default "" (acc_cookie acc) in
      if truthy current_cookie
      then <[protection_key drive_type acc :=
               (current_cookie, default 0%Z (acc_token_updated_at acc))]> protected
      else protected
  | None => protected
  end.

Definition current_token_protected (current_accounts : list account)
    : gmap string (string * Z) :=
  foldl protect_current ∅ current_accounts.

(** One round of the second loop: the incoming account after the
    assignments to [acc["cookie"]] and [acc["_token_updated_at"]]. *)
Definition protect_incoming (protected : gmap string (string * Z)) (acc : account)
    : account :=
  match token_protected_type acc with
  | Some drive_type =>
      match protected !! protection_key drive_type acc with
      | Some (cookie, updated_at) =>
          Account (acc_enabled acc) (acc_name acc) (acc_drive_type acc)
            (Some cookie) (acc_default acc) (Some updated_at)
      | None => acc
      end
  | None => acc
  end.

(** [update], from [config_data = Config.read_json(CONFIG_PATH)] to
    [Config.write_json(CONFIG_PATH, config_data)]: the configuration written,
    given the one read and the request's JSON body.  A key the request does
    not have keeps the value read. *)
Definition update (MULTI_DRIVE_SUPPORT : bool) (config_data request_json : config)
    : config :=
  let incoming_accounts := default [] (cfg_accounts request_json) in
  let protected_accounts :=
    if bool_decide (incoming_accounts ≠ []) && MULTI_DRIVE_SUPPORT then
      let current_accounts := default [] (cfg_accounts config_data) in
      protect_incoming (current_token_protected current_accounts) <$> incoming_accounts
    else incoming_accounts in
  Config
    (match cfg_accounts request_json with
     | Some _ => Some protected_accounts
     | None => cfg_accounts config_data
     end)
    (match cfg_cookie request_json with
     | Some cookie => Some cookie
     | None => cfg_cookie config_data
     end).

(** The answers of [update_account_token] before it writes. *)
Inductive token_update :=
| TokenEmpty
| DriveTypeNotSupported
| AccountNotFound
| TokenUpdated (accounts : list account).

(** [not account_name or acc.get("name") == account_name] for an account of
    the drive type. *)
Definition is_target (drive_type account_name : string) (acc : account) : bool :=
  bool_decide (acc_drive_type acc = Some drive_type)
  && (negb (truthy account_name) || bool_decide (acc_name acc = Some account_name)).

(** The [for acc in accounts] search and the two assignments to the account
    found. *)
Fixpoint set_token (drive_type account_name new_token : string) (now : Z)
    (accounts : list account) : option (list account) :=
  match accounts with
  | [] => None
  | acc :: rest =>
      if is_target drive_type account_name acc
      then Some (Account (acc_enabled acc) (acc_name acc) (acc_drive_type acc)
                   (Some new_token) (acc_default acc) (Some now) :: rest)
      else (acc ::.) <$> set_token drive_type account_name new_token now rest
  end.

(** [update_account_token] with multi-drive support on, run when the clock
    reads [now]: the answer and, on success, the accounts written. *)
Definition update_account_token (account_name drive_type new_token : string) (now : Z)
    (config_data : config) : token_update :=
  let new_token := strip new_token in
  if negb (truthy new_token) then TokenEmpty
  else if negb (bool_decide (drive_type = "aliyun") || bool_decide (drive_type = "xunlei"))
  then DriveTypeNotSupported
  else
    match set_token drive_type account_name new_token now
            (default [] (cfg_accounts config_data)) with
    | Some accounts => TokenUpdated accounts
    | None => AccountNotFound
    end.

(** *** Notions the statements about these routes use *)

(** An account of a drive type and a name ([""] when it has none) with a
    non-empty cookie. *)
Definition holds_token (drive_type name : string) (acc : account) : bool :=
  bool_decide (acc_drive_type acc = Some drive_type)
  && bool_decide (default "" (acc_name acc) = name)
  && truthy (default "" (acc_cookie acc)).

End Run.

(** ** [adapters/aliyun_adapter.py] *)

Module Aliyun.
Import Py Cfg.
Local Open Scope Z_scope.

Definition API_HOST := "https://api.aliyundrive.com".
Definition V2_ACCOUNT_TOKEN := "/v2/account/token".
Definition ADRIVE_V2_SHARE_LINK_GET_SHARE_BY_ANONYMOUS :=
  "/adrive/v2/share_link/get_share_by_anonymous".
Definition V2_SHARE_LINK_GET_SHARE_TOKEN := "/v2/share_link/get_share_token".
Definition ADRIVE_V2_FILE_LIST_BY_SHARE := "/adrive/v2/file/list_by_share".
Definition ADRIVE_V2_FILE_GET_BY_SHARE := "/adrive/v2/file/get_by_share".
Definition ADRIVE_V1_FILE_GET_PATH := "/adrive/v1/file/get_path".

Definition ALIYUN_UA :=
  "AliApp(AYSD/5.8.0) com.alicloud.databox/37029260 Channel/36176927979800@rimet_android_5.8.0 language/zh-CN /Android Mobile/Xiaomi Redmi".

Definition UNI_HEADERS : list (string * string) :=
  [ ("Referer", "https://aliyundrive.com");
    ("User-Agent", ALIYUN_UA);
    ("x-canary", "client=Android,app=adrive,version=v5.8.0");
    ("Content-Type", "application/json") ].

(** *** The transport *)

Record request := Request {
  req_method : string;
  req_url : string;
  req_headers : list (string * string);
  req_body : list (string * string);
}.

(** An entry of an ["items"] array, with the keys the adapter reads; an
    absent key holds the default the adapter passes to [.get]. *)
Record item := Item {
  i_file_id : string;
  i_name : string;
  i_type : string;
  i_size : Z;
  i_updated_at : string;
}.

(** The body of a successful answer of the token endpoint.
    [tj_expire_time] is [0] when the key is absent or not a number. *)
Record token_json := TokenJson {
  tj_access_token : string;
  tj_refresh_token : string;
  tj_expires_in : Z;
  tj_user_id : string;
  tj_user_name : string;
  tj_nick_name : string;
  tj_default_drive_id : string;
  tj_default_sbox_drive_id : string;
  tj_expire_time : Z;
}.

(** A decoded JSON object of the provider, with the keys the adapter
    reads.  [d_token] is [None] when ["access_token"] is not a key;
    [d_extra] stands for whatever other keys the object has. *)
Record api_data := ApiData {
  d_code : string;
  d_message : option string;
  d_items : list item;
  d_next_marker : string;
  d_share_token : string;
  d_drive_id : string;
  d_token : option token_json;
  d_extra : list (string * string);
}.

(** [json] is [None] when the body does not decode ([resp.json()] raises). *)
Record response := Response {
  status_code : Z;
  json : option api_data;
  text : string;
}.

(** The provider: what [requests] answers to a request, or the exception it
    raises (time-out, connection error). *)
Class Transport := http : request → outcome response.

(** *** Adapter state *)

Record AliyunToken := Token {
  access_token : string;
  refresh_token : string;
  expires_in : Z;
  token_type : string;
  user_id : string;
  user_name : string;
  nick_name : string;
  default_drive_id : string;
  default_sbox_drive_id : string;
  expire_time : Z;
  token_updated_at : Z;
}.

Record adapter := Adapter {
  _refresh_token : string;
  _token : option AliyunToken;
  _account_name : string;
  authorization : option string;
  index : Z;
  is_active : bool;
  nickname : string;
}.

(** The adapter object, the configuration file behind the module-level
    [_global_config_saver] ([saver_installed] tells whether
    [set_config_saver] was called) and the requests sent so far. *)
Record world := World {
  self : adapter;
  config_file : ConfigSaver.config_file;
  saver_installed : bool;
  http_log : list request;
}.

Abbreviation M := (Py.M world).
Local Open Scope M_scope.

Definition get_self : M adapter := λ w, (Ret (self w), w).

Definition set_self (a : adapter) : M unit := λ w,
  (Ret tt, World a (config_file w) (saver_installed w) (http_log w)).

(** One round trip: the request is sent (and logged) and the transport
    answers or raises. *)
Definition logged_all (reqs : list request) (w : world) : world :=
  World (self w) (config_file w) (saver_installed w) (http_log w ++ reqs).

Definition logged (req : request) (w : world) : world := logged_all [req] w.

Definition send `{Transport} (req : request) : M response := λ w,
  (http req, logged req w).

(** *** Results handed to the caller *)

Record crumb := Crumb {
  fid : string;
  file_name : string;
}.

Record file_info := FileInfo {
  fi_fid : string;
  fi_file_name : string;
  fi_file_type : Z;
  fi_dir : bool;
  fi_size : Z;
  fi_updated_at : Z;
  fi_share_fid_token : string;
}.

Inductive payload :=
| NoData
| StokenData (stoken share_id : string) (share_info : api_data)
| ListData (list_ : list file_info) (full_path : option (list crumb)).

(** A result dictionary: ["status"] (when present), ["code"], ["message"],
    ["data"] and ["metadata"]["_total"] (when present). *)
Record result := Result {
  r_status : option Z;
  r_code : Z;
  r_message : string;
  r_data : payload;
  r_total : option nat;
}.

Definition ERROR_CODES : list (string * string) :=
  [ ("ShareLinkTokenInvalid", "分享链接 Token 无效");
    ("NotFound.ShareLink", "分享链接不存在或已过期");
    ("ShareLink.Cancelled", "分享链接已取消");
    ("ShareLink.Forbidden", "分享链接被禁止访问");
    ("InvalidResource.SharePwd", "提取码错误");
    ("ParamFlowException", "请求过于频繁，请稍后重试");
    ("ForbiddenNoPermission.File", "没有文件操作权限");
    ("AlreadyExist.File", "文件已存在");
    ("NotFound.File", "文件不存在");
    ("InvalidParameter", "参数错误");
    ("AccessTokenInvalid", "访问令牌无效，请重新登录");
    ("RefreshTokenExpired", "刷新令牌已过期，请重新登录");
    ("UserDeviceOffline", "设备已离线") ].

Definition _get_error_message (code : string) : string :=
  default ("未知错误 (" +:+ code +:+ ")") (dict_get code ERROR_CODES).

Definition empty_data : api_data := ApiData "" None [] "" "" "" None [].

(** [not data] for a decoded object. *)
Definition dict_is_empty (d : api_data) : bool :=
  negb (truthy (d_code d)) && bool_decide (d_message d = None)
  && bool_decide (d_items d = []) && negb (truthy (d_next_marker d))
  && negb (truthy (d_share_token d)) && negb (truthy (d_drive_id d))
  && bool_decide (d_token d = None) && bool_decide (d_extra d = []).

(** [dict(d).update(u)] on insertion-ordered dictionaries. *)
Definition dict_update (d u : list (string * string)) : list (string * string) :=
  foldl (λ acc kv, dict_set kv.1 kv.2 acc) d u.

Definition dict_del (k : string) (d : list (string * string)) : list (string * string) :=
  filter (λ kv, kv.1 ≠ k) d.

Section WithProvider.
Context `{Transport}.
(** [time.time()], read as constant while one operation runs. *)
Context (now : Z).
(** [datetime.fromisoformat(s).timestamp() * 1000] truncated, a library
    function; [None] when it raises. *)
Context (iso_millis : string → option Z).

(** [AliyunToken(token_data)] *)
Definition AliyunToken_of (t : token_json) : AliyunToken :=
  Token (tj_access_token t) (tj_refresh_token t) (tj_expires_in t) "Bearer"
    (tj_user_id t) (tj_user_name t) (tj_nick_name t)
    (tj_default_drive_id t) (tj_default_sbox_drive_id t)
    (if decide (tj_expire_time t = 0) then now + tj_expires_in t - 60
     else tj_expire_time t)
    now.

Definition is_expired (t : AliyunToken) : bool := bool_decide (expire_time t ≤ now)%Z.

(** [dict(self._session.headers)] *)
Definition session_headers (a : adapter) : list (string * string) :=
  match authorization a with
  | Some v => dict_set "Authorization" v UNI_HEADERS
  | None => UNI_HEADERS
  end.

(** [_save_refresh_token]: the saver's return value is dropped. *)
Definition _save_refresh_token : M unit := λ w,
  if saver_installed w then
    (Ret tt,
     World (self w)
       (ConfigSaver.aliyun_save_config (_refresh_token (self w))
          (Some (_account_name (self w))) now (config_file w)).2
       (saver_installed w) (http_log w))
  else (Ret tt, w).

(** [_do_refresh_token], run by one thread: taking and releasing
    [_token_lock] changes nothing then. *)
Definition _do_refresh_token : M bool :=
  a ← get_self;
  if negb (truthy (_refresh_token a)) then ret false
  else
    try_return
      (resp ← send (Request "POST" (API_HOST +:+ V2_ACCOUNT_TOKEN) (session_headers a)
                      [("refresh_token", _refresh_token a);
                       ("grant_type", "refresh_token")]);
       match json resp with
       | None => raise "JSONDecodeError"
       | Some result =>
           match d_token result with
           | None => ret false
           | Some t =>
               let token := AliyunToken_of t in
               let old_refresh_token := _refresh_token a in
               set_self (Adapter (refresh_token token) (Some token) (_account_name a)
                           (Some ("Bearer " +:+ access_token token))
                           (index a) (is_active a) (nickname a));;
               (if bool_decide (old_refresh_token ≠ refresh_token token)
                then _save_refresh_token else ret tt);;
               ret true
           end
       end)
      (λ _, false).

Definition _ensure_token_valid : M bool :=
  a ← get_self;
  match _token a with
  | Some t => if is_expired t then _do_refresh_token else ret true
  | None => _do_refresh_token
  end.

Definition _request (method path host : string) (body headers : list (string * string))
    (ignore_auth : bool) : M response :=
  (if ignore_auth then ret tt
   else ok ← _ensure_token_valid; if ok then ret tt else raise "Token 无效");;
  a ← get_self;
  let req_headers := dict_update (session_headers a) headers in
  let req_headers := if ignore_auth then dict_del "Authorization" req_headers
                     else req_headers in
  send (Request method (host +:+ path) req_headers body).

(** [_check_response]: the status code only decides whether a line is
    logged. *)
Definition _check_response (resp : response) : api_data :=
  match json resp with
  | Some data => data
  | None => ApiData "ParseError" (Some (take_prefix 200%nat (text resp))) [] "" "" "" None []
  end.

(** *** Public interface *)

(** The dictionary [init] returns on success. *)
Record account_info := AccountInfo {
  ai_user_id : string;
  ai_user_name : string;
  ai_nickname : string;
  ai_default_drive_id : string;
}.

(** [init]; the returned [None] is Python's [False]. *)
Definition init : M (option account_info) :=
  a ← get_self;
  if negb (truthy (_refresh_token a)) then ret None
  else
    ok ← _do_refresh_token;
    if ok then
      a ← get_self;
      match _token a with
      | Some t =>
          let nick := if truthy (nick_name t) then nick_name t
                      else "阿里云盘用户" +:+ pretty (index a) in
          set_self (Adapter (_refresh_token a) (_token a) (_account_name a)
                      (authorization a) (index a) true nick);;
          ret (Some (AccountInfo (user_id t) (user_name t) nick (default_drive_id t)))
      | None => raise "AttributeError"
      end
    else ret None.

Definition _get_share_info (share_id : string) : M api_data :=
  resp ← _request "POST" ADRIVE_V2_SHARE_LINK_GET_SHARE_BY_ANONYMOUS API_HOST
            [("share_id", share_id)] [] true;
  ret (_check_response resp).

Definition _get_share_token (share_id share_pwd : string) : M api_data :=
  resp ← _request "POST" V2_SHARE_LINK_GET_SHARE_TOKEN API_HOST
            [("share_id", share_id); ("share_pwd", share_pwd)] [] true;
  ret (_check_response resp).

(** The code of a falsy-or-failed answer: [x.get("code", "Unknown") if x
    else "Unknown"]. *)
Definition code_or_unknown (d : api_data) : string :=
  if dict_is_empty d then "Unknown"
  else if truthy (d_code d) then d_code d else "Unknown".

Definition get_stoken (pwd_id passcode : string) : M result :=
  try_return
    (share_info ← _get_share_info pwd_id;
     if dict_is_empty share_info || truthy (d_code share_info) then
       ret (Result (Some 400) 1 (_get_error_message (code_or_unknown share_info))
               NoData None)
     else
       share_token ← _get_share_token pwd_id passcode;
       if dict_is_empty share_token || truthy (d_code share_token) then
         ret (Result (Some 400) 1 (_get_error_message (code_or_unknown share_token))
                 NoData None)
       else
         ret (Result (Some 200) 0 "success"
                 (StokenData (d_share_token share_token) pwd_id share_info) None))
    (λ e, Result (Some 500) 1 e NoData None).

Definition _parse_time (time_str : string) : Z :=
  if negb (truthy time_str) then 0 else default 0 (iso_millis time_str).

Definition is_folder (it : item) : bool := bool_decide (i_type it = "folder").

Definition _convert_share_item (it : item) : file_info :=
  FileInfo (i_file_id it) (i_name it) (if is_folder it then 0 else 1) (is_folder it)
    (i_size it) (_parse_time (i_updated_at it)) (i_file_id it).

Definition crumb_of (it : item) : crumb := Crumb (i_file_id it) (i_name it).

(** The request [_bfs_share_path] sends for one directory: no marker, one
    page of at most 100 entries. *)
Definition bfs_list (share_id share_token current_id : string) : M response :=
  _request "POST" ADRIVE_V2_FILE_LIST_BY_SHARE API_HOST
    [("share_id", share_id); ("parent_file_id", current_id); ("limit", "100");
     ("order_by", "name"); ("order_direction", "ASC")]
    [("x-share-token", share_token)] true.

(** The [for item in items] loop of [_bfs_share_path]: either the target is
    met and the breadcrumb returned, or the queue and the visited set
    grow. *)
Fixpoint bfs_scan (target_file_id : string) (current_path : list crumb)
    (items : list item) (queue : list (string * list crumb)) (visited : gset string)
    : list crumb + (list (string * list crumb) * gset string) :=
  match items with
  | [] => inr (queue, visited)
  | it :: rest =>
      let item_id := i_file_id it in
      if decide (item_id = target_file_id)
      then inl (current_path ++ [crumb_of it])%list
      else if is_folder it && bool_decide (item_id ∉ visited)
      then bfs_scan target_file_id current_path rest
             (queue ++ [(item_id, (current_path ++ [crumb_of it])%list)])%list
             ({[item_id]} ∪ visited)
      else bfs_scan target_file_id current_path rest queue visited
  end.

(** The [while queue] loop of [_bfs_share_path]; [None] when [fuel]
    iterations did not empty the queue. *)
Fixpoint bfs_loop (fuel : nat) (share_id share_token target_file_id : string)
    (queue : list (string * list crumb)) (visited : gset string)
    : M (option (list crumb)) :=
  match fuel with
  | O => ret None
  | S fuel' =>
      match queue with
      | [] => ret (Some [])
      | (current_id, current_path) :: queue' =>
          step ← try_return
            (resp ← bfs_list share_id share_token current_id;
             let data := _check_response resp in
             if truthy (d_code data) then ret (inr (queue', visited))
             else ret (bfs_scan target_file_id current_path (d_items data) queue' visited))
            (λ _, inr (queue', visited));
          match step with
          | inl found => ret (Some found)
          | inr (queue'', visited') =>
              bfs_loop fuel' share_id share_token target_file_id queue'' visited'
          end
      end
  end.

Definition _bfs_share_path (fuel : nat) (share_id share_token target_file_id : string)
    : M (option (list crumb)) :=
  bfs_loop fuel share_id share_token target_file_id [("root", [])] {["root"]}.

Definition _get_share_file_info (share_id share_token file_id : string)
    : M (option api_data) :=
  try_return
    (resp ← _request "POST" ADRIVE_V2_FILE_GET_BY_SHARE API_HOST
              [("share_id", share_id); ("file_id", file_id)]
              [("x-share-token", share_token)] true;
     let data := _check_response resp in
     if truthy (d_code data) then ret None else ret (Some data))
    (λ _, None).

Definition _get_share_path (fuel : nat) (share_id share_token file_id : string)
    : M (option (list crumb)) :=
  if negb (truthy file_id) || bool_decide (file_id = "root") then ret (Some [])
  else
    try_return
      (file_info ← _get_share_file_info share_id share_token file_id;
       direct ←
         match file_info with
         | Some info =>
             if negb (dict_is_empty info) && truthy (d_drive_id info) then
               resp ← _request "POST" ADRIVE_V1_FILE_GET_PATH API_HOST
                         [("drive_id", d_drive_id info); ("file_id", file_id)]
                         [("x-share-token", share_token)] true;
               let data := _check_response resp in
               if truthy (d_code data) then ret None
               else ret (Some (crumb_of <$>
                                  filter (λ it, i_file_id it ≠ "root") (d_items data)))
             else ret None
         | None => ret None
         end;
       match direct with
       | Some path => ret (Some path)
       | None => _bfs_share_path fuel share_id share_token file_id
       end)
      (λ _, Some []).

(** The [while True] loop of [get_detail]: an error result returned from
    inside the loop, or the accumulated list; [None] when [fuel] pages did
    not end it. *)
Fixpoint get_detail_loop (fuel : nat) (pwd_id stoken parent_file_id marker : string)
    (file_list : list file_info) : M (option (result + list file_info)) :=
  match fuel with
  | O => ret None
  | S fuel' =>
      resp ← _request "POST" ADRIVE_V2_FILE_LIST_BY_SHARE API_HOST
                [("share_id", pwd_id); ("parent_file_id", parent_file_id);
                 ("limit", "100"); ("marker", marker);
                 ("order_by", "name"); ("order_direction", "ASC")]
                [("x-share-token", stoken)] true;
      let data := _check_response resp in
      if truthy (d_code data) then
        ret (Some (inl (Result None 1 (_get_error_message (d_code data))
                           (ListData [] None) None)))
      else
        let file_list := (file_list ++ (_convert_share_item <$> d_items data))%list in
        let marker := d_next_marker data in
        if negb (truthy marker) then ret (Some (inr file_list))
        else get_detail_loop fuel' pwd_id stoken parent_file_id marker file_list
  end.

Definition get_detail (fuel : nat) (pwd_id stoken pdir_fid : string)
    (fetch_share_full_path : bool) : M (option result) :=
  try_return
    (let parent_file_id :=
       if truthy pdir_fid && bool_decide (pdir_fid ≠ "0") then pdir_fid else "root" in
     pages ← get_detail_loop fuel pwd_id stoken parent_file_id "" [];
     match pages with
     | None => ret None
     | Some (inl error) => ret (Some error)
     | Some (inr file_list) =>
         full_path ←
           (if fetch_share_full_path && bool_decide (parent_file_id ≠ "root")
            then _get_share_path fuel pwd_id stoken parent_file_id
            else ret (Some []));
         match full_path with
         | None => ret None
         | Some full_path =>
             ret (Some (Result None 0 "success" (ListData file_list (Some full_path))
                           (Some (length file_list))))
         end
     end)
    (λ e, Some (Result None 1 e (ListData [] None) None)).

(** An entry of the list [get_file_path] builds. *)
Record path_entry := PathEntry {
  pe_fid : string;
  pe_name : string;
}.

(** [path.reverse()]: the list is reversed in place and the call evaluates
    to [None]. *)
Definition list_reverse {A} (l : list A) : list A * option (list A) := (reverse l, None).

(** [get_file_path]; the returned [None] is Python's [None]. *)
Definition get_file_path (file_id : string) : M (option (list path_entry)) :=
  ok ← _ensure_token_valid;
  if negb ok then ret (Some [])
  else if negb (truthy file_id) || bool_decide (file_id = "0")
          || bool_decide (file_id = "root")
  then ret (Some [])
  else
    try_return
      (a ← get_self;
       let drive_id := default "" (default_drive_id <$> _token a) in
       if negb (truthy drive_id) then ret (Some [])
       else
         resp ← _request "POST" ADRIVE_V1_FILE_GET_PATH API_HOST
                   [("drive_id", drive_id); ("file_id", file_id)] [] false;
         let data := _check_response resp in
         let path :=
           (λ it, PathEntry (i_file_id it) (i_name it)) <$>
             filter (λ it, truthy (i_file_id it) && bool_decide (i_file_id it ≠ "root"))
               (d_items data) in
         ret (list_reverse path).2)
      (λ _, Some []).

(** *** Notions the statements about the adapter use *)

(** The file ids [get_file_path] answers without asking the provider. *)
Definition root_like (file_id : string) : bool :=
  negb (truthy file_id) || bool_decide (file_id = "0") || bool_decide (file_id = "root").

(** The lookup [get_file_path] sends once the token is valid. *)
Definition path_lookup (drive_id file_id : string) : M response :=
  _request "POST" ADRIVE_V1_FILE_GET_PATH API_HOST
    [("drive_id", drive_id); ("file_id", file_id)] [] false.

Definition drive_id_of (w : world) : string :=
  default "" (default_drive_id <$> _token (self w)).

(** The anonymous requests of [get_stoken]. *)
Definition share_info_request (share_id : string) : request :=
  Request "POST" (API_HOST +:+ ADRIVE_V2_SHARE_LINK_GET_SHARE_BY_ANONYMOUS)
    UNI_HEADERS [("share_id", share_id)].

Definition share_token_request (share_id share_pwd : string) : request :=
  Request "POST" (API_HOST +:+ V2_SHARE_LINK_GET_SHARE_TOKEN)
    UNI_HEADERS [("share_id", share_id); ("share_pwd", share_pwd)].

(** The provider's answer to a request as [_check_response] hands it on;
    [inl] is the message of the exception the transport raised. *)
Definition answer (req : request) : string + api_data :=
  match http req with
  | Ret resp => inr (_check_response resp)
  | Raise e => inl e
  end.

(** An answer the adapter takes for a failure: an empty object or one with
    a code. *)
Definition failed (d : api_data) : bool := dict_is_empty d || truthy (d_code d).

(** The request [_bfs_share_path] sends for a directory, and the entries
    it then scans: those of the answer, none when the request raises or the
    answer carries a code. *)
Definition list_request (share_id share_token current_id : string) : request :=
  Request "POST" (API_HOST +:+ ADRIVE_V2_FILE_LIST_BY_SHARE)
    (UNI_HEADERS ++ [("x-share-token", share_token)])%list
    [("share_id", share_id); ("parent_file_id", current_id); ("limit", "100");
     ("order_by", "name"); ("order_direction", "ASC")].

Definition listing (share_id share_token current_id : string) : list item :=
  match answer (list_request share_id share_token current_id) with
  | inr data => if truthy (d_code data) then [] else d_items data
  | inl _ => []
  end.

(** The request of [get_detail] for the page under a marker. *)
Definition page_request (pwd_id stoken parent_file_id marker : string) : request :=
  Request "POST" (API_HOST +:+ ADRIVE_V2_FILE_LIST_BY_SHARE)
    (UNI_HEADERS ++ [("x-share-token", stoken)])%list
    [("share_id", pwd_id); ("parent_file_id", parent_file_id);
     ("limit", "100"); ("marker", marker);
     ("order_by", "name"); ("order_direction", "ASC")].

(** From [marker] on the provider serves the pages [pages], in order:
    each answer is free of a code, every page but the last comes with the
    marker of the next one, the last with none. *)
Inductive serves (pwd_id stoken parent_file_id : string)
    : string → list (list item) → Prop :=
| serves_last marker data :
    answer (page_request pwd_id stoken parent_file_id marker) = inr data →
    d_code data = "" → d_next_marker data = "" →
    serves pwd_id stoken parent_file_id marker [d_items data]
| serves_more marker data rest :
    answer (page_request pwd_id stoken parent_file_id marker) = inr data →
    d_code data = "" → d_next_marker data ≠ "" →
    serves pwd_id stoken parent_file_id (d_next_marker data) rest →
    serves pwd_id stoken parent_file_id marker (d_items data :: rest).

(** The listing loop as the specification words it: pages are appended
    while a next marker is present and the page was not empty. *)
Fixpoint get_detail_loop_spec (fuel : nat) (pwd_id stoken parent_file_id marker : string)
    (file_list : list file_info) : M (option (result + list file_info)) :=
  match fuel with
  | O => ret None
  | S fuel' =>
      resp ← _request "POST" ADRIVE_V2_FILE_LIST_BY_SHARE API_HOST
                [("share_id", pwd_id); ("parent_file_id", parent_file_id);
                 ("limit", "100"); ("marker", marker);
                 ("order_by", "name"); ("order_direction", "ASC")]
                [("x-share-token", stoken)] true;
      let data := _check_response resp in
      if truthy (d_code data) then
        ret (Some (inl (Result None 1 (_get_error_message (d_code data))
                          (ListData [] None) None)))
      else
        let file_list := (file_list ++ (_convert_share_item <$> d_items data))%list in
        let marker := d_next_marker data in
        if truthy marker && negb (bool_decide (d_items data = []))
        then get_detail_loop_spec fuel' pwd_id stoken parent_file_id marker file_list
        else ret (Some (inr file_list))
  end.

End WithProvider.

(** The resolver has a hard depth bound: no breadcrumb it returns is
    longer than [bound]. *)
Definition depth_bounded (bound : nat) : Prop :=
  ∀ (T : Transport) (now : Z) (fuel : nat) (share_id share_token target : string)
    (w : world) (r : list crumb) (w' : world),
    _bfs_share_path now fuel share_id share_token target w = (Ret (Some r), w') →
    (length r ≤ bound)%nat.

(** The listing loop is the one the specification words. *)
Definition paginates_as_specified : Prop :=
  ∀ (T : Transport) (now : Z) (iso_millis : string → option Z) (fuel : nat)
    (pwd_id stoken parent_file_id : string) (w : world),
    get_detail_loop now iso_millis fuel pwd_id stoken parent_file_id "" [] w
    = get_detail_loop_spec now iso_millis fuel pwd_id stoken parent_file_id "" [] w.

(** The [while queue] loop as a function of the listings [ls]: its result
    and the directories it listed, in order. *)
Fixpoint bfs_search (ls : string → list item) (target_file_id : string) (fuel : nat)
    (queue : list (string * list crumb)) (visited : gset string)
    : option (list crumb) * list string :=
  match fuel with
  | O => (None, [])
  | S fuel' =>
      match queue with
      | [] => (Some [], [])
      | (current_id, current_path) :: queue' =>
          match bfs_scan target_file_id current_path (ls current_id) queue' visited with
          | inl found => (Some found, [current_id])
          | inr (queue'', visited') =>
              let '(r, trace) := bfs_search ls target_file_id fuel' queue'' visited' in
              (r, current_id :: trace)
          end
      end
  end.

(** [its] leads from the directory [c] down to the target: each entry is
    listed in the directory before it, all but the last are folders other
    than the target, the last is the target. *)
Inductive descends (ls : string → list item) (target : string)
    : string → list item → Prop :=
| descends_here c it :
    it ∈ ls c → i_file_id it = target → descends ls target c [it]
| descends_down c it rest :
    it ∈ ls c → is_folder it = true → i_file_id it ≠ target →
    descends ls target (i_file_id it) rest →
    descends ls target c (it :: rest).

(** The listings describe a tree: an id is placed in one directory only
    and stands for one entry there, and the root is nobody's child. *)
Definition tree_like (ls : string → list item) : Prop :=
  (∀ c c' it it', it ∈ ls c → it' ∈ ls c' → i_file_id it = i_file_id it' →
     c = c' ∧ it = it')
  ∧ (∀ c it, it ∈ ls c → i_file_id it ≠ "root").

(** *** Notions the statements about the resolver and the listing use *)

(** The directories a run listed: the [parent_file_id] of every
    [list_by_share] request in a log. *)
Definition listed (log : list request) : list string :=
  omap (λ r, if bool_decide (req_url r = API_HOST +:+ ADRIVE_V2_FILE_LIST_BY_SHARE)
             then dict_get "parent_file_id" (req_body r) else None) log.

End Aliyun.

(** ** [adapters/aliyun_adapter.py]: the constructor and the user's drive *)

Module AliyunDrive.
Import Py Cfg Aliyun.
Local Open Scope Z_scope.
Local Open Scope M_scope.

Definition V2_FILE_LIST := "/v2/file/list".
Definition V2_FILE_CREATE := "/v2/file/create".

Definition slash : ascii := ascii_of_nat 47.

(** [s.strip("/")] and the like: the leading and trailing occurrences of
    one character are dropped. *)
Fixpoint lstrip_char (c : ascii) (s : string) : string :=
  match s with
  | String c' rest => if decide (c' = c) then lstrip_char c rest else s
  | "" => ""
  end.

Definition strip_char (c : ascii) (s : string) : string :=
  String.rev (lstrip_char c (String.rev (lstrip_char c s))).

(** [[p for p in path.strip("/").split("/") if p]] *)
Definition path_parts (path : string) : list string :=
  filter (λ p, truthy p = true) (split slash (strip_char slash path)).

(** An entry of the list [get_fids] returns: ["file_path"] and ["fid"]. *)
Record fid_entry := FidEntry {
  file_path : string;
  fid : string;
}.

(** The result dictionary of [mkdir]: ["code"], ["message"] and, on
    success, ["data"] with its ["fid"] and ["file_name"] ([None] is
    Python's [None]). *)
Record mkdir_result := MkdirResult {
  mk_code : Z;
  mk_message : string;
  mk_data : option (option string * option string);
}.

Section WithProvider.
Context `{Transport}.
Context (now : Z).

(** [_init_token] *)
Definition _init_token : M unit :=
  try_return (_do_refresh_token now;; ret tt) (λ _, tt).

(** [AliyunAdapter(cookie, index, account_name)]: the fields of the new
    object are set, then the token is fetched when there is a refresh
    token.  [account_name] is [None] when the argument is left out, and
    [account_name or ""] is then the empty string. *)
Definition __init__ (cookie : string) (index : Z) (account_name : option string)
    : M unit :=
  set_self (Adapter (if truthy cookie then strip cookie else "") None
              (default "" account_name) None (index + 1) false "");;
  a ← get_self;
  if truthy (_refresh_token a) then _init_token else ret tt.

(** [_find_by_name]: the first entry of the one page listed that has the
    name and, when a type is asked for, the type.  The callers pass a
    non-empty [name], which an entry without a ["name"] key does not
    match. *)
Definition _find_by_name (drive_id parent_id name : string) (file_type : option string)
    : M (option item) :=
  try_return
    (resp ← _request now "POST" V2_FILE_LIST API_HOST
              [("drive_id", drive_id); ("parent_file_id", parent_id); ("limit", "100")]
              [] false;
     let data := _check_response resp in
     ret (List.find
            (λ it, bool_decide (i_name it = name)
                   && match file_type with
                      | None => true
                      | Some t => bool_decide (i_type it = t)
                      end)
            (d_items data)))
    (λ _, None).

(** The [for name in parts] loop of [get_fids]: the id reached, [None]
    when a component is not found.  The id of an entry without a
    ["file_id"] key, Python's [None], reads [""] here. *)
Fixpoint walk (drive_id parent_id : string) (parts : list string) : M (option string) :=
  match parts with
  | [] => ret (Some parent_id)
  | name :: rest =>
      item ← _find_by_name drive_id parent_id name None;
      match item with
      | Some it => walk drive_id (i_file_id it) rest
      | None => ret None
      end
  end.

(** The [for path in file_paths] loop of [get_fids]. *)
Fixpoint get_fids_loop (drive_id : string) (file_paths : list string)
    (results : list fid_entry) : M (list fid_entry) :=
  match file_paths with
  | [] => ret results
  | path :: rest =>
      if negb (truthy path) || bool_decide (path = "/")
      then get_fids_loop drive_id rest (results ++ [FidEntry "/" "root"])%list
      else
        found ← walk drive_id "root" (path_parts path);
        match found with
        | Some parent_id =>
            get_fids_loop drive_id rest (results ++ [FidEntry path parent_id])%list
        | None => get_fids_loop drive_id rest results
        end
  end.

Definition get_fids (file_paths : list string) : M (list fid_entry) :=
  ok ← _ensure_token_valid now;
  if negb ok then ret []
  else
    a ← get_self;
    match _token a with
    | Some t => get_fids_loop (default_drive_id t) file_paths []
    | None => raise "AttributeError"
    end.

(** What [get_fids] owes for a list of paths, from a world on: the paths
    are looked up in order, each from ["root"] and in the world the lookups
    before it left.  A path given as [""] or ["/"] is reported as ["/"]
    with the id ["root"]; a path whose components are all found is reported
    under its spelling with the id reached; a path with a component that
    is not found is left out. *)
Inductive looked_up (drive_id : string)
    : world → list string → list fid_entry → world → Prop :=
| looked_up_nil w :
    looked_up drive_id w [] [] w
| looked_up_root w path rest results w' :
    negb (truthy path) || bool_decide (path = "/") = true →
    looked_up drive_id w rest results w' →
    looked_up drive_id w (path :: rest) (FidEntry "/" "root" :: results) w'
| looked_up_found w path parent_id w1 rest results w' :
    negb (truthy path) || bool_decide (path = "/") = false →
    walk drive_id "root" (path_parts path) w = (Ret (Some parent_id), w1) →
    looked_up drive_id w1 rest results w' →
    looked_up drive_id w (path :: rest) (FidEntry path parent_id :: results) w'
| looked_up_missing w path w1 rest results w' :
    negb (truthy path) || bool_decide (path = "/") = false →
    walk drive_id "root" (path_parts path) w = (Ret None, w1) →
    looked_up drive_id w1 rest results w' →
    looked_up drive_id w (path :: rest) results w'.

(** One round of the [for name in parts] loop of [mkdir]: the result
    returned from inside the loop, or the new [parent_id]. *)
Definition mkdir_step (drive_id parent_id name : string) : M (mkdir_result + string) :=
  existing ← _find_by_name drive_id parent_id name (Some "folder");
  match existing with
  | Some it => ret (inr (i_file_id it))
  | None =>
      resp ← _request now "POST" V2_FILE_CREATE API_HOST
                [("drive_id", drive_id); ("parent_file_id", parent_id); ("name", name);
                 ("type", "folder"); ("check_name_mode", "refuse")]
                [] false;
      let data := _check_response resp in
      existing ←
        (if bool_decide (d_code data = "AlreadyExist.File")
         then _find_by_name drive_id parent_id name (Some "folder")
         else ret None);
      match existing with
      | Some it => ret (inr (i_file_id it))
      | None =>
          if truthy (d_code data)
          then ret (inl (MkdirResult 1 (_get_error_message (d_code data)) None))
          else ret (inr (default parent_id (dict_get "file_id" (d_extra data))))
      end
  end.

Fixpoint mkdir_loop (drive_id parent_id : string) (parts : list string)
    (created : option string * option string) : M mkdir_result :=
  match parts with
  | [] => ret (MkdirResult 0 "success" (Some created))
  | name :: rest =>
      step ← mkdir_step drive_id parent_id name;
      match step with
      | inl error => ret error
      | inr parent_id' => mkdir_loop drive_id parent_id' rest (Some parent_id', Some name)
      end
  end.

Definition mkdir (dir_path : string) : M mkdir_result :=
  ok ← _ensure_token_valid now;
  if negb ok then ret (MkdirResult 1 "Token 无效" None)
  else
    try_return
      (let parts := path_parts dir_path in
       if bool_decide (parts = []) then ret (MkdirResult 1 "目录路径无效" None)
       else
         a ← get_self;
         match _token a with
         | Some t => mkdir_loop (default_drive_id t) "root" parts (None, None)
         | None => raise "AttributeError"
         end)
      (λ e, MkdirResult 1 e None).

End WithProvider.

(** *** Notions the statements about the drive use *)

(** The path under which [get_fids] reports a path asked for. *)
Definition reported (path : string) : string :=
  if negb (truthy path) || bool_decide (path = "/") then "/" else path.

End AliyunDrive.

(** ** [app/run.py]: refreshing an aliyun token on request *)

Module RunAliyun.
Import Py Cfg Aliyun AliyunDrive.
Local Open Scope Z_scope.
Local Open Scope M_scope.

(** The answers of [aliyun_token_refresh] with multi-drive support on:
    no account, a failed or raising refresh, or success with the
    ["refresh_token"] and the ["user_info"] of the answer.  [written] tells
    whether the configuration was written and the factory's cache
    cleared. *)
Inductive refresh_answer :=
| NoAliyunAccount
| RefreshFailed
| RefreshError (e : string)
| Refreshed (refresh_token : string) (user_info : account_info) (written : bool).

(** [target_account["cookie"] = new_token] on the first account the search
    stops at. *)
Fixpoint set_cookie (account_name new_token : string) (accounts : list account)
    : list account :=
  match accounts with
  | [] => []
  | acc :: rest =>
      if Run.is_target "aliyun" account_name acc
      then Account (acc_enabled acc) (acc_name acc) (acc_drive_type acc)
             (Some new_token) (acc_default acc) (acc_token_updated_at acc) :: rest
      else acc :: set_cookie account_name new_token rest
  end.

Section WithProvider.
Context `{Transport}.
Context (now : Z).

(** [Config.write_json(CONFIG_PATH, config_data)] *)
Definition write_json (accounts : list account) : M unit := λ w,
  (Ret tt, World (self w) (Some accounts) (saver_installed w) (http_log w)).

(** [aliyun_token_refresh]: [config_data] holds the accounts of the
    configuration in memory; the answer comes with the accounts in memory
    afterwards.  The adapter the route constructs is the object of the
    world. *)
Definition aliyun_token_refresh (account_name : string) (config_data : list account)
    : M (refresh_answer * list account) :=
  match List.find (Run.is_target "aliyun" account_name) config_data with
  | None => ret (NoAliyunAccount, config_data)
  | Some target_account =>
      try_return
        (__init__ now (default "" (acc_cookie target_account)) 0
           (Some (default "" (acc_name target_account)));;
         result ← init now;
         match result with
         | Some user_info =>
             a ← get_self;
             let new_token := _refresh_token a in
             if truthy new_token
                && bool_decide (new_token ≠ default "" (acc_cookie target_account))
             then
               let config_data' := set_cookie account_name new_token config_data in
               write_json config_data';;
               ret (Refreshed new_token user_info true, config_data')
             else ret (Refreshed new_token user_info false, config_data)
         | None => ret (RefreshFailed, config_data)
         end)
        (λ e, (RefreshError e, config_data))
  end.

End WithProvider.

(** *** Notions the statements about the route use *)

(** The provider answers the token request for a refresh token with a
    grant, whatever headers the request carries. *)
Definition grants `{Transport} (refresh_token : string) (t : token_json) : Prop :=
  ∀ headers, ∃ resp d,
    http (Request "POST" (API_HOST +:+ V2_ACCOUNT_TOKEN) headers
            [("refresh_token", refresh_token); ("grant_type", "refresh_token")])
    = Ret resp
    ∧ json resp = Some d ∧ d_token d = Some t.

End RunAliyun.

(** ** [adapters/xunlei_adapter.py] *)

Module Xunlei.
Import Py Cfg.
Local Open Scope Z_scope.

Definition API_BASE := "https://api-pan.xunlei.com".
Definition AUTH_BASE := "https://xluser-ssl.xunlei.com".
Definition CLIENT_ID := "Xqp0kJBXWhwaTpB6".
Definition DEVICE_ID := "925b7631473a13716b791d7f28289cad".

Definition ERROR_CODES : list (string * string) :=
  [ ("ALREADY_EXISTED", "文件已存在");
    ("FORBIDDEN", "无权限操作");
    ("NOT_FOUND", "资源不存在");
    ("INVALID_ARGUMENT", "参数错误");
    ("UNAUTHENTICATED", "认证失败，请重新登录");
    ("PERMISSION_DENIED", "权限不足");
    ("RESOURCE_EXHAUSTED", "配额已用尽");
    ("SENSITIVE_RESOURCE", "该分享内容可能涉及违规信息，无法访问");
    ("WRONG_PASS_CODE", "提取码错误") ].

Record request := Request {
  req_method : string;
  req_url : string;
  req_body : list (string * string);
}.

(** A decoded JSON object of the provider with the keys the adapter reads;
    an [option] field is [None] when the key is absent. *)
Record api_data := ApiData {
  d_access_token : option string;
  d_expires_in : option Z;
  d_refresh_token : string;
  d_user_id : string;
  d_user_name : string;
  d_captcha_token : option string;
  d_error : option string;
  d_error_description : option string;
  d_has_error_code : bool;
  d_share_status : string;
  d_share_status_text : option string;
  d_pass_code_token : string;
}.

Definition empty_data : api_data :=
  ApiData None None "" "" "" None None None false "" None "".

(** [json] is [None] when the body does not decode. *)
Record response := Response {
  json : option api_data;
}.

Class Transport := http : request → outcome response.

Record adapter := Adapter {
  _refresh_token : string;
  _account_name : string;
  _access_token : string;
  _access_token_expire : Z;
  _captcha_token : string;
  _captcha_token_expire : Z;
  _token_updated_at : Z;
  _user_id : string;
  _user_name : string;
  hdr_authorization : option string;
  hdr_captcha_token : option string;
  index : Z;
  is_active : bool;
  nickname : string;
}.

Record world := World {
  self : adapter;
  config_file : ConfigSaver.config_file;
  saver_installed : bool;
  http_log : list request;
}.

Abbreviation M := (Py.M world).
Local Open Scope M_scope.

Definition get_self : M adapter := λ w, (Ret (self w), w).

Definition set_self (a : adapter) : M unit := λ w,
  (Ret tt, World a (config_file w) (saver_installed w) (http_log w)).

Definition logged (req : request) (w : world) : world :=
  World (self w) (config_file w) (saver_installed w) (http_log w ++ [req]).

Definition send `{Transport} (req : request) : M response := λ w,
  (http req, logged req w).

(** [resp.json()] *)
Definition decode (resp : response) : M api_data :=
  match json resp with
  | Some d => ret d
  | None => raise "JSONDecodeError"
  end.

Inductive payload :=
| NoData
| StokenData (stoken share_id : string) (share_info : api_data).

Record result := Result {
  r_status : option Z;
  r_code : Z;
  r_message : string;
  r_data : payload;
}.

Section WithProvider.
Context `{Transport}.
Context (now : Z).

(** [_save_refresh_token] *)
Definition _save_refresh_token : M unit := λ w,
  if saver_installed w then
    let a := self w in
    (Ret tt,
     World (Adapter (_refresh_token a) (_account_name a) (_access_token a)
              (_access_token_expire a) (_captcha_token a) (_captcha_token_expire a)
              now (_user_id a) (_user_name a) (hdr_authorization a)
              (hdr_captcha_token a) (index a) (is_active a) (nickname a))
       (ConfigSaver.xunlei_save_config (_refresh_token a) (Some (_account_name a))
          now (config_file w)).2
       (saver_installed w) (http_log w))
  else (Ret tt, w).

Definition token_request (a : adapter) : request :=
  Request "POST" (AUTH_BASE +:+ "/v1/auth/token")
    [("client_id", CLIENT_ID); ("grant_type", "refresh_token");
     ("refresh_token", _refresh_token a)].

Definition _refresh_access_token : M bool :=
  a ← get_self;
  if negb (truthy (_refresh_token a)) then ret false
  else
    try_return
      (resp ← send (token_request a);
       result ← decode resp;
       match d_access_token result with
       | None => ret false
       | Some access_token =>
           let expire := now + default 7200 (d_expires_in result) - 120 in
           let new_refresh := d_refresh_token result in
           let rotated := truthy new_refresh
                          && bool_decide (new_refresh ≠ _refresh_token a) in
           set_self (Adapter (if rotated then new_refresh else _refresh_token a)
                       (_account_name a) access_token expire
                       (_captcha_token a) (_captcha_token_expire a)
                       (_token_updated_at a) (_user_id a) (_user_name a)
                       (hdr_authorization a) (hdr_captcha_token a)
                       (index a) (is_active a) (nickname a));;
           (if rotated then _save_refresh_token else ret tt);;
           a ← get_self;
           set_self (Adapter (_refresh_token a) (_account_name a) (_access_token a)
                       (_access_token_expire a) (_captcha_token a)
                       (_captcha_token_expire a) (_token_updated_at a)
                       (d_user_id result) (d_user_name result)
                       (Some ("Bearer " +:+ access_token)) (hdr_captcha_token a)
                       (index a) (is_active a) (nickname a));;
           ret true
       end)
      (λ _, false).

Definition captcha_request (a : adapter) : request :=
  Request "POST" (AUTH_BASE +:+ "/v1/shield/captcha/init")
    [("client_id", CLIENT_ID); ("action", "get:/drive/v1/share");
     ("device_id", DEVICE_ID);
     ("user_id", if truthy (_user_id a) then _user_id a else "0")].

Definition _refresh_captcha_token : M bool :=
  a ← get_self;
  try_return
    (resp ← send (captcha_request a);
     result ← decode resp;
     match d_captcha_token result with
     | None => ret false
     | Some captcha_token =>
         set_self (Adapter (_refresh_token a) (_account_name a) (_access_token a)
                     (_access_token_expire a) captcha_token
                     (now + default 300 (d_expires_in result) - 10)
                     (_token_updated_at a) (_user_id a) (_user_name a)
                     (hdr_authorization a) (Some captcha_token)
                     (index a) (is_active a) (nickname a));;
         ret true
     end)
    (λ _, false).

(** [self._access_token and time.time() < self._access_token_expire] *)
Definition access_ok (a : adapter) : bool :=
  truthy (_access_token a) && bool_decide (now < _access_token_expire a).

Definition captcha_ok (a : adapter) : bool :=
  truthy (_captcha_token a) && bool_decide (now < _captcha_token_expire a).

(** [_ensure_tokens_valid], run by one thread. *)
Definition _ensure_tokens_valid : M bool :=
  a ← get_self;
  if access_ok a && captcha_ok a then ret true
  else
    a ← get_self;
    let access_ok' := access_ok a in
    let captcha_ok' := captcha_ok a in
    refreshed ← (if negb access_ok' then _refresh_access_token else ret true);
    if negb refreshed then ret false
    else
      refreshed ← (if negb captcha_ok' then _refresh_captcha_token else ret true);
      if negb refreshed then ret false else ret true.

Definition token_invalid : api_data :=
  ApiData None None "" "" "" None (Some "TokenInvalid") (Some "Token 无效")
    false "" None "".

Definition request_error (e : string) : api_data :=
  ApiData None None "" "" "" None (Some "RequestError") (Some e) false "" None "".

(** [_request]: the three branches on [method.upper()] differ in the
    [requests] call they make, not in what happens to the answer. *)
Definition _request (method url : string) (body : list (string * string))
    : M api_data :=
  ok ← _ensure_tokens_valid;
  if negb ok then ret token_invalid
  else
    try_return
      (resp ← send (Request method url body);
       decode resp)
      request_error.

Definition _get_error_message (result : api_data) : string :=
  match d_error_description result with
  | Some msg => msg
  | None =>
      match d_error result with
      | Some code => default code (dict_get code ERROR_CODES)
      | None =>
          match d_share_status_text result with
          | Some text => text
          | None => "未知错误"
          end
      end
  end.

Definition _has_error (result : api_data) : bool :=
  bool_decide (is_Some (d_error result)) || d_has_error_code result.

Definition get_stoken (pwd_id passcode : string) : M result :=
  try_return
    (result ← _request "GET" (API_BASE +:+ "/drive/v1/share")
                [("share_id", pwd_id); ("pass_code", passcode); ("limit", "100");
                 ("pass_code_token", ""); ("page_token", "");
                 ("thumbnail_size", "SIZE_SMALL")];
     if _has_error result then
       ret (Result (Some 400) 1 (_get_error_message result) NoData)
     else
       let share_status := d_share_status result in
       if truthy share_status && bool_decide (share_status ≠ "OK") then
         let status_text := default "" (d_share_status_text result) in
         let status_text :=
           if bool_decide (share_status = "SENSITIVE_RESOURCE")
           then default "" (dict_get "SENSITIVE_RESOURCE" ERROR_CODES)
           else status_text in
         ret (Result (Some 400) 1
                (if truthy status_text then status_text else "分享已失效") NoData)
       else
         ret (Result (Some 200) 0 "success"
                (StokenData (d_pass_code_token result) pwd_id result)))
    (λ e, Result (Some 500) 1 e NoData).

(** [init]: [None] is [False], [Some] the account dictionary's nickname. *)
Definition init : M (option string) :=
  a ← get_self;
  if negb (truthy (_refresh_token a)) then ret None
  else
    ok ← _refresh_access_token;
    if negb ok then ret None
    else
      _refresh_captcha_token;;
      a ← get_self;
      let nick := if truthy (_user_name a) then _user_name a
                  else "迅雷用户" +:+ pretty (index a) in
      set_self (Adapter (_refresh_token a) (_account_name a) (_access_token a)
                  (_access_token_expire a) (_captcha_token a)
                  (_captcha_token_expire a) (_token_updated_at a)
                  (_user_id a) (_user_name a) (hdr_authorization a)
                  (hdr_captcha_token a) (index a) true nick);;
      ret (Some nick).

End WithProvider.
End Xunlei.

(** ** [adapters/xunlei_adapter.py]: reading a share link *)

Module XunleiUrl.
Import Py.

(** The character classes of the patterns, which hold ASCII characters
    only: [[a-zA-Z0-9]] and [[a-zA-Z0-9_-]]. *)
Definition is_alnum (c : ascii) : bool :=
  let n := nat_of_ascii c in
  (((48 <=? n) && (n <=? 57)) || ((65 <=? n) && (n <=? 90))
   || ((97 <=? n) && (n <=? 122)))%nat.

Definition is_id_char (c : ascii) : bool :=
  is_alnum c || bool_decide (c = "_"%char) || bool_decide (c = "-"%char).

(** The longest prefix of characters of a class: what a greedy [[...]+]
    takes. *)
Fixpoint span (cls : ascii → bool) (s : string) : string :=
  match s with
  | String c rest => if cls c then String c (span cls rest) else ""
  | "" => ""
  end.

(** The text after a literal the string starts with. *)
Fixpoint after_prefix (literal s : string) : option string :=
  match literal with
  | "" => Some s
  | String a literal' =>
      match s with
      | String b s' => if decide (a = b) then after_prefix literal' s' else None
      | "" => None
      end
  end.

(** A match of [(?:l1|l2|...)([cls]+)] at the start of the string: its
    group.  The alternatives are tried in order. *)
Fixpoint match_here (literals : list string) (cls : ascii → bool) (s : string)
    : option string :=
  match literals with
  | [] => None
  | literal :: others =>
      match after_prefix literal s with
      | Some rest =>
          if truthy (span cls rest) then Some (span cls rest)
          else match_here others cls s
      | None => match_here others cls s
      end
  end.

(** [re.search] for such a pattern: the group of the leftmost match. *)
Fixpoint re_search_group (literals : list string) (cls : ascii → bool) (s : string)
    : option string :=
  match match_here literals cls s with
  | Some group => Some group
  | None =>
      match s with
      | "" => None
      | String _ rest => re_search_group literals cls rest
      end
  end.

(** [s.split(sep)[-1]] for a separator no proper suffix of which is a
    prefix of it, such as ["#/list/share/"]: the text after its last
    occurrence, and [s] itself when there is none. *)
Fixpoint last_piece (sep s : string) : string :=
  match s with
  | "" => ""
  | String c rest =>
      if contains sep rest then last_piece sep rest
      else match after_prefix sep s with
           | Some piece => piece
           | None => s
           end
  end.

Definition question : ascii := ascii_of_nat 63.
Definition hash : ascii := ascii_of_nat 35.

Section WithRe.
(** [re.match(r"(\w+)", s)], a library call whose class [\w] reaches
    beyond ASCII: the group when the string starts with a word character. *)
Context (re_match_word : string → option string).

(** [extract_url]: [pwd_id], [passcode], [pdir_fid]; [paths] is always the
    empty list. *)
Definition extract_url (url : string) : option string * string * string :=
  let pwd_id :=
    match re_search_group ["pan.xunlei.com/s/"] is_id_char url with
    | Some pwd_id =>
        let pwd_id :=
          if contains "?" pwd_id then default "" (head (split question pwd_id))
          else pwd_id in
        let pwd_id :=
          if contains "#" pwd_id then default "" (head (split hash pwd_id))
          else pwd_id in
        Some pwd_id
    | None => None
    end in
  let passcode :=
    default "" (re_search_group ["pwd="; "password="] is_alnum url) in
  let pdir_fid :=
    if contains "#/list/share/" url
    then default "0" (re_match_word (last_piece "#/list/share/" url))
    else "0" in
  (pwd_id, passcode, pdir_fid).

End WithRe.

(** *** Notions the statements about links use *)

(** Every character of the string is of the class. *)
Fixpoint all_chars (cls : ascii → bool) (s : string) : bool :=
  match s with
  | "" => true
  | String c rest => cls c && all_chars cls rest
  end.

End XunleiUrl.

(** ** The result contract of adapter operations *)

Module Contract.
Import Py.
Local Open Scope Z_scope.

(** What an operation hands to its caller, as far as the contract goes:
    Python's [False], or a dictionary with its ["code"] and ["message"]
    entries when it has them. *)
Inductive returned :=
| PyFalse
| PyDict (code : option Z) (message : option string).

(** A tagged failure: a dictionary carrying a non-zero code and a
    message. *)
Definition tagged_failure (v : returned) : Prop :=
  ∃ c m, v = PyDict (Some c) (Some m) ∧ c ≠ 0.

Definition of_aliyun_result (r : Aliyun.result) : returned :=
  PyDict (Some (Aliyun.r_code r)) (Some (Aliyun.r_message r)).

(** The account dictionary of a successful [init] has neither key. *)
Definition of_aliyun_init (v : option Aliyun.account_info) : returned :=
  match v with
  | Some _ => PyDict None None
  | None => PyFalse
  end.

(** The contract read on [init]: a run that does not log the account in
    hands back a tagged failure. *)
Definition init_failure_tagged `{Aliyun.Transport} (now : Z) (w : Aliyun.world) : Prop :=
  ∀ v w', Aliyun.init now w = (Ret v, w') →
    Aliyun.is_active (Aliyun.self w') = false →
    tagged_failure (of_aliyun_init v).

(** A provider whose token endpoint rejects the refresh token. *)
Definition rejecting : Aliyun.Transport := λ _,
  Ret (Aliyun.Response 400
         (Some (Aliyun.ApiData "RefreshTokenExpired" (Some "expired") [] "" "" "" None []))
         "").

(** A fresh adapter holding a refresh token, before any request. *)
Definition fresh_aliyun (refresh_token : string) : Aliyun.world :=
  Aliyun.World (Aliyun.Adapter refresh_token None "" None 1 false "") None false [].

End Contract.

(** ** [adapters/cloud115_adapter.py]: browsing a share *)

Module Cloud115.
Import Py.
Local Open Scope Z_scope.

(** An entry of a [share/snap] listing.  A folder has no ["fid"] key and
    its own id under ["cid"]; a file has its id under ["fid"].  [i_t] is
    [None] when ["t"] does not read as an integer. *)
Record item := Item {
  i_fid : option string;
  i_cid : string;
  i_n : string;
  i_s : Z;
  i_t : option Z;
  i_ico : string;
}.

(** A decoded answer: ["state"], ["error"] and ["data"]["list"]. *)
Record snap_data := SnapData {
  d_state : bool;
  d_error : option string;
  d_list : list item;
}.

Inductive request :=
| SharePage (share_code receive_code : string)
| Snap (share_code : string) (offset limit : Z) (cid receive_code : string).

(** [json] is [None] when the body does not decode. *)
Record response := Response {
  status_code : Z;
  json : option snap_data;
}.

Class Transport := http : request → outcome response.

(** Browsing a share touches no field of the adapter: the world is the log
    of the requests sent. *)
Abbreviation M := (Py.M (list request)).
Local Open Scope M_scope.

Definition send `{Transport} (req : request) : M response := λ log,
  (http req, (log ++ [req])%list).

Record crumb := Crumb {
  fid : string;
  file_name : string;
}.

Record file_info := FileInfo {
  fi_fid : string;
  fi_file_name : string;
  fi_file_type : Z;
  fi_dir : bool;
  fi_size : Z;
  fi_updated_at : Z;
  fi_share_fid_token : string;
  fi_obj_category : string;
}.

(** A result dictionary of [get_detail]: ["code"], ["message"],
    ["data"]["list"], ["data"]["full_path"] and ["metadata"]["_total"] when
    present. *)
Record result := Result {
  r_code : Z;
  r_message : string;
  r_list : list file_info;
  r_full_path : option (list crumb);
  r_total : option nat;
}.

Definition to_lower (c : ascii) : ascii :=
  let n := nat_of_ascii c in
  if ((65 <=? n) && (n <=? 90))%nat then ascii_of_nat (n + 32) else c.

Fixpoint lower (s : string) : string :=
  match s with
  | "" => ""
  | String c rest => String (to_lower c) (lower rest)
  end.

Definition categories : list (string * list string) :=
  [ ("video", ["mp4"; "mkv"; "avi"; "mov"; "wmv"; "flv"; "rmvb"; "ts"]);
    ("audio", ["mp3"; "wav"; "flac"; "aac"; "ogg"]);
    ("image", ["jpg"; "jpeg"; "png"; "gif"; "bmp"; "webp"]);
    ("doc", ["doc"; "docx"; "pdf"; "txt"; "xls"; "xlsx"; "ppt"; "pptx"]);
    ("archive", ["zip"; "rar"; "7z"; "tar"; "gz"]) ].

Definition _get_category (ico : string) : string :=
  if negb (truthy ico) then ""
  else
    default ""
      (fst <$> List.find (λ ce, bool_decide (lower ico ∈ ce.2)) categories).

Definition is_dir (it : item) : bool := bool_decide (i_fid it = None).

(** [_convert_share_item]; [int(item.get("t", 0))] raises on a value that
    is no integer. *)
Definition _convert_share_item (it : item) : outcome file_info :=
  let own_id := if is_dir it then i_cid it else default "" (i_fid it) in
  match i_t it with
  | None => Raise "ValueError"
  | Some t =>
      Ret (FileInfo own_id (i_n it) (if is_dir it then 0 else 1) (is_dir it)
             (i_s it) (t * 1000) own_id (_get_category (i_ico it)))
  end.

(** The entries [_convert_share_item] converts without raising. *)
Definition converted (it : item) : file_info :=
  let own_id := if is_dir it then i_cid it else default "" (i_fid it) in
  FileInfo own_id (i_n it) (if is_dir it then 0 else 1) (is_dir it)
    (i_s it) (default 0 (i_t it) * 1000) own_id (_get_category (i_ico it)).

(** [for item in file_list: list_merge.append(self._convert_share_item(item))] *)
Fixpoint convert_all (items : list item) (list_merge : list file_info)
    : outcome (list file_info) :=
  match items with
  | [] => Ret list_merge
  | it :: rest =>
      match _convert_share_item it with
      | Ret fi => convert_all rest (list_merge ++ [fi])%list
      | Raise e => Raise e
      end
  end.

Section WithProvider.
Context `{Transport}.

(** [_safe_json] *)
Definition _safe_json (resp : response) : snap_data :=
  match json resp with
  | Some data => data
  | None => SnapData false (Some "响应解析失败，可能Cookie已失效或被限流") []
  end.

(** [_create_share_session]: the share page is visited and a failure of
    that visit is only logged. *)
Definition _create_share_session (share_code receive_code : string) : M unit :=
  try_return (send (SharePage share_code receive_code);; ret tt) (λ _, tt).

(** The [for item in file_list] loop of [_resolve_share_path]. *)
Fixpoint resolve_scan (target_cid : string) (current_path : list crumb)
    (file_list : list item) (next_queue : list (string * list crumb))
    : list crumb + list (string * list crumb) :=
  match file_list with
  | [] => inr next_queue
  | it :: rest =>
      if negb (is_dir it) then resolve_scan target_cid current_path rest next_queue
      else
        let item_cid := i_cid it in
        let new_path := (current_path ++ [Crumb item_cid (i_n it)])%list in
        if decide (item_cid = target_cid) then inl new_path
        else resolve_scan target_cid current_path rest
               (next_queue ++ [(item_cid, new_path)])%list
  end.

(** What one iteration of a [while True] paging loop decides. *)
Inductive page_step (A : Type) :=
| Found (a : A)
| Break
| NextPage.
Arguments Found {A} a.
Arguments Break {A}.
Arguments NextPage {A}.

(** The [while True] loop over the pages of one directory in
    [_resolve_share_path]; [None] when [fuel] pages did not end it. *)
Fixpoint resolve_pages (fuel : nat) (share_code receive_code target_cid : string)
    (current_cid : string) (current_path : list crumb) (offset limit : Z)
    (next_queue : list (string * list crumb))
    : M (option (list crumb + list (string * list crumb))) :=
  match fuel with
  | O => ret None
  | S fuel' =>
      step ← try_return
        (resp ← send (Snap share_code offset limit current_cid receive_code);
         let data := _safe_json resp in
         if negb (d_state data) then ret (Break, next_queue)
         else
           let file_list := d_list data in
           if bool_decide (file_list = []) then ret (Break, next_queue)
           else
             match resolve_scan target_cid current_path file_list next_queue with
             | inl new_path => ret (Found new_path, next_queue)
             | inr next_queue' =>
                 if bool_decide (Z.of_nat (length file_list) < limit)
                 then ret (Break, next_queue')
                 else ret (NextPage, next_queue')
             end)
        (λ _, (Break, next_queue));
      match step with
      | (Found new_path, _) => ret (Some (inl new_path))
      | (Break, next_queue') => ret (Some (inr next_queue'))
      | (NextPage, next_queue') =>
          resolve_pages fuel' share_code receive_code target_cid current_cid
            current_path (offset + limit) limit next_queue'
      end
  end.

(** The [for current_cid, current_path in queue] loop. *)
Fixpoint resolve_level (fuel : nat) (share_code receive_code target_cid : string)
    (queue next_queue : list (string * list crumb))
    : M (option (list crumb + list (string * list crumb))) :=
  match queue with
  | [] => ret (Some (inr next_queue))
  | (current_cid, current_path) :: rest =>
      r ← resolve_pages fuel share_code receive_code target_cid current_cid
            current_path 0 50 next_queue;
      match r with
      | None => ret None
      | Some (inl new_path) => ret (Some (inl new_path))
      | Some (inr next_queue') =>
          resolve_level fuel share_code receive_code target_cid rest next_queue'
      end
  end.

(** The [for _ in range(max_depth)] loop. *)
Fixpoint resolve_depth (fuel : nat) (share_code receive_code target_cid : string)
    (max_depth : nat) (queue : list (string * list crumb))
    : M (option (list crumb)) :=
  match max_depth with
  | O => ret (Some [])
  | S depth' =>
      r ← resolve_level fuel share_code receive_code target_cid queue [];
      match r with
      | None => ret None
      | Some (inl new_path) => ret (Some new_path)
      | Some (inr next_queue) =>
          if bool_decide (next_queue = []) then ret (Some [])
          else resolve_depth fuel share_code receive_code target_cid depth' next_queue
      end
  end.

(** [_resolve_share_path]; [fuel] bounds the pages read per directory. *)
Definition _resolve_share_path (fuel : nat) (share_code receive_code target_cid : string)
    (max_depth : nat) : M (option (list crumb)) :=
  resolve_depth fuel share_code receive_code target_cid max_depth [("", [])].

(** The [while True] loop of [get_detail]: an error result returned from
    inside the loop, or the merged list. *)
Fixpoint get_detail_loop (fuel : nat) (share_code receive_code cid : string)
    (offset limit : Z) (list_merge : list file_info)
    : M (option (result + list file_info)) :=
  match fuel with
  | O => ret None
  | S fuel' =>
      step ← try_return
        (resp ← send (Snap share_code offset limit cid receive_code);
         let data := _safe_json resp in
         if negb (d_state data) then
           ret (Found (Result 1 (default "获取分享信息失败" (d_error data)) [] None None),
                list_merge)
         else
           let file_list := d_list data in
           if bool_decide (file_list = []) then ret (Break, list_merge)
           else
             match convert_all file_list list_merge with
             | Raise e => raise e
             | Ret list_merge' =>
                 if bool_decide (Z.of_nat (length file_list) < limit)
                 then ret (Break, list_merge')
                 else ret (NextPage, list_merge')
             end)
        (λ e, (Found (Result 1 ("获取分享详情失败: " +:+ e) [] None None), list_merge));
      match step with
      | (Found error, _) => ret (Some (inl error))
      | (Break, list_merge') => ret (Some (inr list_merge'))
      | (NextPage, list_merge') =>
          get_detail_loop fuel' share_code receive_code cid (offset + limit) limit
            list_merge'
      end
  end.

Definition colon : ascii := ascii_of_nat 58.

(** [parts = stoken.split(":") if stoken else [pwd_id, ""]] and what
    [get_detail] reads from it. *)
Definition share_code_of (pwd_id stoken : string) : string :=
  let parts := if truthy stoken then split colon stoken else [pwd_id; ""] in
  default "" (parts !! 0%nat).

Definition receive_code_of (pwd_id stoken : string) : string :=
  let parts := if truthy stoken then split colon stoken else [pwd_id; ""] in
  default "" (parts !! 1%nat).

Definition cid_of (pdir_fid : string) : string :=
  if truthy pdir_fid && bool_decide (pdir_fid ≠ "0") then pdir_fid else "".

Definition get_detail (fuel : nat) (pwd_id stoken pdir_fid : string)
    (fetch_share_full_path : bool) : M (option result) :=
  let share_code := share_code_of pwd_id stoken in
  let receive_code := receive_code_of pwd_id stoken in
  let cid := cid_of pdir_fid in
  _create_share_session share_code receive_code;;
  full_path ←
    (if truthy cid && fetch_share_full_path
     then _resolve_share_path fuel share_code receive_code cid 5
     else ret (Some []));
  match full_path with
  | None => ret None
  | Some full_path =>
      pages ← get_detail_loop fuel share_code receive_code cid 0 50 [];
      match pages with
      | None => ret None
      | Some (inl error) => ret (Some error)
      | Some (inr list_merge) =>
          ret (Some (Result 0 "success" list_merge (Some full_path)
                       (Some (length list_merge))))
      end
  end.

(** *** Notions the statements about the resolver and the listing use *)

(** The page of a directory at [offset] ends the paging loop: the request
    raises, the answer is a failure, or the page is empty or short. *)
Definition page_breaks (share_code receive_code cid : string) (offset limit : Z) : bool :=
  match http (Snap share_code offset limit cid receive_code) with
  | Raise _ => true
  | Ret resp =>
      let data := _safe_json resp in
      negb (d_state data) || bool_decide (d_list data = [])
      || bool_decide (Z.of_nat (length (d_list data)) < limit)
  end.

(** From [offset] on the provider serves the pages [pages] of a
    directory, in order: every page but the last is full ([limit] entries
    or more), the last is short or empty. *)
Inductive serves (share_code receive_code cid : string) (limit : Z)
    : Z → list (list item) → Prop :=
| serves_last offset resp :
    http (Snap share_code offset limit cid receive_code) = Ret resp →
    d_state (_safe_json resp) = true →
    Z.of_nat (length (d_list (_safe_json resp))) < limit →
    serves share_code receive_code cid limit offset [d_list (_safe_json resp)]
| serves_more offset resp rest :
    http (Snap share_code offset limit cid receive_code) = Ret resp →
    d_state (_safe_json resp) = true →
    limit ≤ Z.of_nat (length (d_list (_safe_json resp))) →
    d_list (_safe_json resp) ≠ [] →
    serves share_code receive_code cid limit (offset + limit) rest →
    serves share_code receive_code cid limit offset (d_list (_safe_json resp) :: rest).

(** What the paging loop of one directory at depth [n] hands on: a
    breadcrumb of [n + 1] entries ending in the target, or a queue of
    breadcrumbs of [n + 1] entries. *)
Definition level_ok (target : string) (n : nat)
    (r : option (list crumb + list (string * list crumb))) : Prop :=
  match r with
  | None => True
  | Some (inl found) =>
      length found = S n ∧ ∃ above name, found = (above ++ [Crumb target name])%list
  | Some (inr nq) => Forall (λ e, length e.2 = S n) nq
  end.

(** Every directory's pages end within [fuel] requests. *)
Definition pages_end (fuel : nat) (share_code receive_code : string) : Prop :=
  ∀ cid, ∃ k, (k < fuel)%nat
    ∧ page_breaks share_code receive_code cid (50 * Z.of_nat k) 50 = true.

End WithProvider.

(** The directories a run listed: the [cid] of every [snap] request of a
    log that asks for the first page. *)
Definition listed (log : list request) : list string :=
  omap (λ r, match r with
             | Snap _ offset _ cid _ => if decide (offset = 0) then Some cid else None
             | SharePage _ _ => None
             end) log.

(** The resolver lists no directory twice. *)
Definition lists_once : Prop :=
  ∀ (T : Transport) (fuel : nat) (share_code receive_code target_cid : string) r log,
    _resolve_share_path fuel share_code receive_code target_cid 5 [] = (Ret r, log) →
    NoDup (listed log).

End Cloud115.

(** ** Cookie strings

    The loop over [cookie.split(";")] of [BaiduAdapter._parse_cookies]
    ([adapters/baidu_adapter.py]), which [UCAdapter.__init__]
    ([adapters/uc_adapter.py]) repeats word for word. *)

Module Cookies.
Import Py.

Definition semicolon : ascii := ascii_of_nat 59.
Definition equals : ascii := ascii_of_nat 61.

(** [item.split("=", 1)] for an item that holds an ["="]: the text before
    the first one and the text after it. *)
Fixpoint split1 (sep : ascii) (item : string) : string * string :=
  match item with
  | "" => ("", "")
  | String c rest =>
      if decide (c = sep) then ("", rest)
      else let '(k, v) := split1 sep rest in (String c k, v)
  end.

(** One round of the loop. *)
Definition parse_item (_cookies_dict : list (string * string)) (item : string)
    : list (string * string) :=
  let item := strip item in
  if contains "=" item then
    let '(k, v) := split1 equals item in
    dict_set (strip k) (strip v) _cookies_dict
  else _cookies_dict.

(** The loop, from the dictionary the object holds. *)
Definition parse_loop (_cookies_dict : list (string * string)) (cookie : string)
    : list (string * string) :=
  foldl parse_item _cookies_dict (split semicolon cookie).

(** [UCAdapter.__init__]: the dictionary [_cookies_dict] it leaves. *)
Definition uc_cookies_dict (cookie : string) : list (string * string) :=
  if truthy cookie then parse_loop [] cookie else [].

(** The fields [BaiduAdapter._parse_cookies] sets. *)
Record baidu_cookies := BaiduCookies {
  _cookies_dict : list (string * string);
  _bduss : string;
  _stoken : string;
}.

(** [BaiduAdapter._parse_cookies] on an object whose dictionary is
    [cookies_dict]. *)
Definition _parse_cookies (cookies_dict : list (string * string)) (cookie : string)
    : baidu_cookies :=
  let d := parse_loop cookies_dict cookie in
  BaiduCookies d (default "" (dict_get "BDUSS" d)) (default "" (dict_get "STOKEN" d)).

End Cookies.

(** ** [adapters/cloud115_adapter.py]: the share token *)

Module Cloud115Stoken.
Import Py Cloud115.
Local Open Scope Z_scope.
Local Open Scope M_scope.

(** The ["data"] of a successful [get_stoken]. *)
Record stoken_data := StokenData {
  stoken : string;
  share_code : string;
  receive_code : string;
}.

(** The result dictionary of [get_stoken]: ["status"], ["code"],
    ["message"] and ["data"] when present. *)
Record stoken_result := StokenResult {
  sr_status : Z;
  sr_code : Z;
  sr_message : string;
  sr_data : option stoken_data;
}.

Section WithProvider.
Context `{Transport}.

Definition get_stoken (pwd_id passcode : string) : M stoken_result :=
  _create_share_session pwd_id passcode;;
  try_return
    (resp ← send (Snap pwd_id 0 20 "0" passcode);
     let data := _safe_json resp in
     if d_state data && bool_decide (d_list data ≠ [])
     then ret (StokenResult 200 0 "success"
                 (Some (StokenData (pwd_id +:+ ":" +:+ passcode) pwd_id passcode)))
     else ret (StokenResult 400 1 (default "分享链接无效或已失效" (d_error data)) None))
    (λ e, StokenResult 500 1 ("网络异常: " +:+ e) None).

End WithProvider.

End Cloud115Stoken.

(** ** [adapters/cloud115_adapter.py]: the user's drive and the transfer *)

Module Cloud115Drive.
Import Py.
Local Open Scope Z_scope.
Local Open Scope M_scope.

(** The value under ["t"] as [_convert_dir_item] treats it: a string that
    holds ["-"], kept as it is; a string without ["-"] that [int] reads;
    or anything else (no key, a number, other text), on which the
    conversion raises. *)
Inductive t_field :=
| TText (s : string)
| TSeconds (t : Z)
| TRaises.

(** An entry of a [/files] listing.  A folder has no ["fid"] key.  [i_s]
    is [None] when [int(item.get("s", 0))] raises. *)
Record item := Item {
  i_fid : option string;
  i_cid : string;
  i_n : string;
  i_s : option Z;
  i_t : t_field;
  i_ico : string;
}.

(** A decoded answer: ["state"], ["error"] and ["data"] ([[]] when
    absent). *)
Record api_data := ApiData {
  d_state : bool;
  d_error : option string;
  d_data : list item;
}.

(** The requests: a page of a directory of the drive, the share page, and
    the transfer, which carries the cookies put into its session. *)
Inductive request :=
| Files (cid : string) (offset limit : Z)
| SharePage (share_code receive_code : string)
| Receive (cookies : list (string * string)) (cid share_code receive_code file_id : string).

(** [json] is [None] when the body does not decode. *)
Record response := Response {
  status_code : Z;
  json : option api_data;
}.

(** The provider has a state of its own, which a request may change: a
    directory lists differently after a transfer. *)
Class Provider (St : Type) := serve : St → request → outcome response * St.

Record world (St : Type) := World {
  provider : St;
  log : list request;
}.
Arguments World {St} _ _.
Arguments provider {St} _.
Arguments log {St} _.

Record file_info := FileInfo {
  fi_fid : string;
  fi_file_name : string;
  fi_file_type : Z;
  fi_dir : bool;
  fi_size : Z;
  fi_updated_at : string + Z;
  fi_obj_category : string;
}.

(** The result dictionary of [ls_dir]. *)
Record dir_result := DirResult {
  r_code : Z;
  r_message : string;
  r_list : list file_info;
  r_total : option nat;
}.

(** The ["data"] of a successful [save_file]. *)
Record save_data := SaveData {
  task_id : string;
  save_as_top_fids : list string;
}.

(** The result dictionary of [save_file]; [sf_data] is [None] for the
    empty ["data"] of a failure. *)
Record save_result := SaveResult {
  sf_code : Z;
  sf_message : string;
  sf_data : option save_data;
}.

Inductive page_step :=
| Return (result : dir_result)
| Break
| Next.

(** [sep.join(l)] *)
Fixpoint join (sep : string) (l : list string) : string :=
  match l with
  | [] => ""
  | [s] => s
  | s :: rest => s +:+ sep +:+ join sep rest
  end.

Definition is_dir (it : item) : bool := bool_decide (i_fid it = None).

(** [_convert_dir_item]: the values are computed in the order of the
    dictionary display, the size before the time. *)
Definition _convert_dir_item (it : item) : outcome file_info :=
  let own_id := if is_dir it then i_cid it else default "" (i_fid it) in
  match i_s it with
  | None => Raise "ValueError"
  | Some size =>
      match i_t it with
      | TRaises => Raise "TypeError"
      | TText s =>
          Ret (FileInfo own_id (i_n it) (if is_dir it then 0 else 1) (is_dir it) size
                 (inl s) (Cloud115._get_category (i_ico it)))
      | TSeconds t =>
          Ret (FileInfo own_id (i_n it) (if is_dir it then 0 else 1) (is_dir it) size
                 (inr (t * 1000)) (Cloud115._get_category (i_ico it)))
      end
  end.

(** [for item in file_list: list_merge.append(self._convert_dir_item(item))] *)
Fixpoint convert_all (items : list item) (list_merge : list file_info)
    : outcome (list file_info) :=
  match items with
  | [] => Ret list_merge
  | it :: rest =>
      match _convert_dir_item it with
      | Ret fi => convert_all rest (list_merge ++ [fi])%list
      | Raise e => Raise e
      end
  end.

(** One round of the loop over the listing after the transfer: a file
    that was not there before is recorded under its name. *)
Definition record_new (before_items : list string) (name_to_new_fid : list (string * string))
    (fi : file_info) : list (string * string) :=
  if truthy (fi_fid fi) && negb (bool_decide (fi_fid fi ∈ before_items))
  then dict_set (fi_file_name fi) (fi_fid fi) name_to_new_fid
  else name_to_new_fid.

Section WithProvider.
Context {St : Type} `{Provider St}.

Abbreviation M := (Py.M (world St)).

Definition send (req : request) : M response := λ w,
  let '(o, s) := serve (provider w) req in (o, World s (log w ++ [req])%list).

Definition _safe_json (resp : response) : api_data :=
  match json resp with
  | Some data => data
  | None => ApiData false (Some "响应解析失败，可能Cookie已失效或被限流") []
  end.

(** The [while True] loop of [ls_dir]; [None] when [fuel] pages did not
    end it. *)
Fixpoint ls_dir_loop (fuel : nat) (cid : string) (offset limit : Z)
    (list_merge : list file_info) : M (option dir_result) :=
  match fuel with
  | O => ret None
  | S fuel' =>
      step ← try_return
        (resp ← send (Files cid offset limit);
         let data := _safe_json resp in
         if negb (d_state data)
         then ret (Return (DirResult 1 (default "获取目录列表失败" (d_error data)) [] None),
                   list_merge)
         else
           let file_list := d_data data in
           if bool_decide (file_list = []) then ret (Break, list_merge)
           else
             match convert_all file_list list_merge with
             | Raise e => raise e
             | Ret list_merge' =>
                 if bool_decide (Z.of_nat (length file_list) < limit)
                 then ret (Break, list_merge')
                 else ret (Next, list_merge')
             end)
        (λ e, (Return (DirResult 1 ("获取目录失败: " +:+ e) [] None), list_merge));
      match step with
      | (Return result, _) => ret (Some result)
      | (Break, list_merge') =>
          ret (Some (DirResult 0 "success" list_merge' (Some (length list_merge'))))
      | (Next, list_merge') => ls_dir_loop fuel' cid (offset + limit) limit list_merge'
      end
  end.

Definition ls_dir (fuel : nat) (pdir_fid : string) : M (option dir_result) :=
  ls_dir_loop fuel (if truthy pdir_fid then pdir_fid else "0") 0 50 [].

(** [re.sub(r'[^\w\s\.]', '', s)], a library call whose classes reach
    beyond ASCII. *)
Context (clean : string → string).
(** [self.cookie], and [int(time.time())] when the transfer is done. *)
Context (cookie : string) (now : Z).

(** The [for k, v in name_to_new_fid.items()] search for a name that
    cleans to the same text. *)
Definition fuzzy (fname : string) (name_to_new_fid : list (string * string))
    : option string :=
  snd <$> List.find (λ kv, bool_decide (clean fname = clean kv.1)) name_to_new_fid.

(** The last part of [save_file]: the list [saved_fids]. *)
Definition saved_fids (file_names : option (list string))
    (name_to_new_fid : list (string * string)) : list string :=
  match file_names with
  | Some (fname0 :: rest) =>
      (λ fname,
         let new_fid := default "" (dict_get fname name_to_new_fid) in
         if truthy new_fid then new_fid
         else default "" (fuzzy fname name_to_new_fid)) <$> (fname0 :: rest)
  | _ => dict_values name_to_new_fid
  end.

(** [save_file]; [file_names] is [None] when the argument is left out, and
    the result is [None] when a listing ran out of [fuel]. *)
Definition save_file (fuel : nat) (fid_list fid_token_list : list string)
    (to_pdir_fid pwd_id stoken : string) (file_names : option (list string))
    : M (option save_result) :=
  let share_code := Cloud115.share_code_of pwd_id stoken in
  let receive_code := Cloud115.receive_code_of pwd_id stoken in
  let target := if truthy to_pdir_fid then to_pdir_fid else "0" in
  before_items ← try_return
    (before_dir ← ls_dir fuel target;
     match before_dir with
     | None => ret None
     | Some before_dir =>
         if bool_decide (r_code before_dir = 0)
         then ret (Some (fi_fid <$> r_list before_dir))
         else ret (Some [])
     end)
    (λ _, Some []);
  match before_items with
  | None => ret None
  | Some before_items =>
      visit ← try_return (send (SharePage share_code receive_code);; ret None)
                 (λ e, Some e);
      match visit with
      | Some e => ret (Some (SaveResult 1 ("访问分享页面失败: " +:+ e) None))
      | None =>
          errors ← try_return
            (resp ← send (Receive (Cookies.parse_loop [] cookie) target share_code
                            receive_code (join "," fid_token_list));
             let result := _safe_json resp in
             if negb (d_state result) then ret [default "转存失败" (d_error result)]
             else ret [])
            (λ e, [e]);
          if bool_decide (errors ≠ []) then ret (Some (SaveResult 1 (join "; " errors) None))
          else
            name_to_new_fid ← try_return
              (after_dir ← ls_dir fuel target;
               match after_dir with
               | None => ret None
               | Some after_dir =>
                   if bool_decide (r_code after_dir = 0)
                   then ret (Some (foldl (record_new before_items) [] (r_list after_dir)))
                   else ret (Some [])
               end)
              (λ _, Some []);
            match name_to_new_fid with
            | None => ret None
            | Some name_to_new_fid =>
                ret (Some (SaveResult 0 "success"
                             (Some (SaveData ("115_sync_" +:+ pretty now)
                                      (saved_fids file_names name_to_new_fid)))))
            end
      end
  end.

End WithProvider.

End Cloud115Drive.

(** ** [adapters/uc_adapter.py] *)

Module UC.
Import Py.
Local Open Scope Z_scope.
Local Open Scope M_scope.

(** An entry of a list of the provider (a file of a listing, a path with
    its id): the adapter hands it on unread, so it is kept as its JSON
    text. *)
Definition entry := string.

(** A decoded answer with the keys the adapter reads: ["status"], ["code"],
    ["message"] ([""] when absent), ["data"]["list"] and ["data"] itself
    when it is a list ([[]] when absent), ["metadata"]["_total"] ([0] when
    absent) and ["data"]["status"].  The keys present are taken to hold
    values of the types the adapter expects (["message"] a string, ["data"]
    an object or a list): on others a method raises inside its [try] and
    returns its own error message. *)
Record api_json := ApiJson {
  j_status : option Z;
  j_code : option Z;
  j_message : string;
  j_list : list entry;
  j_total : Z;
  j_task_status : option Z;
  j_data : list entry;
}.

(** The requests, by endpoint, with the parameters that vary. *)
Inductive request :=
| Detail (pwd_id stoken pdir_fid : string) (_page _fetch_share fetch_share_full_path : Z)
| Sort (pdir_fid : string) (_page _fetch_full_path : Z)
| Task (task_id : string) (retry_index __dt __t : Z)
| PathList (file_path : list string).

(** [json] is [None] when the body does not decode. *)
Record response := Response {
  status_code : Z;
  json : option api_json;
}.

Class Transport := http : request → outcome response.

(** These methods touch no field of the adapter: the world is the log of
    the requests sent. *)
Abbreviation M := (Py.M (list request)).

Inductive page_step :=
| Return (result : api_json)
| Break
| Next.

Inductive poll_step :=
| PollReturn (result : api_json)
| PollBreak (result : api_json)
| PollAgain (result : api_json).

Section WithProvider.
Context `{Transport}.

(** [_send_request]: an exception of [requests] becomes a response with
    status 500 and an error body. *)
Definition _send_request (req : request) : M response := λ log,
  match http req with
  | Ret response => (Ret response, (log ++ [req])%list)
  | Raise _ =>
      (Ret (Response 500 (Some (ApiJson (Some 500) (Some 1) "request error" [] 0 None []))),
       (log ++ [req])%list)
  end.

Definition _safe_json (response : response) : api_json :=
  match json response with
  | Some data => data
  | None => ApiJson (Some 500) (Some 1) "响应解析失败" [] 0 None []
  end.

(** The [while True] loop that [get_detail] and [ls_dir] both have, the
    two differing in the request and in the message of the [except]
    branch; [None] when [fuel] pages did not end it. *)
Fixpoint page_loop (fuel : nat) (request_of : Z → request) (failure : string)
    (page : Z) (list_merge : list entry) : M (option api_json) :=
  match fuel with
  | O => ret None
  | S fuel' =>
      step ← try_return
        (response ← _send_request (request_of page);
         let result := _safe_json response in
         if negb (bool_decide (j_code result = Some 0))
         then ret (Return result, list_merge, page)
         else
           let file_list := j_list result in
           if bool_decide (file_list ≠ []) then
             let list_merge := (list_merge ++ file_list)%list in
             let page := page + 1 in
             if bool_decide (j_total result ≤ Z.of_nat (length list_merge))
             then ret (Break, list_merge, page)
             else ret (Next, list_merge, page)
           else ret (Break, list_merge, page))
        (λ e, (Return (ApiJson None (Some 1) (failure +:+ e) [] 0 None []),
               list_merge, page));
      match step with
      | (Return result, _, _) => ret (Some result)
      | (Break, list_merge, _) =>
          ret (Some (ApiJson None (Some 0) "success" list_merge
                       (Z.of_nat (length list_merge)) None []))
      | (Next, list_merge, page) => page_loop fuel' request_of failure page list_merge
      end
  end.

Definition get_detail (fuel : nat) (pwd_id stoken pdir_fid : string)
    (_fetch_share fetch_share_full_path : Z) : M (option api_json) :=
  page_loop fuel
    (λ page, Detail pwd_id stoken pdir_fid page _fetch_share fetch_share_full_path)
    "获取分享详情失败: " 1 [].

Definition ls_dir (fuel : nat) (pdir_fid : string) (fetch_full_path : Z)
    : M (option api_json) :=
  page_loop fuel (λ page, Sort pdir_fid page fetch_full_path) "列出目录失败: " 1 [].

(** [random.uniform] and [datetime.now()] as drawn at the poll with a given
    retry index: the values [__dt] and [__t] of that poll. *)
Context (drawn : Z → Z * Z).

(** The [while retry_index < max_retries] loop of [query_task], by the
    number of polls left. *)
Fixpoint query_task_loop (polls_left : nat) (task_id : string) (retry_index : Z)
    (result : api_json) : M api_json :=
  match polls_left with
  | O => ret result
  | S polls_left' =>
      step ← try_return
        (response ← _send_request
                      (Task task_id retry_index (drawn retry_index).1 (drawn retry_index).2);
         let result := _safe_json response in
         if contains "capacity limit" (Cloud115.lower (j_message result))
         then ret (PollReturn (ApiJson (Some 400) (Some 1)
                                 "UC网盘容量不足，请清理空间后重试" [] 0 (Some (-1)) []))
         else if negb (bool_decide (j_status result = Some 200))
         then ret (PollReturn result)
         else if bool_decide (j_task_status result = Some 2) then ret (PollBreak result)
         else if bool_decide (j_task_status result = Some (-1)) then ret (PollReturn result)
         else ret (PollAgain result))
        (λ e, PollReturn (ApiJson (Some 500) (Some 1) ("查询任务失败: " +:+ e) [] 0 None []));
      match step with
      | PollReturn result => ret result
      | PollBreak result => ret result
      | PollAgain result => query_task_loop polls_left' task_id (retry_index + 1) result
      end
  end.

Definition max_retries : nat := 60.

Definition query_task (task_id : string) : M api_json :=
  query_task_loop max_retries task_id 0
    (ApiJson (Some 500) (Some 1) "任务查询超时" [] 0 None []).

(** The [while file_paths] loop of [get_fids]; [None] when [fuel] rounds
    did not end it. *)
Fixpoint get_fids_loop (fuel : nat) (file_paths : list string) (fids : list entry)
    : M (option (list entry)) :=
  match fuel with
  | O => ret None
  | S fuel' =>
      if bool_decide (file_paths = []) then ret (Some fids)
      else
        step ← try_return
          (response ← _send_request (PathList (take 50 file_paths));
           let result := _safe_json response in
           if bool_decide (j_code result = Some 0)
           then ret (Some ((fids ++ j_data result)%list, drop 50 file_paths))
           else ret None)
          (λ _, None);
        match step with
        | Some (fids, file_paths) => get_fids_loop fuel' file_paths fids
        | None => ret (Some fids)
        end
  end.

Definition get_fids (fuel : nat) (file_paths : list string) : M (option (list entry)) :=
  get_fids_loop fuel file_paths [].

(** *** Notions the statements about the adapter use *)

(** The answer the adapter reads off a request. *)
Definition answer (req : request) : api_json :=
  match http req with
  | Ret response => _safe_json response
  | Raise _ => ApiJson (Some 500) (Some 1) "request error" [] 0 None []
  end.

(** The poll of a task with a retry index. *)
Definition poll (task_id : string) (retry_index : Z) : request :=
  Task task_id retry_index (drawn retry_index).1 (drawn retry_index).2.

(** An answer to a poll after which [query_task] polls again. *)
Definition in_progress (result : api_json) : bool :=
  negb (contains "capacity limit" (Cloud115.lower (j_message result)))
  && bool_decide (j_status result = Some 200)
  && negb (bool_decide (j_task_status result = Some 2))
  && negb (bool_decide (j_task_status result = Some (-1))).

(** What [query_task] returns when the poll answered with [result] is its
    last. *)
Definition reported (result : api_json) : api_json :=
  if contains "capacity limit" (Cloud115.lower (j_message result))
  then ApiJson (Some 400) (Some 1) "UC网盘容量不足，请清理空间后重试" [] 0 (Some (-1)) []
  else result.

(** The polls with the retry indices [0], ..., [n - 1]. *)
Definition polls (task_id : string) (n : nat) : list request :=
  (λ i, poll task_id (Z.of_nat i)) <$> seq 0 n.

(** The entries of the pages [1], ..., [n] of a listing, in order. *)
Definition merged (request_of : Z → request) (n : nat) : list entry :=
  concat ((λ i, j_list (answer (request_of (Z.of_nat i)))) <$> seq 1 n).

(** After page [n] the listing loop asks for the next page: the answer
    has code [0] and entries, and the total it gives is not reached. *)
Definition goes_on (request_of : Z → request) (n : nat) : bool :=
  let result := answer (request_of (Z.of_nat n)) in
  bool_decide (j_code result = Some 0)
  && bool_decide (j_list result ≠ [])
  && negb (bool_decide (j_total result ≤ Z.of_nat (length (merged request_of n)))).

(** What the listing loop returns when page [n] is its last. *)
Definition listed (request_of : Z → request) (n : nat) : api_json :=
  let result := answer (request_of (Z.of_nat n)) in
  if bool_decide (j_code result = Some 0)
  then ApiJson None (Some 0) "success" (merged request_of n)
         (Z.of_nat (length (merged request_of n))) None []
  else result.

(** A run of the listing loop from the log [log]: it does not raise, asks
    for the pages [1], ..., [n] in order, every page before the last one
    going on, and either page [n] ends the loop and decides the result, or
    the [fuel] pages allowed all go on and there is no result. *)
Definition lists_pages (request_of : Z → request) (fuel : nat) (log : list request)
    (run : outcome (option api_json) * list request) : Prop :=
  ∃ n : nat,
    (n ≤ fuel)%nat
    ∧ (∀ i, (1 ≤ i < n)%nat → goes_on request_of i = true)
    ∧ run.2 = (log ++ ((λ i, request_of (Z.of_nat i)) <$> seq 1 n))%list
    ∧ ((n = fuel ∧ (n = 0%nat ∨ goes_on request_of n = true) ∧ run.1 = Ret None)
       ∨ ((1 ≤ n)%nat ∧ goes_on request_of n = false
          ∧ run.1 = Ret (Some (listed request_of n)))).

End WithProvider.

End UC.

(** ** [adapters/baidu_adapter.py]: the share-tree search *)

Module Baidu.
Import Py.
Local Open Scope Z_scope.

(** An entry of a share listing; [None] is an absent key.  [i_fs_id] is
    [str(item.get("fs_id", ""))]. *)
Record item := Item {
  i_fs_id : string;
  i_server_filename : option string;
  i_path : option string;
  i_parent_path : string;
  i_isdir : Z;
}.

(** A request of [_api_list_shared_paths]; the random ["t"] parameter is
    left out. *)
Record request := ListShared {
  req_dir : string;
  req_uk : Z;
  req_shareid : Z;
}.

(** What [_api_list_shared_paths] evaluates to: the list under ["list"]
    of the decoded answer ([[]] when the key is absent), or the exception
    of [_request] or of [resp.json()]. *)
Class Transport := list_shared : request → outcome (list item).

Abbreviation M := (Py.M (list request)).
Local Open Scope M_scope.

Record crumb := Crumb {
  fid : string;
  file_name : string;
}.

Definition slash : ascii := ascii_of_nat 47.

(** [s.split("/")[-1]] *)
Definition basename (s : string) : string := default "" (last (split slash s)).

Section WithProvider.
Context `{Transport}.
(** [urllib.parse.unquote], a library function. *)
Context (unquote : string → string).

Definition _api_list_shared_paths (sharedpath : string) (uk share_id : Z)
    : M (list item) := λ log,
  let req := ListShared sharedpath uk share_id in
  (list_shared req, (log ++ [req])%list).

Definition _get_item_path (it : item) : string :=
  match i_path it with
  | Some path => path
  | None =>
      let parent_path :=
        if truthy (i_parent_path it) then unquote (i_parent_path it) else "" in
      let server_filename := default "" (i_server_filename it) in
      if truthy parent_path then parent_path +:+ "/" +:+ server_filename
      else server_filename
  end.

(** The first loop: a root-level entry that is the target. *)
Definition root_match (target_fid : string) (file_list : list item)
    : option (string * list crumb) :=
  (λ it,
     let path := _get_item_path it in
     let filename := default (basename path) (i_server_filename it) in
     (path, [Crumb (i_fs_id it) filename]))
  <$> List.find (λ it, bool_decide (i_fs_id it = target_fid)) file_list.

(** The second loop: the root-level folders, queued with their
    breadcrumb. *)
Definition root_queue (file_list : list item) : list (string * list crumb) :=
  (λ it,
     let path := _get_item_path it in
     let filename := default (basename path) (i_server_filename it) in
     (path, [Crumb (i_fs_id it) filename]))
  <$> filter (λ it, i_isdir it = 1) file_list.

(** The [for item in items] loop of one queued directory. *)
Fixpoint tree_scan (target_fid : string) (current_breadcrumb : list crumb)
    (items : list item) (next_queue : list (string * list crumb))
    : (string * list crumb) + list (string * list crumb) :=
  match items with
  | [] => inr next_queue
  | it :: rest =>
      let item_fid := i_fs_id it in
      let item_name := default "" (i_server_filename it) in
      let item_path := _get_item_path it in
      let new_breadcrumb := (current_breadcrumb ++ [Crumb item_fid item_name])%list in
      if decide (item_fid = target_fid) then inl (item_path, new_breadcrumb)
      else if decide (i_isdir it = 1)
      then tree_scan target_fid current_breadcrumb rest
             (next_queue ++ [(item_path, new_breadcrumb)])%list
      else tree_scan target_fid current_breadcrumb rest next_queue
  end.

(** The [for current_path, current_breadcrumb in queue] loop. *)
Fixpoint tree_level (uk share_id : Z) (target_fid : string)
    (queue next_queue : list (string * list crumb))
    : M ((string * list crumb) + list (string * list crumb)) :=
  match queue with
  | [] => ret (inr next_queue)
  | (current_path, current_breadcrumb) :: rest =>
      items ← try_return
        (items ← _api_list_shared_paths current_path uk share_id; ret (Some items))
        (λ _, None);
      match items with
      | None => tree_level uk share_id target_fid rest next_queue
      | Some items =>
          match tree_scan target_fid current_breadcrumb items next_queue with
          | inl found => ret (inl found)
          | inr next_queue' => tree_level uk share_id target_fid rest next_queue'
          end
      end
  end.

(** The [for _ in range(max_depth)] loop. *)
Fixpoint tree_depth (uk share_id : Z) (target_fid : string) (max_depth : nat)
    (queue : list (string * list crumb)) : M (string * list crumb) :=
  match max_depth with
  | O => ret ("", [])
  | S depth' =>
      r ← tree_level uk share_id target_fid queue [];
      match r with
      | inl found => ret found
      | inr next_queue =>
          if bool_decide (next_queue = []) then ret ("", [])
          else tree_depth uk share_id target_fid depth' next_queue
      end
  end.

Definition _bfs_share_tree (file_list : list item) (uk share_id : Z)
    (target_fid : string) (max_depth : nat) : M (string * list crumb) :=
  match root_match target_fid file_list with
  | Some found => ret found
  | None => tree_depth uk share_id target_fid max_depth (root_queue file_list)
  end.

End WithProvider.

(** The directories a run listed. *)
Definition listed (log : list request) : list string := req_dir <$> log.

(** *** Notions the statements about the search use *)

Section Chains.
Context `{Transport}.
Context (unquote : string → string) (uk share_id : Z).
Context (file_list : list item) (target_fid : string).

(** What the provider lists under a path.  A request that fails counts as
    an empty directory: the search skips it. *)
Definition listing (dir : string) : list item :=
  match list_shared (ListShared dir uk share_id) with
  | Ret items => items
  | Raise _ => []
  end.

(** The breadcrumb entry of a root-level item and of an item below. *)
Definition root_crumb (it : item) : crumb :=
  Crumb (i_fs_id it) (default (basename (_get_item_path unquote it)) (i_server_filename it)).

Definition crumb_of (it : item) : crumb :=
  Crumb (i_fs_id it) (default "" (i_server_filename it)).

Definition crumbs (its : list item) : list crumb :=
  match its with
  | [] => []
  | it :: rest => root_crumb it :: (crumb_of <$> rest)
  end.

(** [fs] is a chain of folders, none of them the target, from the root
    level down to the directory of path [dir]: the first is an entry of
    [file_list], each next one is listed under the path of the one
    before. *)
Inductive folders : list item → string → Prop :=
| folders_root it :
    it ∈ file_list → i_isdir it = 1 → i_fs_id it ≠ target_fid →
    folders [it] (_get_item_path unquote it)
| folders_down fs dir it :
    folders fs dir → it ∈ listing dir → i_isdir it = 1 → i_fs_id it ≠ target_fid →
    folders (fs ++ [it]) (_get_item_path unquote it).

(** [its] is a chain from the root level to the target: folders other
    than the target, then the target. *)
Inductive descends : list item → Prop :=
| descends_root it :
    it ∈ file_list → i_fs_id it = target_fid → descends [it]
| descends_below fs dir it :
    folders fs dir → it ∈ listing dir → i_fs_id it = target_fid →
    descends (fs ++ [it]).

(** The queue of a level holds exactly the folder chains of [n] entries,
    each with its breadcrumb, and no chain to the target has [n] entries or
    fewer. *)
Definition level_inv (n : nat) (queue : list (string * list crumb)) : Prop :=
  (∀ dir b, (dir, b) ∈ queue → ∃ fs, folders fs dir ∧ length fs = n ∧ b = crumbs fs)
  ∧ (∀ fs dir, folders fs dir → length fs = n → (dir, crumbs fs) ∈ queue)
  ∧ (∀ its, descends its → (n < length its)%nat).

(** The share describes a tree: an id is placed once, at the root level
    or in one directory. *)
Definition tree_like : Prop :=
  (∀ dir dir' it it', it ∈ listing dir → it' ∈ listing dir' →
     i_fs_id it = i_fs_id it' → dir = dir' ∧ it = it')
  ∧ (∀ it it', it ∈ file_list → it' ∈ file_list → i_fs_id it = i_fs_id it' → it = it')
  ∧ (∀ dir it it', it ∈ file_list → it' ∈ listing dir → i_fs_id it ≠ i_fs_id it').

End Chains.

(** The search as the specification words it, with the depth the code
    gives it by default: in every tree that holds the target the target is
    found, with the breadcrumb of a chain that ends in it. *)
Definition finds_every_target : Prop :=
  ∀ (T : Transport) (unquote : string → string) (uk share_id : Z)
    (file_list : list item) (target_fid : string) (log : list request)
    (its0 : list item),
    tree_like uk share_id file_list →
    descends unquote uk share_id file_list target_fid its0 →
    ∃ its it log',
      _bfs_share_tree unquote file_list uk share_id target_fid 5 log
      = (Ret (_get_item_path unquote it, crumbs unquote its), log')
      ∧ last its = Some it ∧ i_fs_id it = target_fid.

End Baidu.

(** ** [adapters/baidu_adapter.py]: checking a share *)

Module BaiduStoken.
Import Py.
Local Open Scope Z_scope.
Local Open Scope M_scope.

(** The decoded answer of [share/verify], an object: the number
    [_check_response] reads off it, [info.get("errno") or
    info.get("error_code") or 0]. *)
Record verify_answer := VerifyAnswer {
  errno : Z;
}.

(** The verify request, with the parameters that vary. *)
Inductive request :=
| Verify (shared_url password : string).

(** [json] is [None] when the body does not decode. *)
Record response := Response {
  json : option verify_answer;
}.

Class Transport := http : request → outcome response.

(** The world of these methods: whether [_session] is set (the
    constructor sets it when the cookie is not empty) and the log of the
    requests sent.  The cookies a response carries are put into the
    session, which no result below depends on. *)
Record world := World {
  _session : bool;
  http_log : list request;
}.

Abbreviation M := (Py.M world).

(** The result dictionary of [get_stoken]: ["status"], ["code"],
    ["message"] and, on success, ["data"] with its ["stoken"] and
    ["share_id"]. *)
Record result := Result {
  r_status : Z;
  r_code : Z;
  r_message : string;
  r_data : option (string * string);
}.

Definition ERROR_CODES : list (Z * string) :=
  [ (-6, "认证失败，请检查Cookie是否有效");
    (-9, "文件不存在或已被删除");
    (-62, "需要输入验证码");
    (-65, "访问频率过高，请稍后重试");
    (-1, "分享链接不存在");
    (-3, "转存文件数超过限制");
    (-7, "分享文件夹等待审核中");
    (-21, "您的账户被锁定");
    (2, "参数错误");
    (4, "分享提取码错误");
    (12, "转存文件失败");
    (105, "分享链接已过期");
    (111, "有其他异步任务正在执行");
    (145, "分享链接已失效");
    (200025, "提取码错误");
    (31061, "文件已存在");
    (31066, "目录不存在");
    (31299, "文件夹创建失败") ].

(** [_get_error_message] *)
Definition _get_error_message (errno : Z) : string :=
  default ("未知错误 (errno=" +:+ pretty errno +:+ ")")
    (snd <$> List.find (λ p, bool_decide (p.1 = errno)) ERROR_CODES).

(** [_check_response]: an error number is logged, and the answer is handed
    on as it is. *)
Definition _check_response (info : verify_answer) : verify_answer := info.

Section WithProvider.
Context `{Transport}.
(** [re.search(r"errno[=:]?\s*(-?\d+)", error_msg)] followed by [int]: the
    error number an exception text names, if it names one. *)
Context (errno_of : string → option Z).

(** [_request]: no session is an exception, and so is a failure of the
    transport, which is logged and raised again. *)
Definition _request (req : request) : M response := λ w,
  if negb (_session w) then (Raise "Session 未初始化，请检查 Cookie", w)
  else (http req, World (_session w) (http_log w ++ [req])).

(** [_api_access_shared] *)
Definition _api_access_shared (shared_url password : string) : M verify_answer :=
  resp ← _request (Verify shared_url password);
  match json resp with
  | None => raise "JSONDecodeError"
  | Some info => ret (_check_response info)
  end.

(** [get_stoken] *)
Definition get_stoken (pwd_id passcode : string) : M result :=
  w ← (λ w, (Ret w, w));
  if negb (_session w) then ret (Result 500 1 "百度网盘客户端未初始化" None)
  else
    try_return
      (let share_url := "https://pan.baidu.com/s/" +:+ pwd_id in
       _api_access_shared share_url passcode;;
       ret (Result 200 0 "success" (Some (pwd_id +:+ ":" +:+ passcode, pwd_id))))
      (λ error_msg,
         match errno_of error_msg with
         | Some errno => Result 400 errno (_get_error_message errno) None
         | None => Result 400 1 "分享链接无效或已失效" None
         end).

End WithProvider.

End BaiduStoken.

(** ** Concurrent callers of the token checks

    The adapters are shared between the threads of one process.  A caller
    of [_ensure_tokens_valid] (Xunlei) or [_ensure_token_valid] (Aliyun) is
    a small machine over the shared adapter; a schedule picks which thread
    takes the next step.  [_token_lock] is the only synchronisation: a
    thread that wants the lock while another holds it does not move.  One
    step is one statement of the method; a refresh call with the
    assignments that follow it is one step, taken with the lock held.  The
    clock does not advance during a run. *)

Module Threads.
Import Py.
Local Open Scope Z_scope.

Record config (W PC : Type) := Config {
  shared : W;
  token_lock : option nat;
  threads : list PC;
}.
Arguments Config {W PC}.
Arguments shared {W PC}.
Arguments token_lock {W PC}.
Arguments threads {W PC}.

(** What the next statement of a thread does. *)
Inductive action (W PC : Type) :=
| Goes (w : W) (pc : PC)
| Acquires (pc : PC)
| Releases (w : W) (pc : PC)
| Stays.
Arguments Goes {W PC}.
Arguments Acquires {W PC}.
Arguments Releases {W PC}.
Arguments Stays {W PC}.

Section Scheduler.
Context {W PC : Type} (next : PC → W → action W PC).

Definition step (i : nat) (c : config W PC) : config W PC :=
  match threads c !! i with
  | None => c
  | Some pc =>
      match next pc (shared c) with
      | Goes w pc' => Config w (token_lock c) (<[i:=pc']> (threads c))
      | Acquires pc' =>
          match token_lock c with
          | None => Config (shared c) (Some i) (<[i:=pc']> (threads c))
          | Some _ => c
          end
      | Releases w pc' => Config w None (<[i:=pc']> (threads c))
      | Stays => c
      end
  end.

Definition run (schedule : list nat) (c : config W PC) : config W PC :=
  foldl (λ c i, step i c) c schedule.

End Scheduler.

(** *** Xunlei: [_ensure_tokens_valid] *)

Inductive xunlei_pc :=
| XStart
| XAcquire
| XRecheck
| XAccess (access_ok captcha_ok : bool)
| XCaptcha (captcha_ok : bool)
| XReturned (r : bool).

Definition xunlei_next `{Xunlei.Transport} (now : Z) (pc : xunlei_pc) (w : Xunlei.world)
    : action Xunlei.world xunlei_pc :=
  let a := Xunlei.self w in
  match pc with
  | XStart =>
      if Xunlei.access_ok now a && Xunlei.captcha_ok now a then Goes w (XReturned true)
      else Goes w XAcquire
  | XAcquire => Acquires XRecheck
  | XRecheck => Goes w (XAccess (Xunlei.access_ok now a) (Xunlei.captcha_ok now a))
  | XAccess access_ok captcha_ok =>
      if negb access_ok then
        match Xunlei._refresh_access_token now w with
        | (Ret true, w') => Goes w' (XCaptcha captcha_ok)
        | (_, w') => Releases w' (XReturned false)
        end
      else Goes w (XCaptcha captcha_ok)
  | XCaptcha captcha_ok =>
      if negb captcha_ok then
        match Xunlei._refresh_captcha_token now w with
        | (Ret true, w') => Releases w' (XReturned true)
        | (_, w') => Releases w' (XReturned false)
        end
      else Releases w (XReturned true)
  | XReturned _ => Stays
  end.

Definition xunlei_callers (n : nat) (w : Xunlei.world) : config Xunlei.world xunlei_pc :=
  Config w None (replicate n XStart).

Definition xunlei_token_calls (log : list Xunlei.request) : nat :=
  length (filter (λ r, Xunlei.req_url r = Xunlei.AUTH_BASE +:+ "/v1/auth/token") log).

Definition xunlei_captcha_calls (log : list Xunlei.request) : nat :=
  length (filter (λ r, Xunlei.req_url r = Xunlei.AUTH_BASE +:+ "/v1/shield/captcha/init")
            log).

(** The provider grants every refresh: it answers with a token that
    outlives the margin the adapter subtracts. *)
Definition xunlei_grants `{Xunlei.Transport} : Prop :=
  (∀ req, Xunlei.req_url req = Xunlei.AUTH_BASE +:+ "/v1/auth/token" →
     ∃ d tok, Xunlei.http req = Ret (Xunlei.Response (Some d))
       ∧ Xunlei.d_access_token d = Some tok ∧ truthy tok = true
       ∧ 120 < default 7200 (Xunlei.d_expires_in d))
  ∧ (∀ req, Xunlei.req_url req = Xunlei.AUTH_BASE +:+ "/v1/shield/captcha/init" →
       ∃ d tok, Xunlei.http req = Ret (Xunlei.Response (Some d))
         ∧ Xunlei.d_captcha_token d = Some tok ∧ truthy tok = true
         ∧ 10 < default 300 (Xunlei.d_expires_in d)).

(** The statements of the [with self._token_lock] block. *)
Definition xunlei_holds_lock (pc : xunlei_pc) : bool :=
  match pc with
  | XRecheck | XAccess _ _ | XCaptcha _ => true
  | XStart | XAcquire | XReturned _ => false
  end.

Definition xunlei_returned (pc : xunlei_pc) : bool :=
  match pc with
  | XReturned _ => true
  | _ => false
  end.

(** The statements a caller has still to run, at most. *)
Definition xunlei_remaining (pc : xunlei_pc) : nat :=
  match pc with
  | XStart => 5
  | XAcquire => 4
  | XRecheck => 3
  | XAccess _ _ => 2
  | XCaptcha _ => 1
  | XReturned _ => 0
  end.

(** The lock and the threads agree: the statements of the block are run
    by the holder of the lock, and the holder of the lock is in the
    block. *)
Definition xunlei_lock_inv (c : config Xunlei.world xunlei_pc) : Prop :=
  (∀ j pc, threads c !! j = Some pc → xunlei_holds_lock pc = true →
     token_lock c = Some j)
  ∧ (∀ j, token_lock c = Some j →
       ∃ pc, threads c !! j = Some pc ∧ xunlei_holds_lock pc = true).

(** What every configuration of a run from [w0] satisfies when the
    provider grants the refreshes: the statements of the block are run by
    the holder of the lock; a refresh request was sent exactly when the
    token became valid; what a thread remembers of its checks is still
    true of the adapter. *)
Definition xunlei_inv (now : Z) (w0 : Xunlei.world)
    (c : config Xunlei.world xunlei_pc) : Prop :=
  let a := Xunlei.self (shared c) in
  let log := Xunlei.http_log (shared c) in
  (∀ j pc, threads c !! j = Some pc → xunlei_holds_lock pc = true →
     token_lock c = Some j)
  ∧ ((xunlei_token_calls log = xunlei_token_calls (Xunlei.http_log w0)
      ∧ Xunlei.access_ok now a = false
      ∧ truthy (Xunlei._refresh_token a) = true)
     ∨ (xunlei_token_calls log = S (xunlei_token_calls (Xunlei.http_log w0))
        ∧ Xunlei.access_ok now a = true))
  ∧ ((xunlei_captcha_calls log = xunlei_captcha_calls (Xunlei.http_log w0)
      ∧ Xunlei.captcha_ok now a = Xunlei.captcha_ok now (Xunlei.self w0))
     ∨ (xunlei_captcha_calls log = S (xunlei_captcha_calls (Xunlei.http_log w0))
        ∧ Xunlei.captcha_ok now a = true
        ∧ Xunlei.captcha_ok now (Xunlei.self w0) = false))
  ∧ (∀ j pc, threads c !! j = Some pc →
       match pc with
       | XAccess access_ok captcha_ok =>
           access_ok = Xunlei.access_ok now a ∧ captcha_ok = Xunlei.captcha_ok now a
       | XCaptcha captcha_ok =>
           Xunlei.access_ok now a = true ∧ captcha_ok = Xunlei.captcha_ok now a
       | XReturned r =>
           r = true ∧ Xunlei.access_ok now a = true ∧ Xunlei.captcha_ok now a = true
       | XStart | XAcquire | XRecheck => True
       end).

(** *** Aliyun: [_ensure_token_valid] and [_do_refresh_token] *)

Inductive aliyun_pc :=
| AStart
| AAcquire
| ARefresh
| AReturned (r : bool).

Definition aliyun_next `{Aliyun.Transport} (now : Z) (pc : aliyun_pc) (w : Aliyun.world)
    : action Aliyun.world aliyun_pc :=
  match pc with
  | AStart =>
      match Aliyun._token (Aliyun.self w) with
      | Some t => if Aliyun.is_expired now t then Goes w AAcquire
                  else Goes w (AReturned true)
      | None => Goes w AAcquire
      end
  | AAcquire => Acquires ARefresh
  | ARefresh =>
      match Aliyun._do_refresh_token now w with
      | (Ret r, w') => Releases w' (AReturned r)
      | (Raise _, w') => Releases w' (AReturned false)
      end
  | AReturned _ => Stays
  end.

Definition aliyun_callers (n : nat) (w : Aliyun.world) : config Aliyun.world aliyun_pc :=
  Config w None (replicate n AStart).

(** The request [_do_refresh_token] sends. *)
Definition aliyun_token_request (a : Aliyun.adapter) : Aliyun.request :=
  Aliyun.Request "POST" (Aliyun.API_HOST +:+ Aliyun.V2_ACCOUNT_TOKEN)
    (Aliyun.session_headers a)
    [("refresh_token", Aliyun._refresh_token a); ("grant_type", "refresh_token")].

Definition aliyun_token_calls (log : list Aliyun.request) : nat :=
  length (filter (λ r, Aliyun.req_url r = Aliyun.API_HOST +:+ Aliyun.V2_ACCOUNT_TOKEN) log).

(** The session of the adapter is expired: no token, or one past its
    time. *)
Definition aliyun_expired (now : Z) (w : Aliyun.world) : Prop :=
  match Aliyun._token (Aliyun.self w) with
  | Some t => Aliyun.is_expired now t = true
  | None => True
  end.

(** Every run of [n] callers that all return sends one refresh
    request. *)
Definition aliyun_refreshes_once `{Aliyun.Transport} (now : Z) (w : Aliyun.world) : Prop :=
  ∀ n schedule,
    Forall (λ pc, ∃ r, pc = AReturned r)
      (threads (run (aliyun_next now) schedule (aliyun_callers n w))) →
    (0 < n)%nat →
    aliyun_token_calls (Aliyun.http_log (shared (run (aliyun_next now) schedule
                                                   (aliyun_callers n w))))
    = (aliyun_token_calls (Aliyun.http_log w) + 1)%nat.

End Threads.

(** ** Sample providers and configurations

    Concrete inputs on which the statements below are exercised. *)

Module Samples.
Import Py.
Local Open Scope Z_scope.

#[local] Instance toy_md5 : Factory.Hashlib := λ s, s.

Definition sample_account (name drive cookie : string) : Cfg.account :=
  Cfg.Account None (Some name) (Some drive) (Some cookie) None None.

(** *** Aliyun *)

Definition folder (id name : string) : Aliyun.item := Aliyun.Item id name "folder" 0 "".
Definition file (id name : string) : Aliyun.item := Aliyun.Item id name "file" 1 "".

(** A provider that answers every list request with the entries [ls]
    gives for the requested directory, on a single page. *)
Definition aliyun_lists (ls : string → list Aliyun.item) : Aliyun.Transport := λ req,
  Ret (Aliyun.Response 200
         (Some (Aliyun.ApiData "" None
                  (ls (default "" (dict_get "parent_file_id" (Aliyun.req_body req))))
                  "" "" "" None []))
         "").

(** A three-level tree: the target [T] sits in folder [A] of the root. *)
Definition tree3 (c : string) : list Aliyun.item :=
  if decide (c = "root") then [folder "A" "Show"; file "f0" "readme.txt"]
  else if decide (c = "A") then [folder "B" "Season 1"; file "T" "episode.mkv"]
  else if decide (c = "B") then [file "g" "extra.srt"]
  else [].

(** Listings no tree gives: the root holds folder [A] twice, [A] holds
    itself, the root and [B], and [B] leads back to [A]. *)
Definition knot (c : string) : list Aliyun.item :=
  if decide (c = "root") then [folder "A" "Show"; folder "A" "Show"]
  else if decide (c = "A")
  then [folder "A" "Show"; folder "root" "Share"; folder "B" "Season 1"]
  else if decide (c = "B") then [folder "A" "Show"; file "T" "episode.mkv"]
  else [].

(** A chain of eleven nested folders [x], [xx], ... with the target below
    the last. *)
Definition deep (c : string) : list Aliyun.item :=
  if decide (c = "root") then [folder "x" "x"]
  else if (String.length c <? 11)%nat then [folder (String "x" c) "x"]
  else [file "T" "T"].

(** A provider that serves an empty first page with a marker, then one
    entry. *)
Definition empty_first_page : Aliyun.Transport := λ req,
  Ret (Aliyun.Response 200
         (Some (if decide (dict_get "marker" (Aliyun.req_body req) = Some "")
                then Aliyun.ApiData "" None [] "m1" "" "" None []
                else Aliyun.ApiData "" None [file "f" "f"] "" "" "" None []))
         "").

(** Three pages of 100, 100 and 37 entries under the markers [""], ["m1"]
    and ["m2"]. *)
Definition three_pages : Aliyun.Transport := λ req,
  Ret (Aliyun.Response 200
         (Some (match dict_get "marker" (Aliyun.req_body req) with
                | Some "" => Aliyun.ApiData "" None (replicate 100 (file "a" "a")) "m1" ""
                               "" None []
                | Some "m1" => Aliyun.ApiData "" None (replicate 100 (file "b" "b")) "m2" ""
                                 "" None []
                | _ => Aliyun.ApiData "" None (replicate 37 (file "c" "c")) "" "" "" None []
                end))
         "").

(** A root directory served in two pages: the first holds [f0] and comes
    with a marker, the second, under that marker, holds the target [T]. *)
Definition two_pages : Aliyun.Transport := λ req,
  Ret (Aliyun.Response 200
         (Some (if decide (dict_get "parent_file_id" (Aliyun.req_body req) = Some "root")
                then match dict_get "marker" (Aliyun.req_body req) with
                     | Some "m1" =>
                         Aliyun.ApiData "" None [file "T" "episode.mkv"] "" "" "" None []
                     | _ => Aliyun.ApiData "" None [file "f0" "readme.txt"] "m1" "" "" None []
                     end
                else Aliyun.ApiData "" None [] "" "" "" None []))
         "").

Definition idle_aliyun : Aliyun.world :=
  Aliyun.World (Aliyun.Adapter "" None "" None 1 false "") None false [].

(** A provider that grants every token refresh, and an adapter that has a
    refresh token and no access token yet. *)
Definition granting_aliyun : Aliyun.Transport := λ req,
  Ret (Aliyun.Response 200
         (Some (Aliyun.ApiData "" None [] "" "" ""
                  (Some (Aliyun.TokenJson "at" "rt" 7200 "u" "n" "nick" "d" "s" 0)) []))
         "").

Definition expired_aliyun : Aliyun.world :=
  Aliyun.World (Aliyun.Adapter "rt" None "acct" None 1 false "") None false [].

(** *** Xunlei *)

Definition granting_xunlei : Xunlei.Transport := λ req,
  if decide (Xunlei.req_url req = Xunlei.AUTH_BASE +:+ "/v1/auth/token")
  then Ret (Xunlei.Response
              (Some (Xunlei.ApiData (Some "at") (Some 7200) "" "u" "n" None None None
                       false "" None "")))
  else Ret (Xunlei.Response
              (Some (Xunlei.ApiData None (Some 300) "" "" "" (Some "ct") None None
                       false "" None ""))).

Definition expired_xunlei : Xunlei.world :=
  Xunlei.World (Xunlei.Adapter "rt" "acct" "" 0 "" 0 0 "" "" None None 1 false "")
    None false [].

(** *** 115 *)

Definition dir115 (cid name : string) : Cloud115.item :=
  Cloud115.Item None cid name 0 (Some 0) "".

Definition file115 (fid cid name : string) : Cloud115.item :=
  Cloud115.Item (Some fid) cid name 1 (Some 0) "mkv".

(** A provider that answers a [snap] request with the slice of [ls cid]
    the request asks for. *)
Definition cloud115_lists (ls : string → list Cloud115.item) : Cloud115.Transport :=
  λ req,
    match req with
    | Cloud115.SharePage _ _ => Ret (Cloud115.Response 200 None)
    | Cloud115.Snap _ offset limit cid _ =>
        Ret (Cloud115.Response 200
               (Some (Cloud115.SnapData true None
                        (take (Z.to_nat limit) (drop (Z.to_nat offset) (ls cid))))))
    end.

(** A directory of 137 files, which the provider serves as pages of 50, 50
    and 37 entries, and the same with one entry more whose ["t"] does not
    read as an integer, in the third page. *)
Definition files137 (cid : string) : list Cloud115.item :=
  replicate 137 (file115 "f" "" "f").

Definition unreadable115 (cid : string) : list Cloud115.item :=
  replicate 120 (file115 "f" "" "f")
  ++ [Cloud115.Item (Some "g") "" "g" 1 None "mkv"].

(** The root lists the folder [A] twice. *)
Definition twice115 (cid : string) : list Cloud115.item :=
  if decide (cid = "") then [dir115 "A" "Show"; dir115 "A" "Show"] else [].

(** A three-level tree: the target folder [T] sits in folder [A]. *)
Definition tree115 (cid : string) : list Cloud115.item :=
  if decide (cid = "") then [dir115 "A" "Show"; file115 "f0" "" "readme.txt"]
  else if decide (cid = "A") then [dir115 "B" "Season 1"; dir115 "T" "Season 2"]
  else [].

(** *** Baidu *)

Definition dir_baidu (fs_id name path : string) : Baidu.item :=
  Baidu.Item fs_id (Some name) (Some path) "" 1.

Definition file_baidu (fs_id name path : string) : Baidu.item :=
  Baidu.Item fs_id (Some name) (Some path) "" 0.

Definition baidu_lists (ls : string → list Baidu.item) : Baidu.Transport := λ req,
  Ret (ls (Baidu.req_dir req)).

(** A three-level tree below the root-level folder [/Show]. *)
Definition tree_baidu (dir : string) : list Baidu.item :=
  if decide (dir = "/Show") then [dir_baidu "2" "Season 1" "/Show/Season 1";
                                  file_baidu "9" "episode.mkv" "/Show/episode.mkv"]
  else [].

Definition root_baidu : list Baidu.item := [dir_baidu "1" "Show" "/Show"].

(** Six folders nested in one another below the root level, the target
    in the innermost. *)
Definition root_deep_baidu : list Baidu.item := [dir_baidu "d1" "x" "/x"].

Definition deep_baidu (dir : string) : list Baidu.item :=
  if decide (dir = "/x") then [dir_baidu "d2" "x" "/x/x"]
  else if decide (dir = "/x/x") then [dir_baidu "d3" "x" "/x/x/x"]
  else if decide (dir = "/x/x/x") then [dir_baidu "d4" "x" "/x/x/x/x"]
  else if decide (dir = "/x/x/x/x") then [dir_baidu "d5" "x" "/x/x/x/x/x"]
  else if decide (dir = "/x/x/x/x/x") then [dir_baidu "d6" "x" "/x/x/x/x/x/x"]
  else if decide (dir = "/x/x/x/x/x/x")
  then [file_baidu "T" "episode.mkv" "/x/x/x/x/x/x/episode.mkv"]
  else [].

(** The root-level folder lists itself. *)
Definition loop_baidu (dir : string) : list Baidu.item :=
  if decide (dir = "/Show") then [dir_baidu "1" "Show" "/Show"] else [].

End Samples.

(** ** Sample providers, continued *)

Module MoreSamples.
Import Py.
Local Open Scope Z_scope.

(** *** UC *)

(** A provider that knows every path: a path list is answered with one
    entry for each path; every other request fails to connect. *)
Definition uc_knows_all : UC.Transport := λ req,
  match req with
  | UC.PathList paths =>
      Ret (UC.Response 200
             (Some (UC.ApiJson (Some 200) (Some 0) "" [] 0 None
                      ((λ p, "fid:" +:+ p) <$> paths))))
  | _ => Raise "ConnectionError"
  end.

(** *** Baidu *)

(** A provider that answers every verify request with the error number
    [-9]. *)
Definition baidu_refuses : BaiduStoken.Transport := λ _,
  Ret (BaiduStoken.Response (Some (BaiduStoken.VerifyAnswer (-9)))).

End MoreSamples.

(** * Properties *)

(** ** Method bodies *)

Section PyFacts.
Import Py.

Lemma try_return_returns {W A} (m : M W A) h w :
  ∃ a w', try_return m h w = (Ret a, w').
Proof. unfold try_return. destruct (m w) as [[a|e] w']; eauto. Qed.

Lemma bindM_ret_inv {W A B} (m : M W A) (k : A → M W B) w b w' :
  bindM m k w = (Ret b, w') →
  ∃ a w1, m w = (Ret a, w1) ∧ k a w1 = (Ret b, w').
Proof.
  unfold bindM. destruct (m w) as [[a|e] w1]; [eauto|done].
Qed.

(** [strip] drops the whitespace beyond ASCII as well: a no-break space
    (U+00A0) before and an ideographic space (U+3000) after a cookie item
    go, a string of whitespace only strips to the empty string, and the
    bytes of other characters stay. *)
Lemma strip_unicode_whitespace :
  let nbsp := String (ascii_of_nat 194) (String (ascii_of_nat 160) "") in
  let ideographic := String (ascii_of_nat 227)
                       (String (ascii_of_nat 128) (String (ascii_of_nat 128) "")) in
  strip (nbsp +:+ " BDUSS=x" +:+ ideographic +:+ nbsp) = "BDUSS=x"
  ∧ strip ideographic = ""
  ∧ strip " 目录 路径 " = "目录 路径".
Proof. vm_compute. done. Qed.

End PyFacts.

(** ** Facts about the sample providers *)

(** The sample providers answer list requests with the listing they were
    built from. *)
Lemma aliyun_lists_listing ls share_id share_token c :
  @Aliyun.listing (Samples.aliyun_lists ls) share_id share_token c = ls c.
Proof. done. Qed.

Lemma tree3_inv c it :
  it ∈ Samples.tree3 c →
  (c = "root" ∧ (it = Samples.folder "A" "Show" ∨ it = Samples.file "f0" "readme.txt"))
  ∨ (c = "A" ∧ (it = Samples.folder "B" "Season 1" ∨ it = Samples.file "T" "episode.mkv"))
  ∨ (c = "B" ∧ it = Samples.file "g" "extra.srt").
Proof.
  unfold Samples.tree3. repeat case_decide; set_solver.
Qed.

Lemma tree3_tree_like : Aliyun.tree_like Samples.tree3.
Proof.
  split.
  - intros c c' it it' H H' Hid.
    apply tree3_inv in H, H'.
    destruct H as [[-> [->| ->]]|[[-> [->| ->]]|[-> ->]]];
      destruct H' as [[-> [->| ->]]|[[-> [->| ->]]|[-> ->]]];
      first [done|discriminate Hid].
  - intros c it H.
    apply tree3_inv in H.
    by destruct H as [[-> [->| ->]]|[[-> [->| ->]]|[-> ->]]].
Qed.

Lemma tree3_folders c it :
  it ∈ Samples.tree3 c → Aliyun.is_folder it = true →
  Aliyun.i_file_id it ∈ ({["A"; "B"]} : gset string).
Proof.
  intros H Hf. apply tree3_inv in H.
  destruct H as [[-> [->| ->]]|[[-> [->| ->]]|[-> ->]]];
    first [discriminate Hf|set_solver].
Qed.

Lemma knot_folders c it :
  it ∈ Samples.knot c → Aliyun.is_folder it = true →
  Aliyun.i_file_id it ∈ ({["A"; "B"; "root"]} : gset string).
Proof.
  unfold Samples.knot. intros H Hf.
  repeat case_decide; subst;
    repeat (apply elem_of_cons in H as [->|H]; [first [discriminate Hf|set_solver]|]);
    by apply elem_of_nil in H.
Qed.

Lemma tree3_descends :
  Aliyun.descends Samples.tree3 "T" "root"
    [Samples.folder "A" "Show"; Samples.file "T" "episode.mkv"].
Proof.
  apply Aliyun.descends_down; [by left|done|done|].
  apply Aliyun.descends_here; [|done].
  right. by left.
Qed.


(** ** Strings and dictionaries *)

Section StringFacts.
Import Py.

Lemma contains_char_cons (sep c : ascii) (rest : string) :
  contains (String sep "") (String c rest)
  = bool_decide (c = sep) || contains (String sep "") rest.
Proof.
  cbn [contains String.prefix]. destruct (ascii_dec sep c) as [->|Hne].
  - rewrite bool_decide_true by done. by destruct rest.
  - rewrite bool_decide_false by congruence. done.
Qed.

Lemma contains_char_app (sep : ascii) (a b : string) :
  contains (String sep "") (a +:+ String sep b) = true.
Proof.
  induction a as [|c a IH].
  - change ("" +:+ String sep b) with (String sep b).
    rewrite contains_char_cons. by rewrite bool_decide_true.
  - change (String c a +:+ String sep b) with (String c (a +:+ String sep b)).
    rewrite contains_char_cons, IH. by rewrite orb_true_r.
Qed.

Lemma split_go_app (sep : ascii) (cur a b : string) :
  split_go sep cur (a +:+ String sep b) = (split_go sep cur a ++ split_go sep "" b)%list.
Proof.
  induction a as [|c a IH] in cur |- *; simpl.
  - by rewrite decide_True.
  - destruct (decide (c = sep)); [by rewrite IH|apply IH].
Qed.

Lemma split_app (sep : ascii) (a b : string) :
  split sep (a +:+ String sep b) = (split sep a ++ split sep b)%list.
Proof. apply split_go_app. Qed.

Lemma split_go_no_sep (sep : ascii) (cur a : string) :
  contains (String sep "") a = false →
  split_go sep cur a = [String.rev_app cur a].
Proof.
  induction a as [|c a IH] in cur |- *; [done|].
  rewrite contains_char_cons. intros [Hc Ha]%orb_false_iff.
  apply bool_decide_eq_false in Hc. simpl. rewrite decide_False by done. by apply IH.
Qed.

Lemma split_no_sep (sep : ascii) (a : string) :
  contains (String sep "") a = false → split sep a = [a].
Proof. apply split_go_no_sep. Qed.

Lemma truthy_app_char (a b : string) (c : ascii) : truthy (a +:+ String c b) = true.
Proof. by destruct a. Qed.

Lemma dict_get_dict_set {V} (k k' : string) (v : V) (d : list (string * V)) :
  dict_get k (dict_set k' v d) = if decide (k' = k) then Some v else dict_get k d.
Proof.
  induction d as [|[k0 v0] d IH]; simpl.
  - done.
  - destruct (decide (k0 = k')) as [->|Hne]; simpl.
    + by destruct (decide (k' = k)).
    + destruct (decide (k0 = k)) as [->|Hne']; [by rewrite decide_False|done].
Qed.

End StringFacts.


(** ** The adapter factory and its instance cache *)

Section FactoryFacts.
Import Py Cfg Factory.
Context `{Hashlib}.

Lemma cache_wf_init Q : cache_wf (factory_init Q).
Proof. intros k r Hk. simpl in Hk. by rewrite lookup_empty in Hk. Qed.

Lemma cache_wf_clear_cache F : cache_wf (clear_cache F).
Proof. intros k r Hk. simpl in Hk. by rewrite lookup_empty in Hk. Qed.

Lemma create_adapter_wf dt c i F :
  cache_wf F → cache_wf (create_adapter dt c i F).2.
Proof.
  intros Hwf. unfold create_adapter.
  destruct (ADAPTER_MAP F !! dt) as [cls|]; [|done].
  destruct (_instance_cache F !! _make_cache_key dt c) as [r|] eqn:Hc; [done|].
  destruct (new_adapter cls c i) as [obj|e]; [|done].
  intros k r. simpl. rewrite length_app. simpl.
  destruct (decide (_make_cache_key dt c = k)) as [->|Hne].
  - rewrite lookup_insert_eq. intros [= <-]. lia.
  - rewrite lookup_insert_ne; [|done]. intros Hk%Hwf. lia.
Qed.

(** A hit in the cache returns the cached reference and leaves the factory
    as it is. *)
Lemma create_adapter_hit dt c i F cls r :
  ADAPTER_MAP F !! dt = Some cls →
  _instance_cache F !! _make_cache_key dt c = Some r →
  create_adapter dt c i F = (Some r, F).
Proof. intros Hm Hc. unfold create_adapter. by rewrite Hm, Hc. Qed.

(** A miss allocates a fresh object and caches its address. *)
Lemma create_adapter_miss dt c i F cls :
  ADAPTER_MAP F !! dt = Some cls →
  _instance_cache F !! _make_cache_key dt c = None →
  init_raises cls c i = false →
  ∃ obj, create_adapter dt c i F =
    (Some (length (heap F)),
     FactoryState (ADAPTER_MAP F)
       (<[_make_cache_key dt c := length (heap F)]> (_instance_cache F))
       (heap F ++ [obj])%list).
Proof.
  intros Hm Hc Hr. unfold create_adapter, new_adapter. rewrite Hm, Hc, Hr.
  by eexists.
Qed.

(** C1.  For a drive type of the adapter map whose constructor returns on
    the cookie, two calls of [create_adapter] with the same arguments return
    the same object, which is cached under the key
    [drive_type:md5(cookie)[:16]]; after [clear_cache] a further call with
    the same arguments returns another object, allocated at an address that
    held nothing before. *)
Theorem create_adapter_same_until_clear_cache
    (F : factory) (drive_type cookie : string) (index : Z) (cls : adapter_class) :
  cache_wf F →
  ADAPTER_MAP F !! drive_type = Some cls →
  init_raises cls cookie index = false →
  ∃ (a b : ref) (F1 F2 F3 : factory),
    create_adapter drive_type cookie index F = (Some a, F1)
    ∧ create_adapter drive_type cookie index F1 = (Some a, F2)
    ∧ _instance_cache F2
        !! (drive_type +:+ ":" +:+ take_prefix 16 (md5_hexdigest cookie)) = Some a
    ∧ is_Some (heap F2 !! a)
    ∧ create_adapter drive_type cookie index (clear_cache F2) = (Some b, F3)
    ∧ a ≠ b
    ∧ heap F2 !! b = None
    ∧ is_Some (heap F3 !! b).
Proof.
  intros Hwf Hm Hr.
  assert (Hstep : ∃ a F1, create_adapter drive_type cookie index F = (Some a, F1)
            ∧ ADAPTER_MAP F1 = ADAPTER_MAP F
            ∧ _instance_cache F1 !! _make_cache_key drive_type cookie = Some a).
  { destruct (_instance_cache F !! _make_cache_key drive_type cookie) as [r|] eqn:Hc.
    - exists r, F. by rewrite (create_adapter_hit _ _ _ _ cls r).
    - destruct (create_adapter_miss _ _ index _ _ Hm Hc Hr) as [obj Ho].
      eexists _, _. split; [exact Ho|]. simpl. by rewrite lookup_insert_eq. }
  destruct Hstep as (a & F1 & H1 & HM1 & HC1).
  assert (Hwf1 : cache_wf F1).
  { pose proof (create_adapter_wf drive_type cookie index F Hwf) as Hw.
    by rewrite H1 in Hw. }
  assert (Hm1 : ADAPTER_MAP F1 !! drive_type = Some cls) by by rewrite HM1.
  pose proof (create_adapter_hit _ _ index _ _ _ Hm1 HC1) as H2.
  assert (Hmc : ADAPTER_MAP (clear_cache F1) !! drive_type = Some cls) by done.
  assert (Hcc : _instance_cache (clear_cache F1) !! _make_cache_key drive_type cookie = None)
    by apply lookup_empty.
  destruct (create_adapter_miss _ _ index _ _ Hmc Hcc Hr) as [obj H3].
  pose proof (Hwf1 _ _ HC1) as Hlt.
  eexists a, _, F1, F1, _. repeat split.
  - exact H1.
  - exact H2.
  - exact HC1.
  - by apply lookup_lt_is_Some_2.
  - exact H3.
  - simpl. lia.
  - simpl. by apply lookup_ge_None_2.
  - simpl. apply lookup_lt_is_Some_2. rewrite length_app. simpl. lia.
Qed.

End FactoryFacts.


Lemma create_adapter_same_until_clear_cache_witness :
  let H := Samples.toy_md5 in
  let Q := Factory.AdapterClass "quark" (λ _ _, false) in
  let F := Factory.factory_init Q in
  Factory.cache_wf F
  ∧ Factory.ADAPTER_MAP F !! "aliyun" = Some Factory.AliyunAdapter
  ∧ Factory.init_raises Factory.AliyunAdapter "token" 0 = false
  ∧ ∃ (a b : Factory.ref) (F1 F2 F3 : Factory.factory),
    Factory.create_adapter "aliyun" "token" 0 F = (Some a, F1)
    ∧ Factory.create_adapter "aliyun" "token" 0 F1 = (Some a, F2)
    ∧ Factory._instance_cache F2
        !! ("aliyun" +:+ ":" +:+ Py.take_prefix 16 (Factory.md5_hexdigest "token")) = Some a
    ∧ is_Some (Factory.heap F2 !! a)
    ∧ Factory.create_adapter "aliyun" "token" 0 (Factory.clear_cache F2) = (Some b, F3)
    ∧ a ≠ b
    ∧ Factory.heap F2 !! b = None
    ∧ is_Some (Factory.heap F3 !! b).
Proof.
  intros H Q F.
  assert (Hwf : Factory.cache_wf F) by apply cache_wf_init.
  assert (Hm : Factory.ADAPTER_MAP F !! "aliyun" = Some Factory.AliyunAdapter)
    by reflexivity.
  assert (Hr : Factory.init_raises Factory.AliyunAdapter "token" 0 = false)
    by reflexivity.
  split; [exact Hwf|]. split; [exact Hm|]. split; [exact Hr|].
  exact (create_adapter_same_until_clear_cache F "aliyun" "token" 0
           Factory.AliyunAdapter Hwf Hm Hr).
Defined.

(** ** The account router *)

Section RouterFacts.
Import Py Cfg Factory.
Context `{Hashlib}.

(** Every pattern of the URL table maps to a non-empty drive type, so the
    [if drive_type:] test of the router never discards a detected type. *)
Lemma get_drive_type_by_url_truthy url dt :
  get_drive_type_by_url url = Some dt → truthy dt = true.
Proof.
  unfold get_drive_type_by_url.
  destruct (List.find _ URL_PATTERNS) as [[p d]|] eqn:Hf; [|done].
  intros [= <-]. apply find_some in Hf as [Hin _].
  simpl in Hin. repeat (destruct Hin as [[= <- <-]|Hin]; [done|]). done.
Qed.

Lemma dict_get_dict_set_eq {V} k (v : V) d : dict_get k (dict_set k v d) = Some v.
Proof.
  induction d as [|[k' v'] d IH]; simpl.
  - by rewrite decide_True.
  - destruct (decide (k' = k)) as [->|Hne]; simpl.
    + by rewrite decide_True.
    + by rewrite decide_False.
Qed.

Lemma dict_set_keys {V} k (v : V) d n :
  n ∈ (dict_set k v d).*1 → n = k ∨ n ∈ d.*1.
Proof.
  induction d as [|[k' v'] d IH]; simpl.
  - intros ->%list_elem_of_singleton. by left.
  - destruct (decide (k' = k)) as [->|Hne]; simpl.
    + intros [->|Hin]%elem_of_cons; [by left|]. right. by apply elem_of_cons; right.
    + intros [->|Hin]%elem_of_cons.
      * right. by apply elem_of_cons; left.
      * destruct (IH Hin) as [->|Hd]; [by left|]. right. by apply elem_of_cons; right.
Qed.

Lemma dict_set_nonempty {V} k (v : V) d : dict_set k v d ≠ [].
Proof. destruct d as [|[k' v'] d]; simpl; [done|]. by destruct (decide _). Qed.

Lemma dict_get_Some_key {V} k (v : V) d : dict_get k d = Some v → k ∈ d.*1.
Proof.
  induction d as [|[k' v'] d IH]; simpl; [done|].
  destruct (decide (k' = k)) as [->|Hne].
  - intros _. by apply elem_of_cons; left.
  - intros Hd. apply elem_of_cons; right. by apply IH.
Qed.

Lemma load_account_default i a M F :
  default_iff_loaded M → default_iff_loaded (load_account i a (M, F)).1.
Proof.
  intros HM. unfold load_account.
  destruct (negb _); [done|].
  destruct (create_adapter _ _ _ F) as [[r|] F']; [|done].
  unfold default_iff_loaded. simpl. split.
  - destruct (default false (acc_default a)); simpl; [done|].
    case_bool_decide as Hd; simpl; [|done].
    destruct Hd as [d Hd]. by rewrite Hd.
  - intros Hs. by apply dict_set_nonempty in Hs.
Qed.

Lemma load_new_cons i a rest st :
  load_new i (a :: rest) st = load_new (S i) rest (load_account i a st).
Proof. done. Qed.

Lemma load_old_cons i c rest st :
  load_old i (c :: rest) st = load_old (S i) rest (load_cookie i c st).
Proof. done. Qed.

Lemma load_new_default accounts : ∀ i M F,
  default_iff_loaded M → default_iff_loaded (load_new i accounts (M, F)).1.
Proof.
  induction accounts as [|a rest IH]; intros i M F HM; [done|].
  rewrite load_new_cons.
  pose proof (load_account_default i a M F HM) as Hs.
  destruct (load_account i a (M, F)) as [M' F']. by apply IH.
Qed.

Lemma load_cookie_default i c M F :
  default_iff_loaded M → default_iff_loaded (load_cookie i c (M, F)).1.
Proof.
  intros HM. unfold load_cookie.
  destruct (negb _); [done|].
  destruct (create_adapter _ _ _ F) as [[r|] F']; [|done].
  unfold default_iff_loaded. simpl. split.
  - case_bool_decide as Hd; simpl; [|done].
    destruct Hd as [d Hd]. by rewrite Hd.
  - intros Hs. by apply dict_set_nonempty in Hs.
Qed.

Lemma load_old_default cookies : ∀ i M F,
  default_iff_loaded M → default_iff_loaded (load_old i cookies (M, F)).1.
Proof.
  induction cookies as [|c rest IH]; intros i M F HM; [done|].
  rewrite load_old_cons.
  pose proof (load_cookie_default i c M F HM) as Hs.
  destruct (load_cookie i c (M, F)) as [M' F']. by apply IH.
Qed.

Lemma load_accounts_default cfg F :
  default_iff_loaded (load_accounts cfg F).1.2.
Proof.
  unfold load_accounts.
  assert (H0 : default_iff_loaded (AccountManager [] None)) by done.
  destruct (cfg_accounts cfg) as [accounts|].
  - pose proof (load_new_default accounts 0 _ F H0) as Hs.
    by destruct (load_new 0 accounts _) as [M' F'].
  - destruct (cfg_cookie cfg) as [cookies|]; [|done].
    pose proof (load_old_default (legacy_cookies cookies) 0 _ F H0) as Hs.
    by destruct (load_old 0 _ _) as [M' F'].
Qed.

(** Only enabled accounts are loaded. *)
Lemma load_new_names accounts : ∀ i M F n,
  n ∈ (adapters (load_new i accounts (M, F)).1).*1 →
  n ∈ (adapters M).*1 ∨
  ∃ j a, accounts !! j = Some a ∧ default true (acc_enabled a) = true
         ∧ account_name_of (i + j) a = n.
Proof.
  induction accounts as [|a rest IH]; intros i M F n; [by left|].
  rewrite load_new_cons. intros Hn.
  destruct (load_account i a (M, F)) as [M' F'] eqn:Hl.
  destruct (IH (S i) M' F' n Hn) as [Hin|(j & b & Hj & Hen & Hname)].
  - unfold load_account in Hl.
    destruct (default true (acc_enabled a)) eqn:Hen; simpl in Hl;
      [|by injection Hl as <- <-; left].
    destruct (create_adapter _ _ _ F) as [[r|] F'']; injection Hl as <- <-;
      [|by left].
    simpl in Hin. apply dict_set_keys in Hin as [->|Hin]; [|by left].
    right. exists 0, a. by rewrite Nat.add_0_r.
  - right. exists (S j), b. split; [done|]. split; [done|].
    by replace (i + S j) with (S i + j) by lia.
Qed.

Lemma load_accounts_names cfg F accounts n :
  cfg_accounts cfg = Some accounts →
  n ∈ (adapters (load_accounts cfg F).1.2).*1 →
  enabled_account cfg n.
Proof.
  intros Hcfg. unfold load_accounts. rewrite Hcfg.
  destruct (load_new 0 accounts _) as [M' F'] eqn:Hl. simpl.
  intros Hn.
  pose proof (load_new_names accounts 0 (AccountManager [] None) F n) as Hs.
  rewrite Hl in Hs. destruct (Hs Hn) as [Hin|(j & a & Hj & Hen & Hname)].
  - by apply elem_of_nil in Hin.
  - by exists accounts, j, a.
Qed.

Lemma find_first {A} (p : A → bool) pre a post :
  p a = true → Forall (λ b, p b = false) pre →
  List.find p (pre ++ a :: post) = Some a.
Proof.
  intros Ha. induction 1 as [|b pre Hb _ IH]; simpl.
  - by rewrite Ha.
  - by rewrite Hb.
Qed.

Lemma find_none_Forall {A} (p : A → bool) l :
  Forall (λ b, p b = false) l → List.find p l = None.
Proof. induction 1 as [|b l Hb _ IH]; simpl; [done|]. by rewrite Hb. Qed.

End RouterFacts.


(** ** The factory: what the cache keeps and what it ignores *)

Section FactoryMore.
Import Py Cfg Factory.
Context `{Hashlib}.

(** X1.  The cache key of [create_adapter] is built from the drive type
    and the cookie only: a call with another [index] returns the instance
    the first call made, whose index is still the first one plus one, and
    changes nothing, even when the constructor would raise on the new
    index. *)
Theorem create_adapter_ignores_index
    (F : factory) (drive_type cookie : string) (i j : Z) (cls : adapter_class) :
  ADAPTER_MAP F !! drive_type = Some cls →
  _instance_cache F !! _make_cache_key drive_type cookie = None →
  init_raises cls cookie i = false →
  ∃ a F1 obj,
    create_adapter drive_type cookie i F = (Some a, F1)
    ∧ heap F1 !! a = Some obj ∧ index obj = (i + 1)%Z
    ∧ create_adapter drive_type cookie j F1 = (Some a, F1).
Proof.
  intros Hm Hc Hr.
  destruct (create_adapter_miss _ _ i _ _ Hm Hc Hr) as [obj Ho].
  pose proof Ho as Ho'. unfold create_adapter, new_adapter in Ho'.
  rewrite Hm, Hc, Hr in Ho'. injection Ho' as Hobj.
  apply app_inj_tail in Hobj as [_ <-].
  eexists _, _, _. split; [exact Ho|]. split; [|split].
  - simpl. by rewrite lookup_app_r, Nat.sub_diag.
  - done.
  - apply (create_adapter_hit _ _ _ _ cls); simpl; [done|]. by rewrite lookup_insert_eq.
Qed.

(** X2.  [create_adapter] only adds: the adapter map is untouched, the
    heap grows at its end by at most one object, and every cache entry that
    was there stays as it was, so a reference handed out earlier stays
    valid and names the same object. *)
Theorem create_adapter_only_adds
    (F : factory) (drive_type cookie : string) (index : Z) :
  let F' := (create_adapter drive_type cookie index F).2 in
  ADAPTER_MAP F' = ADAPTER_MAP F
  ∧ (∃ new, heap F' = (heap F ++ new)%list ∧ (length new ≤ 1)%nat)
  ∧ (∀ k r, _instance_cache F !! k = Some r → _instance_cache F' !! k = Some r)
  ∧ (∀ r obj, heap F !! r = Some obj → heap F' !! r = Some obj).
Proof.
  intros F'.
  assert (Hcases : F' = F ∨ ∃ obj,
    _instance_cache F !! _make_cache_key drive_type cookie = None
    ∧ F' = FactoryState (ADAPTER_MAP F)
             (<[_make_cache_key drive_type cookie := length (heap F)]> (_instance_cache F))
             (heap F ++ [obj])%list).
  { unfold F', create_adapter.
    destruct (ADAPTER_MAP F !! drive_type) as [cls|]; [|by left].
    destruct (_instance_cache F !! _) as [r|] eqn:Hc; [by left|].
    destruct (new_adapter cls cookie index) as [obj|e]; [|by left].
    right. by exists obj. }
  destruct Hcases as [->|(obj & Hc & ->)].
  - split; [done|]. split; [|done]. exists []. split; [by rewrite app_nil_r|simpl; lia].
  - split; [done|]. split; [exists [obj]; split; [done|simpl; lia]|]. split.
    + intros k r Hk. simpl. rewrite lookup_insert_ne; [done|]. congruence.
    + intros r o Hr. simpl. by apply lookup_app_l_Some.
Qed.

(** X3.  [register_adapter] replaces the class of a drive type and
    leaves the instance cache alone: an adapter made before the
    registration is still what [create_adapter] returns for its cookie; only
    a cookie not seen before gets an instance of the new class. *)
Theorem register_adapter_keeps_cached_instance
    (F : factory) (drive_type cookie cookie' : string) (index : Z)
    (new_class : adapter_class) (a : ref) :
  _instance_cache F !! _make_cache_key drive_type cookie = Some a →
  _instance_cache F !! _make_cache_key drive_type cookie' = None →
  init_raises new_class cookie' index = false →
  let F1 := register_adapter drive_type new_class F in
  create_adapter drive_type cookie index F1 = (Some a, F1)
  ∧ heap F1 = heap F
  ∧ ∃ b F2 obj, create_adapter drive_type cookie' index F1 = (Some b, F2)
      ∧ heap F2 !! b = Some obj ∧ class_of obj = new_class ∧ heap F !! b = None.
Proof.
  intros Ha Hc Hr F1.
  assert (Hm : ADAPTER_MAP F1 !! drive_type = Some new_class).
  { unfold F1, register_adapter. simpl. by rewrite lookup_insert_eq. }
  split; [by apply (create_adapter_hit _ _ _ _ new_class)|]. split; [done|].
  destruct (create_adapter_miss drive_type cookie' index F1 new_class Hm Hc Hr) as [obj Ho].
  pose proof Ho as Ho'. unfold create_adapter, new_adapter in Ho'.
  rewrite Hm in Ho'. change (_instance_cache F1) with (_instance_cache F) in Ho'.
  rewrite Hc, Hr in Ho'. injection Ho' as Hobj.
  apply app_inj_tail in Hobj as [_ <-].
  eexists _, _, _. split; [exact Ho|]. simpl. split; [|split].
  - by rewrite lookup_app_r, Nat.sub_diag.
  - done.
  - by apply lookup_ge_None_2.
Qed.

(** X4.  With the adapter map of the class body, every drive type the
    URL table detects is a registered one, so [create_adapter_by_url] on a
    recognised URL is [create_adapter] for the detected type.  Detection
    fails exactly for the URLs that hold none of the table's domains, and
    for such a URL [create_adapter_by_url] gives [None] and changes
    nothing. *)
Theorem create_adapter_by_url_dispatch
    (Q : adapter_class) (F : factory) (url cookie : string) (index : Z) :
  ADAPTER_MAP F = ADAPTER_MAP_init Q →
  (∀ dt, get_drive_type_by_url url = Some dt →
     is_Some (ADAPTER_MAP F !! dt)
     ∧ create_adapter_by_url url cookie index F = create_adapter dt cookie index F)
  ∧ (get_drive_type_by_url url = None
     ↔ Forall (λ p, Forall (λ alt, contains alt url = false) p.1) URL_PATTERNS)
  ∧ (Forall (λ p, Forall (λ alt, contains alt url = false) p.1) URL_PATTERNS →
     create_adapter_by_url url cookie index F = (None, F)).
Proof.
  intros HM.
  assert (Hiff : get_drive_type_by_url url = None
                 ↔ Forall (λ p, Forall (λ alt, contains alt url = false) p.1) URL_PATTERNS).
  { unfold get_drive_type_by_url. split.
    - intros Hnone.
      destruct (List.find _ URL_PATTERNS) as [pd|] eqn:Hf; [done|].
      apply Forall_forall. intros p Hp. apply list_elem_of_In in Hp.
      pose proof (find_none _ _ Hf p Hp) as Hs. unfold re_search in Hs.
      apply Forall_forall. intros alt Halt.
      destruct (contains alt url) eqn:Hc; [|done].
      assert (existsb (λ alt, contains alt url) p.1 = true); [|congruence].
      apply existsb_exists. exists alt. split; [by apply list_elem_of_In|done].
    - intros Hall.
      destruct (List.find _ URL_PATTERNS) as [pd|] eqn:Hf; [|done].
      apply find_some in Hf as [Hin Hs]. apply list_elem_of_In in Hin.
      rewrite Forall_forall in Hall. specialize (Hall _ Hin).
      unfold re_search in Hs. apply existsb_exists in Hs as (alt & Halt & Hc).
      apply list_elem_of_In in Halt. rewrite Forall_forall in Hall.
      specialize (Hall _ Halt). simpl in Hall. congruence. }
  split; [|split; [exact Hiff|]].
  - intros dt Hdt. split.
    + rewrite HM. unfold get_drive_type_by_url in Hdt.
      destruct (List.find _ URL_PATTERNS) as [[p d]|] eqn:Hf; [|done].
      injection Hdt as <-. apply find_some in Hf as [Hin _].
      simpl in Hin. repeat (destruct Hin as [[= <- <-]|Hin]; [by eexists|]). done.
    + unfold create_adapter_by_url. by rewrite Hdt, (get_drive_type_by_url_truthy _ _ Hdt).
  - intros Hall. apply Hiff in Hall. unfold create_adapter_by_url. by rewrite Hall.
Qed.

Lemma load_new_app l1 : ∀ l2 i st,
  load_new i (l1 ++ l2) st = load_new (i + length l1) l2 (load_new i l1 st).
Proof.
  induction l1 as [|a l1 IH]; intros l2 i st; simpl.
  - by rewrite Nat.add_0_r.
  - rewrite IH. f_equal. lia.
Qed.

(** Accounts that are disabled or not flagged leave a default that is
    set as it is. *)
Lemma load_new_keeps_default post : ∀ i M F r,
  default_adapter M = Some r →
  Forall (λ b, default true (acc_enabled b) = false
               ∨ default false (acc_default b) = false) post →
  default_adapter (load_new i post (M, F)).1 = Some r.
Proof.
  induction post as [|b post IH]; intros i M F r Hd Hpost; [done|].
  apply Forall_cons in Hpost as [Hb Hpost]. rewrite load_new_cons.
  assert (Hs : default_adapter (load_account i b (M, F)).1 = Some r).
  { unfold load_account. destruct Hb as [Hb|Hb]; rewrite Hb; simpl; [done|].
    destruct (negb _); [done|].
    destruct (create_adapter _ _ _ F) as [[r'|] F']; [|done].
    simpl. rewrite Hd. by rewrite bool_decide_true by by eexists. }
  destruct (load_account i b (M, F)) as [M' F']. by apply IH.
Qed.

(** X5.  The default adapter after [load_accounts]: a loaded account
    becomes the default when it is flagged ["default"] or when nothing was
    loaded before it, and it stays the default unless an enabled account
    after it is flagged.  So of several flagged accounts the last one
    wins, and without a flag the first loaded account is the default. *)
Theorem load_accounts_last_default_wins
    (cfg : config) (F F' : factory) (pre post : list account) (a : account) (r : ref) :
  cfg_accounts cfg = Some (pre ++ a :: post)%list →
  default true (acc_enabled a) = true →
  create_adapter (default "quark" (acc_drive_type a)) (default "" (acc_cookie a))
    (Z.of_nat (length pre)) (load_new 0 pre (AccountManager [] None, F)).2 = (Some r, F') →
  default false (acc_default a) = true
  ∨ default_adapter (load_new 0 pre (AccountManager [] None, F)).1 = None →
  Forall (λ b, default true (acc_enabled b) = false
               ∨ default false (acc_default b) = false) post →
  default_adapter (load_accounts cfg F).1.2 = Some r.
Proof.
  intros Hcfg Hen Hc Hflag Hpost. unfold load_accounts. rewrite Hcfg.
  rewrite load_new_app, load_new_cons. simpl.
  destruct (load_new 0 pre (AccountManager [] None, F)) as [M1 F1] eqn:Hpre.
  simpl in Hc, Hflag.
  assert (Ha : load_account (length pre) a (M1, F1)
               = (AccountManager (dict_set (account_name_of (length pre) a) r (adapters M1))
                    (Some r), F')).
  { unfold load_account. rewrite Hen. simpl. rewrite Hc. f_equal. f_equal.
    destruct Hflag as [-> | ->]; [done|]. simpl.
    by rewrite orb_true_r. }
  rewrite Ha.
  pose proof (load_new_keeps_default post (S (length pre))
                (AccountManager (dict_set (account_name_of (length pre) a) r (adapters M1))
                   (Some r)) F' r eq_refl Hpost) as Hk.
  by destruct (load_new _ post _) as [M2 F2].
Qed.

Lemma dict_get_dict_set_ne {V} k n (v : V) d :
  k ≠ n → dict_get n (dict_set k v d) = dict_get n d.
Proof.
  intros Hne. induction d as [|[k' v'] d IH]; simpl.
  - by rewrite decide_False.
  - destruct (decide (k' = k)) as [->|Hk]; simpl.
    + by rewrite !decide_False.
    + destruct (decide (k' = n)); [done|apply IH].
Qed.

(** What [create_adapter] returns is what the cache then holds for the
    key. *)
Lemma create_adapter_Some_cached dt c i F r F1 :
  create_adapter dt c i F = (Some r, F1) →
  is_Some (ADAPTER_MAP F1 !! dt) ∧ _instance_cache F1 !! _make_cache_key dt c = Some r.
Proof.
  unfold create_adapter.
  destruct (ADAPTER_MAP F !! dt) as [cls|] eqn:Hm; [|done].
  destruct (_instance_cache F !! _) as [r'|] eqn:Hc.
  - intros [= <- <-]. by rewrite Hm.
  - destruct (new_adapter cls c i) as [obj|e]; [|done].
    intros [= <- <-]. simpl. by rewrite Hm, lookup_insert_eq.
Qed.

Lemma load_new_other_names post : ∀ i M F n,
  (∀ k c, post !! k = Some c → account_name_of (i + k) c ≠ n) →
  dict_get n (adapters (load_new i post (M, F)).1) = dict_get n (adapters M).
Proof.
  induction post as [|b post IH]; intros i M F n Hn; [done|].
  rewrite load_new_cons.
  assert (Hs : dict_get n (adapters (load_account i b (M, F)).1) = dict_get n (adapters M)).
  { unfold load_account. destruct (negb _); [done|].
    destruct (create_adapter _ _ _ F) as [[r'|] F']; [|done].
    simpl. apply dict_get_dict_set_ne. specialize (Hn 0%nat b eq_refl).
    by rewrite Nat.add_0_r in Hn. }
  destruct (load_account i b (M, F)) as [M' F'].
  simpl in Hs. rewrite <-Hs. apply IH.
  intros k c Hk. specialize (Hn (S k) c Hk). by rewrite Nat.add_succ_r in Hn.
Qed.

(** X6.  Two enabled accounts that follow one another with the same
    drive type and the same cookie are served by one adapter object: the
    second account gets the instance cached for the first, whatever its
    position, and both names lead to the same reference (as long as no later
    account takes either name). *)
Theorem load_accounts_shares_instance
    (cfg : config) (F F1 : factory) (pre post : list account) (a b : account) (r : ref) :
  let na := account_name_of (length pre) a in
  let nb := account_name_of (S (length pre)) b in
  cfg_accounts cfg = Some (pre ++ a :: b :: post)%list →
  default true (acc_enabled a) = true →
  default true (acc_enabled b) = true →
  default "quark" (acc_drive_type b) = default "quark" (acc_drive_type a) →
  default "" (acc_cookie b) = default "" (acc_cookie a) →
  create_adapter (default "quark" (acc_drive_type a)) (default "" (acc_cookie a))
    (Z.of_nat (length pre)) (load_new 0 pre (AccountManager [] None, F)).2 = (Some r, F1) →
  (∀ k c, post !! k = Some c →
     account_name_of (S (S (length pre)) + k) c ≠ na
     ∧ account_name_of (S (S (length pre)) + k) c ≠ nb) →
  dict_get na (adapters (load_accounts cfg F).1.2) = Some r
  ∧ dict_get nb (adapters (load_accounts cfg F).1.2) = Some r.
Proof.
  intros na nb Hcfg Hena Henb Hdt Hck Hc Hpost. unfold load_accounts. rewrite Hcfg.
  rewrite load_new_app, !load_new_cons. simpl.
  destruct (load_new 0 pre (AccountManager [] None, F)) as [M1 F1'] eqn:Hpre.
  simpl in Hc.
  destruct (create_adapter_Some_cached _ _ _ _ _ _ Hc) as [[cls Hm] Hcache].
  assert (Ha : ∃ d, load_account (length pre) a (M1, F1')
                    = (AccountManager (dict_set na r (adapters M1)) d, F1)).
  { unfold load_account. rewrite Hena. simpl. rewrite Hc. by eexists. }
  destruct Ha as [d Ha]. rewrite Ha.
  assert (Hb : ∃ d', load_account (S (length pre)) b
                       (AccountManager (dict_set na r (adapters M1)) d, F1)
                     = (AccountManager (dict_set nb r (dict_set na r (adapters M1))) d', F1)).
  { unfold load_account. rewrite Henb. simpl. rewrite Hdt, Hck.
    rewrite (create_adapter_hit _ _ _ _ cls r Hm Hcache). by eexists. }
  destruct Hb as [d' Hb]. rewrite Hb.
  pose proof (load_new_other_names post (S (S (length pre)))
                (AccountManager (dict_set nb r (dict_set na r (adapters M1))) d') F1) as Hk.
  destruct (load_new _ post _) as [M2 F2]. simpl in Hk. cbn [fst snd].
  split.
  - rewrite (Hk na) by (intros k c Hkc; by apply Hpost). simpl.
    destruct (decide (nb = na)) as [->|Hne]; [apply dict_get_dict_set_eq|].
    rewrite dict_get_dict_set_ne by done. apply dict_get_dict_set_eq.
  - rewrite (Hk nb) by (intros k c Hkc; by apply Hpost). simpl.
    apply dict_get_dict_set_eq.
Qed.

End FactoryMore.

Lemma create_adapter_ignores_index_witness :
  let H := Samples.toy_md5 in
  let F := Factory.factory_init (Factory.AdapterClass "quark" (λ _ _, false)) in
  ∃ a F1 obj,
    Factory.create_adapter "aliyun" "token" 0 F = (Some a, F1)
    ∧ Factory.heap F1 !! a = Some obj ∧ Factory.index obj = 1%Z
    ∧ Factory.create_adapter "aliyun" "token" 7 F1 = (Some a, F1).
Proof.
  intros H F.
  exact (create_adapter_ignores_index F "aliyun" "token" 0 7 Factory.AliyunAdapter
           eq_refl eq_refl eq_refl).
Defined.

Lemma register_adapter_keeps_cached_instance_witness :
  let H := Samples.toy_md5 in
  let F := (Factory.create_adapter "uc" "c1" 0
              (Factory.factory_init (Factory.AdapterClass "quark" (λ _ _, false)))).2 in
  let other := Factory.AdapterClass "uc2" (λ _ _, false) in
  let F1 := Factory.register_adapter "uc" other F in
  Factory.create_adapter "uc" "c1" 0 F1 = (Some 0%nat, F1)
  ∧ Factory.heap F1 = Factory.heap F
  ∧ ∃ b F2 obj, Factory.create_adapter "uc" "c2" 0 F1 = (Some b, F2)
      ∧ Factory.heap F2 !! b = Some obj ∧ Factory.class_of obj = other
      ∧ Factory.heap F !! b = None.
Proof.
  intros H F other F1.
  apply (register_adapter_keeps_cached_instance F "uc" "c1" "c2" 0 other 0%nat).
  - vm_compute. reflexivity.
  - vm_compute. reflexivity.
  - reflexivity.
Defined.

(** A Baidu share URL that carries ["115.com"] in its query is taken for
    a 115 URL: the table is searched in order, by substring. *)
Lemma create_adapter_by_url_dispatch_witness :
  let H := Samples.toy_md5 in
  let F := Factory.factory_init (Factory.AdapterClass "quark" (λ _ _, false)) in
  let url := "https://pan.baidu.com/s/1abc?from=115.com" in
  Factory.get_drive_type_by_url url = Some "115"
  ∧ Factory.create_adapter_by_url url "c" 0 F = Factory.create_adapter "115" "c" 0 F
  ∧ Factory.create_adapter_by_url "https://example.org/s/1abc" "c" 0 F = (None, F).
Proof.
  intros H F url.
  assert (Hdt : Factory.get_drive_type_by_url url = Some "115") by (vm_compute; reflexivity).
  split; [exact Hdt|]. split.
  - exact (proj2 (proj1 (create_adapter_by_url_dispatch
                           (Factory.AdapterClass "quark" (λ _ _, false)) F url "c" 0 eq_refl)
                    "115" Hdt)).
  - apply (create_adapter_by_url_dispatch
             (Factory.AdapterClass "quark" (λ _ _, false)) F "https://example.org/s/1abc"
             "c" 0 eq_refl).
    repeat constructor.
Defined.

Lemma load_accounts_last_default_wins_witness :
  let H := Samples.toy_md5 in
  let flagged n d c := Cfg.Account None (Some n) (Some d) (Some c) (Some true) None in
  let cfg := Cfg.Config (Some [flagged "acctX" "115" "c1"; flagged "acctY" "baidu" "c2";
                               Samples.sample_account "acctZ" "uc" "c3"]) None in
  let loaded := Factory.load_accounts cfg
                  (Factory.factory_init (Factory.AdapterClass "quark" (λ _ _, false))) in
  Py.dict_get "acctY" (Factory.adapters loaded.1.2) = Some 1%nat
  ∧ Factory.default_adapter loaded.1.2 = Some 1%nat.
Proof.
  intros H flagged cfg loaded.
  split; [vm_compute; reflexivity|].
  set (F := Factory.factory_init (Factory.AdapterClass "quark" (λ _ _, false))).
  assert (Hc : ∃ F', Factory.create_adapter "baidu" "c2" 1
                       (Factory.load_new 0 [flagged "acctX" "115" "c1"]
                          (Factory.AccountManager [] None, F)).2 = (Some 1%nat, F')).
  { eexists. vm_compute. reflexivity. }
  destruct Hc as [F' Hc].
  apply (load_accounts_last_default_wins cfg F F' [flagged "acctX" "115" "c1"]
           [Samples.sample_account "acctZ" "uc" "c3"] (flagged "acctY" "baidu" "c2") 1%nat).
  - reflexivity.
  - reflexivity.
  - exact Hc.
  - by left.
  - apply Forall_cons. split; [by right|by apply Forall_nil].
Defined.

Lemma load_accounts_shares_instance_witness :
  let H := Samples.toy_md5 in
  let cfg := Cfg.Config (Some [Samples.sample_account "first" "aliyun" "rt";
                               Samples.sample_account "second" "aliyun" "rt"]) None in
  let loaded := Factory.load_accounts cfg
                  (Factory.factory_init (Factory.AdapterClass "quark" (λ _ _, false))) in
  Py.dict_get "first" (Factory.adapters loaded.1.2) = Some 0%nat
  ∧ Py.dict_get "second" (Factory.adapters loaded.1.2) = Some 0%nat.
Proof.
  intros H cfg loaded.
  set (F := Factory.factory_init (Factory.AdapterClass "quark" (λ _ _, false))).
  assert (Hc : ∃ F1, Factory.create_adapter "aliyun" "rt" 0 F = (Some 0%nat, F1)).
  { eexists. vm_compute. reflexivity. }
  destruct Hc as [F1 Hc].
  apply (load_accounts_shares_instance cfg F F1 [] []
           (Samples.sample_account "first" "aliyun" "rt")
           (Samples.sample_account "second" "aliyun" "rt") 0%nat).
  - reflexivity.
  - reflexivity.
  - reflexivity.
  - reflexivity.
  - reflexivity.
  - exact Hc.
  - intros k c Hk. by destruct k.
Defined.

(** ** Logging the accounts in, and the adapter for a share URL *)

Section ManagerFacts.
Import Py Cfg Factory Manager.
Local Open Scope Z_scope.

Lemma set_active_lookup (r : nat) F (r' : nat) :
  heap (set_active r F) !! r'
  = (λ a, if decide (r' = r)
          then Adapter (class_of a) (cookie a) (Factory.index a) true (nickname a)
          else a) <$> heap F !! r'.
Proof.
  unfold set_active, ref in *. cbn [heap]. rewrite list_lookup_alter.
  destruct (decide (r = r')) as [->|Hne]; destruct (heap F !! r'); simpl; try done.
  - by rewrite decide_True.
  - by rewrite decide_False by congruence.
Qed.

Lemma init_all_loop_spec init_ok i items F c :
  let run := init_all_loop init_ok i items F c in
  run.1 = c + Z.of_nat (length (filter (λ j, init_ok j = true) (seq i (length items))))
  ∧ ADAPTER_MAP run.2 = ADAPTER_MAP F
  ∧ _instance_cache run.2 = _instance_cache F
  ∧ ∀ r a, heap F !! r = Some a →
      ∃ a', heap run.2 !! r = Some a'
        ∧ class_of a' = class_of a ∧ cookie a' = cookie a
        ∧ Factory.index a' = Factory.index a
        ∧ (is_active a' = true
           ↔ is_active a = true
             ∨ ∃ j name, items !! j = Some (name, r) ∧ init_ok (i + j)%nat = true).
Proof.
  induction items as [|[name adapter] rest IH] in i, F, c |- *; cbn zeta.
  { simpl. split; [lia|]. split; [done|]. split; [done|]. intros r a Hr.
    exists a. split; [done|]. split; [done|]. split; [done|]. split; [done|].
    split; [by left|]. intros [?|(j & n & Hj & _)]; [done|]. by destruct j. }
  cbn [init_all_loop length seq]. destruct (init_ok i) eqn:Hi.
  - destruct (IH (S i) (set_active adapter F) (c + 1)) as (Hc & Hm & Hk & Hheap).
    rewrite filter_cons_True by done. cbn [length].
    split; [rewrite Hc; lia|]. split; [done|]. split; [done|].
    intros r a Hr.
    destruct (decide (r = adapter)) as [->|Hne].
    + destruct (Hheap adapter
                  (Adapter (class_of a) (cookie a) (Factory.index a) true (nickname a)))
        as (a' & Ha' & Hcls & Hck & Hidx & Hact).
      { rewrite set_active_lookup, Hr. simpl. by rewrite decide_True. }
      exists a'. simpl in *. split; [done|].
      split; [done|]. split; [done|]. split; [done|]. split.
      * intros _. right. exists 0%nat, name. split; [done|]. by rewrite Nat.add_0_r.
      * intros _. apply Hact. by left.
    + destruct (Hheap r a) as (a' & Ha' & Hcls & Hck & Hidx & Hact).
      { rewrite set_active_lookup, Hr. simpl. by rewrite decide_False. }
      exists a'. split; [done|].
      split; [done|]. split; [done|]. split; [done|]. rewrite Hact. split.
      * intros [?|(j & n & Hj & Hok)]; [by left|]. right. exists (S j), n.
        split; [done|]. by replace (i + S j)%nat with (S i + j)%nat by lia.
      * intros [?|(j & n & Hj & Hok)]; [by left|]. destruct j as [|j].
        { simpl in Hj. congruence. }
        right. exists j, n. split; [done|].
        by replace (S i + j)%nat with (i + S j)%nat by lia.
  - destruct (IH (S i) F c) as (Hc & Hm & Hk & Hheap).
    rewrite filter_cons_False by (rewrite Hi; done).
    split; [done|]. split; [done|]. split; [done|].
    intros r a Hr. destruct (Hheap r a Hr) as (a' & Ha' & Hcls & Hck & Hidx & Hact).
    exists a'. split; [done|]. split; [done|]. split; [done|]. split; [done|].
    rewrite Hact. split.
    + intros [?|(j & n & Hj & Hok)]; [by left|]. right. exists (S j), n.
      split; [done|]. by replace (i + S j)%nat with (S i + j)%nat by lia.
    + intros [?|(j & n & Hj & Hok)]; [by left|]. destruct j as [|j].
      { simpl in Hok. rewrite Nat.add_0_r in Hok. congruence. }
      right. exists j, n. split; [done|].
      by replace (S i + j)%nat with (i + S j)%nat by lia.
Qed.

(** X23.  [init_all_adapters] counts the entries of the manager whose
    [init] succeeds, so an adapter loaded under two names is logged in and
    counted once for each.  It constructs nothing and forgets nothing, and
    afterwards an adapter is active exactly when it was active before or
    one of its logins succeeded: the router then offers, for a drive type,
    the adapters of that type it offered before and those just logged
    in. *)
Theorem init_all_adapters_activates
    (init_ok : nat → bool) (M : account_manager) (F : factory) :
  let run := init_all_adapters init_ok M F in
  run.1 = Z.of_nat (length (filter (λ j, init_ok j = true) (seq 0 (length (adapters M)))))
  ∧ ADAPTER_MAP run.2 = ADAPTER_MAP F
  ∧ _instance_cache run.2 = _instance_cache F
  ∧ ∀ r a, heap F !! r = Some a →
      (∃ a', heap run.2 !! r = Some a'
         ∧ class_of a' = class_of a ∧ cookie a' = cookie a
         ∧ Factory.index a' = Factory.index a
         ∧ (is_active a' = true ↔ is_active a = true ∨ logged_in init_ok M r))
      ∧ ∀ drive_type,
          usable_for run.2 drive_type r = true
          ↔ usable_for F drive_type r = true
            ∨ (DRIVE_TYPE (class_of a) = drive_type ∧ logged_in init_ok M r).
Proof.
  intros run. unfold run, init_all_adapters.
  destruct (init_all_loop_spec init_ok 0 (adapters M) F 0) as (Hc & Hm & Hk & Hheap).
  cbn zeta in *. split; [rewrite Hc; lia|]. split; [done|]. split; [done|].
  intros r a Hr. destruct (Hheap r a Hr) as (a' & Ha' & Hcls & Hck & Hidx & Hact).
  split.
  { exists a'. split; [done|]. split; [done|]. split; [done|]. split; [done|].
    rewrite Hact. unfold logged_in. done. }
  intros drive_type. unfold usable_for, ref in *. rewrite Ha', Hr, Hcls.
  rewrite !andb_true_iff, !bool_decide_eq_true, Hact. unfold logged_in. simpl. tauto.
Qed.

End ManagerFacts.

Section RunAccountsFacts.
Import Py Cfg Factory RunAccounts.
Local Open Scope Z_scope.
Context `{Hashlib}.

Lemma create_adapter_cache_mono dt c i F k r :
  _instance_cache F !! k = Some r →
  _instance_cache (create_adapter dt c i F).2 !! k = Some r
  ∧ ADAPTER_MAP (create_adapter dt c i F).2 = ADAPTER_MAP F.
Proof.
  intros Hk. unfold create_adapter.
  destruct (ADAPTER_MAP F !! dt) as [cls|]; [|done].
  destruct (_instance_cache F !! _make_cache_key dt c) as [r'|] eqn:Hc; [done|].
  destruct (new_adapter cls c i) as [obj|e]; [|done]. simpl.
  split; [|done]. rewrite lookup_insert_ne; [done|]. congruence.
Qed.

Lemma load_account_cache_mono i a st k r :
  _instance_cache st.2 !! k = Some r →
  _instance_cache (load_account i a st).2 !! k = Some r
  ∧ ADAPTER_MAP (load_account i a st).2 = ADAPTER_MAP st.2.
Proof.
  destruct st as [M F]. simpl. intros Hk. unfold load_account.
  destruct (negb (default true (acc_enabled a))); [done|].
  pose proof (create_adapter_cache_mono (default "quark" (acc_drive_type a))
                (default "" (acc_cookie a)) (Z.of_nat i) F k r Hk) as Hmono.
  destruct (create_adapter _ _ _ F) as [[r'|] F']; done.
Qed.

Lemma load_new_cache_mono accounts i st k r :
  _instance_cache st.2 !! k = Some r →
  _instance_cache (load_new i accounts st).2 !! k = Some r
  ∧ ADAPTER_MAP (load_new i accounts st).2 = ADAPTER_MAP st.2.
Proof.
  induction accounts as [|a rest IH] in i, st |- *; [done|]. intros Hk. simpl.
  destruct (load_account_cache_mono i a st k r Hk) as [Hk' Hm'].
  destruct (IH (S i) _ Hk') as [Hk'' Hm'']. split; [done|]. congruence.
Qed.

Lemma first_account_skip drive_type pre rest F :
  Forall (λ b, default true (acc_enabled b)
               && bool_decide (acc_drive_type b = Some drive_type) = false) pre →
  first_account drive_type (pre ++ rest) F = first_account drive_type rest F.
Proof. induction 1 as [|b pre Hb _ IH]; simpl; [done|]. by rewrite Hb. Qed.

(** X24.  For a share URL the route hands back the adapter the manager
    loaded: with the accounts loaded by [load_accounts] and the cache not
    cleared since, [get_adapter_for_url] returns, for the first enabled
    account whose ["drive_type"] is the type detected from the URL, the
    very object [load_accounts] obtained for that account, together with
    the detected type, and constructs nothing. *)
Theorem get_adapter_for_url_returns_loaded
    (config_data : config) (F0 F1 : factory) (shareurl drive_type : string)
    (pre post : list account) (acc : account) (r : ref) :
  get_drive_type_by_url shareurl = Some drive_type →
  cfg_accounts config_data = Some (pre ++ acc :: post)%list →
  Forall (λ b, default true (acc_enabled b)
               && bool_decide (acc_drive_type b = Some drive_type) = false) pre →
  default true (acc_enabled acc) = true →
  acc_drive_type acc = Some drive_type →
  create_adapter drive_type (default "" (acc_cookie acc)) (Z.of_nat (length pre))
    (load_new 0 pre (AccountManager [] None, F0)).2 = (Some r, F1) →
  let F := (load_accounts config_data F0).2 in
  get_adapter_for_url true config_data shareurl F = (FromFactory r drive_type, F).
Proof.
  intros Hurl Hcfg Hpre Hen Hdt Hcreate F.
  destruct (create_adapter_Some_cached _ _ _ _ _ _ Hcreate) as [[cls Hcls] Hcached].
  assert (HF : F = (load_new (S (length pre)) post
                      (load_account (length pre) acc
                         (load_new 0 pre (AccountManager [] None, F0)))).2).
  { unfold F, load_accounts. rewrite Hcfg, load_new_app. simpl.
    by destruct (load_new _ post _). }
  assert (Hacc : ∃ M1, load_account (length pre) acc
                         (load_new 0 pre (AccountManager [] None, F0)) = (M1, F1)).
  { destruct (load_new 0 pre (AccountManager [] None, F0)) as [M' F'] eqn:Hl.
    unfold load_account. rewrite Hen, Hdt. simpl in *. rewrite Hcreate. by eexists. }
  destruct Hacc as [M1 Hacc]. rewrite Hacc in HF.
  destruct (load_new_cache_mono post (S (length pre)) (M1, F1) _ r Hcached) as [Hk Hm].
  rewrite <- HF in Hk, Hm. simpl in Hm.
  unfold get_adapter_for_url. cbn [negb]. rewrite Hurl.
  assert (Ht : truthy drive_type = true).
  { by apply get_drive_type_by_url_truthy in Hurl. }
  rewrite Ht, Hcfg. cbn [negb default from_option id].
  rewrite (first_account_skip _ _ _ _ Hpre). cbn [first_account].
  rewrite Hen, Hdt, bool_decide_true by done. cbn [andb].
  rewrite (create_adapter_hit _ _ _ _ cls r); [done| |done]. by rewrite Hm.
Qed.

End RunAccountsFacts.

Lemma get_adapter_for_url_returns_loaded_witness :
  let H := Samples.toy_md5 in
  let cfg := Cfg.Config (Some [Samples.sample_account "acctX" "115" "c1";
                               Samples.sample_account "acctY" "baidu" "c2";
                               Samples.sample_account "acctZ" "baidu" "c3"]) None in
  let F := (Factory.load_accounts cfg
              (Factory.factory_init (Factory.AdapterClass "quark" (λ _ _, false)))).2 in
  RunAccounts.get_adapter_for_url true cfg "https://pan.baidu.com/s/1abc" F
  = (RunAccounts.FromFactory 1%nat "baidu", F).
Proof.
  intros H cfg F.
  set (F0 := Factory.factory_init (Factory.AdapterClass "quark" (λ _ _, false))).
  assert (Hc : ∃ F1, Factory.create_adapter "baidu" "c2" 1
                       (Factory.load_new 0 [Samples.sample_account "acctX" "115" "c1"]
                          (Factory.AccountManager [] None, F0)).2 = (Some 1%nat, F1)).
  { eexists. vm_compute. reflexivity. }
  destruct Hc as [F1 Hc].
  apply (get_adapter_for_url_returns_loaded cfg F0 F1 "https://pan.baidu.com/s/1abc" "baidu"
           [Samples.sample_account "acctX" "115" "c1"]
           [Samples.sample_account "acctZ" "baidu" "c3"]
           (Samples.sample_account "acctY" "baidu" "c2") 1%nat).
  - reflexivity.
  - reflexivity.
  - apply Forall_cons. split; [reflexivity|by apply Forall_nil].
  - reflexivity.
  - reflexivity.
  - exact Hc.
Defined.

(** ** The account router and the order of the accounts *)

Section RouterAccounts.
Import Py Cfg Factory.
Context `{Hashlib}.

Lemma dict_get_None_key {V} k (d : list (string * V)) : dict_get k d = None → k ∉ d.*1.
Proof.
  induction d as [|[k' v'] d IH]; simpl; [intros _; apply not_elem_of_nil|].
  destruct (decide (k' = k)) as [->|Hne]; [done|].
  intros Hd. apply not_elem_of_cons. split; [done|by apply IH].
Qed.

Lemma dict_get_key_None {V} k (d : list (string * V)) : k ∉ d.*1 → dict_get k d = None.
Proof.
  induction d as [|[k' v'] d IH]; simpl; [done|].
  intros [Hne Hin]%not_elem_of_cons.
  rewrite decide_False by done. by apply IH.
Qed.

(** A key the head of a table does not hold is set in its tail: the head
    stays as it is, entry by entry. *)
Lemma dict_set_app {V} k (v : V) base extra :
  dict_get k base = None →
  dict_set k v (base ++ extra) = (base ++ dict_set k v extra)%list.
Proof.
  induction base as [|[k' v'] base IH]; simpl; [done|].
  destruct (decide (k' = k)) as [->|Hne]; [done|].
  intros Hd. by rewrite IH.
Qed.

Lemma load_account_extends i a M F base extra :
  adapters M = (base ++ extra)%list →
  (default true (acc_enabled a) = true → dict_get (account_name_of i a) base = None) →
  ∃ extra', adapters (load_account i a (M, F)).1 = (base ++ extra')%list.
Proof.
  intros HM Hname. unfold load_account.
  destruct (default true (acc_enabled a)) eqn:Hen; simpl; [|by eexists].
  destruct (create_adapter _ _ _ F) as [[r|] F']; simpl; [|by eexists].
  rewrite HM, dict_set_app by auto. by eexists.
Qed.

(** Accounts whose names the head of the table does not hold leave the
    head as it is. *)
Lemma load_new_extends post : ∀ i M F base extra,
  adapters M = (base ++ extra)%list →
  (∀ k c, post !! k = Some c → default true (acc_enabled c) = true →
     dict_get (account_name_of (i + k) c) base = None) →
  ∃ extra', adapters (load_new i post (M, F)).1 = (base ++ extra')%list.
Proof.
  induction post as [|a post IH]; intros i M F base extra HM Hnames; [by eexists|].
  rewrite load_new_cons.
  destruct (load_account_extends i a M F base extra HM) as [extra1 H1].
  { intros Hen. specialize (Hnames 0 a eq_refl Hen). by rewrite Nat.add_0_r in Hnames. }
  destruct (load_account i a (M, F)) as [M1 F1]. simpl in H1.
  apply (IH (S i) M1 F1 base extra1 H1).
  intros k c Hk Hen. specialize (Hnames (S k) c Hk Hen).
  by replace (i + S k) with (S i + k) in Hnames by lia.
Qed.

(** Every entry of the table is the adapter obtained for an enabled
    account, under the name of that account. *)
Lemma load_new_entries F0 pre : ∀ n r,
  (n, r) ∈ adapters (load_new 0 pre (AccountManager [] None, F0)).1 →
  ∃ pre1 b pre2, pre = (pre1 ++ b :: pre2)%list ∧ account_adapter F0 pre1 b r
    ∧ account_name_of (length pre1) b = n.
Proof.
  induction pre as [|b pre IH] using rev_ind; intros n r; simpl.
  { intros Hin. by apply elem_of_nil in Hin. }
  rewrite load_new_app. simpl.
  destruct (load_new 0 pre (AccountManager [] None, F0)) as [M F] eqn:Hl.
  intros Hin.
  assert (Hold : (n, r) ∈ adapters M →
    ∃ pre1 b0 pre2, (pre ++ [b])%list = (pre1 ++ b0 :: pre2)%list
      ∧ account_adapter F0 pre1 b0 r ∧ account_name_of (length pre1) b0 = n).
  { intros Hm. destruct (IH n r Hm) as (pre1 & b0 & pre2 & -> & Ha & Hn).
    exists pre1, b0, (pre2 ++ [b])%list. by rewrite <-app_assoc. }
  unfold load_account in Hin.
  destruct (default true (acc_enabled b)) eqn:Hen; simpl in Hin; [|by apply Hold].
  destruct (create_adapter _ _ _ F) as [[r'|] F'] eqn:Hc; simpl in Hin; [|by apply Hold].
  assert (Hset : ∀ d : list (string * ref),
    (n, r) ∈ dict_set (account_name_of (length pre) b) r' d →
    (n, r) ∈ d ∨ (n = account_name_of (length pre) b ∧ r = r')).
  { clear. induction d as [|[k' v'] d IHd]; simpl.
    - intros [= -> ->]%list_elem_of_singleton. by right.
    - destruct (decide (k' = account_name_of (length pre) b)) as [->|Hne].
      + intros [[= -> ->]|Hd]%elem_of_cons; [by right|]. left. by apply elem_of_cons; right.
      + intros [[= -> ->]|Hd]%elem_of_cons; [left; by apply elem_of_cons; left|].
        destruct (IHd Hd) as [Hd'|Hd']; [|by right]. left. by apply elem_of_cons; right. }
  destruct (Hset _ Hin) as [Hm|[-> ->]]; [by apply Hold|].
  exists pre, b, []. split; [done|]. split; [|done].
  split; [done|]. exists F'. by rewrite Hl.
Qed.

(** With distinct names the table keeps the order of the accounts: the
    first account whose adapter is usable is the first usable entry. *)
Lemma first_usable_account_first_usable cfg F0 F accounts dt r :
  cfg_accounts cfg = Some accounts →
  distinct_names accounts →
  first_usable_account F0 F accounts dt r →
  first_usable (load_accounts cfg F0).1.2 F dt r.
Proof.
  intros Hcfg Hdist (pre & a & post & -> & [Hen [F1 Hc]] & Hu & Hpre).
  unfold load_accounts. rewrite Hcfg, load_new_app. simpl.
  destruct (load_new 0 pre (AccountManager [] None, F0)) as [M0 F0'] eqn:Hl.
  simpl in Hc.
  assert (Hnames0 : ∀ n, n ∈ (adapters M0).*1 →
    ∃ j b, pre !! j = Some b ∧ default true (acc_enabled b) = true
           ∧ account_name_of j b = n).
  { intros n Hn. pose proof (load_new_names pre 0 (AccountManager [] None) F0 n) as Hs.
    rewrite Hl in Hs. destruct (Hs Hn) as [Hin|Hs']; [by apply elem_of_nil in Hin|done]. }
  assert (Ha : dict_get (account_name_of (length pre) a) (adapters M0) = None).
  { apply dict_get_key_None. intros Hin.
    destruct (Hnames0 _ Hin) as (j & b & Hj & Henb & Hname).
    assert (j = length pre); [|apply lookup_lt_Some in Hj; lia].
    apply (Hdist j (length pre) b a); [by apply lookup_app_l_Some| |done|done|done].
    by rewrite list_lookup_middle. }
  unfold load_account at 1. rewrite Hen. simpl. rewrite Hc.
  set (M1 := AccountManager _ _).
  destruct (load_new_extends post (S (length pre)) M1 F1
              (adapters M0 ++ [(account_name_of (length pre) a, r)])%list [])
    as [extra Hextra].
  { subst M1. simpl. rewrite app_nil_r.
    rewrite <-(app_nil_r (adapters M0)) at 1.
    rewrite dict_set_app by done. done. }
  { intros k c Hk Henc. apply dict_get_key_None.
    rewrite fmap_app. simpl. intros [Hin|Hin%list_elem_of_singleton]%elem_of_app.
    - destruct (Hnames0 _ Hin) as (j & b & Hj & Henb & Hname).
      assert (j = length pre + S k); [|apply lookup_lt_Some in Hj; lia].
      apply (Hdist j (length pre + S k) b c); [by apply lookup_app_l_Some| |done|done|].
      + rewrite lookup_app_r by lia.
        replace (length pre + S k - length pre) with (S k) by lia. done.
      + rewrite Hname. f_equal. lia.
    - assert (length pre + S k = length pre); [|lia].
      apply (Hdist (length pre + S k) (length pre) c a); [| |done|done|].
      + rewrite lookup_app_r by lia.
        replace (length pre + S k - length pre) with (S k) by lia. done.
      + by rewrite list_lookup_middle.
      + rewrite <-Hin. f_equal. lia. }
  replace (0 + length pre) with (length pre) by lia.
  destruct (load_new (S (length pre)) post (M1, F1)) as [M2 F2]. simpl in *.
  exists (dict_values (adapters M0)), (dict_values extra).
  split; [|split; [done|]].
  - rewrite Hextra. unfold dict_values. by rewrite !map_app, <-app_assoc.
  - apply Forall_forall. intros r' Hr'. unfold dict_values in Hr'.
    apply list_elem_of_In, in_map_iff in Hr' as ([n r''] & Heq & Hin). simpl in Heq. subst r''.
    apply list_elem_of_In in Hin.
    pose proof (load_new_entries F0 pre n r') as He. rewrite Hl in He.
    destruct (He Hin) as (pre1 & b & pre2 & Hp & Hacc & _).
    by apply (Hpre pre1 b pre2 r').
Qed.

(** C6 (as the code has it).  The router's priority.  (1) A task that
    names a loaded account gets the adapter loaded under that name,
    whatever the share URL says; after [load_accounts] the loaded names are
    names of enabled accounts.  (2) Otherwise the first adapter of the
    manager's table that is active and whose provider is the one detected
    from the share URL; when no two enabled accounts share a name, this is
    the adapter of the first enabled account of the configuration whose
    adapter is active and of that provider.  (3) Otherwise the default
    adapter; and [None], the no-adapter signal, exactly when the manager has
    no default, which after [load_accounts] means no account is loaded. *)
Theorem get_adapter_for_task_priority
    (M : account_manager) (F : factory) (t : task) :
  (∀ n a, names_account t n → dict_get n (adapters M) = Some a →
     get_adapter_for_task M F t = Some a)
  ∧ (∀ dt a, no_named_adapter M t → detected t = Some dt → first_usable M F dt a →
     get_adapter_for_task M F t = Some a)
  ∧ (∀ cfg F0 accounts dt a, M = (load_accounts cfg F0).1.2 →
       cfg_accounts cfg = Some accounts → distinct_names accounts →
       no_named_adapter M t → detected t = Some dt →
       first_usable_account F0 F accounts dt a →
       get_adapter_for_task M F t = Some a)
  ∧ (no_named_adapter M t → (∀ dt, detected t = Some dt → none_usable M F dt) →
     get_adapter_for_task M F t = default_adapter M)
  ∧ (∀ cfg F0 accounts n a, M = (load_accounts cfg F0).1.2 →
       (cfg_accounts cfg = Some accounts → dict_get n (adapters M) = Some a →
          enabled_account cfg n)
       ∧ (default_adapter M = None ↔ adapters M = [])).
Proof.
  assert (Hname : no_named_adapter M t →
    match task_account_name t with
    | Some account_name =>
        if truthy account_name then dict_get account_name (adapters M) else None
    | None => None
    end = None).
  { intros Hno. destruct (task_account_name t) as [n|] eqn:Hn; [|done].
    destruct n as [|c n]; [done|]. simpl. apply Hno. by split. }
  assert (Hurl : ∀ dt a, no_named_adapter M t → detected t = Some dt →
    first_usable M F dt a → get_adapter_for_task M F t = Some a).
  { intros dt a Hno Hdt (pre & post & Hv & Ha & Hpre).
    unfold get_adapter_for_task. rewrite (Hname Hno).
    unfold detected in Hdt. rewrite Hdt.
    rewrite (get_drive_type_by_url_truthy _ _ Hdt), Hv.
    by rewrite (find_first _ _ _ _ Ha Hpre). }
  split; [|split; [exact Hurl|split; [|split]]].
  - intros n a [Hn Hne] Hd. unfold get_adapter_for_task. rewrite Hn.
    destruct n as [|c n]; [done|]. simpl truthy. cbv iota. by rewrite Hd.
  - intros cfg F0 accounts dt a -> Hcfg Hdist Hno Hdt Hfirst.
    apply (Hurl dt a Hno Hdt).
    by apply (first_usable_account_first_usable cfg F0 F accounts).
  - intros Hno Hnone. unfold get_adapter_for_task. rewrite (Hname Hno).
    fold (detected t). destruct (detected t) as [dt|] eqn:Hdt; [|done].
    destruct (truthy dt); [|done].
    by rewrite (find_none_Forall _ _ (Hnone dt eq_refl)).
  - intros cfg F0 accounts n a ->. split.
    + intros Hcfg Hd. eapply load_accounts_names; [done|].
      by eapply dict_get_Some_key.
    + apply load_accounts_default.
Qed.

End RouterAccounts.

(** Three loaded accounts, [acctX] on 115, [acctY] and [acctZ] on Baidu,
    all active.  A task that names [acctX] gets its adapter although the
    share URL is a Baidu URL; the same task without the name gets the
    adapter of [acctY], the first Baidu account of the configuration. *)
Lemma get_adapter_for_task_priority_witness :
  let H := Samples.toy_md5 in
  let accounts := [Samples.sample_account "acctX" "115" "c1";
                   Samples.sample_account "acctY" "baidu" "c2";
                   Samples.sample_account "acctZ" "baidu" "c3"] in
  let cfg := Cfg.Config (Some accounts) None in
  let F0 := Factory.factory_init (Factory.AdapterClass "quark" (λ _ _, false)) in
  let loaded := Factory.load_accounts cfg F0 in
  let M := loaded.1.2 in
  let F := Factory.set_active 0%nat
             (Factory.set_active 1%nat (Factory.set_active 2%nat loaded.2)) in
  let url := "https://pan.baidu.com/s/1abc" in
  Factory.detected (Factory.Task (Some "acctX") (Some url)) = Some "baidu"
  ∧ Factory.usable_for F "baidu" 1%nat = true
  ∧ Factory.usable_for F "baidu" 2%nat = true
  ∧ Factory.get_adapter_for_task M F (Factory.Task (Some "acctX") (Some url)) = Some 0%nat
  ∧ Factory.get_adapter_for_task M F (Factory.Task None (Some url)) = Some 1%nat.
Proof.
  intros H accounts cfg F0 loaded M F url.
  split; [by vm_compute|]. split; [by vm_compute|]. split; [by vm_compute|]. split.
  - apply (proj1 (get_adapter_for_task_priority M F
                    (Factory.Task (Some "acctX") (Some url))) "acctX").
    + split; [reflexivity|discriminate].
    + vm_compute. reflexivity.
  - apply (proj1 (proj2 (proj2 (get_adapter_for_task_priority M F
                                  (Factory.Task None (Some url)))))
             cfg F0 accounts "baidu" 1%nat).
    + reflexivity.
    + reflexivity.
    + intros [|[|[|i]]] [|[|[|j]]] a b Hi Hj _ _; simpl in Hi, Hj;
        try discriminate Hi; try discriminate Hj;
        injection Hi as <-; injection Hj as <-;
        first [reflexivity | intros Hn; vm_compute in Hn; discriminate Hn].
    + intros n [Hn _]. discriminate Hn.
    + vm_compute. reflexivity.
    + exists [Samples.sample_account "acctX" "115" "c1"],
        (Samples.sample_account "acctY" "baidu" "c2"),
        [Samples.sample_account "acctZ" "baidu" "c3"].
      split; [reflexivity|]. split; [|split].
      * split; [reflexivity|]. eexists. vm_compute. reflexivity.
      * vm_compute. reflexivity.
      * intros [|c [|c' pre1]] b pre2 r' Hp; [|discriminate Hp|discriminate Hp].
        injection Hp as <- <-. intros [_ [F1 Hc]].
        vm_compute in Hc. injection Hc as <- _. vm_compute. reflexivity.
Defined.

(** C6 (as stated) fails when a name is used twice: with the accounts
    [x] on 115, [y] on Baidu and [x] on Baidu, all active, the name [x]
    stands first in the table and holds the adapter of the third account,
    which a Baidu task gets, and not that of [y], the first Baidu account of
    the configuration. *)
Lemma router_serves_reused_name : ¬ @Factory.routes_to_first_account Samples.toy_md5.
Proof.
  intros Hclaim.
  set (accounts := [Samples.sample_account "x" "115" "c1";
                    Samples.sample_account "y" "baidu" "c2";
                    Samples.sample_account "x" "baidu" "c3"]).
  set (cfg := Cfg.Config (Some accounts) None).
  set (F0 := Factory.factory_init (Factory.AdapterClass "quark" (λ _ _, false))).
  set (F := Factory.set_active 0%nat
              (Factory.set_active 1%nat
                 (Factory.set_active 2%nat
                    (@Factory.load_accounts Samples.toy_md5 cfg F0).2))).
  set (t := Factory.Task None (Some "https://pan.baidu.com/s/1abc")).
  assert (Hrun : Factory.get_adapter_for_task
                   (@Factory.load_accounts Samples.toy_md5 cfg F0).1.2 F t = Some 2%nat)
    by (vm_compute; reflexivity).
  specialize (Hclaim cfg F0 F accounts t "baidu" 1%nat eq_refl).
  rewrite Hrun in Hclaim. enough (Some 2%nat = Some 1%nat) by discriminate.
  apply Hclaim.
  - intros n [Hn _]. discriminate Hn.
  - vm_compute. reflexivity.
  - exists [Samples.sample_account "x" "115" "c1"],
      (Samples.sample_account "y" "baidu" "c2"),
      [Samples.sample_account "x" "baidu" "c3"].
    split; [reflexivity|]. split; [|split].
    + split; [reflexivity|]. eexists. vm_compute. reflexivity.
    + vm_compute. reflexivity.
    + intros [|c [|c' pre1]] b pre2 r' Hp; [|discriminate Hp|discriminate Hp].
      injection Hp as <- <-. intros [_ [F1 Hc]].
      vm_compute in Hc. injection Hc as <- _. vm_compute. reflexivity.
Qed.

(** ** Persisting a rotated refresh token *)

Section ConfigSaverFacts.
Import Py Cfg ConfigSaver.

Lemma is_target_stamp drive n tok now acc :
  is_target drive n (stamp tok now acc) = is_target drive n acc.
Proof. done. Qed.

Lemma is_target_false_skip drive tok n now acc rest :
  truthy n = true → is_target drive n acc = false →
  update_accounts drive tok (Some n) now (acc :: rest) =
    ((acc :: (update_accounts drive tok (Some n) now rest).1),
     (update_accounts drive tok (Some n) now rest).2).
Proof.
  intros Hn Ht. simpl. rewrite Hn. unfold is_target in Ht.
  destruct (update_accounts drive tok (Some n) now rest) as [rest' u].
  destruct (bool_decide (acc_drive_type acc = Some drive)); [|done].
  destruct (bool_decide (acc_name acc = Some n)); [|done].
  done.
Qed.

(** A named write stamps the first account of the drive type with that
    name and nothing else; without such an account nothing is written. *)
Lemma update_accounts_named drive tok n now accounts :
  truthy n = true →
  match List.find (is_target drive n) accounts with
  | Some acc =>
      ∃ pre post, accounts = (pre ++ acc :: post)%list
        ∧ Forall (λ a, is_target drive n a = false) pre
        ∧ update_accounts drive tok (Some n) now accounts
          = ((pre ++ stamp tok now acc :: post)%list, true)
  | None => update_accounts drive tok (Some n) now accounts = (accounts, false)
  end.
Proof.
  intros Hn. induction accounts as [|acc rest IH]; [done|].
  cbn [List.find]. destruct (is_target drive n acc) eqn:Ht.
  - exists [], rest. split; [done|]. split; [constructor|].
    simpl. rewrite Hn. unfold is_target in Ht.
    apply andb_true_iff in Ht as [Hd Hm].
    rewrite Hd. simpl. by rewrite Hm.
  - rewrite (is_target_false_skip _ _ _ _ _ _ Hn Ht).
    destruct (List.find (is_target drive n) rest) as [acc'|].
    + destruct IH as (pre & post & -> & Hpre & ->).
      exists (acc :: pre), post. split; [done|]. split; [by constructor|done].
    + by rewrite IH.
Qed.

Lemma find_stamped drive n tok now pre acc post :
  is_target drive n acc = true →
  Forall (λ a, is_target drive n a = false) pre →
  List.find (is_target drive n) (pre ++ stamp tok now acc :: post)
  = Some (stamp tok now acc).
Proof.
  intros Ha. induction 1 as [|b pre Hb _ IH]; simpl.
  - by rewrite is_target_stamp, Ha.
  - by rewrite Hb.
Qed.

Lemma find_split {A} (p : A → bool) l a :
  List.find p l = Some a →
  ∃ pre post, l = (pre ++ a :: post)%list ∧ p a = true
    ∧ Forall (λ b, p b = false) pre.
Proof.
  induction l as [|b l IH]; simpl; [done|].
  destruct (p b) eqn:Hb.
  - intros [= ->]. exists [], l. by repeat split.
  - intros (pre & post & -> & Ha & Hpre)%IH.
    exists (b :: pre), post. repeat split; [done|by constructor].
Qed.

Lemma prefix_unique {A} (p : A → bool) pre a post pre' a' post' :
  (pre ++ a :: post = pre' ++ a' :: post')%list →
  p a = true → p a' = true →
  Forall (λ b, p b = false) pre → Forall (λ b, p b = false) pre' →
  pre = pre' ∧ a = a' ∧ post = post'.
Proof.
  intros Heq Ha Ha' Hpre. revert pre' Heq.
  induction Hpre as [|b pre Hb _ IH]; intros pre' Heq Hpre'.
  - destruct Hpre' as [|b' pre' Hb' _]; simpl in *.
    + by injection Heq as -> ->.
    + injection Heq as -> _. congruence.
  - destruct Hpre' as [|b' pre' Hb' Hpre']; simpl in *.
    + injection Heq as -> _. congruence.
    + injection Heq as -> Heq. destruct (IH _ Heq Hpre') as (-> & -> & ->). done.
Qed.

(** One named write on a file that holds the target account. *)
Lemma save_config_named drive tok n now accounts pre acc post :
  n ≠ "" →
  accounts = (pre ++ acc :: post)%list →
  is_target drive n acc = true →
  Forall (λ a, is_target drive n a = false) pre →
  save_config drive tok (Some n) now (Some accounts)
  = (true, Some (pre ++ stamp tok now acc :: post)%list).
Proof.
  intros Hne -> Ha Hpre.
  assert (Hn : truthy n = true) by by destruct n.
  pose proof (update_accounts_named drive tok n now (pre ++ acc :: post) Hn) as Hu.
  rewrite (find_first _ _ _ _ Ha Hpre) in Hu.
  destruct Hu as (pre' & post' & Heq & Hpre' & Hu).
  destruct (prefix_unique _ _ _ _ _ _ _ Heq Ha Ha Hpre Hpre') as (<- & _ & <-).
  unfold save_config. by rewrite Hu.
Qed.

(** C2 (as the code has it).  The hook overwrites: a named write stamps
    the target account with the new secret and the clock reading of the
    write, and leaves every other account as it was; so of two writes for
    one account the one applied last is the one stored, whichever rotation
    is the newer. *)
Theorem save_config_last_write_wins
    (drive account_name : string) (r_first r_last : rotation) (t_first t_last : Z)
    (accounts pre post : list account) (acc : account) :
  account_name ≠ "" →
  accounts = (pre ++ acc :: post)%list →
  is_target drive account_name acc = true →
  Forall (λ a, is_target drive account_name a = false) pre →
  let file' :=
    apply_rotation drive account_name r_last t_last
      (apply_rotation drive account_name r_first t_first (Some accounts)) in
  file' = Some (pre ++ stamp (rot_secret r_last) t_last acc :: post)%list
  ∧ stored_secret drive account_name file' = Some (rot_secret r_last)
  ∧ stored_updated_at drive account_name file' = Some t_last.
Proof.
  intros Hne Hacc Ha Hpre file'.
  assert (Hfile : file' = Some (pre ++ stamp (rot_secret r_last) t_last acc :: post)%list).
  { unfold file', apply_rotation.
    rewrite (save_config_named _ _ _ _ _ pre acc post Hne Hacc Ha Hpre). cbn [snd].
    rewrite (save_config_named drive (rot_secret r_last) account_name t_last _ pre
               (stamp (rot_secret r_first) t_first acc) post Hne eq_refl);
      [done|by rewrite is_target_stamp|done]. }
  split; [done|]. rewrite Hfile.
  unfold stored_secret, stored_updated_at, target.
  by rewrite (find_stamped _ _ _ _ _ _ _ Ha Hpre).
Qed.

End ConfigSaverFacts.


Lemma save_config_last_write_wins_witness :
  let accounts := [Samples.sample_account "a" "115" "c"; Samples.sample_account "b" "aliyun" "rt-0"] in
  let r1 := ConfigSaver.Rotation "rt-1" 10 in
  let r2 := ConfigSaver.Rotation "rt-2" 20 in
  ConfigSaver.stored_secret "aliyun" "b"
    (ConfigSaver.apply_rotation "aliyun" "b" r1 22
       (ConfigSaver.apply_rotation "aliyun" "b" r2 21 (Some accounts)))
  = Some "rt-1".
Proof.
  intros accounts r1 r2.
  refine (proj1 (proj2 (save_config_last_write_wins "aliyun" "b" r2 r1 21 22 accounts
    [Samples.sample_account "a" "115" "c"] [] (Samples.sample_account "b" "aliyun" "rt-0") _ _ _ _))).
  - discriminate.
  - reflexivity.
  - reflexivity.
  - repeat constructor.
Defined.

(** C2 (as stated) fails: the write of the older rotation, applied after
    the write of the newer one, replaces the newer secret. *)
Lemma save_config_no_anti_rollback : ¬ ConfigSaver.anti_rollback "aliyun".
Proof.
  intros Hclaim.
  specialize (Hclaim "b" (ConfigSaver.Rotation "rt-1" 10) (ConfigSaver.Rotation "rt-2" 20)
    21%Z 22%Z (Some [Samples.sample_account "b" "aliyun" "rt-0"])).
  simpl in Hclaim.
  assert (Hc : Some "rt-1" = Some "rt-2"); [|discriminate Hc].
  apply Hclaim; [discriminate|by eexists|lia|lia|lia].
Qed.

(** ** The persistence hook: which accounts a write reaches *)

Section ConfigSaverMore.
Import Py Cfg ConfigSaver.

Lemma update_accounts_unnamed drive tok account_name now accounts :
  name_given account_name = false →
  update_accounts drive tok account_name now accounts
  = ((λ a, if bool_decide (acc_drive_type a = Some drive) then stamp tok now a else a)
       <$> accounts,
     bool_decide (Exists (λ a, acc_drive_type a = Some drive) accounts)).
Proof.
  intros Hn. induction accounts as [|acc rest IH]; simpl.
  { done. }
  rewrite Hn, IH. simpl.
  destruct (bool_decide (acc_drive_type acc = Some drive)) eqn:Hd; f_equal.
  - symmetry. apply bool_decide_eq_true. apply bool_decide_eq_true in Hd. by left.
  - apply bool_decide_eq_false in Hd. apply bool_decide_ext.
    rewrite Exists_cons. naive_solver.
Qed.

(** X7.  A write without an account name ([None] or the empty string)
    reaches every account of the drive type: each gets the new token and the
    time of the write, the accounts of other drive types stay as they are,
    and the write reports success exactly when the file holds an account of
    the drive type.  An unreadable file is left alone. *)
Theorem save_config_unnamed_updates_all
    (drive tok : string) (account_name : option string) (now : Z)
    (accounts : list account) :
  name_given account_name = false →
  save_config drive tok account_name now (Some accounts)
  = if bool_decide (Exists (λ a, acc_drive_type a = Some drive) accounts)
    then (true,
          Some ((λ a, if bool_decide (acc_drive_type a = Some drive)
                      then stamp tok now a else a) <$> accounts))
    else (false, Some accounts).
Proof.
  intros Hn. unfold save_config. by rewrite (update_accounts_unnamed _ _ _ _ _ Hn).
Qed.

Lemma update_accounts_frame drive tok account_name now accounts :
  Forall2 (λ a a', a' = a ∨ (a' = stamp tok now a ∧ acc_drive_type a = Some drive))
    accounts (update_accounts drive tok account_name now accounts).1
  ∧ ((update_accounts drive tok account_name now accounts).2 = true →
       Exists (λ a, acc_drive_type a = Some drive
                    ∧ (name_given account_name = true → acc_name a = account_name))
         accounts).
Proof.
  induction accounts as [|acc rest [IH1 IH2]]; simpl; [by split; [constructor|]|].
  destruct (update_accounts drive tok account_name now rest) as [rest' u] eqn:Hu.
  simpl in IH1, IH2.
  assert (Hrefl : Forall2 (λ a a', a' = a ∨ (a' = stamp tok now a
                                             ∧ acc_drive_type a = Some drive)) rest rest).
  { apply Forall2_same_length_lookup. split; [done|]. intros i x y Hx Hy. left. congruence. }
  case_bool_decide as Hd; [|by split; [constructor; [by left|]|intros ?; right; auto]].
  destruct (name_given account_name) eqn:Hn; simpl.
  - case_bool_decide as Hm; simpl.
    + split; [constructor; [by right|done]|]. intros _. left. done.
    + split; [constructor; [by left|done]|]. intros ?. right. auto.
  - split; [constructor; [by right|done]|]. intros _. left. split; [done|]. done.
Qed.

(** X8.  Whatever the name, [save_config] leaves the list of accounts in
    place: the file afterwards holds the same accounts in the same order,
    each one unchanged or, if it is of the hook's drive type, with the new
    token and the time of the write and nothing else changed.  When the
    write reports failure the file is as it was; when it reports success
    the file held an account of the drive type, with the given name if one
    was given. *)
Theorem save_config_touches_own_accounts_only
    (drive tok : string) (account_name : option string) (now : Z) (file : config_file) :
  let r := save_config drive tok account_name now file in
  (r.1 = false → r.2 = file)
  ∧ ∀ accounts, file = Some accounts →
      ∃ accounts', r.2 = Some accounts'
        ∧ Forall2 (λ a a', a' = a ∨ (a' = stamp tok now a ∧ acc_drive_type a = Some drive))
            accounts accounts'
        ∧ (r.1 = true →
             Exists (λ a, acc_drive_type a = Some drive
                          ∧ (name_given account_name = true → acc_name a = account_name))
               accounts).
Proof.
  intros r. unfold r, save_config. destruct file as [accounts|]; [|by split].
  destruct (update_accounts_frame drive tok account_name now accounts) as [Hf Hex].
  destruct (update_accounts drive tok account_name now accounts) as [accounts' u].
  simpl in Hf, Hex. destruct u; simpl.
  - split; [done|]. intros ? [= <-]. exists accounts'. by split; [|split; [|auto]].
  - split; [done|]. intros ? [= <-]. exists accounts. split; [done|]. split; [|done].
    apply Forall2_same_length_lookup. split; [done|]. intros i x y Hx Hy. left. congruence.
Qed.

End ConfigSaverMore.

Lemma save_config_unnamed_updates_all_witness :
  ConfigSaver.save_config "aliyun" "rt-new" (Some "") 5
    (Some [Samples.sample_account "a" "aliyun" "rt-a"; Samples.sample_account "b" "115" "c";
           Samples.sample_account "c" "aliyun" "rt-c"])
  = (true,
     Some [Cfg.Account None (Some "a") (Some "aliyun") (Some "rt-new") None (Some 5%Z);
           Samples.sample_account "b" "115" "c";
           Cfg.Account None (Some "c") (Some "aliyun") (Some "rt-new") None (Some 5%Z)]).
Proof.
  rewrite (save_config_unnamed_updates_all "aliyun" "rt-new" (Some "") 5 _ eq_refl).
  vm_compute. reflexivity.
Defined.

(** ** The routes that write account tokens *)

Section RunFacts.
Import Py Cfg Run.

Lemma token_protected_type_Some acc d :
  token_protected_type acc = Some d
  ↔ acc_drive_type acc = Some d ∧ (d = "aliyun" ∨ d = "xunlei").
Proof.
  unfold token_protected_type. destruct (acc_drive_type acc) as [d'|]; [|naive_solver].
  repeat case_bool_decide; simpl; naive_solver.
Qed.

Lemma protection_key_inj d d' a b :
  (d = "aliyun" ∨ d = "xunlei") → (d' = "aliyun" ∨ d' = "xunlei") →
  protection_key d a = protection_key d' b
  ↔ d = d' ∧ default "" (acc_name a) = default "" (acc_name b).
Proof.
  unfold protection_key.
  intros [-> | ->] [-> | ->]; simpl; split; try (intros [= ?]; done);
    try (intros [? ->]; done); try (intros [[=] _]).
Qed.

(** The entry of [current_token_protected] under the key of a drive type
    and a name is that of the last account holding a token under them. *)
Lemma current_token_protected_last d name pre c post :
  d = "aliyun" ∨ d = "xunlei" →
  holds_token d name c = true →
  Forall (λ a, holds_token d name a = false) post →
  current_token_protected (pre ++ c :: post)%list !! (d +:+ ":" +:+ name)
  = Some (default "" (acc_cookie c), default 0%Z (acc_token_updated_at c)).
Proof.
  intros Hd Hc Hpost. unfold current_token_protected.
  rewrite foldl_app. cbn [foldl].
  generalize (foldl protect_current ∅ pre). intros m0.
  assert (Hm : protect_current m0 c !! (d +:+ ":" +:+ name)
               = Some (default "" (acc_cookie c), default 0%Z (acc_token_updated_at c))).
  { unfold holds_token in Hc. apply andb_true_iff in Hc as [[Hdt Hn]%andb_true_iff Hck].
    apply bool_decide_eq_true in Hdt, Hn.
    unfold protect_current.
    rewrite (proj2 (token_protected_type_Some c d) (conj Hdt Hd)).
    rewrite Hck. unfold protection_key. rewrite Hn. by rewrite lookup_insert_eq. }
  revert Hm. generalize (protect_current m0 c). intros m Hm.
  induction Hpost as [|a post Ha _ IH] in m, Hm |- *; [done|].
  cbn [foldl]. apply IH. unfold protect_current.
  destruct (token_protected_type a) as [d'|] eqn:Hta; [|done].
  destruct (truthy (default "" (acc_cookie a))) eqn:Hck; [|done].
  rewrite lookup_insert_ne; [done|].
  apply token_protected_type_Some in Hta as [Hdt' Hd'].
  change (d +:+ ":" +:+ name) with (protection_key d (Account None (Some name) None None None None)).
  rewrite (protection_key_inj _ _ _ _ Hd' Hd). simpl. intros [-> Hn].
  unfold holds_token in Ha. rewrite Hck, andb_true_r in Ha.
  apply andb_false_iff in Ha as [Ha|Ha]; apply bool_decide_eq_false in Ha; done.
Qed.

Lemma current_token_protected_none d name current :
  d = "aliyun" ∨ d = "xunlei" →
  Forall (λ a, holds_token d name a = false) current →
  current_token_protected current !! (d +:+ ":" +:+ name) = None.
Proof.
  intros Hd Hcur. unfold current_token_protected.
  assert (Hm : (∅ : gmap string (string * Z)) !! (d +:+ ":" +:+ name) = None) by done.
  revert Hm. generalize (∅ : gmap string (string * Z)). intros m Hm.
  induction Hcur as [|a post Ha _ IH] in m, Hm |- *; [done|].
  cbn [foldl]. apply IH. unfold protect_current.
  destruct (token_protected_type a) as [d'|] eqn:Hta; [|done].
  destruct (truthy (default "" (acc_cookie a))) eqn:Hck; [|done].
  rewrite lookup_insert_ne; [done|].
  apply token_protected_type_Some in Hta as [Hdt' Hd'].
  change (d +:+ ":" +:+ name) with (protection_key d (Account None (Some name) None None None None)).
  rewrite (protection_key_inj _ _ _ _ Hd' Hd). simpl. intros [-> Hn].
  unfold holds_token in Ha. rewrite Hck, andb_true_r in Ha.
  apply andb_false_iff in Ha as [Ha|Ha]; apply bool_decide_eq_false in Ha; done.
Qed.

Lemma update_accounts_lookup config_data request_json incoming i :
  cfg_accounts request_json = Some incoming →
  cfg_accounts (update true config_data request_json) ≫= (.!! i)
  = protect_incoming (current_token_protected (default [] (cfg_accounts config_data)))
      <$> incoming !! i.
Proof.
  intros Hin. unfold update. rewrite Hin.
  destruct (decide (incoming = [])) as [->|Hne]; [done|].
  cbn [default]. rewrite bool_decide_true by done. cbn [andb cfg_accounts mbind option_bind].
  by rewrite list_lookup_fmap.
Qed.

(** X9.  [update] keeps the stored token of an aliyun or xunlei account:
    when the configuration read holds an account of the same drive type and
    name with a non-empty cookie, the account is written with the cookie and
    the token time of the last such account, whatever cookie the request
    carries; its other keys are written as sent. *)
Theorem update_keeps_protected_token
    (config_data request_json : config) (incoming pre post : list account)
    (c acc : account) (i : nat) (d : string) :
  cfg_accounts request_json = Some incoming →
  incoming !! i = Some acc →
  acc_drive_type acc = Some d →
  d = "aliyun" ∨ d = "xunlei" →
  cfg_accounts config_data = Some (pre ++ c :: post)%list →
  holds_token d (default "" (acc_name acc)) c = true →
  Forall (λ a, holds_token d (default "" (acc_name acc)) a = false) post →
  cfg_accounts (update true config_data request_json) ≫= (.!! i)
  = Some (Account (acc_enabled acc) (acc_name acc) (Some d)
            (Some (default "" (acc_cookie c))) (acc_default acc)
            (Some (default 0%Z (acc_token_updated_at c)))).
Proof.
  intros Hin Hi Hdt Hd Hcur Hc Hpost.
  rewrite (update_accounts_lookup _ _ _ _ Hin), Hi, Hcur. simpl. f_equal.
  unfold protect_incoming.
  rewrite (proj2 (token_protected_type_Some acc d) (conj Hdt Hd)).
  unfold protection_key.
  rewrite (current_token_protected_last _ _ _ _ _ Hd Hc Hpost). by rewrite Hdt.
Qed.

(** X10.  [update] writes as many accounts as the request carries, and an
    account that is not of type aliyun or xunlei, or for whose drive type
    and name the configuration read holds no account with a non-empty
    cookie, is written exactly as sent.  A request whose list of accounts
    is empty is written as it is. *)
Theorem update_writes_unprotected_as_sent
    (multi : bool) (config_data request_json : config) (incoming : list account) :
  cfg_accounts request_json = Some incoming →
  ∃ written,
    cfg_accounts (update multi config_data request_json) = Some written
    ∧ length written = length incoming
    ∧ ∀ i acc, incoming !! i = Some acc →
        (token_protected_type acc = None
         ∨ Forall (λ a, holds_token (default "" (acc_drive_type acc))
                          (default "" (acc_name acc)) a = false)
             (default [] (cfg_accounts config_data))) →
        written !! i = Some acc.
Proof.
  intros Hin. unfold update. rewrite Hin. simpl.
  destruct (bool_decide (incoming ≠ []) && multi) eqn:Hb.
  2: { exists incoming. by repeat split. }
  eexists. split; [done|]. split; [by rewrite length_fmap|].
  intros i acc Hi Hfree. rewrite list_lookup_fmap, Hi. simpl. f_equal.
  unfold protect_incoming.
  destruct (token_protected_type acc) as [d|] eqn:Hta; [|done].
  destruct Hfree as [|Hfree]; [done|].
  apply token_protected_type_Some in Hta as [Hdt Hd]. rewrite Hdt in Hfree. simpl in Hfree.
  unfold protection_key.
  by rewrite (current_token_protected_none _ _ _ Hd Hfree).
Qed.

Lemma set_token_first d n tok now pre c post :
  is_target d n c = true →
  Forall (λ a, is_target d n a = false) pre →
  set_token d n tok now (pre ++ c :: post)%list
  = Some (pre ++ Account (acc_enabled c) (acc_name c) (acc_drive_type c) (Some tok)
                   (acc_default c) (Some now) :: post)%list.
Proof.
  intros Hc. induction 1 as [|a pre Ha _ IH]; simpl.
  - by rewrite Hc.
  - by rewrite Ha, IH.
Qed.

(** X11.  A token set by hand survives later configuration updates:
    [update_account_token] writes the stripped token and the time of the
    call to the first account of the drive type (with the given name, when
    one is given) and to no other; and when no later account of that drive
    type and name holds a cookie, every [update] that follows writes the
    account with that token and time, whatever the request sends for it. *)
Theorem update_account_token_then_update
    (account_name d new_token : string) (now : Z) (config_data : config)
    (pre post : list account) (c : account) :
  strip new_token ≠ "" →
  d = "aliyun" ∨ d = "xunlei" →
  cfg_accounts config_data = Some (pre ++ c :: post)%list →
  is_target d account_name c = true →
  Forall (λ a, is_target d account_name a = false) pre →
  let c' := Account (acc_enabled c) (acc_name c) (acc_drive_type c)
              (Some (strip new_token)) (acc_default c) (Some now) in
  update_account_token account_name d new_token now config_data
  = TokenUpdated (pre ++ c' :: post)%list
  ∧ (Forall (λ a, holds_token d (default "" (acc_name c)) a = false) post →
     ∀ (request_json : config) incoming i acc,
       cfg_accounts request_json = Some incoming →
       incoming !! i = Some acc →
       acc_drive_type acc = Some d →
       default "" (acc_name acc) = default "" (acc_name c) →
       cfg_accounts (update true (Config (Some (pre ++ c' :: post)%list)
                                    (cfg_cookie config_data)) request_json)
         ≫= (.!! i)
       = Some (Account (acc_enabled acc) (acc_name acc) (Some d)
                 (Some (strip new_token)) (acc_default acc) (Some now))).
Proof.
  intros Htok Hd Hcur Hc Hpre c'. split.
  - unfold update_account_token. cbv zeta.
    assert (Ht : truthy (strip new_token) = true) by by destruct (strip new_token).
    rewrite Ht. cbn [negb].
    assert (Hdb : bool_decide (d = "aliyun") || bool_decide (d = "xunlei") = true).
    { destruct Hd as [-> | ->]; done. }
    rewrite Hdb, Hcur. simpl.
    by rewrite (set_token_first _ _ _ _ _ _ _ Hc Hpre).
  - intros Hpost request_json incoming i acc Hin Hi Hdt Hn.
    rewrite (update_accounts_lookup _ _ _ _ Hin), Hi. simpl. f_equal.
    unfold protect_incoming.
    rewrite (proj2 (token_protected_type_Some acc d) (conj Hdt Hd)).
    unfold protection_key. rewrite Hn.
    assert (Hc' : holds_token d (default "" (acc_name c)) c' = true).
    { unfold holds_token, c'. simpl.
      apply andb_true_iff in Hc as [Hcd _]. rewrite Hcd.
      rewrite bool_decide_true by done. by destruct (strip new_token). }
    rewrite (current_token_protected_last _ _ _ _ _ Hd Hc' Hpost). simpl. by rewrite Hdt.
Qed.

Lemma update_accounts_set_token d n tok now accounts :
  truthy n = true →
  ConfigSaver.update_accounts d tok (Some n) now accounts
  = match set_token d n tok now accounts with
    | Some l => (l, true)
    | None => (accounts, false)
    end.
Proof.
  intros Hn. induction accounts as [|acc rest IH]; simpl; [done|].
  unfold is_target. rewrite Hn, IH. simpl.
  destruct (bool_decide (acc_drive_type acc = Some d)); simpl.
  - destruct (bool_decide (acc_name acc = Some n)); simpl; [done|].
    by destruct (set_token d n tok now rest).
  - by destruct (set_token d n tok now rest).
Qed.

(** X12.  Given an account name, the manual route and the persistence hook
    of the adapters pick the same account and write the same list: the
    answer of [update_account_token] is the list [save_config] writes for
    the stripped token, and "account not found" exactly when [save_config]
    reports that nothing was updated. *)
Theorem update_account_token_as_save_config
    (account_name d new_token : string) (now : Z) (accounts : list account)
    (cookie : option cookie_field) :
  account_name ≠ "" →
  strip new_token ≠ "" →
  d = "aliyun" ∨ d = "xunlei" →
  update_account_token account_name d new_token now (Config (Some accounts) cookie)
  = match ConfigSaver.save_config d (strip new_token) (Some account_name) now
            (Some accounts) with
    | (true, Some written) => TokenUpdated written
    | _ => AccountNotFound
    end.
Proof.
  intros Hne Htok Hd.
  assert (Hn : truthy account_name = true) by by destruct account_name.
  assert (Ht : truthy (strip new_token) = true) by by destruct (strip new_token).
  assert (Hdb : bool_decide (d = "aliyun") || bool_decide (d = "xunlei") = true).
  { destruct Hd as [-> | ->]; done. }
  unfold update_account_token, ConfigSaver.save_config. cbv zeta.
  rewrite Ht, Hdb, (update_accounts_set_token _ _ _ _ _ Hn). simpl.
  by destruct (set_token d account_name (strip new_token) now accounts).
Qed.

End RunFacts.

Lemma update_keeps_protected_token_witness :
  Cfg.cfg_accounts
    (Run.update true
       (Cfg.Config (Some [Samples.sample_account "a" "aliyun" "rt-old";
                          Samples.sample_account "b" "115" "c"]) None)
       (Cfg.Config (Some [Samples.sample_account "b" "115" "c2";
                          Samples.sample_account "a" "aliyun" "rt-forged"]) None))
    ≫= (.!! 1%nat)
  = Some (Cfg.Account None (Some "a") (Some "aliyun") (Some "rt-old") None (Some 0%Z)).
Proof.
  apply (update_keeps_protected_token _ _
           [Samples.sample_account "b" "115" "c2";
            Samples.sample_account "a" "aliyun" "rt-forged"]
           [] [Samples.sample_account "b" "115" "c"]
           (Samples.sample_account "a" "aliyun" "rt-old")
           (Samples.sample_account "a" "aliyun" "rt-forged") 1 "aliyun").
  - reflexivity.
  - reflexivity.
  - reflexivity.
  - by left.
  - reflexivity.
  - reflexivity.
  - apply Forall_cons. split; [reflexivity|by apply Forall_nil].
Defined.

Lemma update_writes_unprotected_as_sent_witness :
  ∃ written,
    Cfg.cfg_accounts
      (Run.update true
         (Cfg.Config (Some [Samples.sample_account "a" "aliyun" "rt-old"]) None)
         (Cfg.Config (Some [Samples.sample_account "a2" "aliyun" "rt-forged"]) None))
    = Some written
    ∧ written !! 0%nat = Some (Samples.sample_account "a2" "aliyun" "rt-forged").
Proof.
  destruct (update_writes_unprotected_as_sent true
              (Cfg.Config (Some [Samples.sample_account "a" "aliyun" "rt-old"]) None)
              (Cfg.Config (Some [Samples.sample_account "a2" "aliyun" "rt-forged"]) None)
              [Samples.sample_account "a2" "aliyun" "rt-forged"] eq_refl)
    as (written & Hw & _ & Hsent).
  exists written. split; [exact Hw|].
  apply Hsent; [reflexivity|]. right.
  apply Forall_cons. split; [reflexivity|by apply Forall_nil].
Defined.

Lemma update_account_token_then_update_witness :
  Run.update_account_token "a" "aliyun" " rt-new " 7
    (Cfg.Config (Some [Samples.sample_account "b" "115" "c";
                       Samples.sample_account "a" "aliyun" "rt-old"]) None)
  = Run.TokenUpdated
      [Samples.sample_account "b" "115" "c";
       Cfg.Account None (Some "a") (Some "aliyun") (Some "rt-new") None (Some 7%Z)].
Proof.
  refine (proj1 (update_account_token_then_update "a" "aliyun" " rt-new " 7
                   (Cfg.Config (Some [Samples.sample_account "b" "115" "c";
                                      Samples.sample_account "a" "aliyun" "rt-old"]) None)
                   [Samples.sample_account "b" "115" "c"] []
                   (Samples.sample_account "a" "aliyun" "rt-old") _ _ _ _ _)).
  - vm_compute. discriminate.
  - by left.
  - reflexivity.
  - reflexivity.
  - apply Forall_cons. split; [reflexivity|by apply Forall_nil].
Defined.

Lemma update_account_token_as_save_config_witness :
  Run.update_account_token "a" "xunlei" "rt-new" 7
    (Cfg.Config (Some [Samples.sample_account "a" "aliyun" "rt-a";
                       Samples.sample_account "a" "xunlei" "rt-x"]) None)
  = Run.TokenUpdated
      [Samples.sample_account "a" "aliyun" "rt-a";
       Cfg.Account None (Some "a") (Some "xunlei") (Some "rt-new") None (Some 7%Z)].
Proof.
  rewrite (update_account_token_as_save_config "a" "xunlei" "rt-new" 7).
  - vm_compute. reflexivity.
  - discriminate.
  - vm_compute. discriminate.
  - by right.
Defined.

(** ** Aliyun: token handling and [get_file_path] *)

Section AliyunTokenFacts.
Import Py Cfg Aliyun.
Local Open Scope Z_scope.
Context `{Transport} (now : Z).

(** A refresh never raises: every failure is reported as [False]. *)
Lemma _do_refresh_token_returns w :
  ∃ ok w', _do_refresh_token now w = (Ret ok, w').
Proof.
  unfold _do_refresh_token, bindM, get_self.
  destruct (negb (truthy (_refresh_token (self w)))); [by eexists _, _|].
  apply try_return_returns.
Qed.

Lemma _ensure_token_valid_returns w :
  ∃ ok w', _ensure_token_valid now w = (Ret ok, w').
Proof.
  unfold _ensure_token_valid, bindM, get_self.
  destruct (_token (self w)) as [t|]; [|apply _do_refresh_token_returns].
  destruct (is_expired now t); [apply _do_refresh_token_returns|by eexists _, _].
Qed.

(** C10.  [get_file_path] returns the empty list or [None], never a
    non-empty list and never an exception: the empty list when the token
    cannot be made valid, when the id is root-like, when no drive id is
    known or when the lookup raises; [None], the value of
    [path.reverse()], whenever the lookup is answered, whatever items the
    answer carries. *)
Theorem get_file_path_never_breadcrumb (file_id : string) (w : world) :
  (∃ w', get_file_path now file_id w = (Ret (Some []), w')
         ∨ get_file_path now file_id w = (Ret None, w'))
  ∧ (∀ w1, _ensure_token_valid now w = (Ret false, w1) →
       get_file_path now file_id w = (Ret (Some []), w1))
  ∧ (∀ w1, _ensure_token_valid now w = (Ret true, w1) → root_like file_id = true →
       get_file_path now file_id w = (Ret (Some []), w1))
  ∧ (∀ w1, _ensure_token_valid now w = (Ret true, w1) → root_like file_id = false →
       drive_id_of w1 = "" →
       get_file_path now file_id w = (Ret (Some []), w1))
  ∧ (∀ w1 w2 e, _ensure_token_valid now w = (Ret true, w1) → root_like file_id = false →
       drive_id_of w1 ≠ "" →
       path_lookup now (drive_id_of w1) file_id w1 = (Raise e, w2) →
       get_file_path now file_id w = (Ret (Some []), w2))
  ∧ (∀ w1 w2 resp, _ensure_token_valid now w = (Ret true, w1) → root_like file_id = false →
       drive_id_of w1 ≠ "" →
       path_lookup now (drive_id_of w1) file_id w1 = (Ret resp, w2) →
       get_file_path now file_id w = (Ret None, w2)).
Proof.
  assert (Hfalse : ∀ w1, _ensure_token_valid now w = (Ret false, w1) →
            get_file_path now file_id w = (Ret (Some []), w1)).
  { intros w1 He. unfold get_file_path, bindM. by rewrite He. }
  assert (Hroot : ∀ w1, _ensure_token_valid now w = (Ret true, w1) →
            root_like file_id = true →
            get_file_path now file_id w = (Ret (Some []), w1)).
  { intros w1 He Hr. unfold get_file_path, bindM. rewrite He. simpl.
    unfold root_like in Hr. by rewrite Hr. }
  assert (Hnodrive : ∀ w1, _ensure_token_valid now w = (Ret true, w1) →
            root_like file_id = false → drive_id_of w1 = "" →
            get_file_path now file_id w = (Ret (Some []), w1)).
  { intros w1 He Hr Hd. unfold get_file_path, bindM. rewrite He. simpl.
    unfold root_like in Hr. rewrite Hr.
    unfold try_return, bindM, get_self. unfold drive_id_of in Hd. by rewrite Hd. }
  assert (Hlookup : ∀ w1, _ensure_token_valid now w = (Ret true, w1) →
            root_like file_id = false → drive_id_of w1 ≠ "" →
            get_file_path now file_id w =
              match path_lookup now (drive_id_of w1) file_id w1 with
              | (Ret _, w2) => (Ret None, w2)
              | (Raise _, w2) => (Ret (Some []), w2)
              end).
  { intros w1 He Hr Hd. unfold get_file_path, bindM. rewrite He. simpl.
    unfold root_like in Hr. rewrite Hr.
    unfold try_return, bindM, get_self, path_lookup. unfold drive_id_of in *.
    destruct (default "" (default_drive_id <$> _token (self w1))) as [|c d];
      [done|]. cbn [truthy negb]. unfold ret.
    by destruct (_request now "POST" _ _ _ _ false w1) as [[resp|e] w2]. }
  split; [|split; [|split; [|split; [|split]]]]; try done.
  - destruct (_ensure_token_valid_returns w) as (ok & w1 & He).
    destruct ok; [|by eexists; left; eauto].
    destruct (root_like file_id) eqn:Hr; [by eexists; left; eauto|].
    destruct (decide (drive_id_of w1 = "")) as [Hd|Hd]; [by eexists; left; eauto|].
    rewrite (Hlookup w1 He eq_refl Hd).
    destruct (path_lookup _ _ _ w1) as [[resp|e] w2]; eexists; eauto.
  - intros w1 w2 e He Hr Hd Hp. by rewrite (Hlookup w1 He Hr Hd), Hp.
  - intros w1 w2 resp He Hr Hd Hp. by rewrite (Hlookup w1 He Hr Hd), Hp.
Qed.

End AliyunTokenFacts.

(** With a token and a drive id at hand and a provider that answers the
    lookup, [get_file_path] returns [None]. *)
Lemma get_file_path_never_breadcrumb_witness :
  ∃ w', @Aliyun.get_file_path Samples.granting_aliyun 0%Z "f1" Samples.expired_aliyun
        = (Py.Ret None, w').
Proof.
  assert (He : ∃ w1 resp w2,
            @Aliyun._ensure_token_valid Samples.granting_aliyun 0%Z Samples.expired_aliyun
            = (Py.Ret true, w1)
            ∧ Aliyun.drive_id_of w1 = "d"
            ∧ @Aliyun.path_lookup Samples.granting_aliyun 0%Z (Aliyun.drive_id_of w1) "f1" w1
              = (Py.Ret resp, w2)).
  { eexists _, _, _. split; [vm_compute; reflexivity|]. split; vm_compute; reflexivity. }
  destruct He as (w1 & resp & w2 & He & Hd & Hp).
  exists w2.
  apply (proj2 (proj2 (proj2 (proj2 (proj2
           (@get_file_path_never_breadcrumb Samples.granting_aliyun 0%Z "f1"
              Samples.expired_aliyun))))) w1 w2 resp He).
  - reflexivity.
  - rewrite Hd. discriminate.
  - exact Hp.
Defined.

(** ** Aliyun: anonymous requests and [get_stoken] *)

Section AliyunShareFacts.
Import Py Cfg Aliyun.
Local Open Scope Z_scope.
Context `{Transport} (now : Z).

(** An anonymous request carries the constant headers and the extra ones,
    whatever the session's [Authorization] header is. *)
Lemma anonymous_headers_plain a :
  dict_del "Authorization" (dict_update (session_headers a) []) = UNI_HEADERS.
Proof. unfold session_headers. by destruct (authorization a). Qed.

Lemma anonymous_headers_share a t :
  dict_del "Authorization" (dict_update (session_headers a) [("x-share-token", t)])
  = (UNI_HEADERS ++ [("x-share-token", t)])%list.
Proof. unfold session_headers. by destruct (authorization a). Qed.

Lemma _request_anonymous method path host body headers w :
  _request now method path host body headers true w
  = send (Request method (host +:+ path)
            (dict_del "Authorization" (dict_update (session_headers (self w)) headers))
            body) w.
Proof. done. Qed.

Lemma _get_share_info_eq share_id w :
  _get_share_info now share_id w
  = (match http (share_info_request share_id) with
     | Ret resp => Ret (_check_response resp)
     | Raise e => Raise e
     end, logged (share_info_request share_id) w).
Proof.
  unfold _get_share_info, bindM. rewrite _request_anonymous, anonymous_headers_plain.
  unfold send. fold (share_info_request share_id).
  by destruct (http (share_info_request share_id)).
Qed.

Lemma _get_share_token_eq share_id share_pwd w :
  _get_share_token now share_id share_pwd w
  = (match http (share_token_request share_id share_pwd) with
     | Ret resp => Ret (_check_response resp)
     | Raise e => Raise e
     end, logged (share_token_request share_id share_pwd) w).
Proof.
  unfold _get_share_token, bindM. rewrite _request_anonymous, anonymous_headers_plain.
  unfold send. fold (share_token_request share_id share_pwd).
  by destruct (http (share_token_request share_id share_pwd)).
Qed.

(** What [get_stoken] returns, by the provider's two answers. *)
Lemma get_stoken_eq pwd_id passcode w :
  ∃ w', get_stoken now pwd_id passcode w =
    (Ret
       match answer (share_info_request pwd_id) with
       | inl e => Result (Some 500) 1 e NoData None
       | inr info =>
           if failed info
           then Result (Some 400) 1 (_get_error_message (code_or_unknown info)) NoData None
           else
             match answer (share_token_request pwd_id passcode) with
             | inl e => Result (Some 500) 1 e NoData None
             | inr tok =>
                 if failed tok
                 then Result (Some 400) 1 (_get_error_message (code_or_unknown tok))
                        NoData None
                 else Result (Some 200) 0 "success"
                        (StokenData (d_share_token tok) pwd_id info) None
             end
       end, w').
Proof.
  unfold get_stoken, try_return, bindM, answer, failed.
  rewrite _get_share_info_eq.
  destruct (http (share_info_request pwd_id)) as [resp1|e1]; [|by eexists].
  destruct (dict_is_empty (_check_response resp1) || truthy (d_code (_check_response resp1)));
    [by eexists|].
  rewrite _get_share_token_eq.
  destruct (http (share_token_request pwd_id passcode)) as [resp2|e2]; [|by eexists].
  destruct (dict_is_empty (_check_response resp2) || truthy (d_code (_check_response resp2)));
    by eexists.
Qed.

(** The message of a failure is never empty when it stems from a provider
    code. *)
Lemma _get_error_message_known code msg :
  dict_get code ERROR_CODES = Some msg → _get_error_message code = msg.
Proof. unfold _get_error_message. by intros ->. Qed.

Lemma code_or_unknown_code d :
  d_code d ≠ "" → code_or_unknown d = d_code d.
Proof.
  intros Hc. unfold code_or_unknown, dict_is_empty.
  destruct (d_code d) as [|c s]; [done|]. done.
Qed.

(** [init] never raises: it returns the account dictionary or [False]. *)
Lemma aliyun_init_returns w : ∃ v w', init now w = (Ret v, w').
Proof.
  unfold init, bindM, get_self.
  destruct (negb (truthy (_refresh_token (self w)))); [by eexists _, _|].
  unfold _do_refresh_token, bindM, get_self.
  destruct (negb (truthy (_refresh_token (self w)))); [by eexists _, _|].
  unfold try_return, bindM, send.
  destruct (http _) as [resp|e]; [|by eexists _, _].
  destruct (json resp) as [result|]; [|by eexists _, _].
  destruct (d_token result) as [t|]; [|by eexists _, _].
  unfold set_self. simpl.
  destruct (bool_decide _); simpl.
  - unfold _save_refresh_token. simpl. destruct (saver_installed w); by eexists _, _.
  - by eexists _, _.
Qed.

End AliyunShareFacts.

(** ** Aliyun: the share-tree resolver *)

Lemma size_difference_fresh (U v : gset string) (x : string) :
  x ∈ U → x ∉ v → size (U ∖ v) = S (size (U ∖ ({[x]} ∪ v))).
Proof.
  intros HinU Hnv.
  assert (Hsplit : U ∖ v = {[x]} ∪ U ∖ ({[x]} ∪ v)).
  { apply set_eq. intros y. destruct (decide (y = x)); set_solver. }
  rewrite Hsplit. rewrite size_union by set_solver.
  by rewrite size_singleton.
Qed.

Section AliyunScanFacts.
Import Py Cfg Aliyun.
Implicit Types (q : list (string * list crumb)) (v : gset string) (p : list crumb).

(** A scan that meets the target returns the breadcrumb so far extended by
    the first entry with the target's id. *)
Lemma bfs_scan_found target p pre it post : ∀ q v,
  i_file_id it = target →
  Forall (λ x, i_file_id x ≠ target) pre →
  bfs_scan target p (pre ++ it :: post) q v = inl (p ++ [crumb_of it])%list.
Proof.
  induction pre as [|x pre IH]; intros q v Hit Hpre; simpl.
  - by rewrite decide_True.
  - apply Forall_cons in Hpre as [Hx Hpre]. rewrite decide_False by done.
    destruct (is_folder x && bool_decide (i_file_id x ∉ v)); by apply IH.
Qed.

Lemma bfs_scan_inl target p items : ∀ q v found,
  bfs_scan target p items q v = inl found →
  ∃ pre it post, items = (pre ++ it :: post)%list ∧ i_file_id it = target
    ∧ Forall (λ x, i_file_id x ≠ target) pre
    ∧ found = (p ++ [crumb_of it])%list.
Proof.
  induction items as [|x items IH]; intros q v found; simpl; [done|].
  destruct (decide (i_file_id x = target)) as [Hx|Hx].
  - intros [= <-]. by exists [], x, items.
  - intros Hs.
    assert (∃ q' v', bfs_scan target p items q' v' = inl found) as (q' & v' & Hs').
    { destruct (is_folder x && bool_decide (i_file_id x ∉ v)); eauto. }
    destruct (IH _ _ _ Hs') as (pre & it & post & -> & Hit & Hpre & ->).
    exists (x :: pre), it, post. repeat split; [done|by constructor].
Qed.

(** A scan that does not meet the target appends to the queue one entry
    for each folder id not visited before, and marks those ids visited. *)
Lemma bfs_scan_inr target p items : ∀ q v q' v',
  bfs_scan target p items q v = inr (q', v') →
  ∃ new, q' = (q ++ new)%list
    ∧ (∀ x, x ∈ v' ↔ x ∈ new.*1 ∨ x ∈ v)
    ∧ NoDup new.*1
    ∧ (∀ x, x ∈ new.*1 → x ∉ v)
    ∧ (∀ e, e ∈ new → ∃ it, it ∈ items ∧ is_folder it = true
                         ∧ e = (i_file_id it, (p ++ [crumb_of it])%list))
    ∧ (∀ it, it ∈ items → is_folder it = true → i_file_id it ∉ v →
         ∃ it', it' ∈ items ∧ i_file_id it' = i_file_id it
                ∧ (i_file_id it', (p ++ [crumb_of it'])%list) ∈ new)
    ∧ Forall (λ x, i_file_id x ≠ target) items.
Proof.
  induction items as [|x items IH]; intros q v q' v'; simpl.
  - intros [= <- <-]. exists []. rewrite app_nil_r.
    repeat split; try done; try (by constructor); try set_solver.
  - destruct (decide (i_file_id x = target)) as [Hx|Hx]; [done|].
    destruct (is_folder x && bool_decide (i_file_id x ∉ v)) eqn:Hf.
    + apply andb_true_iff in Hf as [Hfold Hnv]. apply bool_decide_eq_true in Hnv.
      intros (new & -> & Hv & Hnd & Hfresh & Hsrc & Hall & Htgt)%IH.
      exists ((i_file_id x, (p ++ [crumb_of x])%list) :: new).
      split; [by rewrite <-app_assoc|].
      split; [intros y; rewrite Hv; set_solver|].
      split.
      { simpl. constructor; [|done]. intros Hin. apply Hfresh in Hin. set_solver. }
      split.
      { intros y [->|Hin]%elem_of_cons; [done|]. apply Hfresh in Hin. set_solver. }
      split.
      { intros e [->|Hin]%elem_of_cons.
        - exists x. split; [by left|done].
        - destruct (Hsrc e Hin) as (it & Hit & Hfo & ->). exists it.
          split; [by right|done]. }
      split; [|by constructor].
      intros it [->|Hit]%elem_of_cons Hfo Hni.
      * exists x. split; [by left|]. split; [done|by left].
      * destruct (decide (i_file_id it = i_file_id x)) as [Heq|Hne].
        { exists x. split; [by left|]. split; [done|by left]. }
        destruct (Hall it Hit Hfo) as (it' & Hit' & Hid & Hin); [set_solver|].
        exists it'. split; [by right|]. split; [done|by right].
    + intros (new & -> & Hv & Hnd & Hfresh & Hsrc & Hall & Htgt)%IH.
      exists new. split; [done|]. split; [done|]. split; [done|]. split; [done|].
      split.
      { intros e Hin. destruct (Hsrc e Hin) as (it & Hit & Hfo & ->). exists it.
        split; [by right|done]. }
      split; [|by constructor].
      intros it [->|Hit]%elem_of_cons Hfo Hni.
      * rewrite Hfo in Hf. simpl in Hf. apply bool_decide_eq_false in Hf. done.
      * destruct (Hall it Hit Hfo Hni) as (it' & Hit' & Hid & Hin).
        exists it'. split; [by right|done].
Qed.

(** Each folder a scan enqueues leaves the set of unvisited ids of a finite
    universe. *)
Lemma bfs_scan_measure (U : gset string) target p items : ∀ q v q' v',
  (∀ it, it ∈ items → is_folder it = true → i_file_id it ∈ U) →
  bfs_scan target p items q v = inr (q', v') →
  size (U ∖ v') + length q' = size (U ∖ v) + length q.
Proof.
  induction items as [|x items IH]; intros q v q' v' HU; simpl.
  - by intros [= <- <-].
  - destruct (decide (i_file_id x = target)) as [Hx|Hx]; [done|].
    assert (HU' : ∀ it, it ∈ items → is_folder it = true → i_file_id it ∈ U).
    { intros it Hit. apply HU. by right. }
    destruct (is_folder x && bool_decide (i_file_id x ∉ v)) eqn:Hf.
    + apply andb_true_iff in Hf as [Hfold Hnv]. apply bool_decide_eq_true in Hnv.
      intros Hs. rewrite (IH _ _ _ _ HU' Hs). rewrite length_app. cbn [length].
      assert (HinU : i_file_id x ∈ U) by (apply HU; [by left|done]).
      rewrite (size_difference_fresh U v _ HinU Hnv). lia.
    + intros Hs. by apply IH.
Qed.

End AliyunScanFacts.

Section AliyunSearchFacts.
Import Py Cfg Aliyun.
Implicit Types (q : list (string * list crumb)) (v : gset string) (p : list crumb).
Context (ls : string → list item) (target : string).

(** What a scan preserves: the queued ids stay pairwise distinct and
    visited. *)
Lemma bfs_scan_queue_ok p items q v q' v' :
  NoDup q.*1 → (∀ c, c ∈ q.*1 → c ∈ v) →
  bfs_scan target p items q v = inr (q', v') →
  NoDup q'.*1 ∧ (∀ c, c ∈ q'.*1 → c ∈ v') ∧ (∀ c, c ∈ v → c ∈ v').
Proof.
  intros Hnd Hsub (new & -> & Hv & Hndn & Hfresh & _)%bfs_scan_inr.
  rewrite fmap_app. split; [|split].
  - apply NoDup_app. split; [done|]. split; [|done].
    intros x Hx Hn. apply Hfresh in Hn. by apply Hn, Hsub.
  - intros c [Hc|Hc]%elem_of_app; apply Hv; [right; by apply Hsub|by left].
  - intros c Hc. apply Hv. by right.
Qed.

(** The directories the search lists are pairwise distinct. *)
Lemma bfs_search_trace fuel : ∀ q v,
  NoDup q.*1 → (∀ c, c ∈ q.*1 → c ∈ v) →
  NoDup (bfs_search ls target fuel q v).2
  ∧ ∀ c, c ∈ (bfs_search ls target fuel q v).2 → c ∈ q.*1 ∨ c ∉ v.
Proof.
  induction fuel as [|fuel IH]; intros q v Hnd Hsub; simpl.
  { split; [constructor|]. by intros c Hc%elem_of_nil. }
  destruct q as [|[c p] q']; simpl.
  { split; [constructor|]. by intros x Hx%elem_of_nil. }
  simpl in Hnd. apply NoDup_cons in Hnd as [Hc Hnd].
  assert (Hcv : c ∈ v) by (apply Hsub; by left).
  assert (Hsub' : ∀ x, x ∈ q'.*1 → x ∈ v) by (intros x Hx; apply Hsub; by right).
  destruct (bfs_scan target p (ls c) q' v) as [found|[q'' v']] eqn:Hs; simpl.
  { split; [apply NoDup_singleton|]. intros x ->%list_elem_of_singleton. left. by left. }
  destruct (bfs_scan_queue_ok _ _ _ _ _ _ Hnd Hsub' Hs) as (Hnd' & Hsub'' & Hmono).
  destruct (IH q'' v' Hnd' Hsub'') as [Htr Hin].
  apply bfs_scan_inr in Hs as (new & -> & Hv & Hndn & Hfresh & _).
  destruct (bfs_search ls target fuel (q' ++ new) v') as [r tr]. simpl in *.
  split.
  - constructor; [|done]. intros Hct. destruct (Hin c Hct) as [Hq|Hnv].
    + rewrite fmap_app in Hq. apply elem_of_app in Hq as [Hq|Hq]; [done|].
      by apply (Hfresh c Hq).
    + by apply Hnv, Hmono.
  - intros x [->|Hx]%elem_of_cons; [left; by left|].
    destruct (Hin x Hx) as [Hq|Hnv].
    + rewrite fmap_app in Hq. apply elem_of_app in Hq as [Hq|Hq].
      * left. by right.
      * right. by apply Hfresh.
    + right. intros Hxv. by apply Hnv, Hmono.
Qed.

(** Over a finite universe of folder ids the search ends. *)
Lemma bfs_search_terminates (U : gset string) :
  (∀ c it, it ∈ ls c → is_folder it = true → i_file_id it ∈ U) →
  ∀ fuel q v, size (U ∖ v) + length q < fuel →
    is_Some (bfs_search ls target fuel q v).1.
Proof.
  intros HU. induction fuel as [|fuel IH]; intros q v Hlt; [lia|]. simpl.
  destruct q as [|[c p] q']; [by eexists|].
  destruct (bfs_scan target p (ls c) q' v) as [found|[q'' v']] eqn:Hs; [by eexists|].
  pose proof (bfs_scan_measure U _ _ _ _ _ _ _ (HU c) Hs) as Hm.
  specialize (IH q'' v'). simpl in Hlt.
  destruct (bfs_search ls target fuel q'' v') as [r tr]. simpl in *.
  apply IH. lia.
Qed.

Lemma descends_nonempty c its : descends ls target c its → its ≠ [].
Proof. by destruct 1. Qed.

Lemma descends_target c its :
  descends ls target c its → ∃ x, x ∈ its ∧ i_file_id x = target.
Proof.
  induction 1 as [c it Hin Hid|c it rest Hin Hfo Hne Hd IH].
  - exists it. split; [by left|done].
  - destruct IH as (x & Hx & Hid). exists x. split; [by right|done].
Qed.

Lemma removelast_cons {A} (a : A) l : l ≠ [] → removelast (a :: l) = a :: removelast l.
Proof. by destruct l. Qed.

Lemma elem_of_removelast {A} (x : A) l : x ∈ removelast l → x ∈ l.
Proof.
  induction l as [|a l IH]; simpl; [done|].
  destruct l as [|b l]; [by intros ?%elem_of_nil|].
  intros [->|Hx]%elem_of_cons; [by left|]. right. by apply IH.
Qed.

(** Every entry of a chain is listed in the chain's start or in one of
    the folders above the target. *)
Lemma descends_parent c its x :
  descends ls target c its → x ∈ its →
  x ∈ ls c ∨ ∃ y, y ∈ removelast its ∧ x ∈ ls (i_file_id y).
Proof.
  induction 1 as [c it Hin Hid|c it rest Hin Hfo Hne Hd IH].
  - intros ->%list_elem_of_singleton. by left.
  - rewrite (removelast_cons _ _ (descends_nonempty _ _ Hd)).
    intros [->|Hx]%elem_of_cons; [by left|]. right.
    destruct (IH Hx) as [Hl|(y & Hy & Hl)].
    + exists it. split; [by left|done].
    + exists y. split; [by right|done].
Qed.

Lemma first_with_id (l : list item) x :
  x ∈ l → i_file_id x = target →
  ∃ pre it post, l = (pre ++ it :: post)%list ∧ it ∈ l ∧ i_file_id it = target
    ∧ Forall (λ y, i_file_id y ≠ target) pre.
Proof.
  induction l as [|a l IH]; [by intros ?%elem_of_nil|].
  intros Hx Hid. destruct (decide (i_file_id a = target)) as [Ha|Ha].
  - exists [], a, l. repeat split; [by left|done|constructor].
  - apply elem_of_cons in Hx as [->|Hx]; [done|].
    destruct (IH Hx Hid) as (pre & it & post & -> & Hit & Hidt & Hpre).
    exists (a :: pre), it, post. repeat split; [by right|done|by constructor].
Qed.

Lemma bfs_scan_no_target p items q v :
  Forall (λ x, i_file_id x ≠ target) items →
  ∃ q' v', bfs_scan target p items q v = inr (q', v').
Proof.
  intros Hall. destruct (bfs_scan target p items q v) as [found|[q' v']] eqn:Hs;
    [|by eexists _, _].
  apply bfs_scan_inl in Hs as (pre & it & post & -> & Hid & _).
  apply Forall_app in Hall as [_ Hall]. by apply Forall_cons in Hall as [? _].
Qed.

(** Over tree-like listings, a queued directory from which a chain leads
    down to the target through folders not visited yet makes the search
    return that directory's breadcrumb extended by the chain. *)
Lemma bfs_search_finds (U : gset string) :
  tree_like ls →
  (∀ c it, it ∈ ls c → is_folder it = true → i_file_id it ∈ U) →
  ∀ fuel q v c p its,
    (c, p) ∈ q → descends ls target c its →
    NoDup q.*1 → (∀ x, x ∈ q.*1 → x ∈ v) →
    (∀ y, y ∈ removelast its → i_file_id y ∉ v) →
    size (U ∖ v) + length q < fuel →
    (bfs_search ls target fuel q v).1 = Some (p ++ (crumb_of <$> its))%list.
Proof.
  intros [Huniq Hroot] HU.
  induction fuel as [|fuel IH]; intros q v c p its Hin Hd Hnd Hsub Hinner Hlt; [lia|].
  assert (Hcv : c ∈ v).
  { apply Hsub. apply list_elem_of_fmap. by exists (c, p). }
  (* no directory visited so far, other than [c], lists an entry of the chain *)
  assert (Hother : ∀ c' it' x, c' ∈ v → it' ∈ ls c' → x ∈ its →
            i_file_id it' = i_file_id x → c' = c ∧ it' = x).
  { intros c' it' x Hc' Hit' Hx Hid.
    destruct (descends_parent _ _ _ Hd Hx) as [Hl|(y & Hy & Hl)].
    - by destruct (Huniq _ _ _ _ Hit' Hl Hid).
    - destruct (Huniq _ _ _ _ Hit' Hl Hid) as [-> _]. by destruct (Hinner y Hy). }
  destruct q as [|[c' p'] q']; [by apply elem_of_nil in Hin|].
  simpl in Hnd. apply NoDup_cons in Hnd as [Hc' Hnd].
  assert (Hsub' : ∀ x, x ∈ q'.*1 → x ∈ v) by (intros x Hx; apply Hsub; by right).
  assert (Hc'v : c' ∈ v) by (apply Hsub; by left).
  simpl in Hlt. cbn [bfs_search].
  apply elem_of_cons in Hin as [[= <- <-]|Hin].
  - (* the directory at the head of the queue is the chain's start *)
    destruct Hd as [c it Hit Hid|c it rest Hit Hfo Hne Hd].
    + destruct (first_with_id _ _ Hit Hid) as (pre & it' & post & Hl & Hit' & Hid' & Hpre).
      assert (it' = it) as ->.
      { eapply Huniq; [exact Hit'|exact Hit|congruence]. }
      rewrite Hl, (bfs_scan_found _ _ _ _ _ _ _ Hid Hpre). done.
    + pose proof (descends_nonempty _ _ Hd) as Hrest.
      rewrite (removelast_cons _ _ Hrest) in Hinner.
      assert (Hitv : i_file_id it ∉ v) by (apply Hinner; by left).
      assert (Hnt : Forall (λ x, i_file_id x ≠ target) (ls c)).
      { apply Forall_forall. intros it' Hit' Hid'.
        destruct (descends_target _ _ Hd) as (x & Hx & Hidx).
        destruct (descends_parent _ _ _ Hd Hx) as [Hl|(y & Hy & Hl)].
        - destruct (Huniq _ _ _ _ Hit' Hl) as [-> _]; [congruence|]. done.
        - destruct (Huniq _ _ _ _ Hit' Hl) as [-> _]; [congruence|].
          apply (Hinner y); [by right|done]. }
      destruct (bfs_scan_no_target p (ls c) q' v Hnt) as (q'' & v' & Hs).
      rewrite Hs.
      destruct (bfs_scan_queue_ok _ _ _ _ _ _ Hnd Hsub' Hs) as (Hnd' & Hsub'' & Hmono).
      pose proof (bfs_scan_measure U _ _ _ _ _ _ _ (HU c) Hs) as Hm.
      apply bfs_scan_inr in Hs as (new & -> & Hv & Hndn & Hfresh & Hsrc & Hall & _).
      destruct (Hall it Hit Hfo Hitv) as (it' & Hit' & Hid' & Hnew).
      assert (it' = it) as -> by (by eapply Huniq).
      specialize (IH (q' ++ new)%list v' (i_file_id it) (p ++ [crumb_of it])%list rest).
      destruct (bfs_search ls target fuel (q' ++ new) v') as [r tr]. simpl in *.
      rewrite IH; [by rewrite <-app_assoc| | | | | |].
      * apply elem_of_app. by right.
      * done.
      * done.
      * done.
      * intros y Hy Hyv. apply Hv in Hyv as [Hyn|Hyv].
        -- apply list_elem_of_fmap in Hyn as ([a b] & Heq & He).
           destruct (Hsrc _ He) as (it3 & Hit3 & _ & [= -> ->]). simpl in Heq.
           pose proof (elem_of_removelast _ _ Hy) as Hyr.
           destruct (descends_parent _ _ _ Hd Hyr) as [Hl|(y' & Hy' & Hl)].
           ++ destruct (Huniq _ _ _ _ Hit3 Hl) as [-> _]; [done|]. done.
           ++ destruct (Huniq _ _ _ _ Hit3 Hl) as [-> _]; [done|].
              apply (Hinner y'); [by right|done].
        -- apply (Hinner y); [by right|done].
      * lia.
  - (* another directory is at the head: it lists no entry of the chain *)
    assert (Hne : c' ≠ c).
    { intros ->. apply Hc'. apply list_elem_of_fmap. by exists (c, p). }
    assert (Hnt : Forall (λ x, i_file_id x ≠ target) (ls c')).
    { apply Forall_forall. intros it' Hit' Hid'.
      destruct (descends_target _ _ Hd) as (x & Hx & Hidx).
      destruct (Hother c' it' x Hc'v Hit' Hx) as [? _]; [congruence|done]. }
    destruct (bfs_scan_no_target p' (ls c') q' v Hnt) as (q'' & v' & Hs).
    rewrite Hs.
    destruct (bfs_scan_queue_ok _ _ _ _ _ _ Hnd Hsub' Hs) as (Hnd' & Hsub'' & Hmono).
    pose proof (bfs_scan_measure U _ _ _ _ _ _ _ (HU c') Hs) as Hm.
    apply bfs_scan_inr in Hs as (new & -> & Hv & Hndn & Hfresh & Hsrc & Hall & _).
    specialize (IH (q' ++ new)%list v' c p its).
    destruct (bfs_search ls target fuel (q' ++ new) v') as [r tr]. simpl in *.
    apply IH; try done.
    + apply elem_of_app. by left.
    + intros y Hy Hyv. apply Hv in Hyv as [Hyn|Hyv]; [|by apply (Hinner y)].
      apply list_elem_of_fmap in Hyn as ([a b] & Heq & He).
      destruct (Hsrc _ He) as (it3 & Hit3 & _ & [= -> ->]). simpl in Heq.
      destruct (Hother c' it3 y Hc'v Hit3 (elem_of_removelast _ _ Hy)) as [? _];
        done.
    + lia.
Qed.

End AliyunSearchFacts.

Section AliyunResolverFacts.
Import Py Cfg Aliyun.
Local Open Scope Z_scope.
Context `{Transport} (now : Z).

Lemma bfs_list_eq share_id share_token current_id w :
  bfs_list now share_id share_token current_id w
  = (http (list_request share_id share_token current_id),
     logged (list_request share_id share_token current_id) w).
Proof.
  unfold bfs_list. rewrite _request_anonymous, anonymous_headers_share. done.
Qed.

Lemma logged_all_app reqs reqs' w :
  logged_all reqs' (logged_all reqs w) = logged_all (reqs ++ reqs') w.
Proof. unfold logged_all. simpl. by rewrite <-app_assoc. Qed.

Lemma logged_all_nil w : logged_all [] w = w.
Proof. destruct w. unfold logged_all. simpl. by rewrite app_nil_r. Qed.

(** The loop run on a world is the search over the provider's listings,
    and leaves in the log one list request per directory searched. *)
Lemma bfs_loop_search share_id share_token target fuel : ∀ queue visited w,
  bfs_loop now fuel share_id share_token target queue visited w
  = (Ret (bfs_search (listing share_id share_token) target fuel queue visited).1,
     logged_all
       (list_request share_id share_token
          <$> (bfs_search (listing share_id share_token) target fuel queue visited).2)
       w).
Proof.
  induction fuel as [|fuel IH]; intros queue visited w; simpl.
  { by rewrite logged_all_nil. }
  destruct queue as [|[c p] queue']; simpl.
  { by rewrite logged_all_nil. }
  unfold bindM at 1. unfold try_return, bindM. rewrite bfs_list_eq.
  assert (Hstep :
    (match http (list_request share_id share_token c) with
     | Ret resp =>
         if truthy (d_code (_check_response resp)) then inr (queue', visited)
         else bfs_scan target p (d_items (_check_response resp)) queue' visited
     | Raise _ => inr (queue', visited)
     end) = bfs_scan target p (listing share_id share_token c) queue' visited).
  { unfold listing, answer.
    destruct (http (list_request share_id share_token c)) as [resp|e]; [|done].
    by destruct (truthy (d_code (_check_response resp))). }
  rewrite <-Hstep.
  destruct (http (list_request share_id share_token c)) as [resp|e].
  - destruct (truthy (d_code (_check_response resp))).
    + unfold ret. rewrite IH.
      destruct (bfs_search _ target fuel queue' visited) as [r tr]. simpl.
      unfold logged. by rewrite logged_all_app.
    + unfold ret.
      destruct (bfs_scan target p (d_items (_check_response resp)) queue' visited)
        as [found|[q'' v']]; [done|].
      rewrite IH. destruct (bfs_search _ target fuel q'' v') as [r tr]. simpl.
      unfold logged. by rewrite logged_all_app.
  - rewrite IH. destruct (bfs_search _ target fuel queue' visited) as [r tr]. simpl.
    unfold logged. by rewrite logged_all_app.
Qed.

Lemma _bfs_share_path_search share_id share_token target fuel w :
  _bfs_share_path now fuel share_id share_token target w
  = (Ret (bfs_search (listing share_id share_token) target fuel
            [("root", [])] {["root"]}).1,
     logged_all
       (list_request share_id share_token
          <$> (bfs_search (listing share_id share_token) target fuel
                 [("root", [])] {["root"]}).2)
       w).
Proof. apply bfs_loop_search. Qed.

(** The resolver never lists a directory twice: the requests it sends are
    list requests for pairwise distinct directories. *)
Lemma _bfs_share_path_lists_once share_id share_token target fuel w :
  ∃ r trace,
    _bfs_share_path now fuel share_id share_token target w
    = (Ret r, logged_all (list_request share_id share_token <$> trace) w)
    ∧ NoDup trace.
Proof.
  eexists _, _. split; [apply _bfs_share_path_search|].
  apply bfs_search_trace.
  - simpl. apply NoDup_singleton.
  - intros c ->%list_elem_of_singleton. set_solver.
Qed.

Lemma descends_last ls target c its :
  descends ls target c its →
  ∃ above it, its = (above ++ [it])%list ∧ i_file_id it = target.
Proof.
  induction 1 as [c it Hin Hid|c it rest Hin Hfo Hne Hd IH].
  - by exists [], it.
  - destruct IH as (above & it' & -> & Hid). by exists (it :: above), it'.
Qed.

(** A target that no directory lists is not found. *)
Lemma bfs_search_not_listed ls target fuel : ∀ queue visited r,
  (∀ c it, it ∈ ls c → i_file_id it ≠ target) →
  (bfs_search ls target fuel queue visited).1 = Some r → r = [].
Proof.
  induction fuel as [|fuel IH]; intros queue visited r Hno; simpl; [done|].
  destruct queue as [|[c p] queue']; simpl; [by intros [= <-]|].
  destruct (bfs_scan target p (ls c) queue' visited) as [found|[q'' v']] eqn:Hs.
  - apply bfs_scan_inl in Hs as (pre & it & post & Hl & Hid & _).
    destruct (Hno c it); [|done]. rewrite Hl. apply elem_of_app. right. by left.
  - specialize (IH q'' v' r Hno).
    by destruct (bfs_search ls target fuel q'' v') as [r' tr].
Qed.

(** Over listings that describe a tree, for a target the tree holds at
    the end of a chain of entries from the root, the resolver returns the
    breadcrumb of that chain: the ancestors from the root down, then the
    target itself.  No chain to the target is shorter.  Enough fuel is one
    iteration more than the universe of folder ids allows. *)
Lemma _bfs_share_path_shortest
    (share_id share_token target : string) (its : list item) (U : gset string)
    (fuel : nat) (w : world) :
  tree_like (listing share_id share_token) →
  (∀ c it, it ∈ listing share_id share_token c → is_folder it = true →
     i_file_id it ∈ U) →
  descends (listing share_id share_token) target "root" its →
  (size U + 1 < fuel)%nat →
  (∃ w', _bfs_share_path now fuel share_id share_token target w
         = (Ret (Some (crumb_of <$> its)), w'))
  ∧ (∃ above it, its = (above ++ [it])%list ∧ i_file_id it = target
       ∧ crumb_of <$> its = ((crumb_of <$> above) ++ [crumb_of it])%list)
  ∧ (∀ its', descends (listing share_id share_token) target "root" its' →
       length (crumb_of <$> its) ≤ length its')%nat.
Proof.
  intros Htree HU Hd Hfuel.
  assert (Hfind : ∀ its', descends (listing share_id share_token) target "root" its' →
    (bfs_search (listing share_id share_token) target fuel [("root", [])] {["root"]}).1
    = Some (crumb_of <$> its')).
  { intros its' Hd'.
    change (crumb_of <$> its') with ([] ++ (crumb_of <$> its'))%list.
    eapply (bfs_search_finds _ _ U Htree HU); [by left|done| | | |].
    - simpl. apply NoDup_singleton.
    - intros c ->%list_elem_of_singleton. set_solver.
    - intros y Hy Hroot. apply elem_of_removelast in Hy.
      destruct Htree as [_ Hnr].
      destruct (descends_parent _ _ _ _ _ Hd' Hy) as [Hl|(y' & _ & Hl)];
        apply (Hnr _ _ Hl); set_solver.
    - simpl.
      assert (size (U ∖ {["root"]}) ≤ size U)%nat by (apply subseteq_size; set_solver).
      lia. }
  split; [|split].
  - eexists. rewrite _bfs_share_path_search, (Hfind its Hd). done.
  - destruct (descends_last _ _ _ _ Hd) as (above & it & -> & Hid).
    exists above, it. split; [done|]. split; [done|]. by rewrite fmap_app.
  - intros its' Hd'. pose proof (Hfind its' Hd') as Hf. rewrite (Hfind its Hd) in Hf.
    injection Hf as Hf. rewrite Hf. by rewrite length_fmap.
Qed.

End AliyunResolverFacts.

(** ** Aliyun and 115: the listing loops *)

Section AliyunPagingFacts.
Import Py Cfg Aliyun.
Local Open Scope Z_scope.
Context `{Transport} (now : Z) (iso_millis : string → option Z).

Lemma page_request_eq pwd_id stoken parent_file_id marker w :
  _request now "POST" ADRIVE_V2_FILE_LIST_BY_SHARE API_HOST
    [("share_id", pwd_id); ("parent_file_id", parent_file_id);
     ("limit", "100"); ("marker", marker);
     ("order_by", "name"); ("order_direction", "ASC")]
    [("x-share-token", stoken)] true w
  = (http (page_request pwd_id stoken parent_file_id marker),
     logged (page_request pwd_id stoken parent_file_id marker) w).
Proof. rewrite _request_anonymous, anonymous_headers_share. done. Qed.

Lemma answer_inr req data :
  answer req = inr data → ∃ resp, http req = Ret resp ∧ _check_response resp = data.
Proof.
  unfold answer. destruct (http req) as [resp|e]; [|done]. intros [= <-]. by exists resp.
Qed.

(** Over a provider that serves the pages [pages] from [marker] on, the
    loop sends one request per page and returns their entries, converted,
    in order. *)
Lemma get_detail_loop_serves pwd_id stoken parent_file_id marker pages :
  serves pwd_id stoken parent_file_id marker pages →
  ∀ fuel file_list w, (length pages ≤ fuel)%nat →
    ∃ reqs,
      get_detail_loop now iso_millis fuel pwd_id stoken parent_file_id marker file_list w
      = (Ret (Some (inr (file_list
                           ++ (_convert_share_item iso_millis <$> concat pages))%list)),
         logged_all reqs w)
      ∧ length reqs = length pages.
Proof.
  induction 1 as [marker data Ha Hc Hm|marker data rest Ha Hc Hm Hs IH];
    intros fuel file_list w Hfuel.
  - destruct fuel as [|fuel]; [simpl in Hfuel; lia|]. simpl.
    unfold bindM. rewrite page_request_eq.
    apply answer_inr in Ha as (resp & -> & ->). rewrite Hc, Hm. simpl.
    rewrite app_nil_r. by eexists [_].
  - destruct fuel as [|fuel]; [simpl in Hfuel; lia|]. simpl.
    unfold bindM. rewrite page_request_eq.
    apply answer_inr in Ha as (resp & Hh & Hd). rewrite Hh, Hd, Hc. simpl.
    destruct (d_next_marker data) as [|c m] eqn:Hnm; [done|]. simpl.
    simpl in Hfuel.
    destruct (IH fuel (file_list ++ (_convert_share_item iso_millis <$> d_items data))%list
                (logged (page_request pwd_id stoken parent_file_id marker) w))
      as (reqs & -> & Hlen); [lia|].
    exists (page_request pwd_id stoken parent_file_id marker :: reqs).
    split; [|simpl; lia].
    unfold logged. rewrite logged_all_app. simpl.
    by rewrite fmap_app, app_assoc.
Qed.

End AliyunPagingFacts.

Section Cloud115PagingFacts.
Import Py Cloud115.
Local Open Scope Z_scope.
Context `{Transport}.

Lemma convert_all_converted items : ∀ list_merge,
  Forall (λ it, is_Some (i_t it)) items →
  convert_all items list_merge = Ret (list_merge ++ (converted <$> items))%list.
Proof.
  induction items as [|it items IH]; intros list_merge Hall; simpl.
  - by rewrite app_nil_r.
  - apply Forall_cons in Hall as [[t Ht] Hall].
    unfold _convert_share_item. rewrite Ht. rewrite IH by done.
    unfold converted at 2. rewrite Ht. simpl. by rewrite <-app_assoc.
Qed.

(** Over a provider that serves the pages [pages] of a directory from
    [offset] on, the loop sends one request per page and returns their
    entries, converted, in order. *)
Lemma get_detail_loop_serves115 share_code receive_code cid limit offset pages :
  serves share_code receive_code cid limit offset pages →
  Forall (Forall (λ it, is_Some (i_t it))) pages →
  ∀ fuel list_merge log, (length pages ≤ fuel)%nat →
    ∃ reqs,
      get_detail_loop fuel share_code receive_code cid offset limit list_merge log
      = (Ret (Some (inr (list_merge ++ (converted <$> concat pages))%list)),
         (log ++ reqs)%list)
      ∧ length reqs = length pages.
Proof.
  induction 1 as [offset resp Hh Hst Hlen|offset resp rest Hh Hst Hlen Hne Hs IH];
    intros Hconv fuel list_merge log Hfuel.
  - destruct fuel as [|fuel]; [simpl in Hfuel; lia|]. simpl.
    unfold bindM at 1. unfold try_return, bindM, send. rewrite Hh, Hst. simpl.
    apply Forall_cons in Hconv as [Hconv _].
    destruct (d_list (_safe_json resp)) as [|it items] eqn:Hl.
    + simpl. rewrite app_nil_r. by eexists [_].
    + rewrite bool_decide_false by done.
      rewrite (convert_all_converted _ _ Hconv). unfold ret.
      rewrite bool_decide_true by done. simpl. rewrite app_nil_r.
      by eexists [_].
  - destruct fuel as [|fuel]; [simpl in Hfuel; lia|]. simpl.
    unfold bindM at 1. unfold try_return, bindM, send. rewrite Hh, Hst. simpl.
    apply Forall_cons in Hconv as [Hconv Hrest].
    rewrite bool_decide_false by done.
    rewrite (convert_all_converted _ _ Hconv). unfold ret.
    rewrite bool_decide_false by lia.
    simpl in Hfuel.
    destruct (IH Hrest fuel (list_merge ++ (converted <$> d_list (_safe_json resp)))%list
                (log ++ [Snap share_code offset limit cid receive_code])%list)
      as (reqs & -> & Hlenr); [lia|].
    exists (Snap share_code offset limit cid receive_code :: reqs).
    split; [|simpl; lia].
    simpl. by rewrite fmap_app, !app_assoc, <-(app_assoc log).
Qed.

Lemma convert_all_raises items : ∀ list_merge,
  Exists (λ it, i_t it = None) items →
  convert_all items list_merge = Raise "ValueError".
Proof.
  induction items as [|it items IH]; intros list_merge Hex; simpl.
  - by apply Exists_nil in Hex.
  - unfold _convert_share_item. destruct (i_t it) as [t|] eqn:Ht; [|done].
    apply Exists_cons in Hex as [Hex|Hex]; [congruence|]. by apply IH.
Qed.

(** The first page with an entry whose ["t"] does not read as an integer
    ends the loop with an error result: the pages before it were asked for
    and merged, and what was merged is dropped. *)
Lemma get_detail_loop_unreadable115 share_code receive_code cid limit good bad rest :
  ∀ offset, serves share_code receive_code cid limit offset (good ++ bad :: rest) →
  Forall (Forall (λ it, is_Some (i_t it))) good →
  Exists (λ it, i_t it = None) bad →
  ∀ fuel list_merge log, (length good < fuel)%nat →
    ∃ reqs,
      get_detail_loop fuel share_code receive_code cid offset limit list_merge log
      = (Ret (Some (inl (Result 1 ("获取分享详情失败: " +:+ "ValueError") [] None None))),
         (log ++ reqs)%list)
      ∧ length reqs = S (length good).
Proof.
  induction good as [|page good IH]; intros offset Hs Hgood Hbad fuel list_merge log Hfuel;
    (destruct fuel as [|fuel]; [simpl in Hfuel; lia|]).
  - assert (Hpage : ∃ resp, http (Snap share_code offset limit cid receive_code) = Ret resp
              ∧ d_state (_safe_json resp) = true ∧ d_list (_safe_json resp) = bad).
    { simpl in Hs. inversion Hs; subst; by eexists. }
    destruct Hpage as (resp & Hh & Hst & Hl).
    cbn [get_detail_loop].
    unfold bindM at 1. unfold try_return, bindM, send. rewrite Hh, Hst, Hl. simpl.
    rewrite bool_decide_false by (intros ->; by apply Exists_nil in Hbad).
    rewrite (convert_all_raises _ _ Hbad). unfold raise. simpl. by eexists [_].
  - assert (Hpage : ∃ resp, http (Snap share_code offset limit cid receive_code) = Ret resp
              ∧ d_state (_safe_json resp) = true ∧ d_list (_safe_json resp) = page
              ∧ limit ≤ Z.of_nat (length page) ∧ page ≠ []
              ∧ serves share_code receive_code cid limit (offset + limit)
                  (good ++ bad :: rest)).
    { simpl in Hs. inversion Hs as [o resp Hh Hst Hlen Ho Hp|o resp r Hh Hst Hlen Hne Hr Ho Hp].
      - by destruct good.
      - subst. by eexists. }
    destruct Hpage as (resp & Hh & Hst & Hl & Hlen & Hne & Hr).
    apply Forall_cons in Hgood as [Hconv Hgood].
    cbn [get_detail_loop].
    unfold bindM at 1. unfold try_return, bindM, send. rewrite Hh, Hst, Hl. simpl.
    rewrite bool_decide_false by done.
    rewrite (convert_all_converted _ _ Hconv). unfold ret.
    rewrite bool_decide_false by lia.
    simpl in Hfuel.
    destruct (IH _ Hr Hgood Hbad fuel (list_merge ++ (converted <$> page))%list
                (log ++ [Snap share_code offset limit cid receive_code])%list)
      as (reqs & -> & Hlenr); [lia|].
    exists (Snap share_code offset limit cid receive_code :: reqs).
    split; [|simpl; lia]. by rewrite <-app_assoc.
Qed.

End Cloud115PagingFacts.

(** ** Aliyun: the constructor and the user's drive *)

Section AliyunDriveFacts.
Import Py Cfg Aliyun AliyunDrive.
Local Open Scope Z_scope.
Context `{Transport} (now : Z).

(** A refresh that reports success has put a token in place. *)
Lemma _do_refresh_token_true w w' :
  _do_refresh_token now w = (Ret true, w') → is_Some (_token (self w')).
Proof.
  unfold _do_refresh_token, bindM at 1. unfold get_self at 1. simpl.
  destruct (truthy (_refresh_token (self w))); simpl; [|by intros [= _ <-]].
  unfold try_return, bindM, send.
  destruct (http _) as [resp|e]; simpl; [|by intros [= _ <-]].
  destruct (json resp) as [d|]; simpl; [|by intros [= _ <-]].
  destruct (d_token d) as [t|]; simpl; [|by intros [= _ <-]].
  unfold set_self, _save_refresh_token, ret. simpl.
  destruct (bool_decide _); simpl; [destruct (saver_installed w)|];
    intros [= <-]; by eexists.
Qed.

Lemma _ensure_token_valid_true w w' :
  _ensure_token_valid now w = (Ret true, w') → is_Some (_token (self w')).
Proof.
  unfold _ensure_token_valid, bindM, get_self.
  destruct (_token (self w)) as [t|] eqn:Ht; [|apply _do_refresh_token_true].
  destruct (is_expired now t); [apply _do_refresh_token_true|].
  intros [= <-]. by rewrite Ht.
Qed.

Lemma _find_by_name_returns drive_id parent_id name file_type w :
  ∃ it w', _find_by_name now drive_id parent_id name file_type w = (Ret it, w').
Proof. apply try_return_returns. Qed.

Lemma walk_returns drive_id parent_id parts w :
  ∃ r w', walk now drive_id parent_id parts w = (Ret r, w').
Proof.
  induction parts as [|name rest IH] in parent_id, w |- *; simpl; [by eexists _, _|].
  unfold bindM.
  destruct (_find_by_name_returns drive_id parent_id name None w) as ([it|] & w1 & ->);
    [apply IH|by eexists _, _].
Qed.

Lemma get_fids_loop_spec drive_id file_paths results w :
  ∃ new w',
    get_fids_loop now drive_id file_paths results w = (Ret (results ++ new)%list, w')
    ∧ looked_up now drive_id w file_paths new w'
    ∧ (AliyunDrive.file_path <$> new) `sublist_of` (reported <$> file_paths)
    ∧ Forall (λ e, AliyunDrive.file_path e = "/" → AliyunDrive.fid e = "root") new.
Proof.
  induction file_paths as [|path rest IH] in results, w |- *; simpl.
  { exists [], w. rewrite app_nil_r. repeat split; [constructor|done|done]. }
  unfold reported at 1.
  destruct (negb (truthy path) || bool_decide (path = "/")) eqn:Hroot.
  - destruct (IH (results ++ [FidEntry "/" "root"])%list w)
      as (new & w' & -> & Hrun & Hsub & Hall).
    exists (FidEntry "/" "root" :: new), w'. rewrite <- app_assoc. simpl.
    split; [done|]. split; [by apply looked_up_root|].
    split; [by apply sublist_skip|by constructor].
  - unfold bindM.
    destruct (walk_returns drive_id "root" (path_parts path) w)
      as ([parent_id|] & w1 & Hwalk); rewrite Hwalk.
    + destruct (IH (results ++ [FidEntry path parent_id])%list w1)
        as (new & w' & -> & Hrun & Hsub & Hall).
      exists (FidEntry path parent_id :: new), w'. rewrite <- app_assoc. simpl.
      split; [done|]. split; [by eapply looked_up_found|].
      split; [by apply sublist_skip|]. constructor; [|done]. simpl.
      intros ->. done.
    + destruct (IH results w1) as (new & w' & -> & Hrun & Hsub & Hall).
      exists new, w'. split; [done|]. split; [by eapply looked_up_missing|].
      split; [by apply sublist_cons|done].
Qed.

(** X13.  [get_fids] never raises.  With a valid token it looks the paths
    up in order, each from the root and in the state the lookups before it
    left: a path given as [""] or ["/"] is reported as ["/"] with the id
    ["root"], a path whose components are all found is reported under the
    spelling it was asked with and with the id reached, and a path with a
    component that is not found is left out.  So the entries follow the
    order of the paths asked for; and when the token cannot be made valid
    the answer is empty. *)
Theorem get_fids_reports_found_paths (file_paths : list string) (w : world) :
  ∃ results w',
    get_fids now file_paths w = (Ret results, w')
    ∧ (∀ w1, _ensure_token_valid now w = (Ret true, w1) →
         ∃ t, _token (self w1) = Some t
           ∧ looked_up now (default_drive_id t) w1 file_paths results w')
    ∧ (AliyunDrive.file_path <$> results) `sublist_of` (reported <$> file_paths)
    ∧ Forall (λ e, AliyunDrive.file_path e = "/" → AliyunDrive.fid e = "root") results
    ∧ (∀ w1, _ensure_token_valid now w = (Ret false, w1) → results = [] ∧ w' = w1).
Proof.
  unfold get_fids, bindM at 1.
  destruct (_ensure_token_valid_returns now w) as ([|] & w1 & Hok); rewrite Hok; simpl.
  - unfold bindM, get_self.
    destruct (_ensure_token_valid_true _ _ Hok) as [t Ht]. rewrite Ht.
    destruct (get_fids_loop_spec (default_drive_id t) file_paths [] w1)
      as (new & w' & -> & Hrun & Hsub & Hall).
    exists new, w'. split; [done|]. split; [|split; [done|split; [done|]]].
    + intros w2 [= <-]. by exists t.
    + intros w2 [=].
  - exists [], w1. split; [done|]. split; [intros w2 [=]|].
    split; [apply sublist_nil_l|]. split; [done|]. intros w2 [= <-]. done.
Qed.

Lemma mkdir_step_error drive_id parent_id name w error w' :
  mkdir_step now drive_id parent_id name w = (Ret (inl error), w') → mk_code error = 1.
Proof.
  unfold mkdir_step. intros Hrun.
  apply bindM_ret_inv in Hrun as ([it|] & w1 & _ & Hrun); [by injection Hrun|].
  apply bindM_ret_inv in Hrun as (resp & w2 & _ & Hrun). cbv zeta in Hrun.
  apply bindM_ret_inv in Hrun as ([it|] & w3 & _ & Hrun); [by injection Hrun|].
  destruct (truthy (d_code (_check_response resp))); unfold ret in Hrun; by simplify_eq.
Qed.

Lemma mkdir_loop_spec drive_id parent_id parts created w r w' :
  mkdir_loop now drive_id parent_id parts created w = (Ret r, w') →
  mk_code r = 0 →
  ∃ created', mk_data r = Some created'
    ∧ match last parts with
      | Some name => ∃ fid, created' = (Some fid, Some name)
      | None => created' = created
      end.
Proof.
  induction parts as [|name rest IH] in parent_id, created, w |- *; simpl.
  { intros [= <- <-] _. by eexists. }
  intros Hrun Hcode. apply bindM_ret_inv in Hrun as ([error|parent_id'] & w1 & Hstep & Hrun).
  { injection Hrun as <- <-. apply mkdir_step_error in Hstep. lia. }
  destruct (IH _ _ _ Hrun Hcode) as (created' & Hdata & Hlast).
  exists created'. split; [done|].
  destruct rest as [|name' rest]; [simpl in *; by eexists|].
  change (last (name :: name' :: rest)) with (last (name' :: rest)).
  destruct (last (name' :: rest)) eqn:Hl; [done|]. by apply last_None in Hl.
Qed.

(** X14.  [mkdir] never raises.  A path without a component ([""], ["/"],
    ["//"]) is refused with code [1], and so is every call for which the
    token cannot be made valid; an answer with code [0] carries the name of
    the last component of the path and the id reached for it. *)
Theorem mkdir_names_last_component (dir_path : string) (w : world) :
  ∃ r w',
    mkdir now dir_path w = (Ret r, w')
    ∧ (mk_code r = 0 ∨ mk_code r = 1)
    ∧ (path_parts dir_path = [] → mk_code r = 1)
    ∧ (∀ w1, _ensure_token_valid now w = (Ret false, w1) → mk_code r = 1 ∧ w' = w1)
    ∧ (mk_code r = 0 →
       ∃ fid name, last (path_parts dir_path) = Some name
         ∧ mk_data r = Some (Some fid, Some name)).
Proof.
  unfold mkdir, bindM at 1.
  destruct (_ensure_token_valid_returns now w) as ([|] & w1 & Hok); rewrite Hok; simpl.
  2:{ eexists _, _. split; [done|]. split; [by right|]. split; [done|].
      split; [by intros ? [= <-]|]. simpl. lia. }
  unfold try_return. cbv zeta.
  case_bool_decide as Hparts.
  { unfold ret. eexists _, _. split; [done|]. simpl. split; [by right|]. split; [done|].
    split; [intros ? [=]|lia]. }
  unfold bindM at 1, get_self.
  destruct (_ensure_token_valid_true _ _ Hok) as [t ->].
  destruct (mkdir_loop now (default_drive_id t) "root" (path_parts dir_path) (None, None) w1)
    as [[r|e] w'] eqn:Hloop.
  2:{ eexists _, _. split; [done|]. simpl. split; [by right|]. split; [done|].
      split; [intros ? [=]|lia]. }
  exists r, w'. split; [done|].
  assert (Hcodes : mk_code r = 0 ∨ mk_code r = 1).
  { clear Hparts. revert Hloop. generalize (None : option string, None : option string).
    generalize "root". generalize w1.
    induction (path_parts dir_path) as [|name rest IH]; simpl; intros w2 p c Hrun.
    - injection Hrun as <- _. by left.
    - apply bindM_ret_inv in Hrun as ([error|parent_id'] & w3 & Hstep & Hrun).
      + injection Hrun as <- _. right. by eapply mkdir_step_error.
      + by eapply IH. }
  split; [done|]. split; [done|]. split; [intros ? [=]|].
  intros Hcode. destruct (mkdir_loop_spec _ _ _ _ _ _ _ Hloop Hcode) as (created' & Hdata & Hlast).
  destruct (last (path_parts dir_path)) as [name|] eqn:Hl.
  - destruct Hlast as [fid ->]. by exists fid, name.
  - apply last_None in Hl. done.
Qed.

Lemma save_config_unnamed_file drive tok account_name t accounts :
  ConfigSaver.name_given account_name = false →
  (ConfigSaver.save_config drive tok account_name t (Some accounts)).2
  = Some ((λ a, if bool_decide (acc_drive_type a = Some drive)
                then ConfigSaver.stamp tok t a else a) <$> accounts).
Proof.
  intros Hn. unfold ConfigSaver.save_config.
  rewrite (update_accounts_unnamed _ _ _ _ _ Hn).
  case_bool_decide as Hex; [done|]. simpl. f_equal.
  induction accounts as [|acc rest IH]; [done|].
  rewrite Exists_cons in Hex. simpl.
  rewrite bool_decide_false by tauto. f_equal. apply IH. tauto.
Qed.

(** X15.  An adapter constructed without an account name, as
    [create_adapter] constructs it, fetches its token at once, and when the
    provider answers with a new refresh token while the persistence hook is
    installed, the hook is called with the empty name: the configuration
    file then holds the new refresh token and the time of the write in
    every aliyun account, whichever account the cookie came from, and the
    accounts of other drive types as they were. *)
Theorem __init___unnamed_rotation_reaches_all
    (cookie : string) (index : Z) (accounts : list account) (a0 : adapter)
    (log : list request) (resp : response) (d : api_data) (t : token_json) :
  strip cookie ≠ "" →
  http (Request "POST" (API_HOST +:+ V2_ACCOUNT_TOKEN) UNI_HEADERS
          [("refresh_token", strip cookie); ("grant_type", "refresh_token")])
  = Ret resp →
  json resp = Some d →
  d_token d = Some t →
  tj_refresh_token t ≠ strip cookie →
  ∃ w',
    __init__ now cookie index None (World a0 (Some accounts) true log) = (Ret tt, w')
    ∧ _account_name (self w') = ""
    ∧ _refresh_token (self w') = tj_refresh_token t
    ∧ Aliyun.index (self w') = index + 1
    ∧ Aliyun.config_file w'
      = Some ((λ a, if bool_decide (acc_drive_type a = Some "aliyun")
                    then ConfigSaver.stamp (tj_refresh_token t) now a else a)
                <$> accounts).
Proof.
  intros Hne Hh Hj Ht Hrot.
  assert (Hc : truthy cookie = true).
  { destruct cookie; [|done]. by destruct Hne. }
  assert (Hs : truthy (strip cookie) = true) by by destruct (strip cookie).
  unfold __init__, bindM at 1. unfold set_self at 1. rewrite Hc.
  unfold bindM at 1. unfold get_self at 1. cbn [self _refresh_token]. rewrite Hs.
  unfold _init_token, try_return, bindM at 1.
  unfold _do_refresh_token, bindM at 1. unfold get_self at 1.
  cbn [self _refresh_token]. rewrite Hs. cbn [negb].
  unfold try_return, bindM at 1. unfold send at 1.
  unfold session_headers. cbn [authorization self]. rewrite Hh. cbn [fst snd].
  rewrite Hj, Ht. unfold bindM, set_self, _save_refresh_token, ret.
  cbn [self _refresh_token saver_installed logged logged_all Aliyun.config_file http_log
       _account_name refresh_token AliyunToken_of].
  rewrite bool_decide_true by done.
  cbn [self _refresh_token saver_installed logged logged_all Aliyun.config_file http_log
       _account_name refresh_token AliyunToken_of].
  eexists. split; [done|]. cbn [self _account_name _refresh_token Aliyun.index
                                Aliyun.config_file default].
  split; [done|]. split; [done|]. split; [done|].
  unfold ConfigSaver.aliyun_save_config. by apply save_config_unnamed_file.
Qed.

End AliyunDriveFacts.

Lemma __init___unnamed_rotation_reaches_all_witness :
  ∃ w',
    AliyunDrive.__init__ (H:=Samples.granting_aliyun) 5 "rt-0" 0 None
      (Aliyun.World (Aliyun.Adapter "" None "" None 0 false "")
         (Some [Samples.sample_account "a" "aliyun" "rt-0";
                Samples.sample_account "b" "115" "c";
                Samples.sample_account "c" "aliyun" "rt-c"]) true [])
    = (Py.Ret tt, w')
    ∧ Aliyun.config_file w'
      = Some [Cfg.Account None (Some "a") (Some "aliyun") (Some "rt") None (Some 5%Z);
              Samples.sample_account "b" "115" "c";
              Cfg.Account None (Some "c") (Some "aliyun") (Some "rt") None (Some 5%Z)].
Proof.
  destruct (__init___unnamed_rotation_reaches_all (H:=Samples.granting_aliyun) 5 "rt-0" 0
              [Samples.sample_account "a" "aliyun" "rt-0";
               Samples.sample_account "b" "115" "c";
               Samples.sample_account "c" "aliyun" "rt-c"]
              (Aliyun.Adapter "" None "" None 0 false "") []
              (Aliyun.Response 200
                 (Some (Aliyun.ApiData "" None [] "" "" ""
                          (Some (Aliyun.TokenJson "at" "rt" 7200 "u" "n" "nick" "d" "s" 0)) []))
                 "")
              (Aliyun.ApiData "" None [] "" "" ""
                 (Some (Aliyun.TokenJson "at" "rt" 7200 "u" "n" "nick" "d" "s" 0)) [])
              (Aliyun.TokenJson "at" "rt" 7200 "u" "n" "nick" "d" "s" 0))
    as (w' & Hrun & _ & _ & _ & Hfile).
  - vm_compute. discriminate.
  - reflexivity.
  - reflexivity.
  - reflexivity.
  - vm_compute. discriminate.
  - exists w'. split; [exact Hrun|]. rewrite Hfile. reflexivity.
Defined.

(** ** Refreshing an aliyun token on request *)

Section RunAliyunFacts.
Import Py Cfg Aliyun AliyunDrive RunAliyun.
Local Open Scope Z_scope.
Context `{Transport} (now : Z).

(** A granted refresh: the fields it sets, the request it sends, and what
    it leaves alone. *)
Lemma _do_refresh_token_grants w t :
  _refresh_token (self w) ≠ "" →
  grants (_refresh_token (self w)) t →
  ∃ w', _do_refresh_token now w = (Ret true, w')
    ∧ self w' = Adapter (tj_refresh_token t) (Some (AliyunToken_of now t))
                  (_account_name (self w)) (Some ("Bearer " +:+ tj_access_token t))
                  (Aliyun.index (self w)) (is_active (self w)) (nickname (self w))
    ∧ saver_installed w' = saver_installed w
    ∧ Threads.aliyun_token_calls (http_log w')
      = S (Threads.aliyun_token_calls (http_log w)).
Proof.
  intros Hne Hg.
  assert (Hrt : truthy (_refresh_token (self w)) = true)
    by by destruct (_refresh_token (self w)).
  destruct (Hg (session_headers (self w))) as (resp & d & Hh & Hj & Ht).
  unfold _do_refresh_token, bindM at 1. unfold get_self at 1. simpl.
  rewrite Hrt. simpl. unfold try_return, bindM, send. rewrite Hh. simpl. rewrite Hj, Ht.
  unfold set_self, _save_refresh_token, ret. simpl.
  assert (Hcalls : ∀ log req,
             req_url req = API_HOST +:+ V2_ACCOUNT_TOKEN →
             Threads.aliyun_token_calls (log ++ [req])
             = S (Threads.aliyun_token_calls log)).
  { intros log req Hurl. unfold Threads.aliyun_token_calls.
    rewrite filter_app, length_app, (filter_cons_True _ req) by done. simpl. lia. }
  destruct (bool_decide _); simpl; [destruct (saver_installed w) eqn:Hs|];
    (eexists; split; [done|]; simpl; split; [done|]; split; [done|]; by apply Hcalls).
Qed.

Lemma bindM_ret_eq {W A B} (m : Py.M W A) (k : A → Py.M W B) w a w1 :
  m w = (Ret a, w1) → bindM m k w = k a w1.
Proof. intros Hm. unfold bindM. by rewrite Hm. Qed.

Lemma __init___grants cookie index account_name w t :
  strip cookie ≠ "" →
  grants (strip cookie) t →
  ∃ w', __init__ now cookie index account_name w = (Ret tt, w')
    ∧ _refresh_token (self w') = tj_refresh_token t
    ∧ Threads.aliyun_token_calls (http_log w')
      = S (Threads.aliyun_token_calls (http_log w)).
Proof.
  intros Hne Hg.
  assert (Hc : truthy cookie = true).
  { destruct cookie; [|done]. by destruct Hne. }
  assert (Hs : truthy (strip cookie) = true) by by destruct (strip cookie).
  unfold __init__, bindM at 1. unfold set_self at 1. rewrite Hc.
  unfold bindM at 1. unfold get_self at 1. cbn [self _refresh_token fst snd].
  rewrite Hs. unfold _init_token, try_return.
  set (w0 := World _ (Aliyun.config_file w) (saver_installed w) (http_log w)).
  destruct (_do_refresh_token_grants w0 t) as (w1 & Hr1 & Hself1 & Hsav1 & Hlog1);
    [done|done|].
  rewrite (bindM_ret_eq _ _ _ _ _ Hr1). unfold ret.
  exists w1. split; [done|]. rewrite Hself1. split; [done|]. by rewrite Hlog1.
Qed.

Lemma init_grants w t :
  _refresh_token (self w) ≠ "" →
  grants (_refresh_token (self w)) t →
  ∃ user_info w', init now w = (Ret (Some user_info), w')
    ∧ _refresh_token (self w') = tj_refresh_token t
    ∧ Threads.aliyun_token_calls (http_log w')
      = S (Threads.aliyun_token_calls (http_log w)).
Proof.
  intros Hne Hg.
  assert (Hrt : truthy (_refresh_token (self w)) = true)
    by by destruct (_refresh_token (self w)).
  destruct (_do_refresh_token_grants w t) as (w1 & Hr1 & Hself1 & Hsav1 & Hlog1);
    [done|done|].
  unfold init, bindM at 1. unfold get_self at 1. rewrite Hrt. cbn [negb].
  rewrite (bindM_ret_eq _ _ _ _ _ Hr1).
  unfold bindM at 1. unfold get_self at 1. rewrite Hself1. cbn [_token].
  unfold bindM, set_self, ret. cbn [fst snd].
  eexists _, _. split; [done|]. cbn [self _refresh_token http_log]. by split.
Qed.

(** X16.  A refresh through the route rotates the token twice: the
    constructor of the adapter fetches a token with the cookie of the
    account, [init] fetches another with the refresh token the first answer
    carried, and the answer of the route carries the refresh token of the
    second.  When that differs from the cookie the configuration in memory,
    with the cookie of the account replaced and nothing else changed, is
    what the file holds afterwards. *)
Theorem aliyun_token_refresh_rotates_twice
    (account_name : string) (config_data : list account) (target_account : account)
    (t1 t2 : token_json) (w : world) :
  List.find (Run.is_target "aliyun" account_name) config_data = Some target_account →
  strip (default "" (acc_cookie target_account)) ≠ "" →
  grants (strip (default "" (acc_cookie target_account))) t1 →
  tj_refresh_token t1 ≠ "" →
  grants (tj_refresh_token t1) t2 →
  tj_refresh_token t2 ≠ "" →
  tj_refresh_token t2 ≠ default "" (acc_cookie target_account) →
  ∃ user_info w',
    aliyun_token_refresh now account_name config_data w
    = (Ret (Refreshed (tj_refresh_token t2) user_info true,
            set_cookie account_name (tj_refresh_token t2) config_data), w')
    ∧ Aliyun.config_file w'
      = Some (set_cookie account_name (tj_refresh_token t2) config_data)
    ∧ Threads.aliyun_token_calls (http_log w')
      = (Threads.aliyun_token_calls (http_log w) + 2)%nat.
Proof.
  intros Hfind Hne Hg1 Hrt1 Hg2 Hrt2 Hdiff.
  unfold aliyun_token_refresh. rewrite Hfind. unfold try_return.
  destruct (__init___grants (default "" (acc_cookie target_account)) 0
              (Some (default "" (acc_name target_account))) w t1 Hne Hg1)
    as (w1 & Hr1 & Hself1 & Hlog1).
  rewrite (bindM_ret_eq _ _ _ _ _ Hr1).
  destruct (init_grants w1 t2) as (user_info & w2 & Hr2 & Hself2 & Hlog2);
    [by rewrite Hself1|by rewrite Hself1|].
  rewrite (bindM_ret_eq _ _ _ _ _ Hr2).
  unfold bindM at 1. unfold get_self at 1. rewrite Hself2.
  assert (Ht2 : truthy (tj_refresh_token t2) = true) by by destruct (tj_refresh_token t2).
  rewrite Ht2, bool_decide_true by done. cbn [andb].
  unfold bindM, write_json, ret.
  eexists _, _. split; [done|]. cbn [Aliyun.config_file http_log].
  split; [done|]. rewrite Hlog2, Hlog1. lia.
Qed.

End RunAliyunFacts.

Lemma aliyun_token_refresh_rotates_twice_witness :
  ∃ user_info w',
    RunAliyun.aliyun_token_refresh (H:=Samples.granting_aliyun) 5 "a"
      [Samples.sample_account "b" "115" "c"; Samples.sample_account "a" "aliyun" "rt-0"]
      Samples.expired_aliyun
    = (Py.Ret (RunAliyun.Refreshed "rt" user_info true,
               [Samples.sample_account "b" "115" "c";
                Samples.sample_account "a" "aliyun" "rt"]), w')
    ∧ Threads.aliyun_token_calls (Aliyun.http_log w') = 2%nat.
Proof.
  destruct (aliyun_token_refresh_rotates_twice (H:=Samples.granting_aliyun) 5 "a"
              [Samples.sample_account "b" "115" "c";
               Samples.sample_account "a" "aliyun" "rt-0"]
              (Samples.sample_account "a" "aliyun" "rt-0")
              (Aliyun.TokenJson "at" "rt" 7200 "u" "n" "nick" "d" "s" 0)
              (Aliyun.TokenJson "at" "rt" 7200 "u" "n" "nick" "d" "s" 0)
              Samples.expired_aliyun)
    as (user_info & w' & Hrun & _ & Hcalls).
  - reflexivity.
  - vm_compute. discriminate.
  - intros headers. eexists _, _. split; [reflexivity|]. split; reflexivity.
  - discriminate.
  - intros headers. eexists _, _. split; [reflexivity|]. split; reflexivity.
  - discriminate.
  - vm_compute. discriminate.
  - exists user_info, w'. split; [exact Hrun|exact Hcalls].
Defined.

(** ** Xunlei: token refresh and [_request] *)

Section XunleiFacts.
Import Py Cfg Xunlei.
Local Open Scope Z_scope.
Context `{Transport} (now : Z).

Lemma _refresh_access_token_returns w :
  ∃ ok w', _refresh_access_token now w = (Ret ok, w').
Proof.
  unfold _refresh_access_token, bindM, get_self.
  destruct (negb (truthy (_refresh_token (self w)))); [by eexists _, _|].
  apply try_return_returns.
Qed.

Lemma _refresh_captcha_token_returns w :
  ∃ ok w', _refresh_captcha_token now w = (Ret ok, w').
Proof. unfold _refresh_captcha_token, bindM, get_self. apply try_return_returns. Qed.

Lemma xunlei_ensure_tokens_valid_returns w :
  ∃ ok w', _ensure_tokens_valid now w = (Ret ok, w').
Proof.
  unfold _ensure_tokens_valid, bindM, get_self.
  destruct (access_ok now (self w) && captcha_ok now (self w)); [by eexists _, _|].
  destruct (negb (access_ok now (self w))).
  - destruct (_refresh_access_token_returns w) as (ok & w1 & ->).
    destruct ok; simpl; [|by eexists _, _].
    destruct (negb (captcha_ok now (self w))); [|by eexists _, _].
    destruct (_refresh_captcha_token_returns w1) as (ok & w2 & ->).
    destruct ok; by eexists _, _.
  - simpl. destruct (negb (captcha_ok now (self w))); [|by eexists _, _].
    destruct (_refresh_captcha_token_returns w) as (ok & w2 & ->).
    destruct ok; by eexists _, _.
Qed.

(** [_request] never raises: an invalid token, a transport failure and an
    undecodable body all come back as an error dictionary. *)
Lemma xunlei_request_returns method url body w :
  ∃ d w', _request now method url body w = (Ret d, w')
    ∧ (∀ w1, _ensure_tokens_valid now w = (Ret false, w1) → d = token_invalid)
    ∧ (∀ w1 e, _ensure_tokens_valid now w = (Ret true, w1) →
         http (Request method url body) = Raise e → d = request_error e)
    ∧ (∀ w1 resp, _ensure_tokens_valid now w = (Ret true, w1) →
         http (Request method url body) = Ret resp →
         d = default (request_error "JSONDecodeError") (json resp)).
Proof.
  unfold _request, bindM.
  destruct (xunlei_ensure_tokens_valid_returns w) as (ok & w1 & ->).
  destruct ok; simpl.
  - unfold try_return, bindM, send, decode.
    destruct (http (Request method url body)) as [resp|e] eqn:Hh.
    + destruct (json resp) as [d|] eqn:Hj; simpl.
      * eexists _, _. split; [done|]. split; [done|]. split; [by intros ? ? [= <-]|].
        intros ? ? [= <-] [= <-]. by rewrite Hj.
      * eexists _, _. split; [done|]. split; [done|]. split; [by intros ? ? [= <-]|].
        intros ? ? [= <-] [= <-]. by rewrite Hj.
    + eexists _, _. split; [done|]. split; [done|]. split; [|by intros ? ? [= <-]].
      by intros ? ? [= <-] [= <-].
  - eexists _, _. split; [done|]. split; [done|]. split; by intros.
Qed.

Lemma token_invalid_has_error :
  _has_error token_invalid = true ∧ _get_error_message token_invalid = "Token 无效".
Proof. done. Qed.

Lemma request_error_has_error e :
  _has_error (request_error e) = true ∧ _get_error_message (request_error e) = e.
Proof. done. Qed.

(** [get_stoken] never raises and tags its result: code 0 with the share
    token, or code 1 with a message. *)
Lemma xunlei_get_stoken_returns pwd_id passcode w :
  ∃ r w', get_stoken now pwd_id passcode w = (Ret r, w')
    ∧ ((r_code r = 0 ∧ r_status r = Some 200
        ∧ ∃ d, r_data r = StokenData (d_pass_code_token d) pwd_id d ∧ _has_error d = false)
       ∨ (r_code r = 1 ∧ r_data r = NoData
          ∧ (r_status r = Some 400 ∨ r_status r = Some 500))).
Proof.
  unfold get_stoken, try_return, bindM.
  destruct (xunlei_request_returns "GET" (API_BASE +:+ "/drive/v1/share")
              [("share_id", pwd_id); ("pass_code", passcode); ("limit", "100");
               ("pass_code_token", ""); ("page_token", "");
               ("thumbnail_size", "SIZE_SMALL")] w) as (d & w1 & -> & _).
  destruct (_has_error d) eqn:He.
  - eexists _, _. split; [done|]. right. simpl. eauto.
  - destruct (truthy (d_share_status d) && bool_decide (d_share_status d ≠ "OK")).
    + eexists _, _. split; [done|]. right. simpl. eauto.
    + eexists _, _. split; [done|]. left. simpl. eauto.
Qed.

Lemma xunlei_init_returns w : ∃ v w', init now w = (Ret v, w').
Proof.
  unfold init, bindM, get_self.
  destruct (negb (truthy (_refresh_token (self w)))); [by eexists _, _|].
  destruct (_refresh_access_token_returns w) as (ok & w1 & ->).
  destruct ok; simpl; [|by eexists _, _].
  destruct (_refresh_captcha_token_returns w1) as (ok & w2 & ->).
  unfold set_self. by eexists _, _.
Qed.

End XunleiFacts.

(** ** Xunlei: reading a share link *)

Section XunleiUrlFacts.
Import Py XunleiUrl.

Lemma all_chars_app cls a b :
  all_chars cls (a +:+ b) = all_chars cls a && all_chars cls b.
Proof. induction a as [|c a IH]; simpl; [done|]. by rewrite IH, andb_assoc. Qed.

Lemma all_chars_span cls s : all_chars cls (span cls s) = true.
Proof.
  induction s as [|c s IH]; simpl; [done|].
  destruct (cls c) eqn:Hc; simpl; [by rewrite Hc|done].
Qed.

Lemma span_all cls s : all_chars cls s = true → span cls s = s.
Proof.
  induction s as [|c s IH]; simpl; [done|].
  intros [Hc Hs]%andb_true_iff. by rewrite Hc, IH.
Qed.

Lemma span_app_stop cls s q t :
  all_chars cls s = true → cls q = false → span cls (s +:+ String q t) = s.
Proof.
  induction s as [|c s IH]; simpl.
  - intros _ Hq. by rewrite Hq.
  - intros [Hc Hs]%andb_true_iff Hq. by rewrite Hc, IH.
Qed.

Lemma all_chars_not_contains cls s c :
  all_chars cls s = true → cls c = false → contains (String c "") s = false.
Proof.
  intros Hs Hc. induction s as [|c' s IH]; [done|].
  simpl in Hs. apply andb_true_iff in Hs as [Hc' Hs].
  rewrite contains_char_cons, (IH Hs), orb_false_r.
  apply bool_decide_eq_false. congruence.
Qed.

Lemma contains_char_app_iff c a b :
  contains (String c "") (a +:+ b) = contains (String c "") a || contains (String c "") b.
Proof.
  induction a as [|c' a IH].
  - change ("" +:+ b) with b. by destruct b.
  - change (String c' a +:+ b) with (String c' (a +:+ b)).
    by rewrite !contains_char_cons, IH, orb_assoc.
Qed.

(** A string that holds a literal holds the literal's first character. *)
Lemma contains_first_char c lit s :
  contains (String c "") s = false → contains (String c lit) s = false.
Proof.
  induction s as [|c' s IH]; [done|].
  rewrite contains_char_cons. intros [Hc Hs]%orb_false_iff.
  apply bool_decide_eq_false in Hc. cbn [contains String.prefix].
  destruct (ascii_dec c c') as [->|_]; [done|]. by apply IH.
Qed.

Lemma after_prefix_Some lit s rest : after_prefix lit s = Some rest → s = lit +:+ rest.
Proof.
  induction lit as [|a lit IH] in s |- *; simpl; [by intros [= ->]|].
  destruct s as [|b s]; [done|]. destruct (decide (a = b)) as [->|]; [|done].
  intros Hr. by rewrite (IH _ Hr).
Qed.

Lemma after_prefix_app lit s q t rest :
  after_prefix lit (s +:+ String q t) = Some rest →
  (∃ lit', lit = s +:+ String q lit') ∨ (∃ rest', after_prefix lit s = Some rest').
Proof.
  induction lit as [|a lit IH] in s |- *; simpl; [right; by eexists|].
  destruct s as [|b s].
  - change ("" +:+ String q t) with (String q t). cbn [after_prefix].
    destruct (decide (a = q)) as [->|]; [|done]. intros _. left. by exists lit.
  - change (String b s +:+ String q t) with (String b (s +:+ String q t)).
    cbn [after_prefix].
    destruct (decide (a = b)) as [->|]; [|done]. intros Hr.
    destruct (IH _ Hr) as [[lit' ->]|[rest' Hr']]; [left; by exists lit'|right; by exists rest'].
Qed.

(** A literal that holds a character outside the class and not the stop
    character does not match inside a run of the class followed by the stop
    character. *)
Lemma after_prefix_run cls lit s q t e :
  all_chars cls s = true → cls e = false →
  contains (String e "") lit = true →
  contains (String q "") lit = false →
  after_prefix lit (s +:+ String q t) = None.
Proof.
  intros Hs He Hlit Hq.
  destruct (after_prefix lit (s +:+ String q t)) as [rest|] eqn:Hr; [|done].
  apply after_prefix_app in Hr as [[lit' ->]|[rest' Hr]].
  - by rewrite contains_char_app in Hq.
  - apply after_prefix_Some in Hr. subst s.
    rewrite all_chars_app in Hs. apply andb_true_iff in Hs as [Hs _].
    by rewrite (all_chars_not_contains _ _ _ Hs He) in Hlit.
Qed.

Lemma match_here_Some lits cls s g :
  match_here lits cls s = Some g → g ≠ "" ∧ all_chars cls g = true.
Proof.
  induction lits as [|lit lits IH]; simpl; [done|].
  destruct (after_prefix lit s) as [rest|]; [|done].
  destruct (truthy (span cls rest)) eqn:Ht; [|done].
  intros [= <-]. split; [by destruct (span cls rest)|apply all_chars_span].
Qed.

Lemma re_search_group_Some lits cls s g :
  re_search_group lits cls s = Some g → g ≠ "" ∧ all_chars cls g = true.
Proof.
  induction s as [|c s IH]; simpl.
  - destruct (match_here lits cls "") eqn:Hm; [|done].
    intros [= <-]. by apply match_here_Some in Hm.
  - destruct (match_here lits cls (String c s)) eqn:Hm; [|done].
    intros [= <-]. by apply match_here_Some in Hm.
Qed.

Lemma re_search_group_skip lits cls c s :
  match_here lits cls (String c s) = None →
  re_search_group lits cls (String c s) = re_search_group lits cls s.
Proof. intros Hm. cbn [re_search_group]. by rewrite Hm. Qed.

Lemma id_char_question : is_id_char question = false.
Proof. done. Qed.

Section WithRe.
Context (re_match_word : string → option string).

(** X25.  What [extract_url] reads off a link is clean, whatever the
    link: a share id, when there is one, is not empty and holds only
    letters, digits, ["_"] and ["-"], so the two tests for ["?"] and ["#"]
    never change it; the passcode holds only letters and digits; and
    without ["#/list/share/"] in the link the directory is ["0"]. *)
Theorem extract_url_reads_clean_tokens (url : string) :
  let '(pwd_id, passcode, pdir_fid) := extract_url re_match_word url in
  pwd_id = re_search_group ["pan.xunlei.com/s/"] is_id_char url
  ∧ (∀ p, pwd_id = Some p → p ≠ "" ∧ all_chars is_id_char p = true)
  ∧ all_chars is_alnum passcode = true
  ∧ (contains "#/list/share/" url = false → pdir_fid = "0").
Proof.
  unfold extract_url. cbv beta iota zeta.
  assert (Hid : ∀ p, re_search_group ["pan.xunlei.com/s/"] is_id_char url = Some p →
                     contains "?" p = false ∧ contains "#" p = false).
  { intros p [_ Hp]%re_search_group_Some.
    split; by apply (all_chars_not_contains is_id_char). }
  split.
  { destruct (re_search_group ["pan.xunlei.com/s/"] is_id_char url) as [p|]; [|done].
    destruct (Hid p eq_refl) as [Hq Hh]. by rewrite Hq, Hh. }
  split.
  { intros p. destruct (re_search_group ["pan.xunlei.com/s/"] is_id_char url)
      as [p'|] eqn:Hs; [|done].
    destruct (Hid p' eq_refl) as [Hq Hh]. rewrite Hq, Hh. intros [= <-].
    by apply re_search_group_Some in Hs. }
  split.
  { destruct (re_search_group ["pwd="; "password="] is_alnum url) as [g|] eqn:Hs; [|done].
    by apply re_search_group_Some in Hs as [_ Hs]. }
  by intros ->.
Qed.

Lemma search_code_in_run s code :
  all_chars is_id_char s = true →
  code ≠ "" → all_chars is_alnum code = true →
  re_search_group ["pwd="; "password="] is_alnum (s +:+ "?pwd=" +:+ code) = Some code.
Proof.
  intros Hs Hne Hcode. induction s as [|c s IH].
  - change ("" +:+ "?pwd=" +:+ code) with (String question ("pwd=" +:+ code)).
    rewrite re_search_group_skip by done.
    change ("pwd=" +:+ code) with (String "p" ("wd=" +:+ code)).
    cbn [re_search_group match_here after_prefix].
    rewrite !decide_True by done.
    change ("wd=" +:+ code) with (String "w" (String "d" (String "=" code))).
    cbn [after_prefix]. rewrite !decide_True by done. cbn [after_prefix].
    rewrite (span_all _ _ Hcode). by destruct code.
  - simpl in Hs. apply andb_true_iff in Hs as [Hc Hs].
    change (String c s +:+ "?pwd=" +:+ code)
      with (String c (s +:+ String question ("pwd=" +:+ code))).
    rewrite re_search_group_skip; [by apply IH|].
    change (String c (s +:+ String question ("pwd=" +:+ code)))
      with (String c s +:+ String question ("pwd=" +:+ code)).
    assert (Hrun : all_chars is_id_char (String c s) = true) by (simpl; by rewrite Hc).
    cbn [match_here].
    rewrite (after_prefix_run is_id_char "pwd=" _ _ _ "="%char Hrun) by done.
    by rewrite (after_prefix_run is_id_char "password=" _ _ _ "="%char Hrun) by done.
Qed.

Ltac expose_literal tail :=
  match goal with
  | |- context [String.append ?a tail] =>
      let s := eval cbv beta iota zeta delta [String.append] in (String.append a tail) in
      change (String.append a tail) with s
  end.

Lemma search_id_after_host tail :
  truthy (span is_id_char tail) = true →
  re_search_group ["pan.xunlei.com/s/"] is_id_char ("https://pan.xunlei.com/s/" +:+ tail)
  = Some (span is_id_char tail).
Proof.
  intros Ht. expose_literal tail.
  repeat rewrite re_search_group_skip by done.
  cbn [re_search_group match_here after_prefix].
  repeat rewrite decide_True by done. by rewrite Ht.
Qed.

Lemma search_code_after_host tail :
  re_search_group ["pwd="; "password="] is_alnum ("https://pan.xunlei.com/s/" +:+ tail)
  = re_search_group ["pwd="; "password="] is_alnum tail.
Proof.
  expose_literal tail. by repeat rewrite re_search_group_skip by done.
Qed.

(** X26.  A link written the documented way reads back: from
    [https://pan.xunlei.com/s/<id>?pwd=<code>], with an id of letters,
    digits, ["_"] and ["-"] and a code of letters and digits, both not
    empty, [extract_url] returns the id, the code and the directory
    ["0"]. *)
Theorem extract_url_round_trip (share_id code : string) :
  share_id ≠ "" → all_chars is_id_char share_id = true →
  code ≠ "" → all_chars is_alnum code = true →
  extract_url re_match_word ("https://pan.xunlei.com/s/" +:+ share_id +:+ "?pwd=" +:+ code)
  = (Some share_id, code, "0").
Proof.
  intros Hid_ne Hid Hcode_ne Hcode.
  assert (Hspan : span is_id_char (share_id +:+ "?pwd=" +:+ code) = share_id).
  { change (share_id +:+ "?pwd=" +:+ code)
      with (share_id +:+ String question ("pwd=" +:+ code)).
    by apply span_app_stop. }
  assert (Hhash : contains "#/list/share/"
                    ("https://pan.xunlei.com/s/" +:+ share_id +:+ "?pwd=" +:+ code)
                  = false).
  { apply contains_first_char. rewrite !contains_char_app_iff.
    rewrite (all_chars_not_contains _ _ _ Hid), (all_chars_not_contains _ _ _ Hcode) by done.
    done. }
  unfold extract_url. cbv beta iota zeta.
  rewrite search_id_after_host, search_code_after_host, Hspan, Hhash.
  2:{ rewrite Hspan. by destruct share_id. }
  rewrite (search_code_in_run _ _ Hid Hcode_ne Hcode).
  rewrite (all_chars_not_contains is_id_char share_id "?") by done.
  rewrite (all_chars_not_contains is_id_char share_id "#") by done.
  done.
Qed.

End WithRe.
End XunleiUrlFacts.

Lemma extract_url_round_trip_witness :
  XunleiUrl.extract_url (λ _, None) "https://pan.xunlei.com/s/VNx_abc-123?pwd=a1b2"
  = (Some "VNx_abc-123", "a1b2", "0").
Proof.
  apply (extract_url_round_trip (λ _, None) "VNx_abc-123" "a1b2");
    [discriminate|reflexivity|discriminate|reflexivity].
Defined.

(** ** Failures are returned, not raised *)

Section ContractFacts.
Import Py Contract.
Local Open Scope Z_scope.
Context `{TA : Aliyun.Transport} `{TX : Xunlei.Transport} `{TB : BaiduStoken.Transport}.
Context (now : Z).

(** [init] of the Aliyun adapter, by what the refresh does: [False]
    without a refresh token and when the refresh fails, the account
    dictionary of a logged-in adapter when it succeeds. *)
Lemma aliyun_init_spec w :
  ∃ v w', Aliyun.init now w = (Ret v, w')
    ∧ (Aliyun._refresh_token (Aliyun.self w) = "" → v = None ∧ w' = w)
    ∧ (∀ w1, Aliyun._refresh_token (Aliyun.self w) ≠ "" →
         Aliyun._do_refresh_token now w = (Ret false, w1) → v = None ∧ w' = w1)
    ∧ (∀ w1, Aliyun._refresh_token (Aliyun.self w) ≠ "" →
         Aliyun._do_refresh_token now w = (Ret true, w1) →
         ∃ info, v = Some info ∧ Aliyun.is_active (Aliyun.self w') = true).
Proof.
  unfold Aliyun.init, bindM at 1. unfold Aliyun.get_self at 1. simpl.
  destruct (Aliyun._refresh_token (Aliyun.self w)) as [|c rt] eqn:Hrt; simpl.
  { exists None, w. split; [done|]. split; [done|]. split; by intros. }
  unfold bindM at 1.
  destruct (_do_refresh_token_returns now w) as ([|] & w1 & Hok); rewrite Hok.
  - destruct (_do_refresh_token_true now _ _ Hok) as [t Ht].
    unfold bindM, Aliyun.get_self, Aliyun.set_self, ret. rewrite Ht. simpl.
    eexists _, _. split; [done|]. split; [done|]. split; [by intros|].
    intros w2 _ [= <-]. by eexists.
  - exists None, w1. split; [done|]. split; [done|]. split; [|by intros].
    by intros w2 _ [= <-].
Qed.

(** A refresh the transport fails or the provider answers without a token
    reports failure. *)
Lemma aliyun_refresh_fails w :
  Aliyun._refresh_token (Aliyun.self w) ≠ "" →
  match Aliyun.http (Aliyun.Request "POST" (Aliyun.API_HOST +:+ Aliyun.V2_ACCOUNT_TOKEN)
                       (Aliyun.session_headers (Aliyun.self w))
                       [("refresh_token", Aliyun._refresh_token (Aliyun.self w));
                        ("grant_type", "refresh_token")]) with
  | Raise _ => True
  | Ret resp =>
      match Aliyun.json resp with
      | None => True
      | Some result => Aliyun.d_token result = None
      end
  end →
  ∃ w1, Aliyun._do_refresh_token now w = (Ret false, w1).
Proof.
  intros Hrt Hfail. unfold Aliyun._do_refresh_token, bindM at 1.
  unfold Aliyun.get_self at 1. simpl.
  destruct (Aliyun._refresh_token (Aliyun.self w)) as [|c rt] eqn:Hrt'; [done|]. simpl.
  unfold try_return, bindM, Aliyun.send.
  destruct (Aliyun.http _) as [resp|e]; [|by eexists].
  destruct (Aliyun.json resp) as [result|]; [|by eexists].
  rewrite Hfail. by eexists.
Qed.

(** The same for the Xunlei adapter. *)
Lemma xunlei_init_spec w :
  ∃ v w', Xunlei.init now w = (Ret v, w')
    ∧ (Xunlei._refresh_token (Xunlei.self w) = "" → v = None ∧ w' = w)
    ∧ (∀ w1, Xunlei._refresh_token (Xunlei.self w) ≠ "" →
         Xunlei._refresh_access_token now w = (Ret false, w1) → v = None ∧ w' = w1)
    ∧ (∀ w1, Xunlei._refresh_token (Xunlei.self w) ≠ "" →
         Xunlei._refresh_access_token now w = (Ret true, w1) →
         ∃ nick, v = Some nick ∧ Xunlei.is_active (Xunlei.self w') = true).
Proof.
  unfold Xunlei.init, bindM at 1. unfold Xunlei.get_self at 1. simpl.
  destruct (Xunlei._refresh_token (Xunlei.self w)) as [|c rt] eqn:Hrt; simpl.
  { exists None, w. split; [done|]. split; [done|]. split; by intros. }
  unfold bindM at 1.
  destruct (_refresh_access_token_returns now w) as ([|] & w1 & Hok); rewrite Hok; simpl.
  - unfold bindM at 1.
    destruct (_refresh_captcha_token_returns now w1) as (ok & w2 & ->).
    unfold bindM, Xunlei.get_self, Xunlei.set_self, ret. simpl.
    eexists _, _. split; [done|]. split; [done|]. split; [by intros|].
    intros w3 _ [= <-]. by eexists.
  - exists None, w1. split; [done|]. split; [done|]. split; [|by intros].
    by intros w2 _ [= <-].
Qed.

Lemma xunlei_refresh_fails w :
  Xunlei._refresh_token (Xunlei.self w) ≠ "" →
  match Xunlei.http (Xunlei.token_request (Xunlei.self w)) with
  | Raise _ => True
  | Ret resp =>
      match Xunlei.json resp with
      | None => True
      | Some result => Xunlei.d_access_token result = None
      end
  end →
  ∃ w1, Xunlei._refresh_access_token now w = (Ret false, w1).
Proof.
  intros Hrt Hfail. unfold Xunlei._refresh_access_token, bindM at 1.
  unfold Xunlei.get_self at 1. simpl.
  destruct (Xunlei._refresh_token (Xunlei.self w)) as [|c rt] eqn:Hrt'; [done|]. simpl.
  unfold try_return, bindM, Xunlei.send, Xunlei.decode.
  destruct (Xunlei.http _) as [resp|e]; [|by eexists].
  destruct (Xunlei.json resp) as [result|]; [|by eexists].
  unfold ret. rewrite Hfail. by eexists.
Qed.


End ContractFacts.



(** ** 115: the share-tree resolver *)

Section Cloud115Facts.
Import Py Cloud115.
Local Open Scope Z_scope.
Context `{Transport}.
Implicit Types (q nq : list (string * list crumb)) (p : list crumb).

(** A scan either finds the target, one level below the current
    directory, or queues folders of that level. *)
Lemma resolve_scan_spec target p items : ∀ nq,
  match resolve_scan target p items nq with
  | inl found => ∃ name, found = (p ++ [Crumb target name])%list
  | inr nq' => ∃ new, nq' = (nq ++ new)%list
                 ∧ Forall (λ e, length e.2 = S (length p)) new
  end.
Proof.
  induction items as [|it items IH]; intros nq; simpl.
  - exists []. by rewrite app_nil_r.
  - destruct (negb (is_dir it)); [apply IH|].
    destruct (decide (i_cid it = target)) as [<-|Hne]; [by eexists|].
    specialize (IH (nq ++ [(i_cid it, (p ++ [Crumb (i_cid it) (i_n it)])%list)])%list).
    destruct (resolve_scan target p items _) as [found|nq']; [done|].
    destruct IH as (new & -> & Hnew). eexists (_ :: new).
    split; [by rewrite <-app_assoc|]. constructor; [|done].
    simpl. rewrite length_app. simpl. lia.
Qed.

Lemma resolve_pages_spec share_code receive_code target cid p limit fuel :
  ∀ offset nq log,
    Forall (λ e, length e.2 = S (length p)) nq →
    ∃ r log', resolve_pages fuel share_code receive_code target cid p offset limit nq log
              = (Ret r, log')
      ∧ level_ok target (length p) r.
Proof.
  induction fuel as [|fuel IH]; intros offset nq log Hnq; simpl.
  { by eexists _, _. }
  unfold bindM at 1. unfold try_return, bindM, send.
  destruct (http (Snap share_code offset limit cid receive_code)) as [resp|e];
    [|by eexists _, _].
  destruct (negb (d_state (_safe_json resp))); [by eexists _, _|].
  destruct (bool_decide (d_list (_safe_json resp) = [])); [by eexists _, _|].
  pose proof (resolve_scan_spec target p (d_list (_safe_json resp)) nq) as Hs.
  destruct (resolve_scan target p (d_list (_safe_json resp)) nq) as [found|nq'].
  - destruct Hs as [name ->]. eexists _, _. split; [done|]. simpl.
    rewrite length_app. simpl. split; [lia|by eexists _, _].
  - destruct Hs as (new & -> & Hnew).
    assert (Hnq' : Forall (λ e, length e.2 = S (length p)) (nq ++ new)).
    { by apply Forall_app. }
    destruct (bool_decide (Z.of_nat (length (d_list (_safe_json resp))) < limit)).
    + by eexists _, _.
    + apply IH. done.
Qed.

Lemma resolve_level_spec share_code receive_code target fuel n : ∀ q nq log,
  Forall (λ e, length e.2 = n) q →
  Forall (λ e, length e.2 = S n) nq →
  ∃ r log', resolve_level fuel share_code receive_code target q nq log = (Ret r, log')
    ∧ level_ok target n r.
Proof.
  induction q as [|[c p] q IH]; intros nq log Hq Hnq; simpl.
  { by eexists _, _. }
  apply Forall_cons in Hq as [Hp Hq]. simpl in Hp. subst n.
  unfold bindM.
  destruct (resolve_pages_spec share_code receive_code target c p 50 fuel 0 nq log Hnq)
    as (r & log' & -> & Hr).
  destruct r as [[found|nq']|]; [by eexists _, _| |by eexists _, _].
  by apply IH.
Qed.

(** The resolver never raises; what it returns is empty or a breadcrumb
    ending in the target, at most [max_depth] entries long. *)
Lemma resolve_depth_spec share_code receive_code target fuel max_depth : ∀ n q log,
  Forall (λ e, length e.2 = n) q →
  ∃ r log', resolve_depth fuel share_code receive_code target max_depth q log = (Ret r, log')
    ∧ ∀ found, r = Some found →
        found = [] ∨ ((length found ≤ n + max_depth)%nat
                      ∧ ∃ above name, found = (above ++ [Crumb target name])%list).
Proof.
  induction max_depth as [|depth IH]; intros n q log Hq; simpl.
  { eexists _, _. split; [done|]. intros ? [= <-]. by left. }
  unfold bindM.
  destruct (resolve_level_spec share_code receive_code target fuel n q [] log Hq)
    as (r & log' & -> & Hr); [constructor|].
  destruct r as [[found|nq]|]; simpl in Hr.
  - eexists _, _. split; [done|]. intros ? [= <-]. right.
    destruct Hr as [Hlen Hlast]. split; [lia|done].
  - destruct (bool_decide (nq = [])).
    + eexists _, _. split; [done|]. intros ? [= <-]. by left.
    + destruct (IH (S n) nq log' Hr) as (r & log'' & -> & Hrr).
      eexists _, _. split; [done|]. intros found Hf.
      destruct (Hrr found Hf) as [?|[Hlen Hlast]]; [by left|right].
      split; [lia|done].
  - eexists _, _. split; [done|]. by intros.
Qed.

(** With pages that end, the paging loop of a directory returns. *)
Lemma resolve_pages_returns share_code receive_code target cid p fuel :
  ∀ (j : nat) nq log,
    (∃ k, (j ≤ k < j + fuel)%nat
          ∧ page_breaks share_code receive_code cid (50 * Z.of_nat k) 50 = true) →
    ∃ r log', resolve_pages fuel share_code receive_code target cid p
                (50 * Z.of_nat j) 50 nq log = (Ret (Some r), log').
Proof.
  induction fuel as [|fuel IH]; intros j nq log (k & Hk & Hb); [lia|]. simpl.
  unfold bindM at 1. unfold try_return, bindM, send.
  destruct (decide (k = j)) as [->|Hne].
  - unfold page_breaks in Hb.
    destruct (http (Snap share_code (50 * Z.of_nat j) 50 cid receive_code)) as [resp|e];
      [|by eexists _, _].
    destruct (negb (d_state (_safe_json resp))); [by eexists _, _|].
    destruct (bool_decide (d_list (_safe_json resp) = [])); [by eexists _, _|].
    simpl in Hb. rewrite Hb.
    destruct (resolve_scan target p (d_list (_safe_json resp)) nq); by eexists _, _.
  - destruct (http (Snap share_code (50 * Z.of_nat j) 50 cid receive_code)) as [resp|e];
      [|by eexists _, _].
    destruct (negb (d_state (_safe_json resp))); [by eexists _, _|].
    destruct (bool_decide (d_list (_safe_json resp) = [])); [by eexists _, _|].
    destruct (resolve_scan target p (d_list (_safe_json resp)) nq) as [found|nq'];
      [by eexists _, _|].
    destruct (bool_decide (Z.of_nat (length (d_list (_safe_json resp))) < 50));
      [by eexists _, _|].
    replace (50 * Z.of_nat j + 50) with (50 * Z.of_nat (S j)) by lia.
    apply IH. exists k. split; [lia|done].
Qed.

Lemma resolve_level_returns share_code receive_code target fuel :
  pages_end fuel share_code receive_code →
  ∀ q nq log, ∃ r log',
    resolve_level fuel share_code receive_code target q nq log = (Ret (Some r), log').
Proof.
  intros Hend. induction q as [|[c p] q IH]; intros nq log; simpl.
  { by eexists _, _. }
  unfold bindM.
  destruct (resolve_pages_returns share_code receive_code target c p fuel 0 nq log)
    as (r & log' & Hr).
  { destruct (Hend c) as (k & Hk & Hb). exists k. split; [lia|done]. }
  change (50 * Z.of_nat 0) with 0 in Hr. rewrite Hr.
  destruct r as [found|nq']; [by eexists _, _|]. apply IH.
Qed.

Lemma resolve_depth_returns share_code receive_code target fuel max_depth :
  pages_end fuel share_code receive_code →
  ∀ q log, ∃ r log',
    resolve_depth fuel share_code receive_code target max_depth q log
    = (Ret (Some r), log').
Proof.
  intros Hend. induction max_depth as [|depth IH]; intros q log; simpl.
  { by eexists _, _. }
  unfold bindM.
  destruct (resolve_level_returns _ _ target _ Hend q [] log) as (r & log' & ->).
  destruct r as [found|nq]; [by eexists _, _|].
  destruct (bool_decide (nq = [])); [by eexists _, _|]. apply IH.
Qed.

(** [_resolve_share_path] searches at most [max_depth] levels: it never
    raises, with pages that end it returns, and what it returns is the
    empty "not found" or a breadcrumb of at most [max_depth] entries ending
    in the target. *)
Lemma _resolve_share_path_bounded share_code receive_code target fuel max_depth log :
  ∃ r log',
    _resolve_share_path fuel share_code receive_code target max_depth log = (Ret r, log')
    ∧ (pages_end fuel share_code receive_code → is_Some r)
    ∧ ∀ found, r = Some found →
        found = [] ∨ ((length found ≤ max_depth)%nat
                      ∧ ∃ above name, found = (above ++ [Crumb target name])%list).
Proof.
  unfold _resolve_share_path.
  destruct (resolve_depth_spec share_code receive_code target fuel max_depth 0
              [("", [])] log) as (r & log' & Hr & Hb).
  { by repeat constructor. }
  exists r, log'. split; [done|]. split; [|done].
  intros Hend.
  destruct (resolve_depth_returns share_code receive_code target fuel max_depth Hend
              [("", [])] log) as (r' & log'' & Hr').
  rewrite Hr in Hr'. injection Hr' as -> _. by eexists.
Qed.

End Cloud115Facts.

(** ** 115: the share token *)

Section Cloud115StokenFacts.
Import Py Cloud115 Cloud115Stoken.
Local Open Scope Z_scope.
Context `{Transport}.

(** X17.  [get_stoken] never raises, and the token it hands out on
    success leads [get_detail] back to the share: when neither the share
    code nor the receive code holds a colon, the token splits into exactly
    the two, whatever [pwd_id] is passed along with it. *)
Theorem get_stoken_round_trip (pwd_id passcode : string) (log : list request) :
  contains ":" pwd_id = false →
  contains ":" passcode = false →
  ∃ r log',
    get_stoken pwd_id passcode log = (Ret r, log')
    ∧ (sr_code r = 0 →
       ∃ s, sr_data r = Some (StokenData s pwd_id passcode)
         ∧ ∀ other, share_code_of other s = pwd_id ∧ receive_code_of other s = passcode).
Proof.
  intros Hp Hc.
  assert (Hparts : ∀ other,
            share_code_of other (pwd_id +:+ ":" +:+ passcode) = pwd_id
            ∧ receive_code_of other (pwd_id +:+ ":" +:+ passcode) = passcode).
  { intros other. unfold share_code_of, receive_code_of. cbv zeta.
    change (pwd_id +:+ ":" +:+ passcode) with (pwd_id +:+ String colon passcode).
    rewrite truthy_app_char, (split_app colon), (split_no_sep colon _ Hp),
      (split_no_sep colon _ Hc).
    done. }
  unfold get_stoken, bindM at 1.
  destruct (try_return_returns (send (SharePage pwd_id passcode);; ret tt)%M (λ _, tt) log)
    as ([] & log1 & Hs).
  unfold _create_share_session. rewrite Hs.
  unfold try_return, bindM, send.
  destruct (http (Snap pwd_id 0 20 "0" passcode)) as [resp|e]; simpl.
  - destruct (d_state (_safe_json resp) && bool_decide (d_list (_safe_json resp) ≠ []));
      eexists _, _; (split; [done|]); simpl; [|done].
    intros _. by eexists.
  - eexists _, _. split; [done|]. done.
Qed.

End Cloud115StokenFacts.

Lemma get_stoken_round_trip_witness :
  ∃ r log',
    Cloud115Stoken.get_stoken
      (H:=Samples.cloud115_lists (λ _, [Samples.file115 "f0" "" "readme.txt"]))
      "swabc" "1234" []
    = (Py.Ret r, log')
    ∧ (Cloud115Stoken.sr_code r = 0%Z →
       ∃ s, Cloud115Stoken.sr_data r = Some (Cloud115Stoken.StokenData s "swabc" "1234")
         ∧ ∀ other, Cloud115.share_code_of other s = "swabc"
                    ∧ Cloud115.receive_code_of other s = "1234").
Proof.
  apply (get_stoken_round_trip
           (H:=Samples.cloud115_lists (λ _, [Samples.file115 "f0" "" "readme.txt"]))
           "swabc" "1234" []); reflexivity.
Defined.


(** ** 115: the transfer *)

Section Cloud115DriveFacts.
Import Py Cloud115Drive.
Local Open Scope Z_scope.
Context {St : Type} `{Provider St}.

Lemma ls_dir_loop_returns fuel cid offset limit list_merge (w : world St) :
  ∃ r w', ls_dir_loop fuel cid offset limit list_merge w = (Ret r, w').
Proof.
  induction fuel as [|fuel IH] in offset, list_merge, w |- *; [by eexists _, _|].
  cbn [ls_dir_loop]. unfold bindM at 1.
  match goal with
  | |- context [try_return ?m ?h w] =>
      destruct (try_return_returns m h w) as ([[r| |] l] & w1 & ->)
  end; [by eexists _, _..|apply IH].
Qed.

Lemma dict_set_Forall {V} (P : string * V → Prop) k v d :
  P (k, v) → Forall P d → Forall P (dict_set k v d).
Proof.
  intros Hkv. induction 1 as [|[k' v'] d Hx Hd IH]; simpl; [by repeat constructor|].
  destruct (decide (k' = k)); constructor; done.
Qed.

Lemma dict_get_values {V} k (v : V) d : dict_get k d = Some v → v ∈ dict_values d.
Proof.
  induction d as [|[k' v'] d IH]; simpl; [done|].
  destruct (decide (k' = k)); [intros [= ->]; left|intros ?; right; auto].
Qed.

Lemma record_new_fresh before_items infos d :
  Forall (λ kv : string * string, kv.2 ≠ "" ∧ kv.2 ∉ before_items) d →
  Forall (λ kv : string * string, kv.2 ≠ "" ∧ kv.2 ∉ before_items)
    (foldl (record_new before_items) d infos).
Proof.
  induction infos as [|fi infos IH] in d |- *; [done|]. intros Hd. cbn [foldl].
  apply IH. unfold record_new.
  destruct (truthy (fi_fid fi)) eqn:Ht; [|done]. case_bool_decide as Hin; [done|].
  apply dict_set_Forall; [|done]. simpl. split; [by destruct (fi_fid fi)|done].
Qed.

Section Assembly.
Context (clean : string → string).

Lemma saved_fids_values file_names d :
  Forall (λ f, f = "" ∨ f ∈ dict_values d) (saved_fids clean file_names d).
Proof.
  assert (Hvals : Forall (λ f, f = "" ∨ f ∈ dict_values d) (dict_values d)).
  { apply Forall_forall. intros f Hf. by right. }
  unfold saved_fids. destruct file_names as [[|fname0 rest]|]; [done| |done].
  apply Forall_fmap, Forall_forall. intros fname _. simpl.
  destruct (dict_get fname d) as [v|] eqn:Hget; simpl.
  - destruct (truthy v); [right; by eapply dict_get_values|].
    unfold fuzzy. destruct (List.find _ d) as [[k v']|] eqn:Hfind; simpl; [|by left].
    right. apply find_some in Hfind as [Hin _]. apply list_elem_of_In in Hin.
    unfold dict_values. apply (list_elem_of_fmap_2 snd _ _ Hin).
  - unfold fuzzy. destruct (List.find _ d) as [[k v']|] eqn:Hfind; simpl; [|by left].
    right. apply find_some in Hfind as [Hin _]. apply list_elem_of_In in Hin.
    unfold dict_values. apply (list_elem_of_fmap_2 snd _ _ Hin).
Qed.

Lemma saved_fids_length names d :
  names ≠ [] → length (saved_fids clean (Some names) d) = length names.
Proof. destruct names; [done|]. intros _. unfold saved_fids. by rewrite length_fmap. Qed.

Context (cookie : string) (now : Z).

(** X27.  [save_file] never raises, and what it reports as saved is
    aligned with the names it was given: on success the list
    [save_as_top_fids] has one entry for each name of a non-empty
    [file_names], in order, and every entry is either the empty string, the
    placeholder for a name not found, or the id of an entry that was not in
    the target folder when the folder was listed before the transfer.  A
    failure carries code [1] and no data. *)
Theorem save_file_keeps_names_aligned
    (fuel : nat) (fid_list fid_token_list : list string)
    (to_pdir_fid pwd_id stoken : string) (file_names : option (list string))
    (w : world St) :
  ∃ r w',
    save_file clean cookie now fuel fid_list fid_token_list to_pdir_fid pwd_id stoken
      file_names w = (Ret r, w')
    ∧ ∀ sr, r = Some sr →
        (sf_code sr = 1 ∧ sf_data sr = None)
        ∨ (sf_code sr = 0
           ∧ ∃ fids,
               sf_data sr = Some (SaveData ("115_sync_" +:+ pretty now) fids)
               ∧ (∀ names, file_names = Some names → names ≠ [] →
                    length fids = length names)
               ∧ ∀ before w1,
                   ls_dir fuel (if truthy to_pdir_fid then to_pdir_fid else "0") w
                   = (Ret (Some before), w1) →
                   r_code before = 0 →
                   Forall (λ f, f = "" ∨ f ∉ (fi_fid <$> r_list before)) fids).
Proof.
  unfold save_file. cbv zeta.
  set (target := if truthy to_pdir_fid then to_pdir_fid else "0").
  unfold bindM at 1, try_return at 1, bindM at 1.
  destruct (ls_dir_loop_returns fuel (if truthy target then target else "0") 0 50 [] w)
    as (before & w1 & Hbefore).
  unfold ls_dir at 1. rewrite Hbefore.
  destruct before as [before|]; [|by eexists _, _].
  set (before_items := if bool_decide (r_code before = 0)
                       then fi_fid <$> r_list before else []).
  assert (Hbi : (if bool_decide (r_code before = 0)
                 then ret (Some (fi_fid <$> r_list before))
                 else ret (Some [])) w1 = (Ret (Some before_items), w1)).
  { unfold before_items. by destruct (bool_decide (r_code before = 0)). }
  rewrite Hbi. clear Hbi.
  unfold bindM at 1, try_return at 1, bindM at 1.
  destruct (send (SharePage _ _) w1) as [[resp|e] w2]; unfold ret at 1.
  2:{ eexists _, _. split; [done|]. intros sr [= <-]. by left. }
  unfold bindM at 1.
  match goal with
  | |- context [try_return ?m ?h w2] =>
      destruct (try_return_returns m h w2) as (errors & w3 & ->)
  end.
  case_bool_decide as Herr.
  { eexists _, _. split; [done|]. intros sr [= <-]. by left. }
  unfold bindM at 1, try_return at 1, bindM at 1.
  destruct (ls_dir_loop_returns fuel (if truthy target then target else "0") 0 50 [] w3)
    as (after & w4 & Hafter).
  unfold ls_dir at 1. rewrite Hafter.
  destruct after as [after|]; [|by eexists _, _].
  set (d := if bool_decide (r_code after = 0)
            then foldl (record_new before_items) [] (r_list after) else []).
  assert (Hd : (if bool_decide (r_code after = 0)
                then ret (Some (foldl (record_new before_items) [] (r_list after)))
                else ret (Some [])) w4 = (Ret (Some d), w4)).
  { unfold d. by destruct (bool_decide (r_code after = 0)). }
  rewrite Hd. clear Hd. unfold ret.
  eexists _, _. split; [done|]. intros sr [= <-]. right. split; [done|].
  eexists. split; [done|]. split.
  { intros names -> Hne. by apply saved_fids_length. }
  intros before' w1' Hrun Hcode.
  unfold ls_dir in Hrun. rewrite Hbefore in Hrun. injection Hrun as <- <-.
  assert (Hfresh : Forall (λ kv : string * string, kv.2 ≠ "" ∧ kv.2 ∉ before_items) d).
  { unfold d. destruct (bool_decide (r_code after = 0)); [|done].
    by apply record_new_fresh. }
  eapply Forall_impl; [apply saved_fids_values|]. simpl.
  intros f [->|Hf]; [by left|]. right.
  unfold dict_values in Hf. apply list_elem_of_fmap in Hf as ([k v] & -> & Hkv).
  rewrite Forall_forall in Hfresh. destruct (Hfresh _ Hkv) as [_ Hnot]. simpl in *.
  unfold before_items in Hnot. by rewrite bool_decide_true in Hnot.
Qed.

End Assembly.
End Cloud115DriveFacts.

(** ** UC: polling a task, batches of paths, pages of a listing *)

Section UCFacts.
Import Py UC.
Local Open Scope Z_scope.
Context `{Transport}.

Lemma _send_request_answer req log :
  ∃ response, _send_request req log = (Ret response, (log ++ [req])%list)
    ∧ _safe_json response = answer req.
Proof.
  unfold _send_request, answer. destruct (http req) as [response|e]; by eexists.
Qed.

Section Polling.
Context (drawn : Z → Z * Z).

Lemma query_task_loop_spec polls_left task_id (k : nat) result log :
  (0 < polls_left)%nat →
  ∃ n : nat,
    (1 ≤ n ≤ polls_left)%nat
    ∧ query_task_loop drawn polls_left task_id (Z.of_nat k) result log
      = (Ret (reported (answer (poll drawn task_id (Z.of_nat (k + n - 1))))),
         (log ++ ((λ i, poll drawn task_id (Z.of_nat i)) <$> seq k n))%list)
    ∧ (∀ i, (k ≤ i < k + n - 1)%nat →
         in_progress (answer (poll drawn task_id (Z.of_nat i))) = true)
    ∧ ((n < polls_left)%nat →
         in_progress (answer (poll drawn task_id (Z.of_nat (k + n - 1)))) = false).
Proof.
  intros Hpos. induction polls_left as [|p IH] in k, result, log, Hpos |- *; [lia|].
  cbn [query_task_loop]. unfold bindM at 1, try_return, bindM at 1.
  fold (poll drawn task_id (Z.of_nat k)).
  destruct (_send_request_answer (poll drawn task_id (Z.of_nat k)) log)
    as (response & -> & ->).
  set (a := answer (poll drawn task_id (Z.of_nat k))).
  assert (Hone : ∀ r,
            in_progress a = false → r = reported a →
            ∃ n : nat,
              (1 ≤ n ≤ S p)%nat
              ∧ (Ret r, (log ++ [poll drawn task_id (Z.of_nat k)])%list)
                = (Ret (reported (answer (poll drawn task_id (Z.of_nat (k + n - 1))))),
                   (log ++ ((λ i, poll drawn task_id (Z.of_nat i)) <$> seq k n))%list)
              ∧ (∀ i, (k ≤ i < k + n - 1)%nat →
                   in_progress (answer (poll drawn task_id (Z.of_nat i))) = true)
              ∧ ((n < S p)%nat →
                   in_progress (answer (poll drawn task_id (Z.of_nat (k + n - 1)))) = false)).
  { intros r Hnp ->. exists 1%nat. replace (k + 1 - 1)%nat with k by lia.
    split; [lia|]. split; [done|]. split; [intros; lia|done]. }
  unfold in_progress, reported in Hone.
  destruct (contains "capacity limit" (Cloud115.lower (j_message a))) eqn:Hcap.
  { unfold ret. cbn [fst snd]. by apply Hone. }
  destruct (bool_decide (j_status a = Some 200)) eqn:Hst; cbn [negb].
  2:{ unfold ret. cbn [fst snd]. by apply Hone. }
  destruct (bool_decide (j_task_status a = Some 2)) eqn:Hdone.
  { unfold ret. cbn [fst snd]. by apply Hone. }
  destruct (bool_decide (j_task_status a = Some (-1))) eqn:Hfail.
  { unfold ret. cbn [fst snd]. by apply Hone. }
  unfold ret at 1. cbn [fst snd]. clear Hone.
  assert (Ha : in_progress a = true).
  { unfold in_progress. by rewrite Hcap, Hst, Hdone, Hfail. }
  destruct p as [|p].
  { exists 1%nat. replace (k + 1 - 1)%nat with k by lia. fold a.
    split; [lia|]. cbn [query_task_loop]. unfold ret. unfold reported. rewrite Hcap.
    split; [done|]. split; intros; lia. }
  replace (Z.of_nat k + 1) with (Z.of_nat (S k)) by lia.
  destruct (IH (S k) a (log ++ [poll drawn task_id (Z.of_nat k)])%list)
    as (n & Hn & Hrun & Hbefore & Hlast); [lia|].
  exists (S n). split; [lia|]. rewrite Hrun.
  replace (k + S n - 1)%nat with (S k + n - 1)%nat by lia.
  split; [by rewrite <- app_assoc|]. split.
  - intros i Hi. destruct (decide (i = k)) as [->|Hne]; [done|]. apply Hbefore. lia.
  - intros Hlt. apply Hlast. lia.
Qed.

(** X20.  [query_task] never raises and polls between one and sixty
    times, with the retry indices [0], [1], ... in order.  It stops at the
    first answer that does not say the task is in progress, or at the
    sixtieth, and returns that last answer as the provider gave it (the
    capacity error in its place when the answer mentions the capacity
    limit): after sixty polls of a task still in progress the caller gets
    the provider's sixtieth answer, not the time-out message the method
    starts from. *)
Theorem query_task_returns_last_answer (task_id : string) (log : list request) :
  ∃ n : nat,
    (1 ≤ n ≤ 60)%nat
    ∧ query_task drawn task_id log
      = (Ret (reported (answer (poll drawn task_id (Z.of_nat (n - 1))))),
         (log ++ polls drawn task_id n)%list)
    ∧ (∀ i, (i < n - 1)%nat →
         in_progress (answer (poll drawn task_id (Z.of_nat i))) = true)
    ∧ ((n < 60)%nat →
         in_progress (answer (poll drawn task_id (Z.of_nat (n - 1)))) = false).
Proof.
  unfold query_task, max_retries, polls.
  destruct (query_task_loop_spec 60 task_id 0
              (ApiJson (Some 500) (Some 1) "任务查询超时" [] 0 None []) log)
    as (n & Hn & Hrun & Hbefore & Hlast); [lia|].
  exists n. split; [done|]. split; [exact Hrun|]. split.
  - intros i Hi. apply Hbefore. lia.
  - exact Hlast.
Qed.

End Polling.

Lemma uc_get_fids_loop_spec fuel file_paths fids log :
  (length file_paths < fuel)%nat →
  ∃ batches : list (list string),
    let rest := drop (50 * length batches) file_paths in
    (∀ i b, batches !! i = Some b → b = take 50 (drop (50 * i) file_paths) ∧ b ≠ [])
    ∧ Forall (λ b, j_code (answer (PathList b)) = Some 0) batches
    ∧ (rest = [] ∨ j_code (answer (PathList (take 50 rest))) ≠ Some 0)
    ∧ get_fids_loop fuel file_paths fids log
      = (Ret (Some (fids ++ concat ((λ b, j_data (answer (PathList b))) <$> batches))%list),
         (log ++ (PathList <$> batches)
              ++ (if decide (rest = []) then [] else [PathList (take 50 rest)]))%list).
Proof.
  induction fuel as [|fuel IH] in file_paths, fids, log |- *; [lia|]. intros Hlen.
  cbn [get_fids_loop]. case_bool_decide as Hnil.
  { subst. exists []. cbn zeta. split; [done|]. split; [done|]. split; [by left|].
    simpl. by rewrite !app_nil_r. }
  unfold bindM at 1, try_return, bindM at 1.
  destruct (_send_request_answer (PathList (take 50 file_paths)) log)
    as (response & -> & ->).
  case_bool_decide as Hcode; unfold ret at 1; cbn [fst snd].
  - destruct (IH (drop 50 file_paths)
                (fids ++ j_data (answer (PathList (take 50 file_paths))))%list
                (log ++ [PathList (take 50 file_paths)])%list)
      as (batches & Hb & Hok & Hrest & Hrun).
    { rewrite length_drop. destruct file_paths; [done|]. simpl in Hlen. simpl. lia. }
    cbn zeta in *. rewrite drop_drop in Hrest, Hrun.
    exists (take 50 file_paths :: batches). cbn zeta.
    replace (50 * length (take 50 file_paths :: batches))%nat
      with (50 + 50 * length batches)%nat by (simpl; lia).
    split.
    { intros [|i] b Hi; simpl in Hi.
      - injection Hi as <-. split; [done|]. by destruct file_paths.
      - destruct (Hb i b Hi) as [-> Hne]. split; [|exact Hne]. rewrite drop_drop.
        f_equal. f_equal. lia. }
    split; [by constructor|]. split; [done|].
    rewrite Hrun. simpl. by rewrite <- !app_assoc.
  - exists []. cbn zeta. simpl. split; [done|]. split; [done|]. split; [by right|].
    rewrite decide_False by done. by rewrite app_nil_r.
Qed.

(** X21.  [get_fids] sends the paths in batches of fifty, in order, and
    never raises.  It stops at the first batch the provider does not answer
    with code [0] and returns the entries of the batches before it, so a
    failure shortens the answer instead of being reported; when every batch
    is answered with code [0] the answer holds the entries of all of
    them. *)
Theorem get_fids_batches (fuel : nat) (file_paths : list string) (log : list request) :
  (length file_paths < fuel)%nat →
  ∃ batches : list (list string),
    let rest := drop (50 * length batches) file_paths in
    (∀ i b, batches !! i = Some b → b = take 50 (drop (50 * i) file_paths) ∧ b ≠ [])
    ∧ Forall (λ b, j_code (answer (PathList b)) = Some 0) batches
    ∧ (rest = [] ∨ j_code (answer (PathList (take 50 rest))) ≠ Some 0)
    ∧ get_fids fuel file_paths log
      = (Ret (Some (concat ((λ b, j_data (answer (PathList b))) <$> batches))),
         (log ++ (PathList <$> batches)
              ++ (if decide (rest = []) then [] else [PathList (take 50 rest)]))%list).
Proof.
  intros Hlen. destruct (uc_get_fids_loop_spec fuel file_paths [] log Hlen) as (batches & Hb).
  exists batches. exact Hb.
Qed.

Lemma merged_S request_of n :
  merged request_of (S n)
  = (merged request_of n ++ j_list (answer (request_of (Z.of_nat (S n)))))%list.
Proof.
  unfold merged. rewrite seq_S, fmap_app, concat_app. simpl. by rewrite app_nil_r.
Qed.

Lemma page_loop_spec fuel request_of failure (k : nat) log :
  ∃ (n : nat) (res : option api_json),
    (k ≤ n ≤ k + fuel)%nat
    ∧ (∀ i, (S k ≤ i < n)%nat → goes_on request_of i = true)
    ∧ page_loop fuel request_of failure (Z.of_nat (S k)) (merged request_of k) log
      = (Ret res, (log ++ ((λ i, request_of (Z.of_nat i)) <$> seq (S k) (n - k)))%list)
    ∧ ((n = (k + fuel)%nat ∧ (n = k ∨ goes_on request_of n = true) ∧ res = None)
       ∨ ((S k ≤ n)%nat ∧ goes_on request_of n = false
          ∧ res = Some (listed request_of n))).
Proof.
  induction fuel as [|fuel IH] in k, log |- *.
  { exists k, None. split; [lia|]. split; [intros; lia|]. simpl.
    replace (k - k)%nat with 0%nat by lia. simpl. rewrite app_nil_r.
    split; [done|]. left. split; [lia|]. split; [by left|done]. }
  cbn [page_loop]. unfold bindM at 1, try_return, bindM at 1.
  destruct (_send_request_answer (request_of (Z.of_nat (S k))) log)
    as (response & -> & ->).
  set (a := answer (request_of (Z.of_nat (S k)))).
  assert (Hstop : ∀ r,
            goes_on request_of (S k) = false → r = listed request_of (S k) →
            ∃ (n : nat) (res : option api_json),
              (k ≤ n ≤ k + S fuel)%nat
              ∧ (∀ i, (S k ≤ i < n)%nat → goes_on request_of i = true)
              ∧ (Ret (Some r), (log ++ [request_of (Z.of_nat (S k))])%list)
                = (Ret res,
                   (log ++ ((λ i, request_of (Z.of_nat i)) <$> seq (S k) (n - k)))%list)
              ∧ ((n = (k + S fuel)%nat ∧ (n = k ∨ goes_on request_of n = true)
                  ∧ res = None)
                 ∨ ((S k ≤ n)%nat ∧ goes_on request_of n = false
                    ∧ res = Some (listed request_of n)))).
  { intros r Hg ->. exists (S k), (Some (listed request_of (S k))).
    split; [lia|]. split; [intros; lia|].
    replace (S k - k)%nat with 1%nat by lia. split; [done|]. right. by split. }
  unfold goes_on, listed in Hstop. cbv zeta in Hstop. fold a in Hstop.
  rewrite merged_S in Hstop. fold a in Hstop.
  destruct (bool_decide (j_code a = Some 0)) eqn:Hcode; cbn [negb].
  2:{ unfold ret. cbn [fst snd]. by apply Hstop. }
  case_bool_decide as Hlist.
  2:{ unfold ret. cbn [fst snd]. apply Hstop; [done|].
      by rewrite Hlist, app_nil_r. }
  case_bool_decide as Htotal.
  { unfold ret. cbn [fst snd]. by apply Hstop. }
  unfold ret at 1. cbn [fst snd]. clear Hstop.
  assert (Hgo : goes_on request_of (S k) = true).
  { unfold goes_on. cbv zeta. fold a. rewrite merged_S. fold a.
    rewrite Hcode, bool_decide_true, bool_decide_false by done. done. }
  replace (Z.of_nat (S k) + 1) with (Z.of_nat (S (S k))) by lia.
  fold a. rewrite <- merged_S.
  destruct (IH (S k) (log ++ [request_of (Z.of_nat (S k))])%list)
    as (n & res & Hn & Hbefore & Hrun & Hres).
  exists n, res. split; [lia|]. split.
  { intros i Hi. destruct (decide (i = S k)) as [->|Hne]; [done|]. apply Hbefore. lia. }
  split.
  { rewrite Hrun. replace (n - k)%nat with (S (n - S k)) by lia.
    by rewrite <- app_assoc. }
  destruct Hres as [(Hnf & Hgn & Hr)|(Hn1 & Hgn & Hr)].
  - left. split; [lia|]. split; [|done]. destruct Hgn as [->|Hgn]; right; done.
  - right. split; [lia|]. by split.
Qed.

(** X22.  The share listing and the directory listing of the UC adapter
    never raise and merge the pages in order, from page [1] on: a page is
    followed by the next one as long as its answer has code [0], has
    entries, and gives a total the merged list has not reached.  The first
    page that fails this ends the loop: an answer with a code other than
    [0] is returned as it is, and the entries merged so far are dropped;
    otherwise the result holds the entries of all the pages asked for. *)
Theorem uc_listings_merge_pages
    (fuel : nat) (pwd_id stoken pdir_fid : string)
    (_fetch_share fetch_share_full_path fetch_full_path : Z) (log : list request) :
  lists_pages
    (λ page, Detail pwd_id stoken pdir_fid page _fetch_share fetch_share_full_path)
    fuel log (get_detail fuel pwd_id stoken pdir_fid _fetch_share fetch_share_full_path log)
  ∧ lists_pages (λ page, Sort pdir_fid page fetch_full_path)
      fuel log (ls_dir fuel pdir_fid fetch_full_path log).
Proof.
  split.
  - unfold get_detail.
    destruct (page_loop_spec fuel
                (λ page, Detail pwd_id stoken pdir_fid page _fetch_share
                           fetch_share_full_path)
                "获取分享详情失败: " 0 log) as (n & res & Hn & Hbefore & Hrun & Hres).
    change (merged _ 0) with (@nil entry) in Hrun. change (Z.of_nat 1) with 1 in Hrun.
    rewrite Hrun. exists n. replace (n - 0)%nat with n by lia. cbn [fst snd].
    split; [lia|]. split; [intros; apply Hbefore; lia|]. split; [done|].
    destruct Hres as [(? & ? & ->)|(? & ? & ->)]; [left|right]; repeat split; try done; lia.
  - unfold ls_dir.
    destruct (page_loop_spec fuel (λ page, Sort pdir_fid page fetch_full_path)
                "列出目录失败: " 0 log) as (n & res & Hn & Hbefore & Hrun & Hres).
    change (merged _ 0) with (@nil entry) in Hrun. change (Z.of_nat 1) with 1 in Hrun.
    rewrite Hrun. exists n. replace (n - 0)%nat with n by lia. cbn [fst snd].
    split; [lia|]. split; [intros; apply Hbefore; lia|]. split; [done|].
    destruct Hres as [(? & ? & ->)|(? & ? & ->)]; [left|right]; repeat split; try done; lia.
Qed.

End UCFacts.

Lemma get_fids_batches_witness :
  ∃ batches : list (list string),
    let rest := drop (50 * length batches) ["/a"; "/b"] in
    (∀ i b, batches !! i = Some b → b = take 50 (drop (50 * i) ["/a"; "/b"]) ∧ b ≠ [])
    ∧ Forall (λ b, UC.j_code (UC.answer (H:=MoreSamples.uc_knows_all) (UC.PathList b))
                   = Some 0%Z) batches
    ∧ (rest = []
       ∨ UC.j_code (UC.answer (H:=MoreSamples.uc_knows_all) (UC.PathList (take 50 rest)))
         ≠ Some 0%Z)
    ∧ UC.get_fids (H:=MoreSamples.uc_knows_all) 3 ["/a"; "/b"] []
      = (Py.Ret (Some (concat ((λ b, UC.j_data
                                       (UC.answer (H:=MoreSamples.uc_knows_all)
                                          (UC.PathList b))) <$> batches))),
         ([] ++ (UC.PathList <$> batches)
             ++ (if decide (rest = []) then [] else [UC.PathList (take 50 rest)]))%list).
Proof.
  apply (get_fids_batches (H:=MoreSamples.uc_knows_all) 3 ["/a"; "/b"] []). simpl. lia.
Defined.

(** ** Baidu: the share-tree search *)

Section BaiduFacts.
Import Py Baidu.
Local Open Scope Z_scope.
Context `{Transport} (unquote : string → string).
Implicit Types (q nq : list (string * list crumb)) (b : list crumb).

Lemma tree_scan_spec target b items : ∀ nq,
  match tree_scan unquote target b items nq with
  | inl found => ∃ name, found.2 = (b ++ [Crumb target name])%list
  | inr nq' => ∃ new, nq' = (nq ++ new)%list
                 ∧ Forall (λ e, length e.2 = S (length b)) new
  end.
Proof.
  induction items as [|it items IH]; intros nq; simpl.
  - exists []. by rewrite app_nil_r.
  - destruct (decide (i_fs_id it = target)) as [<-|Hne]; [by eexists|].
    destruct (decide (i_isdir it = 1)); [|apply IH].
    match goal with |- context [tree_scan _ _ _ _ ?nq1] => specialize (IH nq1) end.
    destruct (tree_scan unquote target b items _) as [found|nq']; [done|].
    destruct IH as (new & -> & Hnew). eexists (_ :: new).
    split; [by rewrite <-app_assoc|]. constructor; [|done].
    simpl. rewrite length_app. simpl. lia.
Qed.

Lemma tree_level_spec uk share_id target n : ∀ q nq log,
  Forall (λ e, length e.2 = n) q →
  Forall (λ e, length e.2 = S n) nq →
  ∃ r log', tree_level unquote uk share_id target q nq log = (Ret r, log')
    ∧ match r with
      | inl found => length found.2 = S n
                     ∧ ∃ above name, found.2 = (above ++ [Crumb target name])%list
      | inr nq' => Forall (λ e, length e.2 = S n) nq'
      end.
Proof.
  induction q as [|[c b] q IH]; intros nq log Hq Hnq; simpl.
  { by eexists _, _. }
  apply Forall_cons in Hq as [Hb Hq]. simpl in Hb. subst n.
  unfold bindM at 1. unfold try_return, bindM, _api_list_shared_paths.
  destruct (list_shared (ListShared c uk share_id)) as [items|e]; [|by apply IH].
  unfold ret.
  pose proof (tree_scan_spec target b items nq) as Hs.
  destruct (tree_scan unquote target b items nq) as [found|nq'].
  - destruct Hs as [name Hf]. destruct found as [fp fb]. simpl in Hf. subst fb.
    eexists _, _. split; [done|]. simpl.
    rewrite length_app. simpl. split; [lia|by eexists _, _].
  - destruct Hs as (new & -> & Hnew). apply IH; [done|by apply Forall_app].
Qed.

Lemma tree_depth_spec uk share_id target max_depth : ∀ n q log,
  Forall (λ e, length e.2 = n) q →
  ∃ r log', tree_depth unquote uk share_id target max_depth q log = (Ret r, log')
    ∧ (r = ("", [])
       ∨ ((length r.2 ≤ n + max_depth)%nat
          ∧ ∃ above name, r.2 = (above ++ [Crumb target name])%list)).
Proof.
  induction max_depth as [|depth IH]; intros n q log Hq; simpl.
  { eexists _, _. split; [done|]. by left. }
  unfold bindM.
  destruct (tree_level_spec uk share_id target n q [] log Hq) as (r & log' & -> & Hr);
    [constructor|].
  destruct r as [found|nq].
  - eexists _, _. split; [done|]. right. destruct Hr as [Hlen Hlast]. split; [lia|done].
  - destruct (bool_decide (nq = [])).
    + eexists _, _. split; [done|]. by left.
    + destruct (IH (S n) nq log' Hr) as (r & log'' & -> & Hrr).
      eexists _, _. split; [done|].
      destruct Hrr as [?|[Hlen Hlast]]; [by left|right]. split; [lia|done].
Qed.

(** [_bfs_share_tree] searches the root level and at most [max_depth]
    levels below it: it always returns, either the empty "not found" or a
    breadcrumb of at most [max_depth + 1] entries ending in the target. *)
Lemma _bfs_share_tree_bounded file_list uk share_id target max_depth log :
  ∃ r log',
    _bfs_share_tree unquote file_list uk share_id target max_depth log = (Ret r, log')
    ∧ (r = ("", [])
       ∨ ((length r.2 ≤ max_depth + 1)%nat
          ∧ ∃ above name, r.2 = (above ++ [Crumb target name])%list)).
Proof.
  unfold _bfs_share_tree, root_match.
  destruct (List.find _ file_list) as [it|] eqn:Hf; simpl.
  - apply find_some in Hf as [_ Hid]. apply bool_decide_eq_true in Hid.
    eexists _, _. split; [done|]. right. simpl. split; [lia|].
    exists []. rewrite Hid. by eexists.
  - destruct (tree_depth_spec uk share_id target max_depth 1 (root_queue unquote file_list) log)
      as (r & log' & Hr & Hb).
    { unfold root_queue. apply Forall_fmap, Forall_forall. by intros. }
    exists r, log'. split; [done|].
    destruct Hb as [?|[Hlen Hlast]]; [by left|right]. split; [lia|done].
Qed.

End BaiduFacts.

(** ** Baidu: the search returns a shortest chain *)

Section BaiduChains.
Import Py Baidu.
Local Open Scope Z_scope.
Context `{Transport} (unquote : string → string) (uk share_id : Z).
Context (file_list : list item) (target : string).
Implicit Types (q nq : list (string * list crumb)) (b : list crumb).

Local Abbreviation path := (_get_item_path unquote).
Local Abbreviation folders := (folders unquote uk share_id file_list target).
Local Abbreviation descends := (descends unquote uk share_id file_list target).
Local Abbreviation crumbs := (crumbs unquote).
Local Abbreviation level_inv := (level_inv unquote uk share_id file_list target).

Lemma folders_nonempty fs dir : folders fs dir → fs ≠ [].
Proof. destruct 1; [done|]. by destruct fs. Qed.

Lemma crumbs_snoc fs it : fs ≠ [] → crumbs (fs ++ [it]) = (crumbs fs ++ [crumb_of it])%list.
Proof. destruct fs as [|f fs]; [done|]. intros _. simpl. by rewrite fmap_app. Qed.

Lemma baidu_tree_scan_inl b items : ∀ nq found,
  tree_scan unquote target b items nq = inl found →
  ∃ it, it ∈ items ∧ i_fs_id it = target ∧ found = (path it, (b ++ [crumb_of it])%list).
Proof.
  induction items as [|x items IH]; intros nq found; simpl; [done|].
  destruct (decide (i_fs_id x = target)) as [Hx|Hx].
  - intros [= <-]. exists x. split; [by left|]. split; [done|].
    unfold crumb_of. by rewrite Hx.
  - destruct (decide (i_isdir x = 1)); intros Hs;
      destruct (IH _ _ Hs) as (it & Hin & Hid & ->); exists it;
      (split; [by right|done]).
Qed.

Lemma baidu_tree_scan_inr b items : ∀ nq nq',
  tree_scan unquote target b items nq = inr nq' →
  (∀ it, it ∈ items → i_fs_id it ≠ target)
  ∧ nq' = (nq ++ ((λ it, (path it, (b ++ [crumb_of it])%list))
                    <$> filter (λ it, i_isdir it = 1) items))%list.
Proof.
  induction items as [|x items IH]; intros nq nq'; simpl.
  { intros [= <-]. split; [by intros ? ?%elem_of_nil|by rewrite app_nil_r]. }
  destruct (decide (i_fs_id x = target)) as [Hx|Hx]; [done|].
  destruct (decide (i_isdir x = 1)) as [Hd|Hd]; intros Hs;
    destruct (IH _ _ Hs) as (Hno & ->).
  - split; [by intros it [->|?]%elem_of_cons; auto|].
    rewrite filter_cons_True by done. rewrite fmap_cons, <-app_assoc. done.
  - split; [by intros it [->|?]%elem_of_cons; auto|].
    by rewrite filter_cons_False by done.
Qed.

Lemma baidu_tree_level_inl q : ∀ nq log found log',
  tree_level unquote uk share_id target q nq log = (Ret (inl found), log') →
  ∃ dir b it, (dir, b) ∈ q ∧ it ∈ listing uk share_id dir ∧ i_fs_id it = target
    ∧ found = (path it, (b ++ [crumb_of it])%list).
Proof.
  induction q as [|[dir b] q IH]; intros nq log found log'; simpl; [done|].
  unfold bindM at 1. unfold try_return, bindM, _api_list_shared_paths.
  destruct (list_shared (ListShared dir uk share_id)) as [items|e] eqn:Hl; unfold ret.
  - destruct (tree_scan unquote target b items nq) as [f|nq1] eqn:Hs.
    + intros [= <- <-].
      destruct (baidu_tree_scan_inl _ _ _ _ Hs) as (it & Hin & Hid & ->).
      exists dir, b, it. split; [by left|]. unfold listing. by rewrite Hl.
    + intros Hr. destruct (IH _ _ _ _ Hr) as (d' & b' & it & Hin & Hrest).
      exists d', b', it. split; [by right|done].
  - intros Hr. destruct (IH _ _ _ _ Hr) as (d' & b' & it & Hin & Hrest).
    exists d', b', it. split; [by right|done].
Qed.

Lemma baidu_tree_level_inr q : ∀ nq log nq' log',
  tree_level unquote uk share_id target q nq log = (Ret (inr nq'), log') →
  (∀ dir b it, (dir, b) ∈ q → it ∈ listing uk share_id dir → i_fs_id it ≠ target)
  ∧ (∀ e, e ∈ nq' ↔
       e ∈ nq ∨ ∃ dir b it, (dir, b) ∈ q ∧ it ∈ listing uk share_id dir ∧ i_isdir it = 1
                  ∧ e = (path it, (b ++ [crumb_of it])%list)).
Proof.
  induction q as [|[dir b] q IH]; intros nq log nq' log'; simpl.
  { intros [= <- <-]. split; [by intros ? ? ? ?%elem_of_nil|].
    intros e. split; [by left|]. intros [?|(? & ? & ? & ?%elem_of_nil & _)]; done. }
  unfold bindM at 1. unfold try_return, bindM, _api_list_shared_paths.
  destruct (list_shared (ListShared dir uk share_id)) as [items|err] eqn:Hl; unfold ret.
  - destruct (tree_scan unquote target b items nq) as [f|nq1] eqn:Hs; [done|].
    intros Hr. destruct (IH _ _ _ _ Hr) as (Hno & Hq).
    destruct (baidu_tree_scan_inr _ _ _ _ Hs) as (Hno1 & ->).
    split.
    + intros d' b' it [[= -> ->]|Hin]%elem_of_cons Hit; [|by eapply Hno].
      unfold listing in Hit. rewrite Hl in Hit. by apply Hno1.
    + intros e. rewrite Hq, elem_of_app, list_elem_of_fmap. split.
      * intros [[?|(it & -> & [Hd Hit]%list_elem_of_filter)]|(d' & b' & it & Hin & Hrest)].
        { by left. }
        { right. exists dir, b, it. split; [by left|]. unfold listing. by rewrite Hl. }
        { right. exists d', b', it. split; [by right|done]. }
      * intros [?|(d' & b' & it & [[= -> ->]|Hin]%elem_of_cons & Hit & Hd & ->)].
        { by left; left. }
        { left; right. exists it. split; [done|]. apply list_elem_of_filter.
          unfold listing in Hit. by rewrite Hl in Hit. }
        { right. by exists d', b', it. }
  - intros Hr. destruct (IH _ _ _ _ Hr) as (Hno & Hq). split.
    + intros d' b' it [[= -> ->]|Hin]%elem_of_cons Hit; [|by eapply Hno].
      unfold listing in Hit. rewrite Hl in Hit. by apply elem_of_nil in Hit.
    + intros e. rewrite Hq. split.
      * intros [?|(d' & b' & it & Hin & Hrest)]; [by left|].
        right. exists d', b', it. split; [by right|done].
      * intros [?|(d' & b' & it & [[= -> ->]|Hin]%elem_of_cons & Hit & Hd & ->)].
        { by left. }
        { unfold listing in Hit. rewrite Hl in Hit. by apply elem_of_nil in Hit. }
        { right. by exists d', b', it. }
Qed.

Lemma baidu_tree_level_returns q : ∀ nq log,
  ∃ r log', tree_level unquote uk share_id target q nq log = (Ret r, log').
Proof.
  induction q as [|[dir b] q IH]; intros nq log; simpl; [by eexists _, _|].
  unfold bindM at 1. unfold try_return, bindM, _api_list_shared_paths.
  destruct (list_shared (ListShared dir uk share_id)) as [items|e]; unfold ret; [|apply IH].
  destruct (tree_scan unquote target b items nq); [by eexists _, _|apply IH].
Qed.

Lemma folders_length fs dir : folders fs dir → (0 < length fs)%nat.
Proof. destruct 1; [simpl; lia|]. rewrite length_app. simpl. lia. Qed.

(** A folder chain has a folder chain of every shorter length. *)
Lemma folders_shorter fs dir :
  folders fs dir → ∀ k, (0 < k ≤ length fs)%nat →
  ∃ fs' dir', folders fs' dir' ∧ length fs' = k.
Proof.
  induction 1 as [it Hin Hd Hne|fs dir it Hfs IH Hin Hd Hne]; intros k Hk.
  - exists [it], (path it). split; [by constructor|]. simpl in *. lia.
  - rewrite length_app in Hk. simpl in Hk.
    destruct (decide (k = S (length fs))) as [->|Hk'].
    + exists (fs ++ [it])%list, (path it). split; [by econstructor|].
      rewrite length_app. simpl. lia.
    + apply IH. lia.
Qed.

Lemma baidu_level_found n q log found log' :
  level_inv n q →
  tree_level unquote uk share_id target q [] log = (Ret (inl found), log') →
  ∃ its it, descends its ∧ last its = Some it ∧ i_fs_id it = target
    ∧ found = (path it, crumbs its) ∧ length its = S n.
Proof.
  intros (Hsound & _ & _) Hr.
  destruct (baidu_tree_level_inl _ _ _ _ _ Hr) as (dir & b & it & Hin & Hit & Hid & ->).
  destruct (Hsound _ _ Hin) as (fs & Hfs & Hlen & ->).
  exists (fs ++ [it])%list, it. split; [by econstructor|].
  split; [by rewrite last_snoc|]. split; [done|].
  split; [by rewrite (crumbs_snoc _ _ (folders_nonempty _ _ Hfs))|].
  rewrite length_app. simpl. lia.
Qed.

Lemma baidu_level_step n q log nq' log' :
  (0 < n)%nat → level_inv n q →
  tree_level unquote uk share_id target q [] log = (Ret (inr nq'), log') →
  level_inv (S n) nq'.
Proof.
  intros Hn (Hsound & Hcomplete & Hshort) Hr.
  destruct (baidu_tree_level_inr _ _ _ _ _ Hr) as (Hno & Hq).
  split; [|split].
  - intros dir' b' [?%elem_of_nil|(dir & b & it & Hin & Hit & Hd & [= -> ->])]%Hq; [done|].
    destruct (Hsound _ _ Hin) as (fs & Hfs & Hlen & ->).
    exists (fs ++ [it])%list. split; [econstructor; eauto|].
    split; [rewrite length_app; simpl; lia|].
    by rewrite (crumbs_snoc _ _ (folders_nonempty _ _ Hfs)).
  - intros fs' dir' Hf Hlen.
    destruct Hf as [it Hin Hd Hne|fs dir it Hfs Hit Hd Hne]; [simpl in Hlen; lia|].
    rewrite length_app in Hlen. simpl in Hlen.
    apply Hq. right. exists dir, (crumbs fs), it.
    split; [apply Hcomplete; [done|lia]|]. split; [done|]. split; [done|].
    by rewrite (crumbs_snoc _ _ (folders_nonempty _ _ Hfs)).
  - intros its Hits. pose proof (Hshort its Hits) as Hlt.
    destruct Hits as [it Hin Hid|fs dir it Hfs Hit Hid]; [simpl in Hlt; lia|].
    rewrite length_app in *. simpl in *.
    destruct (decide (length fs = n)) as [Hlen|Hlen]; [|lia].
    destruct (Hno dir (crumbs fs) it); [by apply Hcomplete|done|done].
Qed.

Lemma baidu_tree_depth_finds max_depth : ∀ n q log its0,
  (0 < n)%nat → level_inv n q →
  descends its0 → (length its0 ≤ n + max_depth)%nat →
  ∃ its it log',
    tree_depth unquote uk share_id target max_depth q log = (Ret (path it, crumbs its), log')
    ∧ descends its ∧ last its = Some it ∧ i_fs_id it = target
    ∧ ∀ its', descends its' → (length its ≤ length its')%nat.
Proof.
  induction max_depth as [|d IH]; intros n q log its0 Hn Hinv Hd0 Hlen0.
  { destruct Hinv as (_ & _ & Hshort). specialize (Hshort its0 Hd0). lia. }
  simpl. unfold bindM.
  destruct (baidu_tree_level_returns q [] log) as (r & log1 & Hr). rewrite Hr.
  destruct r as [found|nq'].
  - destruct (baidu_level_found _ _ _ _ _ Hinv Hr) as (its & it & Hits & Hlast & Hid & -> & Hlen).
    exists its, it, log1. split; [done|]. split; [done|]. split; [done|]. split; [done|].
    intros its' Hits'. destruct Hinv as (_ & _ & Hshort). specialize (Hshort its' Hits'). lia.
  - pose proof (baidu_level_step _ _ _ _ _ Hn Hinv Hr) as Hinv'.
    assert (Hne : nq' ≠ []).
    { destruct Hinv' as (_ & Hcomplete & Hshort). specialize (Hshort its0 Hd0).
      destruct Hd0 as [it Hin Hid|fs dir it Hfs Hit Hid]; [simpl in Hshort; lia|].
      rewrite length_app in Hshort. simpl in Hshort.
      destruct (folders_shorter _ _ Hfs (S n)) as (fs' & dir' & Hfs' & Hlen'); [lia|].
      intros ->. by eapply elem_of_nil, Hcomplete. }
    rewrite bool_decide_false by done.
    apply (IH (S n) nq' log1 its0); [lia|done|done|lia].
Qed.

(** The search over a share that holds the target within reach of the
    depth bound: it returns the path and the breadcrumb of a chain from the
    root level to the target, and no chain to the target is shorter. *)
Lemma _bfs_share_tree_shortest max_depth log its0 :
  descends its0 → (length its0 ≤ max_depth + 1)%nat →
  ∃ its it log',
    _bfs_share_tree unquote file_list uk share_id target max_depth log
    = (Ret (path it, crumbs its), log')
    ∧ descends its ∧ last its = Some it ∧ i_fs_id it = target
    ∧ ∀ its', descends its' → (length its ≤ length its')%nat.
Proof.
  intros Hd0 Hlen0. unfold _bfs_share_tree, root_match.
  destruct (List.find _ file_list) as [it|] eqn:Hf; simpl.
  - apply find_some in Hf as [Hin Hid]. apply bool_decide_eq_true in Hid.
    apply list_elem_of_In in Hin.
    exists [it], it, log. split; [done|]. split; [by constructor|].
    split; [done|]. split; [done|].
    intros its' Hits'. destruct Hits' as [?|fs ? ? Hfs]; simpl; [lia|].
    rewrite length_app. simpl. lia.
  - assert (Hno : ∀ it, it ∈ file_list → i_fs_id it ≠ target).
    { intros it Hin%list_elem_of_In. pose proof (find_none _ _ Hf it Hin) as Hb.
      by apply bool_decide_eq_false in Hb. }
    apply (baidu_tree_depth_finds max_depth 1 _ log its0); [lia| |done|lia].
    split; [|split].
    + intros dir b (it & [= -> ->] & [Hd Hin]%list_elem_of_filter)%list_elem_of_fmap.
      exists [it]. split; [constructor; auto|done].
    + intros fs dir Hfs Hlen.
      destruct Hfs as [it Hin Hd Hne|fs dir it Hfs Hit Hd Hne].
      * apply list_elem_of_fmap. exists it. split; [done|]. by apply list_elem_of_filter.
      * pose proof (folders_length _ _ Hfs). rewrite length_app in Hlen. simpl in Hlen. lia.
    + intros its Hits. destruct Hits as [it Hin Hid|fs dir it Hfs Hit Hid].
      * by destruct (Hno it).
      * pose proof (folders_length _ _ Hfs). rewrite length_app. simpl. lia.
Qed.

End BaiduChains.

(** ** Cookie strings *)

Section CookieFacts.
Import Py Cookies.

Lemma split1_first (k v : string) :
  contains "=" k = false → split1 equals (k +:+ String equals v) = (k, v).
Proof.
  induction k as [|c k IH]; [done|].
  change (contains "=" (String c k)) with (contains (String equals "") (String c k)).
  rewrite contains_char_cons. intros [Hc Hk]%orb_false_iff.
  apply bool_decide_eq_false in Hc.
  change (String c k +:+ String equals v) with (String c (k +:+ String equals v)).
  cbn [split1]. rewrite decide_False by done. by rewrite (IH Hk).
Qed.

Lemma parse_item_lookup key d item :
  dict_get key (parse_item d item)
  = match dict_get key (parse_item [] item) with
    | Some v => Some v
    | None => dict_get key d
    end.
Proof.
  unfold parse_item. cbv zeta. destruct (contains "=" (strip item)); [|done].
  destruct (split1 equals (strip item)) as [k v].
  rewrite !dict_get_dict_set. by destruct (decide (strip k = key)).
Qed.

Lemma parse_items_lookup key d items :
  dict_get key (foldl parse_item d items)
  = match dict_get key (foldl parse_item [] items) with
    | Some v => Some v
    | None => dict_get key d
    end.
Proof.
  induction items as [|item items IH] in d |- *; [done|]. cbn [foldl].
  rewrite (IH (parse_item d item)), (IH (parse_item [] item)), (parse_item_lookup key d).
  destruct (dict_get key (foldl parse_item [] items)); [done|].
  by destruct (dict_get key (parse_item [] item)).
Qed.

Lemma parse_loop_app key d a b :
  dict_get key (parse_loop d (a +:+ String semicolon b))
  = match dict_get key (parse_loop [] b) with
    | Some v => Some v
    | None => dict_get key (parse_loop d a)
    end.
Proof.
  unfold parse_loop. rewrite split_app, foldl_app. apply parse_items_lookup.
Qed.

Lemma parse_loop_item item k v :
  contains ";" item = false →
  strip item = k +:+ "=" +:+ v →
  contains "=" k = false →
  parse_loop [] item = [(strip k, strip v)].
Proof.
  intros Hsemi Hitem Hk. unfold parse_loop.
  rewrite (split_no_sep semicolon _ Hsemi). cbn [foldl]. unfold parse_item. cbv zeta.
  rewrite Hitem. change (k +:+ "=" +:+ v) with (k +:+ String equals v).
  change (contains "=" (k +:+ String equals v))
    with (contains (String equals "") (k +:+ String equals v)).
  by rewrite contains_char_app, (split1_first _ _ Hk).
Qed.

(** X18.  Cookie strings compose: the dictionary parsed from two strings
    joined by [";"] holds, under every key, the value of the second string
    when the second string gives the key one, and the value of the first
    otherwise.  So the item met last decides a key, and an item without
    ["="] changes nothing.  This holds for the dictionary of the Baidu
    adapter and for that of the UC adapter. *)
Theorem cookies_compose (cookies_dict : list (string * string)) (a b key : string) :
  dict_get key (_cookies_dict (_parse_cookies cookies_dict (a +:+ ";" +:+ b)))
  = match dict_get key (_cookies_dict (_parse_cookies [] b)) with
    | Some v => Some v
    | None => dict_get key (_cookies_dict (_parse_cookies cookies_dict a))
    end
  ∧ dict_get key (uc_cookies_dict (a +:+ ";" +:+ b))
    = match dict_get key (uc_cookies_dict b) with
      | Some v => Some v
      | None => dict_get key (uc_cookies_dict a)
      end.
Proof.
  change (a +:+ ";" +:+ b) with (a +:+ String semicolon b). split.
  - apply parse_loop_app.
  - unfold uc_cookies_dict. rewrite truthy_app_char, parse_loop_app.
    assert (Hempty : parse_loop [] "" = []) by done.
    destruct a, b; simpl truthy; rewrite ?Hempty; done.
Qed.

(** X19.  The last item of a cookie string decides its key: when the item,
    stripped, reads [k=v] with no ["="] in [k], the dictionary holds
    [v.strip()] under [k.strip()], whatever came before; and with
    [k.strip()] being ["BDUSS"] that value is the [_bduss] of the Baidu
    adapter.  The value may itself hold ["="]. *)
Theorem cookies_last_item_wins
    (cookies_dict : list (string * string)) (pre item k v : string) :
  contains ";" item = false →
  strip item = k +:+ "=" +:+ v →
  contains "=" k = false →
  let parsed := _parse_cookies cookies_dict (pre +:+ ";" +:+ item) in
  dict_get (strip k) (_cookies_dict parsed) = Some (strip v)
  ∧ dict_get (strip k) (uc_cookies_dict (pre +:+ ";" +:+ item)) = Some (strip v)
  ∧ (strip k = "BDUSS" → _bduss parsed = strip v)
  ∧ (strip k = "STOKEN" → _stoken parsed = strip v).
Proof.
  intros Hsemi Hitem Hk parsed.
  assert (Hget : ∀ d, dict_get (strip k) (parse_loop d (pre +:+ ";" +:+ item))
                      = Some (strip v)).
  { intros d. change (pre +:+ ";" +:+ item) with (pre +:+ String semicolon item).
    rewrite parse_loop_app, (parse_loop_item _ _ _ Hsemi Hitem Hk). simpl.
    by rewrite decide_True. }
  split; [apply Hget|]. split.
  { unfold uc_cookies_dict.
    change (pre +:+ ";" +:+ item) with (pre +:+ String semicolon item).
    rewrite truthy_app_char. apply Hget. }
  unfold parsed, _parse_cookies. cbv zeta. cbn [_bduss _stoken].
  split; intros Hkey; rewrite <- Hkey, Hget; done.
Qed.

End CookieFacts.

Lemma cookies_last_item_wins_witness :
  Cookies._bduss
    (Cookies._parse_cookies [] "BDUSS=old; PANWEB=1 ;junk; BDUSS = a=b= ")
  = "a=b=".
Proof.
  refine (proj1 (proj2 (proj2 (cookies_last_item_wins [] "BDUSS=old; PANWEB=1 ;junk"
                                 " BDUSS = a=b= " "BDUSS " " a=b=" _ _ _))) _);
    reflexivity.
Defined.

(** ** The resolvers: cycle safety and the "not found" result *)

Section ResolverClaims.
Import Py.
Local Open Scope Z_scope.
Context `{TA : Aliyun.Transport} `{TC : Cloud115.Transport} `{TB : Baidu.Transport}.

(** C3 (as the code has it).  The Aliyun resolver keeps a visited set: it
    lists no directory twice, whatever the provider answers, and over a
    finite universe of folder ids it ends, cycles and duplicates
    notwithstanding.  The 115 and Baidu resolvers keep no visited set; what
    bounds them is [max_depth]: Baidu's search always returns, 115's returns
    when the pages of every directory end, and neither returns a breadcrumb
    longer than its depth bound allows. *)
Theorem resolver_cycle_safety :
  (∀ now fuel share_id share_token target w, ∃ r trace,
     Aliyun._bfs_share_path now fuel share_id share_token target w
     = (Ret r, Aliyun.logged_all (Aliyun.list_request share_id share_token <$> trace) w)
     ∧ NoDup trace)
  ∧ (∀ now (U : gset string) fuel share_id share_token target w,
       (∀ c it, it ∈ Aliyun.listing share_id share_token c →
          Aliyun.is_folder it = true → Aliyun.i_file_id it ∈ U) →
       (size U + 1 < fuel)%nat →
       ∃ r w', Aliyun._bfs_share_path now fuel share_id share_token target w
               = (Ret (Some r), w'))
  ∧ (∀ fuel share_code receive_code target max_depth log, ∃ r log',
       Cloud115._resolve_share_path fuel share_code receive_code target max_depth log
       = (Ret r, log')
       ∧ (Cloud115.pages_end fuel share_code receive_code → is_Some r)
       ∧ ∀ found, r = Some found → (length found ≤ max_depth)%nat)
  ∧ (∀ unquote file_list uk share_id target max_depth log, ∃ r log',
       Baidu._bfs_share_tree unquote file_list uk share_id target max_depth log
       = (Ret r, log')
       ∧ (length r.2 ≤ max_depth + 1)%nat).
Proof.
  split; [|split; [|split]].
  - intros. apply _bfs_share_path_lists_once.
  - intros now U fuel share_id share_token target w HU Hfuel.
    rewrite _bfs_share_path_search.
    destruct (bfs_search_terminates (Aliyun.listing share_id share_token) target U HU
                fuel [("root", [])] {["root"]}) as [r Hr].
    { simpl. assert (size (U ∖ {["root"]}) ≤ size U)%nat
        by (apply subseteq_size; set_solver). lia. }
    rewrite Hr. by eexists _, _.
  - intros fuel share_code receive_code target max_depth log.
    destruct (_resolve_share_path_bounded share_code receive_code target fuel max_depth log)
      as (r & log' & Hr & Hend & Hb).
    exists r, log'. split; [done|]. split; [done|].
    intros found Hf. destruct (Hb found Hf) as [->|[Hlen _]]; [simpl; lia|done].
  - intros unquote file_list uk share_id target max_depth log.
    destruct (_bfs_share_tree_bounded unquote file_list uk share_id target max_depth log)
      as (r & log' & Hr & Hb).
    exists r, log'. split; [done|].
    destruct Hb as [->|[Hlen _]]; [simpl; lia|done].
Qed.


End ResolverClaims.

(** On listings with a duplicate, a self-reference and two cycles the
    Aliyun resolver, searching for an id that is nowhere, ends within ten
    iterations and lists no directory twice. *)
Lemma resolver_cycle_safety_witness :
  (∃ r w', @Aliyun._bfs_share_path (Samples.aliyun_lists Samples.knot) 0%Z 10 "s" "t" "Q"
             Samples.idle_aliyun
           = (Py.Ret (Some r), w'))
  ∧ ∃ r trace,
      @Aliyun._bfs_share_path (Samples.aliyun_lists Samples.knot) 0%Z 10 "s" "t" "Q"
        Samples.idle_aliyun
      = (Py.Ret r,
         Aliyun.logged_all (Aliyun.list_request "s" "t" <$> trace) Samples.idle_aliyun)
      ∧ NoDup trace.
Proof.
  pose proof (@resolver_cycle_safety (Samples.aliyun_lists Samples.knot)
                (Samples.cloud115_lists Samples.twice115)
                (Samples.baidu_lists Samples.loop_baidu)) as (Honce & Hends & _).
  split.
  - apply (Hends 0%Z {["A"; "B"; "root"]}).
    + exact knot_folders.
    + vm_compute. lia.
  - apply Honce.
Defined.

(** The run of the witness: the three directories are listed once each,
    in the order met, and the search ends with "not found". *)
Lemma aliyun_knot_run :
  ∃ w', @Aliyun._bfs_share_path (Samples.aliyun_lists Samples.knot) 0%Z 10 "s" "t" "Q"
          Samples.idle_aliyun
        = (Py.Ret (Some []), w')
    ∧ length (Aliyun.http_log w') = 3%nat.
Proof. eexists. split; vm_compute; reflexivity. Qed.


(** C3 (as stated) fails for the 115 resolver: a folder the root lists
    twice is listed twice. *)
Lemma cloud115_relists : ¬ Cloud115.lists_once.
Proof.
  intros Hclaim.
  assert (Hrun : ∃ r log,
    @Cloud115._resolve_share_path (Samples.cloud115_lists Samples.twice115)
      2%nat "s" "" "Z" 5 [] = (Py.Ret r, log)
    ∧ Cloud115.listed log = [""; "A"; "A"]).
  { eexists _, _. split; vm_compute; reflexivity. }
  destruct Hrun as (r & log & Hrun & Hl).
  apply Hclaim in Hrun. rewrite Hl in Hrun.
  apply NoDup_cons in Hrun as [_ Hrun].
  apply NoDup_cons in Hrun as [Hin _].
  apply Hin. by left.
Qed.


(** The Baidu search on a folder that lists itself: the folder is listed
    once per level, until the depth bound ends the search with "not
    found". *)
Lemma baidu_relists_until_bound :
  @Baidu._bfs_share_tree (Samples.baidu_lists Samples.loop_baidu) id
    Samples.root_baidu 0 0 "Z" 5 []
  = (Py.Ret ("", []), replicate 5 (Baidu.ListShared "/Show" 0 0)).
Proof. vm_compute. reflexivity. Qed.

(** ** The listing loops: what they yield and when they stop *)

Section ListingClaims.
Import Py.
Local Open Scope Z_scope.
Context `{TA : Aliyun.Transport} `{TC : Cloud115.Transport}.

(** C5 (as the code has it).  Over a provider that serves a directory as
    the pages [pages], the listing terminates after one request per page
    and yields exactly the entries of the pages, in order.  For Aliyun the
    pages are linked by their next marker and the loop goes on while a
    marker is present, whatever the size of the page; for 115 the pages sit
    at the offsets [0, 50, ...] and the loop goes on while a page is full,
    stopping after the first short or empty one, and what it yields is the
    entries of the pages when the ["t"] of every entry reads as an integer.
    The first page with an entry whose ["t"] does not is the last one asked
    for: the listing then returns code [1] and an empty list. *)
Theorem listing_loops_concatenate :
  (∀ now iso_millis fuel pwd_id stoken pdir_fid pages w,
     let parent_file_id :=
       if truthy pdir_fid && bool_decide (pdir_fid ≠ "0") then pdir_fid else "root" in
     Aliyun.serves pwd_id stoken parent_file_id "" pages →
     (length pages ≤ fuel)%nat →
     ∃ reqs,
       Aliyun.get_detail now iso_millis fuel pwd_id stoken pdir_fid false w
       = (Ret (Some
                 (Aliyun.Result None 0 "success"
                    (Aliyun.ListData
                       (Aliyun._convert_share_item iso_millis <$> concat pages)
                       (Some []))
                    (Some (length (concat pages))))),
          Aliyun.logged_all reqs w)
       ∧ length reqs = length pages)
  ∧ (∀ fuel pwd_id stoken pdir_fid pages log,
       Cloud115.serves (Cloud115.share_code_of pwd_id stoken)
         (Cloud115.receive_code_of pwd_id stoken) (Cloud115.cid_of pdir_fid) 50 0 pages →
       Forall (Forall (λ it, is_Some (Cloud115.i_t it))) pages →
       (length pages ≤ fuel)%nat →
       ∃ reqs,
         Cloud115.get_detail fuel pwd_id stoken pdir_fid false log
         = (Ret (Some
                   (Cloud115.Result 0 "success" (Cloud115.converted <$> concat pages)
                      (Some []) (Some (length (concat pages))))),
            (log ++ Cloud115.SharePage (Cloud115.share_code_of pwd_id stoken)
                      (Cloud115.receive_code_of pwd_id stoken) :: reqs)%list)
         ∧ length reqs = length pages)
  ∧ (∀ fuel pwd_id stoken pdir_fid good bad rest log,
       Cloud115.serves (Cloud115.share_code_of pwd_id stoken)
         (Cloud115.receive_code_of pwd_id stoken) (Cloud115.cid_of pdir_fid) 50 0
         (good ++ bad :: rest) →
       Forall (Forall (λ it, is_Some (Cloud115.i_t it))) good →
       Exists (λ it, Cloud115.i_t it = None) bad →
       (length good < fuel)%nat →
       ∃ e reqs,
         Cloud115.get_detail fuel pwd_id stoken pdir_fid false log
         = (Ret (Some (Cloud115.Result 1 ("获取分享详情失败: " +:+ e) [] None None)),
            (log ++ Cloud115.SharePage (Cloud115.share_code_of pwd_id stoken)
                      (Cloud115.receive_code_of pwd_id stoken) :: reqs)%list)
         ∧ length reqs = S (length good)).
Proof.
  split; [|split].
  - intros now iso_millis fuel pwd_id stoken pdir_fid pages w parent Hs Hfuel.
    destruct (get_detail_loop_serves now iso_millis _ _ _ _ _ Hs fuel [] w Hfuel)
      as (reqs & Hl & Hlen).
    exists reqs. split; [|done].
    unfold Aliyun.get_detail, try_return, bindM. fold parent. rewrite Hl. simpl.
    unfold ret. by rewrite length_fmap.
  - intros fuel pwd_id stoken pdir_fid pages log Hs Hconv Hfuel.
    unfold Cloud115.get_detail, bindM at 1.
    unfold Cloud115._create_share_session, try_return, bindM, Cloud115.send.
    rewrite andb_false_r.
    destruct (get_detail_loop_serves115 _ _ _ _ _ _ Hs Hconv fuel []
                (log ++ [Cloud115.SharePage (Cloud115.share_code_of pwd_id stoken)
                           (Cloud115.receive_code_of pwd_id stoken)])%list Hfuel)
      as (reqs & Hl & Hlen).
    exists reqs. split; [|done].
    destruct (Cloud115.http _) as [resp|e]; unfold ret; rewrite Hl; simpl;
      by rewrite length_fmap, <-app_assoc.
  - intros fuel pwd_id stoken pdir_fid good bad rest log Hs Hgood Hbad Hfuel.
    unfold Cloud115.get_detail, bindM at 1.
    unfold Cloud115._create_share_session, try_return, bindM, Cloud115.send.
    rewrite andb_false_r.
    destruct (get_detail_loop_unreadable115 _ _ _ _ _ _ _ _ Hs Hgood Hbad fuel []
                (log ++ [Cloud115.SharePage (Cloud115.share_code_of pwd_id stoken)
                           (Cloud115.receive_code_of pwd_id stoken)])%list Hfuel)
      as (reqs & Hl & Hlen).
    exists "ValueError", reqs. split; [|done].
    destruct (Cloud115.http _) as [resp|e]; unfold ret; rewrite Hl; simpl;
      by rewrite <-app_assoc.
Qed.

End ListingClaims.

(** Aliyun's pages of 100, 100 and 37 entries: 237 entries after three
    requests.  115's pages of 50, 50 and 37 entries: 137 entries after the
    visit of the share page and three requests; and with an unreadable
    ["t"] in the third page, code [1] and no entry after the same
    requests. *)
Lemma listing_loops_concatenate_witness :
  (∃ pages reqs,
     @Aliyun.serves Samples.three_pages "s" "t" "root" "" pages
     ∧ length <$> pages = [100; 100; 37]%nat
     ∧ @Aliyun.get_detail Samples.three_pages 0%Z (λ _, None) 3 "s" "t" "0" false
         Samples.idle_aliyun
       = (Py.Ret (Some
                    (Aliyun.Result None 0 "success"
                       (Aliyun.ListData
                          (Aliyun._convert_share_item (λ _, None) <$> concat pages)
                          (Some []))
                       (Some 237%nat))),
          Aliyun.logged_all reqs Samples.idle_aliyun)
     ∧ length reqs = 3%nat)
  ∧ (∃ pages reqs,
       length <$> pages = [50; 50; 37]%nat
       ∧ @Cloud115.get_detail (Samples.cloud115_lists Samples.files137) 3 "s" "" "0" false []
         = (Py.Ret (Some (Cloud115.Result 0 "success" (Cloud115.converted <$> concat pages)
                            (Some []) (Some 137%nat))),
            Cloud115.SharePage "s" "" :: reqs)
       ∧ length reqs = 3%nat)
  ∧ (∃ e reqs,
       @Cloud115.get_detail (Samples.cloud115_lists Samples.unreadable115) 3 "s" "" "0"
         false []
       = (Py.Ret (Some (Cloud115.Result 1 ("获取分享详情失败: " +:+ e) [] None None)),
          Cloud115.SharePage "s" "" :: reqs)
       ∧ length reqs = 3%nat).
Proof.
  pose proof (@listing_loops_concatenate Samples.three_pages
                (Samples.cloud115_lists Samples.files137)) as (Haliyun & Hfull & _).
  pose proof (@listing_loops_concatenate Samples.three_pages
                (Samples.cloud115_lists Samples.unreadable115)) as (_ & _ & Hbad).
  set (f := Samples.file115 "f" "" "f").
  split; [|split].
  - set (p1 := replicate 100 (Samples.file "a" "a")).
    set (p2 := replicate 100 (Samples.file "b" "b")).
    set (p3 := replicate 37 (Samples.file "c" "c")).
    assert (Hs : @Aliyun.serves Samples.three_pages "s" "t" "root" "" [p1; p2; p3]).
    { eapply (@Aliyun.serves_more Samples.three_pages "s" "t" "root" ""
                (Aliyun.ApiData "" None p1 "m1" "" "" None [])); [done|done|done|].
      eapply (@Aliyun.serves_more Samples.three_pages "s" "t" "root" "m1"
                (Aliyun.ApiData "" None p2 "m2" "" "" None [])); [done|done|done|].
      eapply (@Aliyun.serves_last Samples.three_pages "s" "t" "root" "m2"
                (Aliyun.ApiData "" None p3 "" "" "" None [])); done. }
    destruct (Haliyun 0%Z (λ _, None) 3%nat "s" "t" "0" [p1; p2; p3] Samples.idle_aliyun Hs)
      as (reqs & Hrun & Hlen); [simpl; lia|].
    exists [p1; p2; p3], reqs. split; [done|]. split; [done|]. split; [exact Hrun|done].
  - assert (Hs : @Cloud115.serves (Samples.cloud115_lists Samples.files137) "s" "" "" 50 0
                   [replicate 50 f; replicate 50 f; replicate 37 f]).
    { eapply (@Cloud115.serves_more (Samples.cloud115_lists Samples.files137) "s" "" "" 50 0
                (Cloud115.Response 200 (Some (Cloud115.SnapData true None (replicate 50 f)))));
        [done|done|vm_compute; discriminate|done|].
      eapply (@Cloud115.serves_more (Samples.cloud115_lists Samples.files137) "s" "" "" 50 50
                (Cloud115.Response 200 (Some (Cloud115.SnapData true None (replicate 50 f)))));
        [done|done|vm_compute; discriminate|done|].
      eapply (@Cloud115.serves_last (Samples.cloud115_lists Samples.files137) "s" "" "" 50 100
                (Cloud115.Response 200 (Some (Cloud115.SnapData true None (replicate 37 f)))));
        [done|done|vm_compute; reflexivity]. }
    destruct (Hfull 3%nat "s" "" "0" _ [] Hs) as (reqs & Hrun & Hlen).
    + repeat (constructor; [apply Forall_replicate; by eexists|]). constructor.
    + simpl. lia.
    + exists [replicate 50 f; replicate 50 f; replicate 37 f], reqs.
      split; [done|]. split; [exact Hrun|done].
  - assert (Hs : @Cloud115.serves (Samples.cloud115_lists Samples.unreadable115) "s" "" "" 50 0
                   ([replicate 50 f; replicate 50 f]
                    ++ (replicate 20 f ++ [Cloud115.Item (Some "g") "" "g" 1 None "mkv"])
                    :: [])%list).
    { eapply (@Cloud115.serves_more (Samples.cloud115_lists Samples.unreadable115)
                "s" "" "" 50 0
                (Cloud115.Response 200 (Some (Cloud115.SnapData true None (replicate 50 f)))));
        [done|done|vm_compute; discriminate|done|].
      eapply (@Cloud115.serves_more (Samples.cloud115_lists Samples.unreadable115)
                "s" "" "" 50 50
                (Cloud115.Response 200 (Some (Cloud115.SnapData true None (replicate 50 f)))));
        [done|done|vm_compute; discriminate|done|].
      eapply (@Cloud115.serves_last (Samples.cloud115_lists Samples.unreadable115)
                "s" "" "" 50 100
                (Cloud115.Response 200
                   (Some (Cloud115.SnapData true None
                            (replicate 20 f
                             ++ [Cloud115.Item (Some "g") "" "g" 1 None "mkv"])%list))));
        [done|done|vm_compute; reflexivity]. }
    destruct (Hbad 3%nat "s" "" "0" _ _ _ [] Hs) as (e & reqs & Hrun & Hlen).
    + repeat (constructor; [apply Forall_replicate; by eexists|]). constructor.
    + apply Exists_app. right. by constructor.
    + simpl. lia.
    + exists e, reqs. split; [exact Hrun|done].
Defined.

(** C5 (as stated) fails for Aliyun: after an empty page that comes with a
    marker the loop goes on and returns what the next page holds. *)
Lemma aliyun_continues_after_empty_page : ¬ Aliyun.paginates_as_specified.
Proof.
  intros Hclaim.
  specialize (Hclaim Samples.empty_first_page 0%Z (λ _, None) 3%nat "s" "t" "root"
                Samples.idle_aliyun).
  assert (Hcode : ∃ w',
    @Aliyun.get_detail_loop Samples.empty_first_page 0%Z (λ _, None) 3 "s" "t" "root" "" []
      Samples.idle_aliyun
    = (Py.Ret (Some (inr [Aliyun._convert_share_item (λ _, None) (Samples.file "f" "f")])),
       w')).
  { eexists. vm_compute. reflexivity. }
  assert (Hspec : ∃ w',
    @Aliyun.get_detail_loop_spec Samples.empty_first_page 0%Z (λ _, None) 3 "s" "t" "root"
      "" [] Samples.idle_aliyun
    = (Py.Ret (Some (inr [])), w')).
  { eexists. vm_compute. reflexivity. }
  destruct Hcode as [w1 Hcode]. destruct Hspec as [w2 Hspec].
  rewrite Hcode, Hspec in Hclaim. discriminate Hclaim.
Qed.

(** ** The breadcrumb of a found target *)

Section BreadcrumbClaims.
Import Py.
Local Open Scope Z_scope.
Context `{TA : Aliyun.Transport} `{TB : Baidu.Transport}.


End BreadcrumbClaims.

Lemma tree_baidu_descends :
  @Baidu.descends (Samples.baidu_lists Samples.tree_baidu) id 0 0 Samples.root_baidu "9"
    [Samples.dir_baidu "1" "Show" "/Show";
     Samples.file_baidu "9" "episode.mkv" "/Show/episode.mkv"].
Proof.
  apply (@Baidu.descends_below (Samples.baidu_lists Samples.tree_baidu) id 0 0
           Samples.root_baidu "9" [Samples.dir_baidu "1" "Show" "/Show"] "/Show").
  - apply (@Baidu.folders_root (Samples.baidu_lists Samples.tree_baidu) id 0 0
             Samples.root_baidu "9" (Samples.dir_baidu "1" "Show" "/Show"));
      [by left|done|done].
  - right. by left.
  - done.
Qed.


(** What the Baidu search returns on the sample tree. *)
Lemma _bfs_share_tree_example :
  @Baidu._bfs_share_tree (Samples.baidu_lists Samples.tree_baidu) id
    Samples.root_baidu 0 0 "9" 5 []
  = (Py.Ret ("/Show/episode.mkv",
             [Baidu.Crumb "1" "Show"; Baidu.Crumb "9" "episode.mkv"]),
     [Baidu.ListShared "/Show" 0 0]).
Proof. vm_compute. reflexivity. Qed.

(** *** A target below the depth bound *)

Lemma deep_baidu_inv dir it :
  it ∈ @Baidu.listing (Samples.baidu_lists Samples.deep_baidu) 0 0 dir →
  (dir = "/x" ∧ it = Samples.dir_baidu "d2" "x" "/x/x")
  ∨ (dir = "/x/x" ∧ it = Samples.dir_baidu "d3" "x" "/x/x/x")
  ∨ (dir = "/x/x/x" ∧ it = Samples.dir_baidu "d4" "x" "/x/x/x/x")
  ∨ (dir = "/x/x/x/x" ∧ it = Samples.dir_baidu "d5" "x" "/x/x/x/x/x")
  ∨ (dir = "/x/x/x/x/x" ∧ it = Samples.dir_baidu "d6" "x" "/x/x/x/x/x/x")
  ∨ (dir = "/x/x/x/x/x/x"
     ∧ it = Samples.file_baidu "T" "episode.mkv" "/x/x/x/x/x/x/episode.mkv").
Proof.
  unfold Baidu.listing, Baidu.list_shared, Samples.baidu_lists, Samples.deep_baidu. simpl.
  repeat case_decide; subst; intros Hin;
    first [by apply elem_of_nil in Hin
          |apply list_elem_of_singleton in Hin; subst; tauto].
Qed.

Lemma deep_baidu_tree_like :
  @Baidu.tree_like (Samples.baidu_lists Samples.deep_baidu) 0 0 Samples.root_deep_baidu.
Proof.
  split; [|split].
  - intros dir dir' it it' H H' Hid. apply deep_baidu_inv in H, H'.
    destruct H as [[-> ->]|[[-> ->]|[[-> ->]|[[-> ->]|[[-> ->]|[-> ->]]]]]];
      destruct H' as [[-> ->]|[[-> ->]|[[-> ->]|[[-> ->]|[[-> ->]|[-> ->]]]]]];
      first [done|discriminate Hid].
  - intros it it' ->%list_elem_of_singleton ->%list_elem_of_singleton _. done.
  - intros dir it it' ->%list_elem_of_singleton H'. apply deep_baidu_inv in H'.
    by destruct H' as [[-> ->]|[[-> ->]|[[-> ->]|[[-> ->]|[[-> ->]|[-> ->]]]]]].
Qed.

Lemma deep_baidu_descends :
  @Baidu.descends (Samples.baidu_lists Samples.deep_baidu) id 0 0 Samples.root_deep_baidu "T"
    [Samples.dir_baidu "d1" "x" "/x"; Samples.dir_baidu "d2" "x" "/x/x";
     Samples.dir_baidu "d3" "x" "/x/x/x"; Samples.dir_baidu "d4" "x" "/x/x/x/x";
     Samples.dir_baidu "d5" "x" "/x/x/x/x/x"; Samples.dir_baidu "d6" "x" "/x/x/x/x/x/x";
     Samples.file_baidu "T" "episode.mkv" "/x/x/x/x/x/x/episode.mkv"].
Proof.
  apply (@Baidu.descends_below (Samples.baidu_lists Samples.deep_baidu) id 0 0
           Samples.root_deep_baidu "T"
           [Samples.dir_baidu "d1" "x" "/x"; Samples.dir_baidu "d2" "x" "/x/x";
            Samples.dir_baidu "d3" "x" "/x/x/x"; Samples.dir_baidu "d4" "x" "/x/x/x/x";
            Samples.dir_baidu "d5" "x" "/x/x/x/x/x";
            Samples.dir_baidu "d6" "x" "/x/x/x/x/x/x"] "/x/x/x/x/x/x");
    [|by left|done].
  apply (@Baidu.folders_down (Samples.baidu_lists Samples.deep_baidu) id 0 0
           Samples.root_deep_baidu "T" [_; _; _; _; _] "/x/x/x/x/x"); [|by left|done|done].
  apply (@Baidu.folders_down (Samples.baidu_lists Samples.deep_baidu) id 0 0
           Samples.root_deep_baidu "T" [_; _; _; _] "/x/x/x/x"); [|by left|done|done].
  apply (@Baidu.folders_down (Samples.baidu_lists Samples.deep_baidu) id 0 0
           Samples.root_deep_baidu "T" [_; _; _] "/x/x/x"); [|by left|done|done].
  apply (@Baidu.folders_down (Samples.baidu_lists Samples.deep_baidu) id 0 0
           Samples.root_deep_baidu "T" [_; _] "/x/x"); [|by left|done|done].
  apply (@Baidu.folders_down (Samples.baidu_lists Samples.deep_baidu) id 0 0
           Samples.root_deep_baidu "T" [_] "/x"); [|by left|done|done].
  apply (@Baidu.folders_root (Samples.baidu_lists Samples.deep_baidu) id 0 0
           Samples.root_deep_baidu "T"); [by left|done|done].
Qed.


(** The resolvers read the first page of a directory only.  Over a root
    served in two pages the listing of the share holds the target, which
    sits in the second page, and the Aliyun resolver, after its one request
    for the root, reports it as not found. *)
Lemma aliyun_misses_second_page :
  (∃ w', @Aliyun.get_detail Samples.two_pages 0%Z (λ _, None) 5 "s" "t" "0" false
           Samples.idle_aliyun
         = (Py.Ret (Some
                      (Aliyun.Result None 0 "success"
                         (Aliyun.ListData
                            (Aliyun._convert_share_item (λ _, None)
                               <$> [Samples.file "f0" "readme.txt";
                                    Samples.file "T" "episode.mkv"])
                            (Some []))
                         (Some 2%nat))), w'))
  ∧ @Aliyun._bfs_share_path Samples.two_pages 0%Z 10 "s" "t" "T" Samples.idle_aliyun
    = (Py.Ret (Some []),
       Aliyun.logged (Aliyun.list_request "s" "t" "root") Samples.idle_aliyun).
Proof. split; [eexists|]; vm_compute; reflexivity. Qed.

(** ** Concurrent callers *)

Lemma sum_list_with_insert_lt {A} (f : A → nat) (l : list A) i x y :
  l !! i = Some x → (f y < f x)%nat →
  (sum_list_with f (<[i:=y]> l) < sum_list_with f l)%nat.
Proof.
  revert i. induction l as [|a l IH]; intros i Hi Hlt; [done|].
  destruct i as [|i]; simpl in *.
  - injection Hi as ->. lia.
  - specialize (IH i Hi Hlt). lia.
Qed.

Section SchedulerFacts.
Import Threads.
Context {W PC : Type} (next : PC → W → action W PC).

Lemma step_length i c : length (threads (step next i c)) = length (threads c).
Proof.
  unfold step. destruct (threads c !! i) as [pc|]; [|done].
  destruct (next pc (shared c)); [| destruct (token_lock c) | |]; simpl;
    by rewrite ?length_insert.
Qed.

Lemma run_cons i schedule c :
  run next (i :: schedule) c = run next schedule (step next i c).
Proof. done. Qed.

Lemma run_app s1 s2 c : run next (s1 ++ s2) c = run next s2 (run next s1 c).
Proof. unfold run. by rewrite foldl_app. Qed.

Lemma run_length schedule : ∀ c,
  length (threads (run next schedule c)) = length (threads c).
Proof.
  induction schedule as [|i schedule IH]; intros c; [done|].
  simpl. fold (run next schedule (step next i c)). by rewrite IH, step_length.
Qed.

(** What holds at the start and is kept by every step holds after every
    schedule. *)
Lemma run_invariant (P : config W PC → Prop) :
  (∀ i c, P c → P (step next i c)) →
  ∀ schedule c, P c → P (run next schedule c).
Proof.
  intros Hstep. induction schedule as [|i schedule IH]; intros c Hc; [done|].
  simpl. apply IH, Hstep, Hc.
Qed.

End SchedulerFacts.

(** One step of the thread the schedule names first. *)
Ltac take_step :=
  rewrite run_cons; unfold Threads.step;
  cbn [Threads.threads Threads.shared Threads.token_lock lookup list_lookup
       insert list_insert].

Section XunleiThreads.
Import Py Xunlei Threads.
Local Open Scope Z_scope.
Context `{Transport} (now : Z).
Hypothesis Hgrants : xunlei_grants.

(** The cases of a statement about every thread after thread [i] moved:
    thread [i] itself, and another thread, for which the statement held
    before. *)
Ltac others_with Hlock Hpc :=
  intros j pc' [(-> & <- & _)|(Hne & Hj)]%list_lookup_insert_Some;
  [|first [by eapply Hpc|by eapply Hlock|idtac]].

Lemma _refresh_access_token_granted w :
  truthy (_refresh_token (self w)) = true →
  ∃ w', _refresh_access_token now w = (Ret true, w')
    ∧ access_ok now (self w') = true
    ∧ captcha_ok now (self w') = captcha_ok now (self w)
    ∧ http_log w' = (http_log w ++ [token_request (self w)])%list.
Proof.
  intros Hrt. destruct Hgrants as [Ha _].
  destruct (Ha (token_request (self w))) as (d & tok & Hh & Hd & Htok & Hexp); [done|].
  unfold _refresh_access_token, bindM at 1. unfold get_self at 1. simpl.
  rewrite Hrt. simpl.
  unfold try_return, bindM, send. rewrite Hh. simpl. rewrite Hd.
  unfold set_self, _save_refresh_token, get_self, ret. simpl.
  destruct (truthy (d_refresh_token d) && _) eqn:Hrot; simpl.
  - destruct (saver_installed w); simpl; eexists; (split; [done|]);
      unfold access_ok, captcha_ok; simpl; rewrite Htok, bool_decide_true by lia; done.
  - eexists. split; [done|].
    unfold access_ok, captcha_ok; simpl; rewrite Htok, bool_decide_true by lia; done.
Qed.

Lemma _refresh_captcha_token_granted w :
  ∃ w', _refresh_captcha_token now w = (Ret true, w')
    ∧ captcha_ok now (self w') = true
    ∧ access_ok now (self w') = access_ok now (self w)
    ∧ _refresh_token (self w') = _refresh_token (self w)
    ∧ http_log w' = (http_log w ++ [captcha_request (self w)])%list.
Proof.
  destruct Hgrants as [_ Hc].
  destruct (Hc (captcha_request (self w))) as (d & tok & Hh & Hd & Htok & Hexp); [done|].
  unfold _refresh_captcha_token, bindM at 1. unfold get_self at 1. simpl.
  unfold try_return, bindM, send. rewrite Hh. simpl. rewrite Hd.
  unfold set_self, ret. simpl.
  eexists. split; [done|].
  unfold access_ok, captcha_ok; simpl; rewrite Htok, bool_decide_true by lia; done.
Qed.

Lemma xunlei_calls_token log a :
  xunlei_token_calls (log ++ [token_request a]) = S (xunlei_token_calls log)
  ∧ xunlei_captcha_calls (log ++ [token_request a]) = xunlei_captcha_calls log.
Proof.
  unfold xunlei_token_calls, xunlei_captcha_calls.
  rewrite !filter_app, !length_app. split.
  - rewrite (filter_cons_True _ (token_request a)) by done. simpl. lia.
  - rewrite (filter_cons_False _ (token_request a)) by done. simpl. lia.
Qed.

Lemma xunlei_calls_captcha log a :
  xunlei_token_calls (log ++ [captcha_request a]) = xunlei_token_calls log
  ∧ xunlei_captcha_calls (log ++ [captcha_request a]) = S (xunlei_captcha_calls log).
Proof.
  unfold xunlei_token_calls, xunlei_captcha_calls.
  rewrite !filter_app, !length_app. split.
  - rewrite (filter_cons_False _ (captcha_request a)) by done. simpl. lia.
  - rewrite (filter_cons_True _ (captcha_request a)) by done. simpl. lia.
Qed.

Lemma xunlei_step_inv w0 i c :
  xunlei_inv now w0 c → xunlei_inv now w0 (step (xunlei_next now) i c).
Proof.
  intros Hinv. pose proof Hinv as (Hlock & Htok & Hcap & Hpc).
  unfold step. destruct (threads c !! i) as [pc|] eqn:Hi; [|done].
  pose proof (Hpc i pc Hi) as Hme.
  pose proof (Hlock i pc Hi) as Hmine.
  assert (Hother : ∀ j pc', i ≠ j → threads c !! j = Some pc' →
            xunlei_holds_lock pc = true → xunlei_holds_lock pc' = false).
  { intros j pc' Hne Hj Hpc'. destruct (xunlei_holds_lock pc') eqn:Hl; [|done].
    specialize (Hlock j pc' Hj Hl). specialize (Hmine Hpc'). congruence. }
  destruct pc as [| | |a k|k|r]; simpl.
  - destruct (access_ok now _ && captcha_ok now _) eqn:Hok; simpl.
    + apply andb_true_iff in Hok as [Ha Hk].
      split_and!; [|done|done|]; simpl; others_with Hlock Hpc; done.
    + split_and!; [|done|done|]; simpl; others_with Hlock Hpc; done.
  - destruct (token_lock c) as [holder|] eqn:Hl; [exact Hinv|].
    split_and!; [|done|done|]; simpl; others_with Hlock Hpc; [done| |done].
    intros Hh. specialize (Hlock j pc' Hj Hh). congruence.
  - split_and!; [|done|done|]; simpl; others_with Hlock Hpc; [by apply Hmine|done].
  - destruct Hme as [-> ->].
    destruct (access_ok now (self (shared c))) eqn:Ha; simpl.
    + split_and!; simpl; rewrite ?Ha; [|done|done|]; others_with Hlock Hpc;
        [by apply Hmine|done].
    + destruct Htok as [(Hn & _ & Hrt)|(_ & ?)]; [|congruence].
      destruct (_refresh_access_token_granted _ Hrt) as (w' & -> & Ha' & Hk' & Hlog).
      destruct (xunlei_calls_token (http_log (shared c)) (self (shared c))) as [Ht Hc].
      split_and!; simpl; rewrite ?Ha.
      * others_with Hlock Hpc. by apply Hmine.
      * right. rewrite Hlog, Ht, Hn. done.
      * rewrite Hlog, Hc, Hk'. done.
      * intros j pc' [(-> & <- & _)|(Hne & Hj)]%list_lookup_insert_Some.
        { by rewrite Hk'. }
        specialize (Hother j pc' Hne Hj eq_refl). specialize (Hpc j pc' Hj).
        destruct pc'; try done. destruct Hpc as (_ & ? & _). congruence.
  - destruct Hme as [Ha ->].
    destruct (captcha_ok now (self (shared c))) eqn:Hk; simpl.
    + split_and!; simpl; rewrite ?Hk; [|done|done|]; others_with Hlock Hpc;
        [done| |done].
      intros Hh. specialize (Hother j pc' Hne Hj eq_refl). congruence.
    + destruct (_refresh_captcha_token_granted (shared c))
        as (w' & -> & Hk' & Ha' & Hrt' & Hlog).
      destruct (xunlei_calls_captcha (http_log (shared c)) (self (shared c))) as [Ht Hc].
      split_and!; simpl; rewrite ?Hk.
      * others_with Hlock Hpc; [done|].
        intros Hh. specialize (Hother j pc' Hne Hj eq_refl). congruence.
      * rewrite Hlog, Ht, Ha', Hrt'. done.
      * right. rewrite Hlog, Hc.
        destruct Hcap as [[Hn He]|(_ & ? & _)]; [|congruence].
        split; [by rewrite Hn|]. split; [done|congruence].
      * intros j pc' [(-> & <- & _)|(Hne & Hj)]%list_lookup_insert_Some.
        { by rewrite Ha'. }
        specialize (Hother j pc' Hne Hj eq_refl). specialize (Hpc j pc' Hj).
        destruct pc'; try done. destruct Hpc as (_ & _ & ?). congruence.
  - done.
Qed.

(** A caller that runs alone does what [_ensure_tokens_valid] does. *)
Lemma xunlei_single_caller w :
  ∃ r w', _ensure_tokens_valid now w = (Ret r, w')
    ∧ run (xunlei_next now) [0; 0; 0; 0; 0]%nat (xunlei_callers 1 w)
      = Config w' None [XReturned r].
Proof.
  unfold _ensure_tokens_valid, bindM, get_self, ret, xunlei_callers. cbn [replicate].
  take_step. cbn [xunlei_next].
  destruct (access_ok now (self w) && captcha_ok now (self w)).
  { by eexists _, _. }
  do 3 (take_step; cbn [xunlei_next]).
  destruct (access_ok now (self w)); cbn [negb].
  - take_step. cbn [xunlei_next].
    destruct (captcha_ok now (self w)); cbn [negb]; [by eexists _, _|].
    destruct (_refresh_captcha_token_returns now w) as (r & w' & ->).
    destruct r; by eexists _, _.
  - destruct (_refresh_access_token_returns now w) as (r & w' & ->).
    destruct r; cbn [negb]; [|by eexists _, _].
    take_step. cbn [xunlei_next].
    destruct (captcha_ok now (self w)); cbn [negb]; [by eexists _, _|].
    destruct (_refresh_captcha_token_returns now w') as (r & w'' & ->).
    destruct r; by eexists _, _.
Qed.

Lemma xunlei_inv_callers n w :
  access_ok now (self w) = false →
  truthy (_refresh_token (self w)) = true →
  xunlei_inv now w (xunlei_callers n w).
Proof.
  intros Ha Hrt. split_and!; simpl.
  - by intros j pc [-> _]%lookup_replicate.
  - by left.
  - by left.
  - by intros j pc [-> _]%lookup_replicate.
Qed.

(** Callers of [_ensure_tokens_valid] on an adapter whose access token is
    expired, under a provider that grants the refreshes: under every
    schedule at most one token request is sent, and once all callers have
    returned exactly one was sent, at most one captcha request with it, and
    every caller returned [True]. *)
Lemma xunlei_concurrent_callers_refresh_once n schedule w :
  access_ok now (self w) = false →
  truthy (_refresh_token (self w)) = true →
  let c := run (xunlei_next now) schedule (xunlei_callers n w) in
  (xunlei_token_calls (http_log (shared c)) ≤ xunlei_token_calls (http_log w) + 1)%nat
  ∧ (Forall (λ pc, ∃ r, pc = XReturned r) (threads c) → (0 < n)%nat →
       xunlei_token_calls (http_log (shared c))
       = (xunlei_token_calls (http_log w) + 1)%nat
       ∧ xunlei_captcha_calls (http_log (shared c))
         = (xunlei_captcha_calls (http_log w)
            + (if captcha_ok now (self w) then 0 else 1))%nat
       ∧ threads c = replicate n (XReturned true)).
Proof.
  intros Ha Hrt c.
  assert (Hinv : xunlei_inv now w c).
  { apply run_invariant; [intros; by apply xunlei_step_inv|].
    by apply xunlei_inv_callers. }
  assert (Hlen : length (threads c) = n).
  { unfold c. rewrite run_length. simpl. apply length_replicate. }
  destruct Hinv as (_ & Htok & Hcap & Hpc).
  split; [destruct Htok as [[-> _]|[-> _]]; lia|].
  intros Hall Hn.
  assert (Hret : ∀ j pc, threads c !! j = Some pc → pc = XReturned true).
  { intros j pc Hj. rewrite Forall_forall in Hall.
    destruct (Hall pc) as [r ->]; [by eapply list_elem_of_lookup_2|].
    by destruct (Hpc _ _ Hj) as [-> _]. }
  destruct (lookup_lt_is_Some_2 (threads c) 0%nat) as [pc Hpc0]; [lia|].
  pose proof (Hret _ _ Hpc0) as ->.
  destruct (Hpc _ _ Hpc0) as (_ & Ha' & Hk').
  split_and!.
  - destruct Htok as [(_ & ? & _)|[-> _]]; [congruence|lia].
  - destruct Hcap as [[-> He]|(-> & _ & ->)]; [|simpl; lia].
    rewrite <-He, Hk'. lia.
  - symmetry. apply replicate_as_Forall. split; [done|].
    apply Forall_lookup. intros j pc Hj. symmetry. by eapply Hret.
Qed.

End XunleiThreads.

Section XunleiProgress.
Import Py Xunlei Threads.
Local Open Scope Z_scope.
Context `{Transport} (now : Z).

Lemma xunlei_next_decreases pc w :
  match xunlei_next now pc w with
  | Goes _ pc' => (xunlei_remaining pc' < xunlei_remaining pc)%nat
                  ∧ xunlei_holds_lock pc' = xunlei_holds_lock pc
  | Acquires pc' => (xunlei_remaining pc' < xunlei_remaining pc)%nat
                    ∧ xunlei_holds_lock pc' = true ∧ xunlei_holds_lock pc = false
  | Releases _ pc' => (xunlei_remaining pc' < xunlei_remaining pc)%nat
                      ∧ xunlei_holds_lock pc' = false ∧ xunlei_holds_lock pc = true
  | Stays => xunlei_returned pc = true
  end.
Proof.
  destruct pc as [| | |a k|k|r]; simpl.
  - destruct (access_ok now _ && captcha_ok now _); simpl; (split; [lia|done]).
  - repeat split; lia.
  - repeat split; lia.
  - destruct a; simpl; [split; [lia|done]|].
    destruct (_refresh_access_token now w) as [[[]|] w']; simpl; repeat split; lia.
  - destruct k; simpl; [repeat split; lia|].
    destruct (_refresh_captcha_token now w) as [[[]|] w']; simpl; repeat split; lia.
  - done.
Qed.

Lemma xunlei_lock_inv_callers n w : xunlei_lock_inv (xunlei_callers n w).
Proof.
  split; simpl.
  - by intros j pc [-> _]%lookup_replicate.
  - done.
Qed.

Lemma xunlei_step_lock_inv i c :
  xunlei_lock_inv c → xunlei_lock_inv (step (xunlei_next now) i c).
Proof.
  intros Hinv. pose proof Hinv as [Hexcl Hheld].
  unfold step. destruct (threads c !! i) as [pc|] eqn:Hi; [|done].
  pose proof (xunlei_next_decreases pc (shared c)) as Hn.
  destruct (xunlei_next now pc (shared c)) as [w' pc'|pc'|w' pc'|]; [| | |done].
  - destruct Hn as [_ Hl]. split; simpl.
    + intros j pc0 [(-> & <- & _)|(Hne & Hj)]%list_lookup_insert_Some Hh; [|by eauto].
      apply (Hexcl _ _ Hi). by rewrite <-Hl.
    + intros j Hj. destruct (Hheld j Hj) as (pc0 & Hpc0 & Hh).
      destruct (decide (i = j)) as [<-|Hne].
      * exists pc'. split; [|by rewrite Hl, <-Hh; congruence].
        apply list_lookup_insert_eq. by eapply lookup_lt_Some.
      * exists pc0. split; [|done]. by rewrite list_lookup_insert_ne.
  - destruct (token_lock c) as [holder|] eqn:Hlock; [done|].
    destruct Hn as (_ & Hl & _). split; simpl.
    + intros j pc0 [(-> & <- & _)|(Hne & Hj)]%list_lookup_insert_Some Hh; [done|].
      specialize (Hexcl _ _ Hj Hh). congruence.
    + intros j [= <-]. exists pc'. split; [|done].
      apply list_lookup_insert_eq. by eapply lookup_lt_Some.
  - destruct Hn as (_ & Hl & Hl0). split; simpl; [|done].
    intros j pc0 [(-> & <- & _)|(Hne & Hj)]%list_lookup_insert_Some Hh; [congruence|].
    pose proof (Hexcl _ _ Hj Hh). pose proof (Hexcl _ _ Hi Hl0). congruence.
Qed.

(** As long as a caller has not returned some thread can move: the
    caller itself, or the holder of the lock it waits for. *)
Lemma xunlei_step_progress c i pc :
  xunlei_lock_inv c →
  threads c !! i = Some pc → xunlei_returned pc = false →
  ∃ j, (sum_list_with xunlei_remaining (threads (step (xunlei_next now) j c))
        < sum_list_with xunlei_remaining (threads c))%nat.
Proof.
  intros [Hexcl Hheld] Hi Hret.
  assert (Hmoves : ∀ j pcj, threads c !! j = Some pcj →
            match xunlei_next now pcj (shared c) with
            | Acquires _ => token_lock c = None
            | Stays => False
            | _ => True
            end →
            (sum_list_with xunlei_remaining (threads (step (xunlei_next now) j c))
             < sum_list_with xunlei_remaining (threads c))%nat).
  { intros j pcj Hj Hen. unfold step. rewrite Hj.
    pose proof (xunlei_next_decreases pcj (shared c)) as Hn.
    destruct (xunlei_next now pcj (shared c)) as [w' pc'|pc'|w' pc'|]; [| | |done].
    - simpl. apply (sum_list_with_insert_lt _ _ _ pcj); [done|apply Hn].
    - rewrite Hen. simpl. apply (sum_list_with_insert_lt _ _ _ pcj); [done|apply Hn].
    - simpl. apply (sum_list_with_insert_lt _ _ _ pcj); [done|apply Hn]. }
  pose proof (xunlei_next_decreases pc (shared c)) as Hn.
  destruct (xunlei_next now pc (shared c)) as [w' pc'|pc'|w' pc'|] eqn:Hnext;
    [| | |congruence].
  - exists i. apply (Hmoves i pc Hi). by rewrite Hnext.
  - destruct (token_lock c) as [holder|] eqn:Hlock.
    + destruct (Hheld holder eq_refl) as (pch & Hh & Hin).
      exists holder. apply (Hmoves holder pch Hh).
      pose proof (xunlei_next_decreases pch (shared c)) as Hnh.
      destruct (xunlei_next now pch (shared c)) as [| | |]; [done| |done|].
      * destruct Hnh as (_ & _ & ?). congruence.
      * by destruct pch.
    + exists i. apply (Hmoves i pc Hi). by rewrite Hnext.
  - exists i. apply (Hmoves i pc Hi). by rewrite Hnext.
Qed.

(** No run of callers is stuck: every configuration the lock and the
    threads agree on has a schedule after which all callers have
    returned. *)
Lemma xunlei_callers_finish c :
  xunlei_lock_inv c →
  ∃ schedule,
    Forall (λ pc, xunlei_returned pc = true) (threads (run (xunlei_next now) schedule c)).
Proof.
  remember (sum_list_with xunlei_remaining (threads c)) as m eqn:Hm.
  revert c Hm. induction (lt_wf m) as [m _ IH]. intros c -> Hinv.
  destruct (decide (Forall (λ pc, xunlei_returned pc = true) (threads c))) as [Hall|Hnot].
  { by exists []. }
  apply not_Forall_Exists in Hnot; [|apply _].
  apply Exists_exists in Hnot as (pc & Hin & Hret).
  apply list_elem_of_lookup in Hin as [i Hi].
  assert (Hret' : xunlei_returned pc = false).
  { simpl in Hret. by destruct (xunlei_returned pc). }
  destruct (xunlei_step_progress c i pc Hinv Hi Hret') as [j Hlt].
  destruct (IH _ Hlt (step (xunlei_next now) j c) eq_refl) as [schedule Hall].
  { by apply xunlei_step_lock_inv. }
  exists (j :: schedule). by rewrite run_cons.
Qed.

(** Callers on an adapter whose access token is expired, under a provider
    that grants the refreshes, can all return, and then one token request
    was sent. *)
Lemma xunlei_callers_finish_refresh_once n w :
  xunlei_grants → (0 < n)%nat →
  access_ok now (self w) = false →
  truthy (_refresh_token (self w)) = true →
  ∃ schedule,
    let c := run (xunlei_next now) schedule (xunlei_callers n w) in
    threads c = replicate n (XReturned true)
    ∧ xunlei_token_calls (http_log (shared c))
      = (xunlei_token_calls (http_log w) + 1)%nat.
Proof.
  intros Hgrants Hn Ha Hrt.
  destruct (xunlei_callers_finish (xunlei_callers n w)) as [schedule Hall];
    [apply xunlei_lock_inv_callers|].
  exists schedule. intros c.
  destruct (xunlei_concurrent_callers_refresh_once now Hgrants n schedule w Ha Hrt)
    as (_ & Hdone).
  destruct Hdone as (Ht & _ & Hth); [|done|by split].
  eapply Forall_impl; [exact Hall|]. intros [] ?; by eauto.
Qed.

End XunleiProgress.

Section AliyunThreads.
Import Py Aliyun Threads.
Local Open Scope Z_scope.
Context `{Transport} (now : Z).

(** A caller that runs alone does what [_ensure_token_valid] does. *)
Lemma aliyun_single_caller w :
  ∃ r w', _ensure_token_valid now w = (Ret r, w')
    ∧ run (aliyun_next now) [0; 0; 0]%nat (aliyun_callers 1 w)
      = Config w' None [AReturned r].
Proof.
  unfold _ensure_token_valid, bindM, get_self, aliyun_callers. cbn [replicate].
  destruct (_do_refresh_token_returns now w) as (r & w' & Hr).
  take_step. cbn [aliyun_next].
  destruct (_token (self w)) as [t|]; [destruct (is_expired now t)|].
  2:{ by eexists _, _. }
  all: take_step; cbn [aliyun_next]; take_step; cbn [aliyun_next]; rewrite Hr;
    cbn [insert list_insert]; by eexists _, _.
Qed.

(** With a refresh token at hand [_do_refresh_token] sends its request,
    whatever the token in place. *)
Lemma _do_refresh_token_sends w :
  truthy (_refresh_token (self w)) = true →
  ∃ r w', _do_refresh_token now w = (Ret r, w')
    ∧ http_log w' = (http_log w ++ [aliyun_token_request (self w)])%list.
Proof.
  intros Hrt. unfold _do_refresh_token, bindM at 1. unfold get_self at 1. simpl.
  rewrite Hrt. simpl. unfold try_return, bindM, send.
  fold (aliyun_token_request (self w)).
  destruct (http (aliyun_token_request (self w))) as [resp|e]; simpl; [|by eexists _, _].
  destruct (json resp) as [d|]; simpl; [|by eexists _, _].
  destruct (d_token d) as [t|]; simpl; [|by eexists _, _].
  unfold set_self, _save_refresh_token, ret. simpl.
  destruct (bool_decide _); simpl; [destruct (saver_installed w)|]; by eexists _, _.
Qed.

Lemma _do_refresh_token_granted w resp d t :
  truthy (_refresh_token (self w)) = true →
  http (aliyun_token_request (self w)) = Ret resp →
  json resp = Some d → d_token d = Some t →
  ∃ w', _do_refresh_token now w = (Ret true, w')
    ∧ _refresh_token (self w') = tj_refresh_token t
    ∧ http_log w' = (http_log w ++ [aliyun_token_request (self w)])%list.
Proof.
  intros Hrt Hh Hj Ht. unfold _do_refresh_token, bindM at 1. unfold get_self at 1. simpl.
  rewrite Hrt. simpl. unfold try_return, bindM, send.
  fold (aliyun_token_request (self w)). rewrite Hh. simpl. rewrite Hj, Ht.
  unfold set_self, _save_refresh_token, ret. simpl.
  destruct (bool_decide _); simpl; [destruct (saver_installed w)|]; by eexists.
Qed.

Lemma aliyun_calls_token log a :
  aliyun_token_calls (log ++ [aliyun_token_request a]) = S (aliyun_token_calls log).
Proof.
  unfold aliyun_token_calls. rewrite filter_app, length_app.
  rewrite (filter_cons_True _ (aliyun_token_request a)) by done. simpl. lia.
Qed.

(** Two callers of [_ensure_token_valid] that both see the expired token
    before either refreshes: the lock makes them refresh one after the
    other, and the second refreshes again. *)
Lemma aliyun_concurrent_callers_refresh_each w resp d t :
  aliyun_expired now w →
  truthy (_refresh_token (self w)) = true →
  http (aliyun_token_request (self w)) = Ret resp →
  json resp = Some d → d_token d = Some t →
  truthy (tj_refresh_token t) = true →
  let c := run (aliyun_next now) [0; 1; 0; 0; 1; 1]%nat (aliyun_callers 2 w) in
  (∃ r, threads c = [AReturned true; AReturned r])
  ∧ token_lock c = None
  ∧ aliyun_token_calls (http_log (shared c)) = (aliyun_token_calls (http_log w) + 2)%nat.
Proof.
  intros Hexp Hrt Hh Hj Ht Hrt' c.
  destruct (_do_refresh_token_granted w resp d t Hrt Hh Hj Ht) as (w1 & Hr1 & Hrt1 & Hl1).
  destruct (_do_refresh_token_sends w1) as (r & w2 & Hr2 & Hl2); [by rewrite Hrt1|].
  assert (Hstart : aliyun_next now AStart w = Goes w AAcquire).
  { unfold aliyun_next. unfold aliyun_expired in Hexp.
    destruct (_token (self w)) as [tok|]; [by rewrite Hexp|done]. }
  assert (Hc : c = Config w2 None [AReturned true; AReturned r]).
  { unfold c, run, aliyun_callers. cbn [foldl replicate].
    unfold step at 6. cbn [threads shared token_lock lookup list_lookup]. rewrite Hstart.
    cbn [insert list_insert threads shared token_lock].
    unfold step at 5. cbn [threads shared token_lock lookup list_lookup]. rewrite Hstart.
    cbn [insert list_insert threads shared token_lock].
    unfold step at 4. cbn [threads shared token_lock lookup list_lookup aliyun_next].
    cbn [insert list_insert threads shared token_lock].
    unfold step at 3. cbn [threads shared token_lock lookup list_lookup aliyun_next].
    rewrite Hr1. cbn [insert list_insert threads shared token_lock].
    unfold step at 2. cbn [threads shared token_lock lookup list_lookup aliyun_next].
    cbn [insert list_insert threads shared token_lock].
    unfold step at 1. cbn [threads shared token_lock lookup list_lookup aliyun_next].
    rewrite Hr2. cbn [insert list_insert threads shared token_lock]. done. }
  rewrite Hc. simpl. split; [by exists r|]. split; [done|].
  rewrite Hl2, Hl1, !aliyun_calls_token. lia.
Qed.

End AliyunThreads.

Lemma granting_xunlei_grants : @Threads.xunlei_grants Samples.granting_xunlei.
Proof.
  split; intros req Hurl; unfold Xunlei.http, Samples.granting_xunlei; rewrite Hurl.
  - eexists _, _. rewrite decide_True by done. done.
  - eexists _, _. rewrite decide_False by done. done.
Qed.

(** Two callers on the sample Xunlei adapter, the second checking while the
    first holds the lock: one token request and one captcha request. *)
Lemma xunlei_concurrent_callers_example :
  let c := Threads.run (@Threads.xunlei_next Samples.granting_xunlei 0)
             [0; 1; 0; 1; 0; 0; 0; 1; 1; 1; 1]%nat
             (Threads.xunlei_callers 2 Samples.expired_xunlei) in
  Threads.threads c = [Threads.XReturned true; Threads.XReturned true]
  ∧ Threads.xunlei_token_calls (Xunlei.http_log (Threads.shared c)) = 1%nat
  ∧ Threads.xunlei_captcha_calls (Xunlei.http_log (Threads.shared c)) = 1%nat.
Proof.
  intros c.
  assert (Hc : Threads.threads c = [Threads.XReturned true; Threads.XReturned true])
    by (vm_compute; reflexivity).
  split; [done|].
  assert (Ha : Xunlei.access_ok 0 (Xunlei.self Samples.expired_xunlei) = false)
    by (vm_compute; reflexivity).
  assert (Hrt : Py.truthy (Xunlei._refresh_token (Xunlei.self Samples.expired_xunlei))
                = true) by (vm_compute; reflexivity).
  destruct (@xunlei_concurrent_callers_refresh_once Samples.granting_xunlei 0
              granting_xunlei_grants 2 [0; 1; 0; 1; 0; 0; 0; 1; 1; 1; 1]%nat
              Samples.expired_xunlei Ha Hrt) as (_ & Hall).
  fold c in Hall. rewrite Hc in Hall.
  destruct Hall as (Ht & Hk & _); [by repeat constructor; eexists|lia|].
  rewrite Ht, Hk. split; vm_compute; reflexivity.
Qed.

(** C9.  The code at the input on which the claim fails: two callers of
    Aliyun's [_ensure_token_valid] on an adapter without a valid token, each
    checking the token before either refreshes.  Both return [True], and
    two refresh requests were sent: [_do_refresh_token] takes the lock and
    refreshes without looking at the token again. *)
Theorem aliyun_concurrent_callers_refresh_twice :
  let c := Threads.run (@Threads.aliyun_next Samples.granting_aliyun 0)
             [0; 1; 0; 0; 1; 1]%nat
             (Threads.aliyun_callers 2 Samples.expired_aliyun) in
  Threads.threads c = [Threads.AReturned true; Threads.AReturned true]
  ∧ Threads.token_lock c = None
  ∧ Threads.aliyun_token_calls (Aliyun.http_log (Threads.shared c)) = 2%nat
  ∧ ¬ @Threads.aliyun_refreshes_once Samples.granting_aliyun 0 Samples.expired_aliyun.
Proof.
  intros c.
  assert (Hc : Threads.threads c = [Threads.AReturned true; Threads.AReturned true])
    by (vm_compute; reflexivity).
  assert (Hn : Threads.aliyun_token_calls (Aliyun.http_log (Threads.shared c)) = 2%nat)
    by (vm_compute; reflexivity).
  split; [done|]. split; [by vm_compute|]. split; [done|].
  intros Hclaim.
  specialize (Hclaim 2%nat [0; 1; 0; 0; 1; 1]%nat). fold c in Hclaim.
  rewrite Hc, Hn in Hclaim.
  assert (Hone : 2%nat = (Threads.aliyun_token_calls
                            (Aliyun.http_log Samples.expired_aliyun) + 1)%nat).
  { apply Hclaim; [by repeat constructor; eexists|lia]. }
  vm_compute in Hone. discriminate Hone.
Qed.
